(* ===== verification/_CoqProject ===== *)
-Q . S2P
Prelude.v
GoStrings.v
GoUrl.v
GoHash.v
GoTime.v
Kube.v
Effects.v
Endpoint.v
Threads.v
Interference.v
Config.v
Lib.v
Client.v
Store.v
Util.v
Builder.v
Mount.v
PodMount.v
PodMountSafety.v
PodMountWait.v
MountInfo.v
Kubelet.v
PodDriver.v
Refs.v
PodDriverSafety.v
Lifecycle.v
History.v
Unmount.v
PodDriverRecover.v
ProcessMount.v
Juicefs.v
JuicefsProps.v
Driver.v
Server.v
Main.v
MainProps.v
DriverProps.v
Races.v
RaceProps.v
Published.v
BuilderProps.v
ConfigProps.v
PodCommand.v
Witnesses.v
RunWitnesses.v
