(* ===== verification/Prelude.v ===== *)
(** * Verification of the JuiceFS CSI driver

    The driver (Go, package tree [src/pkg]) mounts JuiceFS file systems for
    Kubernetes pods.  A CSI request arrives at the controller or the node service;
    the provider turns secrets and volume context into settings, formats or
    authenticates the file system, and mounts it either in its own process or in a
    _mount pod_, one per volume.  The annotations of a mount pod are the references
    of the targets that use it; it is deleted with its last reference.  A reconciler
    polls the kubelet, drops the references of pods that are gone, and repairs mount
    pods that fail or were deleted together with the mounts of their clients.  This
    library models these parts and states what makes them correct.

    ** The model

    Pure Go functions are functions.  A function that talks to its environment is a
    [prog] ([Effects]): a finite tree of requests ([eff]: API server, files, mount
    calls, processes, clock, mutexes) that branches on the answers.  A theorem about
    [run h t w] holds for every handler [h], that is for every behaviour of the
    environment: concurrent writers, stale reads, failing calls, late work of a
    goroutine.  [Panicked] is a Go panic; deferred unlocks run then too.  [exec]
    drops the trace of requests.  A loop "for i := 0; i < n" is [for_n n] with the
    [n] of the code, so every program ends; the two loops without such a bound take
    fuel: [umount_all] ([JfsUnmount_terminates] says how much is enough) and
    [doReconcile], which the code never leaves (its theorems hold for every number
    of turns).  [Split] takes as fuel the length of its input, [ParseDuration] too.
    [range] over a map asks the environment for the order of the keys.

    Go integers that can overflow are kept at their width: the FNV hash and the
    conversion to [int] of [GetPodLock], [time.Duration] in [ParseDuration] and in the
    kubelet's timeout, [strconv.Atoi].  A Go string is a byte string.

    Goroutines are a pool of programs over one environment ([Threads]): a step is one
    request of one of them, a mutex is taken only while nobody holds it, and others
    (users, kubelets, controllers) change the environment in between.

    ** Files, and the code each one models

    - [Prelude]: notations, tactics, hint databases, lemmas on strings and lists.
    - [GoStrings], [GoUrl], [GoHash], [GoTime]: the functions of Go's standard library
      the driver calls ([strings], [filepath], [strconv]; [net/url]; [sha256], [fnv];
      [time]).
    - [Kube]: the fields of Kubernetes objects the driver handles; errors.
    - [Effects]: requests, programs, runs; the logics for them: [wp] (what a program
      has asked for when it ends, or before each request: [at_each]), [avoids] (no
      request of a class), [one_lock] (mutexes are taken one at a time and released)
      and [asks] (what every request satisfies while the answers are faithful).
    - [Endpoint]: ParseEndpoint of pkg/util/util.go.
    - [Threads]: pools of goroutines: reachable states, mutual exclusion, progress;
      [safe], what a thread asks for given what it has seen.  [Interference]: what a
      goroutine ensures while it relies on the others ([ensures], rely and guarantee),
      and the step from goroutines to every schedule of a pool ([pool_secure]).
    - [Lib]: the functions of third-party packages, as a class with the laws used.
    - [Config]: pkg/config (config.go, setting.go); its theorems in [ConfigProps].
    - [Client]: pkg/juicefs/k8sclient/client.go.
    - [Store]: the interfaces [PodStore], an API server as its clients see it
      (versions, conflicts, finalizers), and [PromptStore], one that answers every
      request it can; an instance of both in memory.
    - [Util]: pkg/util (util.go, pod.go, job.go).
    - [Builder]: pkg/juicefs/mount/builder; its theorems in [BuilderProps].
    - [Mount]: the interface MntInterface of pkg/juicefs/mount/interface.go as a
      record of operations, and [MntLaws], the laws its clients rely on; [PodMount]
      and [ProcessMount] are instances.
    - [PodMount]: pkg/juicefs/mount/pod_mount.go.  [PodMountSafety]: what it deletes
      and records, whatever the API server answers.  [PodMountWait]: how long it
      waits, where it panics, its mutexes.
    - [ProcessMount]: pkg/juicefs/mount/process_mount.go.
    - [MountInfo]: pkg/controller/mountinfo.go, the reconciler's mount table.
    - [Kubelet]: pkg/controller/kubelet_client.go.
    - [PodDriver]: pkg/controller/pod_driver.go and reconciler.go.
      [PodDriverSafety]: checkAnnotations and podErrorHandler.  [PodDriverRecover]:
      podDeletedHandler, recoverTarget and the reconciler.
    - [Refs]: the abstract state of a mount pod (gone, being deleted, or live, with
      its annotations) and the refinement theorems of the operations of [PodMount].
      [Lifecycle]: those of the reconciler's [Run].  [History]: any sequence of mounts
      and unmounts of a node.  [Unmount]: JUmount in every state of the
      mount pod, with or without a delayed deletion.
    - [Juicefs]: pkg/juicefs/juicefs.go; its theorems in [JuicefsProps].  [PodCommand]:
      the command a pod formats or authenticates with, under a shell's expansion.
    - [Driver]: the requests of pkg/driver/controller.go and node.go that do
      something; their theorems in [DriverProps].  [Server]: the rest of these files,
      driver.go, identity.go and version.go.
    - [Main]: cmd/main.go; its theorems in [MainProps].
    - [Races]: threads that write a pod only under its mutex know its annotations.
      [RaceProps]: the driver's goroutines are such threads.
    - [Published]: the goroutines of the node service over an API server that may fail
      ([PodWriter]) and the mount points of a node ([MountHost]).
    - [Witnesses], [RunWitnesses]: the theorems with hypotheses, applied to concrete
      inputs and runs.

    A definition carries the name of the Go function; a block of a long function
    that has a meaning of its own is a definition with a name of ours.

    ** What the theorems show

    - The node as a whole: in every schedule of its requests and whatever fails or
      panics, a target that is mounted is a reference of a live mount pod
      ([mounted_targets_referenced]), and its answers are true ([node_answers_true]).
      In process, the volume is unmounted with its last target and not before
      ([process_JUmount_references]).
    - References: adding, creating and removing a reference, and the reconciler's
      check, refine operations on the annotations of a pod that lives as long as it
      has a reference ([Refs], [Lifecycle]); any history of mounts and unmounts
      refines the history of the abstract state ([node_history_refines]).
    - Deletion: only after a read of the pod without references and past its
      deadline, under any interference ([JUmount_deletes_unreferenced],
      [checkAnnotations_safe]); with goroutines side by side, only when the API server
      holds no reference ([csi_deletes_unreferenced]).  The reconciler decides on the
      kubelet's report and not on a read: [checkAnnotations_stale_view] and
      [check_retry_old_table] show the reference that is lost when it is old.
    - Recovery: a failed or deleted mount pod is created anew only once it is gone,
      and as it was ([podErrorHandler_recreates], [podDeletedHandler_recreates]);
      [Run] brings a deleted pod back or lets it go ([Run_restores]); the repair of a
      target leaves its layers balanced ([recoverTarget_layers]); the mount table and
      the paths of targets are read right ([MountInfo], [Util]).
    - CSI operations: outcome and effects on every branch of publishing and creating
      a volume ([DriverProps]), paths and loops of the provider ([JuicefsProps]).
    - Concurrency: every operation takes mutexes one at a time and releases them on
      every way out ([csi_operations_mutexes], [doReconcile_mutexes]); so the
      goroutines never block each other for good ([driver_threads_finish]).
    - Start: the configuration [init] leaves ([init_well_formed]), the exit status
      ([main_exits_zero]), the socket ([ParseEndpoint_removes_socket]), the services
      registered before the server serves ([Serve_registers]), the kubelet's client
      ([newKubeletClient_timeout], [newKubeletClient_unverified]).
    - Secrets: commands and pods do not depend on the values that must be hidden, and
      with the pod's secret the command is the one the driver would have run
      ([pod_runs_driver_command]); [spelling_matters] shows where it is not.
    - Some theorems state what the code does where it is not what it means to do:
      [createOrAddRef_create_fails], [waitUtilJobCompleted_no_pods],
      [podErrorHandler_wait], [parsePodResources_leaks], [init_config_mounted_twice],
      [cache_volumes_collide], [spelling_matters],
      [GetPodLock_platforms], [CreateVolume_failed_validates], [JfsCreateVol_mounts],
      [ShouldDelay_deadline], [checkAnnotations_stale_view], [check_retry_old_table],
      [doReconcile_null_pods], [main_exits_zero], [version_needs_pod], [init_paths].

    ** Simplifications

    Log output is dropped.  [doWithinTime] is modelled as a race of the goroutine
    with its timer, in which late work either happens before the caller goes on or
    not at all ([race]).  White space is ASCII, and so are the strings printed as
    JSON.  Error texts that no code compares are kept where they are built from
    constants.  Clients, transports and listeners are handles.  In a pool
    [csi_deletes_unreferenced] runs the CSI requests next to [checkAnnotations] and
    [podErrorHandler]; podDeletedHandler, which takes the finalizer off the deleted
    pod without the mutex, is not one of its threads.  [mounted_targets_referenced]
    runs the node's requests only, each target served by one goroutine (the kubelet
    has one request at a time for a target).  The map of volumes of the controller is
    an argument and a result: in a pool each CreateVolume and DeleteVolume has its own,
    for they write the shared one without a mutex, which ends a Go process.  What the
    server answers while it runs is the pools' matter: [Serve] asks the gRPC library to
    serve as one request.

    ** Not modelled

    The gRPC library: routing, encoding, cancellation.  The parsing of the command
    line: the parsed flags are an argument.  Fakes and mocks.  Third-party code is a
    parameter ([Lib]) or the environment; the laws of an API server that keeps what
    was written appear as the interfaces of [Store] and as [PodServer] and
    [PodWriter] of [Races], which [memory] implements, those of a node's mount points
    as [MountHost] of [Published], a shell's expansion of variables as [Shell] of
    [PodCommand]. *)

From Stdlib Require Export ZArith Lia.
From Stdlib Require Ascii String.
From stdpp Require Export prelude strings gmap numbers.
From stdpp Require Export list_basics list_relations list_monad list_misc list.
Abbreviation ascii := Ascii.ascii.
Export Ascii.AsciiSyntax.
Delimit Scope char_scope with char.
Bind Scope char_scope with Ascii.ascii.

(** ** Hint database, tactics *)

Create HintDb jfs.
Create Rewrite HintDb jfs.

(** Case analysis on every [match] of the goal, closing what computes. *)
Ltac split_matches :=
  repeat (case_match; simplify_eq/=; try done).

(** [lia] with division and modulo by constants. *)
Ltac zlia := Z.to_euclidean_division_equations; lia.

(** Split the conjunctions and existentials of the context. *)
Ltac breakdown := repeat match goal with
  | H : _ ∧ _ |- _ => destruct H
  | H : ∃ _, _ |- _ => destruct H
  | H : _ && _ = true |- _ => apply andb_true_iff in H
  | H : bool_decide _ = true |- _ => apply bool_decide_eq_true in H
  | H : bool_decide _ = false |- _ => apply bool_decide_eq_false in H
  end.

(** ** Strings: append and length *)

Lemma string_app_nil_r (s : string) : s +:+ "" = s.
Proof. induction s as [|a s IH]; [done|]. change (String a (s +:+ "") = String a s). by rewrite IH. Qed.

Lemma string_app_cons a (s t : string) : String a s +:+ t = String a (s +:+ t).
Proof. done. Qed.

Lemma string_app_nil_l (s : string) : "" +:+ s = s.
Proof. done. Qed.

Lemma string_app_assoc (s t u : string) : (s +:+ t) +:+ u = s +:+ (t +:+ u).
Proof.
  induction s as [|a s IH]; [done|].
  by rewrite !string_app_cons, IH.
Qed.

Lemma string_length_app (s t : string) :
  String.length (s +:+ t) = String.length s + String.length t.
Proof.
  induction s as [|a s IH]; [done|].
  rewrite string_app_cons. simpl. by rewrite IH.
Qed.

Lemma string_length_0 (s : string) : String.length s = 0 → s = "".
Proof. by destruct s. Qed.

#[export] Hint Rewrite string_app_nil_r string_app_nil_l string_app_assoc string_length_app : jfs.

(** Characters of a string. *)
Fixpoint chars (s : string) : list ascii :=
  match s with "" => [] | String a s' => a :: chars s' end.

Lemma chars_app s t : chars (s +:+ t) = chars s ++ chars t.
Proof.
  induction s as [|a s IH]; [done|].
  rewrite string_app_cons. simpl. by rewrite IH.
Qed.

(** A string all of whose characters satisfy [P]; [no_char c s]: [c] does not occur. *)
Definition all_chars (P : ascii → bool) (s : string) : bool := forallb P (chars s).

Definition no_char (c : ascii) (s : string) : bool :=
  all_chars (λ a, negb (Ascii.eqb a c)) s.

Lemma all_chars_cons P a s : all_chars P (String a s) = P a && all_chars P s.
Proof. done. Qed.

Lemma all_chars_app P s t : all_chars P (s +:+ t) = all_chars P s && all_chars P t.
Proof. unfold all_chars. by rewrite chars_app, forallb_app. Qed.

Lemma no_char_cons c a s :
  no_char c (String a s) = true ↔ a ≠ c ∧ no_char c s = true.
Proof.
  unfold no_char. rewrite all_chars_cons, andb_true_iff, negb_true_iff, Ascii.eqb_neq. done.
Qed.

Lemma no_char_app c s t :
  no_char c (s +:+ t) = true ↔ no_char c s = true ∧ no_char c t = true.
Proof. unfold no_char. by rewrite all_chars_app, andb_true_iff. Qed.

Lemma all_chars_mono (P Q : ascii → bool) s :
  (∀ a, P a = true → Q a = true) → all_chars P s = true → all_chars Q s = true.
Proof.
  intros HPQ. unfold all_chars. rewrite !forallb_forall. eauto.
Qed.
