(* ===== verification/GoStrings.v ===== *)
(** * Go's [strings], [strconv] and [path/filepath] on byte strings

    The functions of Go's standard library that the driver calls, over
    [string] (a Go string is a byte sequence).  [None] stands for the index -1
    and for a parse error.  [Fields] and [TrimSpace] know the ASCII white space
    only. *)

From S2P Require Import Prelude.

(** ** Prefixes, suffixes, searching *)

Fixpoint strip_prefix (p s : string) : option string :=
  match p, s with
  | "", _ => Some s
  | String a p', String b s' => if Ascii.eqb a b then strip_prefix p' s' else None
  | String _ _, "" => None
  end.

Fixpoint strip_suffix (p s : string) : option string :=
  if String.eqb s p then Some ""
  else match s with
       | "" => None
       | String a s' => String a <$> strip_suffix p s'
       end.

Definition HasPrefix (s p : string) : bool :=
  match strip_prefix p s with Some _ => true | None => false end.

Definition TrimPrefix (s p : string) : string := default s (strip_prefix p s).
Definition TrimSuffix (s p : string) : string := default s (strip_suffix p s).

(** The first occurrence of [sep]: the text before it and the text after it. *)
Fixpoint cut (sep s : string) : option (string * string) :=
  match strip_prefix sep s with
  | Some r => Some ("", r)
  | None => match s with
            | "" => None
            | String a s' => '(b, r) ← cut sep s'; Some (String a b, r)
            end
  end.

Fixpoint Index (s sub : string) : option nat :=
  if HasPrefix s sub then Some 0
  else match s with
       | "" => None
       | String _ s' => S <$> Index s' sub
       end.

Fixpoint LastIndex (s sub : string) : option nat :=
  match s with
  | "" => if String.eqb sub "" then Some 0 else None
  | String _ s' => match LastIndex s' sub with
                   | Some n => Some (S n)
                   | None => if HasPrefix s sub then Some 0 else None
                   end
  end.

Definition Contains (s sub : string) : bool :=
  match Index s sub with Some _ => true | None => false end.

(** [s[:n]] and [s[n:]] for [n] within the string. *)
Fixpoint take_str (n : nat) (s : string) : string :=
  match n, s with
  | S n', String a s' => String a (take_str n' s')
  | _, _ => ""
  end.

Fixpoint drop_str (n : nat) (s : string) : string :=
  match n, s with
  | S n', String _ s' => drop_str n' s'
  | _, _ => s
  end.

(** ** Splitting and joining *)

(** One [cut] per step; a non-empty separator consumes a byte each time, so the
    length of the string is fuel enough ([Split_cut]). *)
Fixpoint Split_fuel (fuel : nat) (sep s : string) : list string :=
  match fuel with
  | 0 => [s]
  | S n => match cut sep s with
           | None => [s]
           | Some (b, r) => b :: Split_fuel n sep r
           end
  end.

Definition Split (s sep : string) : list string :=
  Split_fuel (String.length s) sep s.

Fixpoint Join (l : list string) (sep : string) : string :=
  match l with
  | [] => ""
  | [x] => x
  | x :: l' => x +:+ sep +:+ Join l' sep
  end.

Definition ReplaceAll (s old new : string) : string := Join (Split s old) new.

Definition is_space (a : ascii) : bool :=
  match a with
  | "009" | "010" | "011" | "012" | "013" | " " => true
  | _ => false
  end%char.

Fixpoint Fields_go (s : string) : string * list string :=
  match s with
  | "" => ("", [])
  | String a s' =>
      let '(w, ws) := Fields_go s' in
      if is_space a then ("", if String.eqb w "" then ws else w :: ws)
      else (String a w, ws)
  end.

Definition Fields (s : string) : list string :=
  let '(w, ws) := Fields_go s in if String.eqb w "" then ws else w :: ws.

(** [strings.Trim] for a predicate on bytes. *)
Fixpoint trim_left (P : ascii → bool) (s : string) : string :=
  match s with
  | String a s' => if P a then trim_left P s' else s
  | "" => ""
  end.

Fixpoint trim_right (P : ascii → bool) (s : string) : string :=
  match s with
  | "" => ""
  | String a s' => match trim_right P s' with
                   | "" => if P a then "" else String a ""
                   | t => String a t
                   end
  end.

Definition trim_bytes (P : ascii → bool) (s : string) : string :=
  trim_right P (trim_left P s).

Definition Trim (s : string) (c : ascii) : string := trim_bytes (λ a, Ascii.eqb a c) s.
Definition TrimSpace (s : string) : string := trim_bytes is_space s.

(** ** Numbers *)

Definition digit_val (a : ascii) : option Z :=
  let n := Ascii.N_of_ascii a in
  if (48 <=? n)%N && (n <=? 57)%N then Some (Z.of_N n - 48)%Z else None.

Definition is_digit (a : ascii) : bool :=
  match digit_val a with Some _ => true | None => false end.

Fixpoint digits_val (acc : Z) (s : string) : option Z :=
  match s with
  | "" => Some acc
  | String a s' => d ← digit_val a; digits_val (10 * acc + d)%Z s'
  end.

Definition int64_min : Z := (-2^63)%Z.
Definition int64_max : Z := (2^63 - 1)%Z.
Definition in_int64 (z : Z) : bool := (int64_min <=? z)%Z && (z <=? int64_max)%Z.

(** The value an operation on [int64] leaves: its low 64 bits. *)
Definition int64_wrap (z : Z) : Z := ((z + 2^63) mod 2^64 - 2^63)%Z.

(** [strconv.Atoi] with the 64-bit [int]. *)
Definition Atoi (s : string) : option Z :=
  let unsigned t := if String.eqb t "" then None else digits_val 0 t in
  z ← match s with
      | String "+" t => unsigned t
      | String "-" t => Z.opp <$> unsigned t
      | _ => unsigned s
      end;
  if in_int64 z then Some z else None.

(** [n] in decimal, left-padded with zeroes to [w] digits: its low [w] digits. *)
Definition digit_char (z : Z) : ascii := Ascii.ascii_of_N (Z.to_N (48 + z)).

Fixpoint pad_digits (w : nat) (z : Z) : string :=
  match w with
  | 0 => ""
  | S w' => pad_digits w' (z / 10)%Z +:+ String (digit_char (z mod 10)) ""
  end.

(** ** [path/filepath] (slash-separated) *)

Definition clean_step (rooted : bool) (stack : list string) (c : string) : list string :=
  if String.eqb c "" || String.eqb c "." then stack
  else if String.eqb c ".." then
    match stack with
    | [] => if rooted then [] else [".."]
    | d :: stack' => if String.eqb d ".." then ".." :: stack else stack'
    end
  else c :: stack.

(** The components of the cleaned path, outermost first. *)
Definition clean_comps (rooted : bool) (p : string) : list string :=
  rev (fold_left (clean_step rooted) (Split p "/") []).

Definition Clean (p : string) : string :=
  let rooted := HasPrefix p "/" in
  let body := Join (clean_comps rooted p) "/" in
  if rooted then "/" +:+ body
  else if String.eqb body "" then "." else body.

(** [filepath.Join]: empty elements are ignored, the result is cleaned. *)
Definition PathJoin (elems : list string) : string :=
  match filter (λ e, e ≠ "") elems with
  | [] => ""
  | l => Clean (Join l "/")
  end.

(** [filepath.Rel base targ]: [None] is the error. *)
Fixpoint rel_comps (b t : list string) : list string * list string :=
  match b, t with
  | x :: b', y :: t' => if String.eqb x y then rel_comps b' t' else (b, t)
  | _, _ => (b, t)
  end.

Definition PathRel (basepath targpath : string) : option string :=
  let base := Clean basepath in
  let targ := Clean targpath in
  if String.eqb targ base then Some "."
  else if negb (Bool.eqb (HasPrefix base "/") (HasPrefix targ "/")) then None
  else
    let comps p := filter (λ c, c ≠ "" ∧ c ≠ ".") (Split p "/") in
    let '(b, t) := rel_comps (comps base) (comps targ) in
    match b with
    | ".." :: _ => None
    | _ => Some (Join (replicate (length b) ".." ++ t) "/")
    end.

(** [filepath.Base] and [filepath.Dir] of a path. *)
Definition Base (p : string) : string :=
  if String.eqb p "" then "."
  else match reverse (filter (λ c, c ≠ "") (Split p "/")) with
       | [] => "/"
       | c :: _ => c
       end.

Definition Dir (p : string) : string :=
  match LastIndex p "/" with
  | None => "."
  | Some i => Clean (take_str (S i) p)
  end.

(** ** Lemmas: prefixes and [cut] *)

Lemma strip_prefix_app p s : strip_prefix p (p +:+ s) = Some s.
Proof.
  induction p as [|a p IH]; [done|].
  rewrite string_app_cons. simpl. by rewrite Ascii.eqb_refl.
Qed.

Lemma strip_prefix_Some p s r : strip_prefix p s = Some r ↔ s = p +:+ r.
Proof.
  split; [|intros ->; apply strip_prefix_app].
  revert s. induction p as [|a p IH]; intros s; simpl; [by intros [= ->]|].
  destruct s as [|b s]; [done|].
  destruct (Ascii.eqb_spec a b) as [->|]; [|done].
  intros ->%IH. done.
Qed.

Lemma HasPrefix_true s p : HasPrefix s p = true ↔ ∃ r, s = p +:+ r.
Proof.
  unfold HasPrefix. destruct (strip_prefix p s) as [r|] eqn:E.
  - apply strip_prefix_Some in E. naive_solver.
  - split; [done|]. intros [r ->]. by rewrite strip_prefix_app in E.
Qed.

Lemma HasPrefix_app p s : HasPrefix (p +:+ s) p = true.
Proof. apply HasPrefix_true. by exists s. Qed.

Lemma TrimPrefix_app p s : TrimPrefix (p +:+ s) p = s.
Proof. unfold TrimPrefix. by rewrite strip_prefix_app. Qed.

Lemma cut_unfold sep s :
  cut sep s =
  match strip_prefix sep s with
  | Some r => Some ("", r)
  | None => match s with
            | "" => None
            | String a s' => '(b, r) ← cut sep s'; Some (String a b, r)
            end
  end.
Proof. by destruct s. Qed.

Lemma cut_Some sep s b r : cut sep s = Some (b, r) → s = b +:+ sep +:+ r.
Proof.
  revert b. induction s as [|a s IH]; intros b; rewrite cut_unfold;
    (destruct (strip_prefix sep _) as [r'|] eqn:E;
     [apply strip_prefix_Some in E; intros [= <- <-]; done|]); [done|].
  destruct (cut sep s) as [[b' r']|] eqn:Ec; [|done]; simpl.
  intros [= <- <-]. rewrite string_app_cons. f_equal. by apply IH.
Qed.

Lemma cut_shorter sep s b r :
  sep ≠ "" → cut sep s = Some (b, r) → String.length r < String.length s.
Proof.
  intros Hsep ->%cut_Some. destruct sep as [|a sep]; [done|].
  rewrite !string_length_app. simpl. lia.
Qed.

(** [first_char c]: the text before the first [c] is determined. *)
Lemma first_char_inj c a b r r' :
  no_char c a = true → no_char c b = true →
  a +:+ String c r = b +:+ String c r' → a = b ∧ r = r'.
Proof.
  revert b. induction a as [|x a IH]; intros [|y b]; rewrite ?no_char_cons;
    intros Ha Hb; rewrite ?string_app_nil_l, ?string_app_cons; intros ?; simplify_eq.
  - done.
  - by destruct Hb.
  - by destruct Ha.
  - destruct Ha as [_ Ha], Hb as [_ Hb].
    destruct (IH b Ha Hb) as [-> ->]; done.
Qed.

Lemma cut_char c b r :
  no_char c b = true → cut (String c "") (b +:+ String c r) = Some (b, r).
Proof.
  induction b as [|a b IH]; intros Hb.
  - rewrite cut_unfold. simpl. by rewrite Ascii.eqb_refl.
  - apply no_char_cons in Hb as [Hac Hb].
    rewrite string_app_cons, cut_unfold. simpl.
    destruct (Ascii.eqb_spec c a) as [->|]; [done|]. by rewrite (IH Hb).
Qed.

Lemma cut_char_None c s : no_char c s = true → cut (String c "") s = None.
Proof.
  induction s as [|a s IH]; [done|].
  intros [Hac Hs]%no_char_cons. rewrite cut_unfold. simpl.
  destruct (Ascii.eqb_spec c a) as [->|]; [done|]. by rewrite (IH Hs).
Qed.

(** A separator with a byte [c] that does not occur before the separator. *)
Lemma cut_marked c u v b r :
  no_char c u = true → no_char c b = true →
  cut (u +:+ String c v) (b +:+ (u +:+ String c v) +:+ r) = Some (b, r).
Proof.
  intros Hu. induction b as [|a b IH]; intros Hb.
  - rewrite cut_unfold, string_app_nil_l, strip_prefix_app. done.
  - rewrite string_app_cons, cut_unfold.
    destruct (strip_prefix _ _) as [t|] eqn:E.
    + exfalso. apply strip_prefix_Some in E.
      replace (String a (b +:+ _)) with
        ((String a b +:+ u) +:+ String c (v +:+ r)) in E
        by (rewrite !string_app_assoc, !string_app_cons; done).
      rewrite (string_app_assoc u), (string_app_cons c v) in E.
      apply first_char_inj in E as [E _]; [| by rewrite no_char_app |done].
      apply (f_equal String.length) in E. rewrite string_length_app in E. simpl in E. lia.
    + apply no_char_cons in Hb as [_ Hb]. by rewrite (IH Hb).
Qed.

Lemma cut_marked_None c u v s :
  no_char c s = true → cut (u +:+ String c v) s = None.
Proof.
  intros Hs. destruct (cut _ s) as [[b r]|] eqn:E; [|done].
  apply cut_Some in E. rewrite E, !no_char_app, no_char_cons in Hs.
  by destruct Hs as (_ & (_ & [] & _) & _).
Qed.

(** ** Lemmas: [Split] and [Join] *)

Lemma Split_fuel_enough sep n m s :
  sep ≠ "" → String.length s ≤ n → String.length s ≤ m →
  Split_fuel n sep s = Split_fuel m sep s.
Proof.
  intros Hsep. revert m s.
  assert (cut sep "" = None) as Hnil by by destruct sep.
  induction n as [|n IH]; intros m s Hn Hm.
  - rewrite (string_length_0 s) by lia. destruct m; cbn [Split_fuel]; [done|]. by rewrite Hnil.
  - simpl. destruct (cut sep s) as [[b r]|] eqn:E.
    + pose proof (cut_shorter _ _ _ _ Hsep E).
      destruct m as [|m]; [lia|]. simpl. rewrite E. f_equal. apply IH; lia.
    + destruct m as [|m]; [done|]. simpl. by rewrite E.
Qed.

(** The defining equation of [Split], without fuel. *)
Lemma Split_cut sep s :
  sep ≠ "" →
  Split s sep = match cut sep s with None => [s] | Some (b, r) => b :: Split r sep end.
Proof.
  intros Hsep. unfold Split. destruct (cut sep s) as [[b r]|] eqn:E.
  - pose proof (cut_shorter _ _ _ _ Hsep E).
    destruct (String.length s) as [|n] eqn:Hl; [lia|]. simpl. rewrite E. f_equal.
    apply Split_fuel_enough; [done|lia|lia].
  - destruct (String.length s); simpl; [done|]. by rewrite E.
Qed.

Lemma Split_nonempty sep s : Split s sep ≠ [].
Proof.
  unfold Split. destruct (String.length s); simpl; [done|].
  by destruct (cut sep s) as [[??]|].
Qed.

Lemma Join_cons x l sep : l ≠ [] → Join (x :: l) sep = x +:+ sep +:+ Join l sep.
Proof. by destruct l. Qed.

(** [strings.Join(strings.Split(s, sep), sep) == s]. *)
Lemma Join_Split sep s : sep ≠ "" → Join (Split s sep) sep = s.
Proof.
  intros Hsep. induction s as [s IH] using (induction_ltof1 _ String.length).
  rewrite Split_cut by done. destruct (cut sep s) as [[b r]|] eqn:E; [|done].
  rewrite Join_cons by apply Split_nonempty.
  rewrite IH by (by apply (cut_shorter _ _ _ _ Hsep E)).
  by apply cut_Some in E as ->.
Qed.

Lemma Split_one c s : no_char c s = true → Split s (String c "") = [s].
Proof. intros Hs. rewrite Split_cut by done. by rewrite cut_char_None. Qed.

Lemma Split_char c b r :
  no_char c b = true →
  Split (b +:+ String c r) (String c "") = b :: Split r (String c "").
Proof. intros Hb. rewrite Split_cut by done. by rewrite cut_char. Qed.

(** [strings.Split(strings.Join(l, sep), sep)] gives [l] back when no element
    holds the separator. *)
Lemma Split_Join c l :
  l ≠ [] → Forall (λ x, no_char c x = true) l →
  Split (Join l (String c "")) (String c "") = l.
Proof.
  intros Hne Hl. induction Hl as [|x l Hx Hl IH]; [done|].
  destruct l as [|y l]; [by apply Split_one|].
  rewrite Join_cons by done. rewrite string_app_cons, string_app_nil_l.
  rewrite Split_char by done. by rewrite IH.
Qed.

(** ** Lemmas: [Fields] *)

Definition word (s : string) : bool :=
  negb (String.eqb s "") && all_chars (λ a, negb (is_space a)) s.

Lemma Fields_go_app w s :
  all_chars (λ a, negb (is_space a)) w = true →
  Fields_go (w +:+ s) = (w +:+ (Fields_go s).1, (Fields_go s).2).
Proof.
  induction w as [|a w IH]; intros Hw.
  - rewrite !string_app_nil_l. by destruct (Fields_go s).
  - rewrite all_chars_cons, andb_true_iff, negb_true_iff in Hw. destruct Hw as [Ha Hw].
    rewrite !string_app_cons. simpl. rewrite (IH Hw), Ha. done.
Qed.

Lemma Fields_cons w s :
  word w = true → Fields (w +:+ String " " s) = w :: Fields s.
Proof.
  unfold word. rewrite andb_true_iff, negb_true_iff. intros [Hne Hw].
  unfold Fields. rewrite Fields_go_app by done. simpl.
  destruct (Fields_go s) as [v vs]. simpl.
  rewrite string_app_nil_r, Hne. done.
Qed.

Lemma Fields_word w : word w = true → Fields w = [w].
Proof.
  unfold word. rewrite andb_true_iff, negb_true_iff. intros [Hne Hw].
  unfold Fields. rewrite <- (string_app_nil_r w), Fields_go_app by done. simpl.
  by rewrite string_app_nil_r, Hne.
Qed.

(** ** Lemmas: decimal digits *)

Lemma digit_val_char z : (0 ≤ z < 10)%Z → digit_val (digit_char z) = Some z.
Proof.
  intros Hz. assert (∃ n : nat, n < 10 ∧ z = Z.of_nat n) as (n & Hn & ->).
  { exists (Z.to_nat z). lia. }
  do 10 (destruct n as [|n]; [reflexivity|]). lia.
Qed.

Lemma digits_val_app acc s t :
  digits_val acc (s +:+ t) = v ← digits_val acc s; digits_val v t.
Proof.
  revert acc. induction s as [|a s IH]; intros acc; [done|].
  rewrite string_app_cons. simpl. destruct (digit_val a); [apply IH|done].
Qed.

(** Padding to [w] digits and reading back: the low [w] digits. *)
Lemma digits_val_pad w z acc :
  (0 ≤ z)%Z →
  digits_val acc (pad_digits w z) = Some (acc * 10 ^ Z.of_nat w + z mod 10 ^ Z.of_nat w)%Z.
Proof.
  revert z. induction w as [|w IH]; intros z Hz; simpl pad_digits.
  - simpl. rewrite Z.mod_1_r. f_equal. lia.
  - rewrite digits_val_app, IH by (apply Z.div_pos; lia). simpl.
    pose proof (Z.mod_pos_bound z 10 ltac:(lia)).
    rewrite digit_val_char by lia. simpl. f_equal.
    rewrite Nat2Z.inj_succ, Z.pow_succ_r by lia.
    pose proof (Z.pow_pos_nonneg 10 (Z.of_nat w) ltac:(lia) ltac:(lia)).
    rewrite (Z.rem_mul_r z 10) by lia. lia.
Qed.

Lemma pad_digits_length w z : String.length (pad_digits w z) = w.
Proof.
  revert z. induction w as [|w IH]; intros z; [done|].
  simpl. rewrite string_length_app, IH. simpl. lia.
Qed.

(** ** Lemmas: cleaned paths *)

(** A path component that [Clean] keeps. *)
Definition simple_comp (c : string) : bool :=
  negb (String.eqb c "") && negb (String.eqb c ".") && negb (String.eqb c "..")
  && no_char "/" c.

Lemma simple_comp_no_slash c : simple_comp c = true → no_char "/" c = true.
Proof. unfold simple_comp. rewrite !andb_true_iff. tauto. Qed.

Lemma clean_step_simple b stack c :
  simple_comp c = true → clean_step b stack c = c :: stack.
Proof.
  unfold simple_comp, clean_step. rewrite !andb_true_iff, !negb_true_iff.
  intros [[[-> ->] ->] _]. done.
Qed.

Lemma clean_fold_simple b l stack :
  Forall (λ c, simple_comp c = true) l →
  fold_left (clean_step b) l stack = rev l ++ stack.
Proof.
  intros Hl. revert stack. induction Hl as [|c l Hc Hl IH]; intros stack; [done|].
  simpl. rewrite clean_step_simple, IH by done. by rewrite <- app_assoc.
Qed.

Lemma Clean_rooted l :
  l ≠ [] → Forall (λ c, simple_comp c = true) l →
  Clean ("/" +:+ Join l "/") = "/" +:+ Join l "/".
Proof.
  intros Hne Hl. unfold Clean, clean_comps. rewrite HasPrefix_app.
  change ("/" +:+ Join l "/") with ("" +:+ String "/" (Join l "/")) at 1.
  rewrite Split_char, Split_Join; [| done | | done].
  - simpl. rewrite clean_fold_simple, app_nil_r, List.rev_involutive by done. done.
  - eapply Forall_impl; [exact Hl|]. intros c. apply simple_comp_no_slash.
Qed.

Lemma Join_snoc l x sep : l ≠ [] → Join (l ++ [x]) sep = Join l sep +:+ sep +:+ x.
Proof.
  intros Hne. induction l as [|y l IH]; [done|].
  destruct l as [|z l]; [done|].
  change ((y :: z :: l) ++ [x]) with (y :: ((z :: l) ++ [x])).
  rewrite (Join_cons y ((z :: l) ++ [x])), (Join_cons y (z :: l)), IH by done.
  by rewrite !string_app_assoc.
Qed.

(** Joining a clean absolute directory and one more component. *)
Lemma PathJoin_dir l v :
  l ≠ [] → Forall (λ c, simple_comp c = true) l → simple_comp v = true →
  PathJoin ["/" +:+ Join l "/"; v] = ("/" +:+ Join l "/") +:+ "/" +:+ v.
Proof.
  intros Hne Hl Hv. unfold PathJoin.
  rewrite filter_cons_True, filter_cons_True, filter_nil.
  - cbn [Join]. rewrite string_app_assoc, <- Join_snoc by done.
    rewrite Clean_rooted; [done|by destruct l|].
    apply Forall_app. by repeat constructor.
  - unfold simple_comp in Hv. by intros ->.
  - by destruct l.
Qed.

(** ** Lemmas: [Index] and slices *)

Lemma Index_marked c b v r :
  no_char c b = true → Index (b +:+ String c v +:+ r) (String c v) = Some (String.length b).
Proof.
  induction b as [|a b IH]; intros Hb.
  - rewrite string_app_nil_l. destruct (String c v +:+ r) eqn:E; [done|].
    rewrite <- E. rewrite string_app_cons in *. simpl. unfold HasPrefix.
    rewrite <- string_app_cons, strip_prefix_app. done.
  - apply no_char_cons in Hb as [Hac Hb]. rewrite string_app_cons. simpl.
    unfold HasPrefix. simpl. destruct (Ascii.eqb_spec c a) as [->|]; [done|].
    by rewrite (IH Hb).
Qed.

Lemma Index_char_None c s : no_char c s = true → Index s (String c "") = None.
Proof.
  induction s as [|a s IH]; [done|]. intros [Hac Hs]%no_char_cons.
  simpl. unfold HasPrefix. simpl.
  destruct (Ascii.eqb_spec c a) as [->|]; [done|]. by rewrite (IH Hs).
Qed.

Lemma take_str_app a b : take_str (String.length a) (a +:+ b) = a.
Proof. induction a as [|x a IH]; [done|]. rewrite string_app_cons. simpl. by rewrite IH. Qed.

Lemma drop_str_app a b : drop_str (String.length a) (a +:+ b) = b.
Proof. induction a as [|x a IH]; [done|]. rewrite string_app_cons. simpl. done. Qed.

Lemma take_str_length n s : String.length (take_str n s) = Nat.min n (String.length s).
Proof.
  revert s. induction n as [|n IH]; intros [|a s]; simpl; auto.
Qed.

(** ** Lemmas: lists of words, printed integers *)

Lemma Fields_Join ws :
  Forall (λ w, word w = true) ws → Fields (Join ws " ") = ws.
Proof.
  induction 1 as [|w ws Hw Hws IH]; [done|].
  destruct ws as [|v ws]; [by apply Fields_word|].
  rewrite Join_cons by done. rewrite string_app_cons, string_app_nil_l.
  rewrite Fields_cons by done. by rewrite IH.
Qed.

Lemma Atoi_digits s v :
  s ≠ "" → digits_val 0 s = Some v → in_int64 v = true → Atoi s = Some v.
Proof.
  intros Hs Hd Hv. unfold Atoi.
  assert (String.eqb s "" = false) as He by by apply String.eqb_neq.
  destruct s as [|a s]; [done|].
  assert (∀ b, digit_val b = None → a ≠ b) as Hab.
  { intros b Hb ->. simpl in Hd. by rewrite Hb in Hd. }
  pose proof (Hab "+"%char eq_refl) as Hplus. pose proof (Hab "-"%char eq_refl) as Hminus.
  replace (match String a s with
           | String "+" t => if String.eqb t "" then None else digits_val 0 t
           | String "-" t => Z.opp <$> (if String.eqb t "" then None else digits_val 0 t)
           | _ => if String.eqb (String a s) "" then None else digits_val 0 (String a s)
           end) with (Some v).
  - simpl. by rewrite Hv.
  - rewrite He, Hd. destruct a as [[][][][][][][][]]; done.
Qed.

Lemma pad_digits_chars w z : all_chars is_digit (pad_digits w z) = true.
Proof.
  revert z. induction w as [|w IH]; intros z; [done|].
  simpl. rewrite all_chars_app, IH. unfold all_chars, is_digit. simpl.
  by rewrite digit_val_char by (apply Z.mod_pos_bound; lia).
Qed.

Lemma digits_word s : s ≠ "" → all_chars is_digit s = true → word s = true.
Proof.
  intros Hs Hd. unfold word. rewrite andb_true_iff, negb_true_iff.
  split; [by apply String.eqb_neq|].
  eapply all_chars_mono; [|exact Hd]. intros a. by destruct a as [[][][][][][][][]].
Qed.

Lemma no_char_Join c l sep :
  no_char c sep = true → Forall (λ x, no_char c x = true) l → no_char c (Join l sep) = true.
Proof.
  intros Hsep. induction 1 as [|x l Hx Hl IH]; [done|].
  destruct l as [|y l]; [done|]. rewrite Join_cons by done.
  by rewrite !no_char_app.
Qed.

Lemma word_no_space c w : is_space c = true → word w = true → no_char c w = true.
Proof.
  unfold word. rewrite andb_true_iff. intros Hc [_ Hw].
  eapply all_chars_mono; [|exact Hw]. intros a Ha. rewrite negb_true_iff in *.
  apply Ascii.eqb_neq. intros ->. by rewrite Hc in Ha.
Qed.

(** ** Lemmas: the last separator *)

Lemma LastIndex_None c s : no_char c s = true → LastIndex s (String c "") = None.
Proof.
  induction s as [|a s IH]; [done|]. intros [Hac Hs]%no_char_cons.
  cbn [LastIndex]. rewrite (IH Hs). unfold HasPrefix. simpl.
  by destruct (Ascii.eqb_spec c a) as [->|].
Qed.

Lemma LastIndex_char c b r :
  no_char c r = true →
  LastIndex (b +:+ String c r) (String c "") = Some (String.length b).
Proof.
  intros Hr. induction b as [|a b IH].
  - rewrite string_app_nil_l. cbn [LastIndex]. rewrite LastIndex_None by done.
    unfold HasPrefix. simpl. by rewrite Ascii.eqb_refl.
  - rewrite string_app_cons. cbn [LastIndex]. by rewrite IH.
Qed.

Lemma strip_suffix_app s p : strip_suffix p (s +:+ p) = Some s.
Proof.
  assert (∀ p, strip_suffix p p = Some "") as Hp by
    by intros [|b p']; cbn [strip_suffix]; rewrite String.eqb_refl.
  induction s as [|a s IH]; [apply Hp|].
  rewrite string_app_cons. cbn [strip_suffix].
  destruct (String.eqb_spec (String a (s +:+ p)) p) as [E|_]; [|by rewrite IH].
  apply (f_equal String.length) in E. simpl in E. rewrite string_length_app in E. lia.
Qed.

Lemma TrimSuffix_app s p : TrimSuffix (s +:+ p) p = s.
Proof. unfold TrimSuffix. by rewrite strip_suffix_app. Qed.

Lemma drop_str_S a n s : drop_str (S n) (String a s) = drop_str n s.
Proof. done. Qed.

(** A separator that holds a byte [c] found nowhere else splits in two. *)
Lemma Split_marked c u v b r :
  no_char c u = true → no_char c b = true → no_char c r = true →
  Split (b +:+ (u +:+ String c v) +:+ r) (u +:+ String c v) = [b; r].
Proof.
  intros Hu Hb Hr. assert (u +:+ String c v ≠ "") as Hne by by destruct u.
  rewrite Split_cut, cut_marked, Split_cut, cut_marked_None by done. done.
Qed.

Lemma drop_str_sep c b r : drop_str (S (String.length b)) (b +:+ String c r) = r.
Proof. induction b as [|a b IH]; [by destruct r|]. rewrite string_app_cons. apply IH. Qed.
