(* ===== verification/GoUrl.v ===== *)
(** * net/url: [url.Parse], for the fields the driver reads

    [Scheme], [Host] and [Path] of an URL without a base; the user, the query and the
    fragment only decide whether the URL is an error ([None]). *)

From S2P Require Import Prelude GoStrings.

Definition byte (a : ascii) : nat := Ascii.nat_of_ascii a.

Definition is_upper (a : ascii) : bool := (65 <=? byte a) && (byte a <=? 90).
Definition is_lower (a : ascii) : bool := (97 <=? byte a) && (byte a <=? 122).
Definition is_alnum (a : ascii) : bool := is_upper a || is_lower a || is_digit a.

Definition one_of (s : string) (a : ascii) : bool := existsb (Ascii.eqb a) (chars s).

(** [strings.ToLower] of an ASCII string. *)
Definition lower (a : ascii) : ascii :=
  if is_upper a then Ascii.ascii_of_nat (byte a + 32) else a.

Fixpoint ToLower (s : string) : string :=
  match s with "" => "" | String a s' => String (lower a) (ToLower s') end.

(** ** The scheme *)

Inductive scheme_end := NoScheme | MissingScheme | SchemeAt (i : nat).

(** Where the scheme ends that starts the string; [i] characters were read. *)
Fixpoint scan_scheme (i : nat) (s : string) : scheme_end :=
  match s with
  | "" => NoScheme
  | String a s' =>
      if is_upper a || is_lower a then scan_scheme (S i) s'
      else if is_digit a || one_of "+-." a then
        if i =? 0 then NoScheme else scan_scheme (S i) s'
      else if Ascii.eqb a ":" then if i =? 0 then MissingScheme else SchemeAt i
      else NoScheme
  end.

Definition getscheme (rawurl : string) : option (string * string) :=
  match scan_scheme 0 rawurl with
  | NoScheme => Some ("", rawurl)
  | MissingScheme => None
  | SchemeAt i => Some (take_str i rawurl, drop_str (S i) rawurl)
  end.

(** ** Escapes *)

Inductive encoding := encodeHost | encodeZone | encodeOther.

Definition unhex (a : ascii) : option nat :=
  let n := byte a in
  if (48 <=? n) && (n <=? 57) then Some (n - 48)
  else if (97 <=? n) && (n <=? 102) then Some (n - 87)
  else if (65 <=? n) && (n <=? 70) then Some (n - 55)
  else None.

(** [shouldEscape] in a host or a zone. *)
Definition shouldEscape (a : ascii) : bool :=
  negb (is_alnum a || one_of "!$&'()*+,;=:[]<>-_.~" a || (byte a =? 34)).

(** May the character [v] be written as an escape? *)
Definition escape_allowed (mode : encoding) (v : nat) : bool :=
  match mode with
  | encodeHost => (128 <=? v) || (v =? 37)
  | encodeZone => (v =? 37) || (v =? 32) || negb (shouldEscape (Ascii.ascii_of_nat v))
  | encodeOther => true
  end.

(** May the character stand for itself? *)
Definition plain_allowed (mode : encoding) (a : ascii) : bool :=
  match mode with
  | encodeHost | encodeZone => (128 <=? byte a) || negb (shouldEscape a)
  | encodeOther => true
  end.

Fixpoint unescape (mode : encoding) (s : string) : option string :=
  match s with
  | "" => Some ""
  | String "%" s' =>
      match s' with
      | String a (String b s'') =>
          h ← unhex a;
          l ← unhex b;
          if escape_allowed mode (16 * h + l)
          then String (Ascii.ascii_of_nat (16 * h + l)) <$> unescape mode s''
          else None
      | _ => None
      end
  | String a s' => if plain_allowed mode a then String a <$> unescape mode s' else None
  end.

(** ** The authority *)

Definition validOptionalPort (port : string) : bool :=
  match port with
  | "" => true
  | String ":" digits => all_chars is_digit digits
  | _ => false
  end.

Definition parseHost (host : string) : option string :=
  if HasPrefix host "[" then
    i ← LastIndex host "]";
    if negb (validOptionalPort (drop_str (S i) host)) then None
    else match Index (take_str i host) "%25" with
         | Some zone =>
             host1 ← unescape encodeHost (take_str zone host);
             host2 ← unescape encodeZone (drop_str zone (take_str i host));
             host3 ← unescape encodeHost (drop_str i host);
             Some (host1 +:+ host2 +:+ host3)
         | None => unescape encodeHost host
         end
  else match LastIndex host ":" with
       | Some i => if validOptionalPort (drop_str i host) then unescape encodeHost host else None
       | None => unescape encodeHost host
       end.

Definition validUserinfo (s : string) : bool :=
  all_chars (λ a, is_alnum a || one_of "-._:~!$&'()*+,;=%@" a) s.

(** The host; the user and password must be valid. *)
Definition parseAuthority (authority : string) : option string :=
  match LastIndex authority "@" with
  | None => parseHost authority
  | Some i =>
      host ← parseHost (drop_str (S i) authority);
      let userinfo := take_str i authority in
      if negb (validUserinfo userinfo) then None
      else match cut ":" userinfo with
           | None => _ ← unescape encodeOther userinfo; Some host
           | Some (username, password) =>
               _ ← unescape encodeOther username;
               _ ← unescape encodeOther password;
               Some host
           end
  end.

(** ** [url.Parse] *)

Record URL := MkURL { u_Scheme : string; u_Host : string; u_Path : string }.

Definition is_ctl (a : ascii) : bool := (byte a <? 32) || (byte a =? 127).

(** The part before the first [c], and the part after it. *)
Definition split_at (c s : string) : string * string := default (s, "") (cut c s).

(** The part of the URL after the scheme, without the query. *)
Definition parse_rest (scheme rest : string) : option URL :=
  if negb (HasPrefix rest "/") then
    if negb (String.eqb scheme "") then Some (MkURL scheme "" "")          (* opaque *)
    else
      let colon := match Index rest ":", Index rest "/" with
                   | Some c, Some s => c <? s
                   | Some _, None => true
                   | None, _ => false
                   end in
      if colon : bool then None else MkURL scheme "" <$> unescape encodeOther rest
  else if (negb (String.eqb scheme "") || negb (HasPrefix rest "///")) && HasPrefix rest "//" then
    let rest := drop_str 2 rest in
    let '(authority, path) := match Index rest "/" with
                              | Some i => (take_str i rest, drop_str i rest)
                              | None => (rest, "")
                              end in
    host ← parseAuthority authority;
    MkURL scheme host <$> unescape encodeOther path
  else MkURL scheme "" <$> unescape encodeOther rest.

Definition parse_url (rawurl : string) : option URL :=
  if negb (all_chars (λ a, negb (is_ctl a)) rawurl) then None
  else if String.eqb rawurl "*" then Some (MkURL "" "" "*")
  else
    '(scheme, rest) ← getscheme rawurl;
    (* a query, or a single "?" at the end *)
    parse_rest (ToLower scheme) (split_at "?" rest).1.

Definition UrlParse (rawurl : string) : option URL :=
  let '(u, frag) := split_at "#" rawurl in
  url ← parse_url u;
  _ ← unescape encodeOther frag;
  Some url.

(** ** Examples *)

Example parse_socket :
  UrlParse "unix://tmp/csi.sock" = Some (MkURL "unix" "tmp" "/csi.sock").
Proof. reflexivity. Qed.

Example parse_rooted : UrlParse "unix:///csi/csi.sock" = Some (MkURL "unix" "" "/csi/csi.sock").
Proof. reflexivity. Qed.

Example parse_tcp : UrlParse "TCP://127.0.0.1:10000" = Some (MkURL "tcp" "127.0.0.1:10000" "").
Proof. reflexivity. Qed.

Example parse_bad_port : UrlParse "tcp://host:port" = None.
Proof. reflexivity. Qed.

Example parse_no_scheme : UrlParse "/tmp/csi.sock" = Some (MkURL "" "" "/tmp/csi.sock").
Proof. reflexivity. Qed.

(** ** Properties *)

Lemma unescape_other_plain s :
  no_char "%" s = true → unescape encodeOther s = Some s.
Proof.
  induction s as [|a s IH]; [done|]. rewrite no_char_cons. intros [Ha Hs].
  assert (unescape encodeOther (String a s) = String a <$> unescape encodeOther s) as ->.
  { destruct a as [[] [] [] [] [] [] [] []]; try done. }
  by rewrite IH.
Qed.
