(* ===== verification/GoHash.v ===== *)
(** * Go's [crypto/sha256] and [hash/fnv]

    SHA-256 (FIPS 180-4) over 32-bit words kept as [Z] with the wrap-around
    written out, its digest printed with ["%x"], and the 32-bit FNV-1a hash.
    The driver keys the targets of a mount pod by a prefix of the first and
    picks a pod's mutex with the second. *)

From S2P Require Import Prelude.

Local Open Scope Z_scope.

(** ** 32-bit words *)

Definition w32 (z : Z) : Z := z mod 2^32.
Definition rotr (n x : Z) : Z := Z.lor (Z.shiftr x n) (w32 (Z.shiftl x (32 - n))).
Definition not32 (x : Z) : Z := Z.lxor x (2^32 - 1).
Definition add32 (l : list Z) : Z := w32 (foldr Z.add 0 l).

Definition byte_val (a : ascii) : Z := Z.of_N (Ascii.N_of_ascii a).

(** ** SHA-256 *)

(** The constants are the first 32 bits of the fractional parts of the cube roots of
    the first 64 primes, and of the square roots of the first 8. *)
Definition is_prime (n : Z) : bool :=
  forallb (λ d, negb (n mod Z.of_nat d =? 0)) (seq 2 (Z.to_nat (Z.sqrt n) - 1)).

Definition primes (bound : nat) : list Z :=
  List.filter is_prime (map Z.of_nat (seq 2 (bound - 2))).

(** The integral cube root, bit by bit from [2^n]. *)
Fixpoint cube_root (n : nat) (acc z : Z) : Z :=
  match n with
  | O => acc
  | S n' =>
      let next := acc + 2 ^ Z.of_nat n' in
      cube_root n' (if next * next * next <=? z then next else acc) z
  end.

Definition K256 : list Z :=
  Eval vm_compute in map (λ p, w32 (cube_root 36 0 (p * 2 ^ 96))) (primes 312).

Record sha_state := ShaState {
  sa : Z; sb : Z; sc : Z; sd : Z; se : Z; sf : Z; sg : Z; sh : Z }.

Definition sqrt_frac (p : Z) : Z := w32 (Z.sqrt (p * 2 ^ 64)).

Definition sha_init : sha_state :=
  Eval vm_compute in
  ShaState (sqrt_frac 2) (sqrt_frac 3) (sqrt_frac 5) (sqrt_frac 7)
           (sqrt_frac 11) (sqrt_frac 13) (sqrt_frac 17) (sqrt_frac 19).

Definition big_sigma0 x := Z.lxor (Z.lxor (rotr 2 x) (rotr 13 x)) (rotr 22 x).
Definition big_sigma1 x := Z.lxor (Z.lxor (rotr 6 x) (rotr 11 x)) (rotr 25 x).
Definition small_sigma0 x := Z.lxor (Z.lxor (rotr 7 x) (rotr 18 x)) (Z.shiftr x 3).
Definition small_sigma1 x := Z.lxor (Z.lxor (rotr 17 x) (rotr 19 x)) (Z.shiftr x 10).

Definition sha_round (s : sha_state) (kw : Z * Z) : sha_state :=
  let '(ShaState a b c d e f g h) := s in
  let ch := Z.lxor (Z.land e f) (Z.land (not32 e) g) in
  let maj := Z.lxor (Z.lxor (Z.land a b) (Z.land a c)) (Z.land b c) in
  let t1 := add32 [h; big_sigma1 e; ch; kw.1; kw.2] in
  let t2 := add32 [big_sigma0 a; maj] in
  ShaState (add32 [t1; t2]) a b c (add32 [d; t1]) e f g.

(** The message schedule, most recent word first: word [t] is computed from the
    words [t-2], [t-7], [t-15] and [t-16]. *)
Fixpoint sha_extend (n : nat) (ws : list Z) : list Z :=
  match n with
  | O => ws
  | S n' =>
      let w i := nth i ws 0 in
      sha_extend n'
        (add32 [small_sigma1 (w 1%nat); w 6%nat; small_sigma0 (w 14%nat); w 15%nat] :: ws)
  end.

Definition sha_block (s : sha_state) (ws : list Z) : sha_state :=
  let sched := rev (sha_extend 48 (rev ws)) in
  let '(ShaState a b c d e f g h) := fold_left sha_round (combine K256 sched) s in
  ShaState (add32 [sa s; a]) (add32 [sb s; b]) (add32 [sc s; c]) (add32 [sd s; d])
           (add32 [se s; e]) (add32 [sf s; f]) (add32 [sg s; g]) (add32 [sh s; h]).

(** Padding: the byte 0x80, zeroes, and the length in bits on 64 bits. *)
Definition be_bytes (n : nat) (z : Z) : list Z :=
  map (λ i, Z.shiftr z (8 * Z.of_nat i) mod 256) (rev (seq 0 n)).

Definition sha_pad (msg : list Z) : list Z :=
  let n := Z.of_nat (length msg) in
  msg ++ [0x80] ++ replicate (Z.to_nat ((55 - n) mod 64)) 0 ++ be_bytes 8 (8 * n).

Fixpoint words_of (bs : list Z) : list Z :=
  match bs with
  | b0 :: b1 :: b2 :: b3 :: bs' => (((b0 * 256 + b1) * 256 + b2) * 256 + b3) :: words_of bs'
  | _ => []
  end.

Fixpoint sha_blocks (fuel : nat) (s : sha_state) (ws : list Z) : sha_state :=
  match fuel, ws with
  | S n, _ :: _ => sha_blocks n (sha_block s (take 16 ws)) (drop 16 ws)
  | _, _ => s
  end.

Definition sha256 (msg : string) : sha_state :=
  let ws := words_of (sha_pad (map byte_val (chars msg))) in
  sha_blocks (length ws) sha_init ws.

(** ["%x"] of the 32-byte digest. *)
Definition hex_char (z : Z) : ascii :=
  Ascii.ascii_of_N (Z.to_N (if z <? 10 then 48 + z else 87 + z)).

Fixpoint hex_digits (n : nat) (z : Z) (tail : string) : string :=
  match n with
  | O => tail
  | S n' => hex_digits n' (z / 16) (String (hex_char (z mod 16)) tail)
  end.

Definition hex_digest (s : sha_state) : string :=
  foldr (λ w t, hex_digits 8 w t) ""
    [sa s; sb s; sc s; sd s; se s; sf s; sg s; sh s].

(** ** FNV-1a, 32 bits *)

Definition fnv_offset32 : Z := 2166136261.
Definition fnv_prime32 : Z := 16777619.

Definition fnv32a (s : string) : Z :=
  fold_left (λ h a, w32 (Z.lxor h (byte_val a) * fnv_prime32)) (chars s) fnv_offset32.

(** ** Lemmas *)

Lemma w32_range z : 0 ≤ w32 z < 2^32.
Proof. apply Z.mod_pos_bound. lia. Qed.

Lemma fnv32a_range s : 0 ≤ fnv32a s < 2^32.
Proof.
  unfold fnv32a. assert (0 ≤ fnv_offset32 < 2^32) as H by (unfold fnv_offset32; lia).
  revert H. generalize fnv_offset32. induction (chars s) as [|a l IH]; intros h Hh; [done|].
  simpl. apply IH, w32_range.
Qed.

Lemma hex_digits_length n z t :
  String.length (hex_digits n z t) = (n + String.length t)%nat.
Proof.
  revert z t. induction n as [|n IH]; intros z t; [done|].
  simpl. rewrite IH. simpl. lia.
Qed.

Lemma hex_digest_length s : String.length (hex_digest s) = 64%nat.
Proof. unfold hex_digest. cbn [foldr]. rewrite !hex_digits_length. done. Qed.

#[export] Hint Rewrite hex_digest_length : jfs.

(** The digest of the empty string and of ["abc"] (FIPS 180-4). *)
Example sha256_empty :
  hex_digest (sha256 "") = "e3b0c44298fc1c149afbf4c8996fb92427ae41e4649b934ca495991b7852b855".
Proof. vm_compute. reflexivity. Qed.

Example sha256_abc :
  hex_digest (sha256 "abc") = "ba7816bf8f01cfea414140de5dae2223b00361a396177a9cb410ff61f20015ad".
Proof. vm_compute. reflexivity. Qed.

Example fnv32a_a : fnv32a "a" = 0xe40c292c.
Proof. reflexivity. Qed.

#[global] Arguments sha256 : simpl never.
#[global] Arguments hex_digest : simpl never.
#[global] Arguments fnv32a : simpl never.
