(* ===== verification/GoTime.v ===== *)
(** * Go's [time]: durations, the proleptic Gregorian calendar, the layout
    ["2006-01-02 15:04:05"]

    An instant is a [Z] count of nanoseconds since the Unix epoch, a duration a
    signed 64-bit count of nanoseconds.  [ParseDuration] follows the Go 1.14
    scanner with its overflow checks; a fractional part is scaled exactly, where
    Go goes through [float64].  [Format] prints in the process's local zone (a
    fixed offset [tz] in seconds), [Parse] without a zone reads UTC. *)

From S2P Require Import Prelude GoStrings.

Local Open Scope Z_scope.

(** ** [time.ParseDuration] *)

Fixpoint span (P : ascii → bool) (s : string) : string * string :=
  match s with
  | String a s' => if P a then let '(w, r) := span P s' in (String a w, r) else ("", s)
  | "" => ("", "")
  end.

(** [leadingInt]: [None] on overflow of the signed 64-bit accumulator. *)
Fixpoint leading_int (x : Z) (s : string) : option (Z * string) :=
  match s with
  | String a s' =>
      match digit_val a with
      | Some d => if int64_max / 10 <? x then None
                  else if int64_max <? 10 * x + d then None
                  else leading_int (10 * x + d) s'
      | None => Some (x, s)
      end
  | "" => Some (x, "")
  end.

(** [leadingFraction]: digits past an overflow are read and ignored. *)
Fixpoint leading_fraction (overflow : bool) (x scale : Z) (s : string) : Z * Z * string :=
  match s with
  | String a s' =>
      match digit_val a with
      | Some d =>
          if overflow then leading_fraction true x scale s'
          else if int64_max / 10 <? x then leading_fraction true x scale s'
          else if int64_max <? 10 * x + d then leading_fraction true x scale s'
          else leading_fraction false (10 * x + d) (scale * 10) s'
      | None => (x, scale, s)
      end
  | "" => (x, scale, "")
  end.

Definition unit_map (u : string) : option Z :=
  if String.eqb u "ns" then Some 1
  else if String.eqb u "us" || String.eqb u "µs" || String.eqb u "μs" then Some 1000
  else if String.eqb u "ms" then Some 1000000
  else if String.eqb u "s" then Some 1000000000
  else if String.eqb u "m" then Some (60 * 1000000000)
  else if String.eqb u "h" then Some (3600 * 1000000000)
  else None.

(** One iteration of the scanner: a number, its unit, the text that is left. *)
Definition duration_term (s : string) : option (Z * string) :=
  match s with
  | String a _ => if Ascii.eqb a "." || is_digit a then Some tt else None
  | "" => None
  end ;;
  '(v, s1) ← leading_int 0 s;
  let pre := negb (String.length s1 =? String.length s)%nat in
  let '(f, scale, s2, post) :=
    match s1 with
    | String "." s' =>
        let '(f, scale, r) := leading_fraction false 0 1 s' in
        (f, scale, r, negb (String.length r =? String.length s')%nat)
    | _ => (0, 1, s1, false)
    end in
  (if pre || post then Some tt else None) ;;
  let '(u, s3) := span (λ a, negb (Ascii.eqb a "." || is_digit a)) s2 in
  unit ← unit_map u;
  (if int64_max / unit <? v then None else Some tt) ;;
  let v' := v * unit + f * unit / scale in
  if int64_max <? v' then None else Some (v', s3).

Fixpoint duration_terms (fuel : nat) (d : Z) (s : string) : option Z :=
  if String.eqb s "" then Some d
  else match fuel with
       | O => None
       | S n =>
           '(v, s') ← duration_term s;
           if int64_max <? d + v then None else duration_terms n (d + v) s'
       end.

Definition ParseDuration (s : string) : option Z :=
  let '(neg, s) := match s with
                   | String "-" t => (true, t)
                   | String "+" t => (false, t)
                   | _ => (false, s)
                   end in
  if String.eqb s "0" then Some 0
  else if String.eqb s "" then None
  else (λ d, if neg : bool then - d else d) <$> duration_terms (String.length s) 0 s.

(** ** The calendar *)

Definition min3 (z : Z) : Z := if z <? 3 then z else 3.

(** Days since the epoch to (year, month, day): years of 400, 100, 4 and 1 years
    starting in March, so that the leap day is the last of its year. *)
Definition civil_of_days (z : Z) : Z * Z * Z :=
  let z' := z + 719468 in
  let era := z' / 146097 in
  let doe := z' mod 146097 in
  let c := min3 (doe / 36524) in
  let r1 := doe - 36524 * c in
  let q := r1 / 1461 in
  let r2 := r1 - 1461 * q in
  let y := min3 (r2 / 365) in
  let doy := r2 - 365 * y in
  let mp := (5 * doy + 2) / 153 in
  let d := doy - (153 * mp + 2) / 5 + 1 in
  let m := if mp <? 10 then mp + 3 else mp - 9 in
  (400 * era + 100 * c + 4 * q + y + (if m <=? 2 then 1 else 0), m, d).

Definition days_of_civil (y m d : Z) : Z :=
  let y' := if m <=? 2 then y - 1 else y in
  let era := y' / 400 in
  let yoe := y' mod 400 in
  let mp := if m <=? 2 then m + 9 else m - 3 in
  let doy := (153 * mp + 2) / 5 + d - 1 in
  146097 * era + (365 * yoe + yoe / 4 - yoe / 100 + doy) - 719468.

Definition is_leap (y : Z) : bool :=
  (y mod 4 =? 0) && (negb (y mod 100 =? 0) || (y mod 400 =? 0)).

(** [daysIn]. *)
Definition days_in (m y : Z) : Z :=
  if m =? 2 then (if is_leap y then 29 else 28)
  else if (m =? 4) || (m =? 6) || (m =? 9) || (m =? 11) then 30 else 31.

(** ** [Format] and [Parse] *)

Definition second : Z := 1000000000.

Fixpoint dec_width (fuel : nat) (z : Z) : nat :=
  match fuel with
  | O => 1
  | S n => if z <? 10 then 1 else S (dec_width n (z / 10))
  end.

(** [appendInt(b, x, width)]. *)
Definition append_int (x : Z) (width : nat) : string :=
  (if x <? 0 then "-" else "") +:+ pad_digits (Nat.max width (dec_width 20 (Z.abs x))) (Z.abs x).

(** [t.Format("2006-01-02 15:04:05")] in the zone [tz] seconds east of UTC. *)
Definition Format (tz t : Z) : string :=
  let secs := t / second + tz in
  let '(y, m, d) := civil_of_days (secs / 86400) in
  let sod := secs mod 86400 in
  append_int y 4 +:+ "-" +:+ append_int m 2 +:+ "-" +:+ append_int d 2 +:+ " " +:+
  append_int (sod / 3600) 2 +:+ ":" +:+ append_int (sod / 60 mod 60) 2 +:+ ":" +:+
  append_int (sod mod 60) 2.

(** [getnum]: two digits, or one when the layout's field is not zero-padded. *)
Definition getnum (fixed : bool) (s : string) : option (Z * string) :=
  match s with
  | String a s1 =>
      x ← digit_val a;
      match s1 with
      | String b s2 =>
          match digit_val b with
          | Some y => Some (10 * x + y, s2)
          | None => if fixed then None else Some (x, s1)
          end
      | "" => if fixed then None else Some (x, s1)
      end
  | "" => None
  end.

Definition get_year (s : string) : option (Z * string) :=
  match s with
  | String a (String b (String c (String d s'))) =>
      y ← digits_val 0 (String a (String b (String c (String d ""))));
      Some (y, s')
  | _ => None
  end.

(** [skip] for a literal byte and for a space of the layout. *)
Definition skip_char (c : ascii) (s : string) : option string :=
  match s with
  | String a s' => if Ascii.eqb a c then Some s' else None
  | "" => None
  end.

Definition skip_space (s : string) : option string :=
  match s with
  | String a _ => if Ascii.eqb a " " then Some (trim_left (λ a, Ascii.eqb a " ") s) else None
  | "" => Some ""
  end.

(** A fraction of a second that the layout does not mention. *)
Definition get_fraction (s : string) : option (Z * string) :=
  match s with
  | String "." (String a _ as s') =>
      if is_digit a then
        let '(ds, r) := span is_digit s' in
        ns ← digits_val 0 ds;
        if second <=? ns then None
        else
          let scaleDigits := 9 - Z.of_nat (String.length ds) in
          Some (if scaleDigits <? 0 then ns else ns * 10 ^ scaleDigits, r)
      else Some (0, s)
  | _ => Some (0, s)
  end.

Definition in_range (lo hi z : Z) : option unit :=
  if (lo <=? z) && (z <=? hi) then Some tt else None.

(** [time.Parse("2006-01-02 15:04:05", s)]: the instant, read in UTC. *)
Definition Parse (s : string) : option Z :=
  '(y, s) ← get_year s;
  s ← skip_char "-" s;
  '(m, s) ← getnum true s;
  in_range 1 12 m ;;
  s ← skip_char "-" s;
  '(d, s) ← getnum true s;
  s ← skip_space s;
  '(h, s) ← getnum false s;
  in_range 0 23 h ;;
  s ← skip_char ":" s;
  '(mi, s) ← getnum true s;
  in_range 0 59 mi ;;
  s ← skip_char ":" s;
  '(sec, s) ← getnum true s;
  in_range 0 59 sec ;;
  '(ns, s) ← get_fraction s;
  (if String.eqb s "" then Some tt else None) ;;
  in_range 1 (days_in m y) d ;;
  Some ((days_of_civil y m d * 86400 + h * 3600 + mi * 60 + sec) * second + ns).

(** ** Lemmas: the calendar *)

(** The position of a day in its 400-, 100-, 4- and 1-year cycles. *)
Record cycles (z era c q y doy : Z) : Prop := Cycles {
  cy_c : 0 ≤ c ≤ 3;
  cy_q : 0 ≤ q ≤ 24;
  cy_y : 0 ≤ y ≤ 3;
  cy_doy : 0 ≤ doy ≤ 365;
  cy_last : doy = 365 → y = 3 ∧ (q = 24 → c = 3);
  cy_sum : z + 719468 = 146097 * era + 36524 * c + 1461 * q + 365 * y + doy }.

Lemma civil_cycles z :
  ∃ era c q y doy, cycles z era c q y doy ∧
    civil_of_days z =
      let mp := (5 * doy + 2) / 153 in
      let m := if mp <? 10 then mp + 3 else mp - 9 in
      (400 * era + 100 * c + 4 * q + y + (if m <=? 2 then 1 else 0), m,
       doy - (153 * mp + 2) / 5 + 1).
Proof.
  do 5 eexists. split; [|reflexivity].
  unfold min3.
  destruct (Z.ltb_spec ((z + 719468) mod 146097 / 36524) 3);
    match goal with |- context [?a / 365 <? 3] => destruct (Z.ltb_spec (a / 365) 3) end;
    split; intros; zlia.
Qed.

Lemma month_split doy :
  0 ≤ doy ≤ 365 →
  let mp := (5 * doy + 2) / 153 in
  0 ≤ mp ≤ 11 ∧ (153 * mp + 2) / 5 ≤ doy ∧
  (mp < 11 → doy < (153 * (mp + 1) + 2) / 5).
Proof. intros H mp. subst mp. zlia. Qed.

(** The year in which a day of the March-based cycles falls is leap exactly when
    its February has a 29th. *)
Lemma cycles_leap z era c q y doy :
  cycles z era c q y doy → doy = 365 →
  is_leap (400 * era + 100 * c + 4 * q + y + 1) = true.
Proof.
  intros [Hc Hq Hy _ Hl _] Hd. destruct (Hl Hd) as [-> Hq24].
  unfold is_leap. rewrite andb_true_iff, orb_true_iff, negb_true_iff, Z.eqb_neq, !Z.eqb_eq.
  destruct (Z.eq_dec q 24) as [->|].
  - rewrite (Hq24 eq_refl) in *. split; [|right]; zlia.
  - replace (400 * era + 100 * c + 4 * q + 3 + 1) with (4 * q + 4 + (4 * era + c) * 100) by lia.
    rewrite Z.mod_add, (Z.mod_small _ 100) by lia.
    split; [|left]; zlia.
Qed.

Lemma civil_roundtrip z :
  let '(y, m, d) := civil_of_days z in days_of_civil y m d = z.
Proof.
  destruct (civil_cycles z) as (era & c & q & y & doy & [Hc Hq Hy Hd Hl Hs] & ->).
  pose proof (month_split doy Hd) as Hm.
  cbv zeta in *. set (mp := (5 * doy + 2) / 153) in *. clearbody mp.
  destruct Hm as (Hmp & Hlo & Hhi). unfold days_of_civil.
  assert (∀ Y, Y = 400 * era + (100 * c + 4 * q + y) →
    146097 * (Y / 400) + (365 * (Y mod 400) + Y mod 400 / 4 - Y mod 400 / 100 + doy) - 719468 = z)
    as Hsum.
  { intros Y ->. rewrite (Z.add_comm (400 * era)), (Z.mul_comm 400), Z.div_add, Z.mod_add by lia.
    rewrite (Z.div_small _ 400), (Z.mod_small _ 400) by lia. zlia. }
  destruct (Z.ltb_spec mp 10) as [H10|H10].
  - destruct (Z.leb_spec (mp + 3) 2); [lia|]. cbv zeta.
    replace (mp + 3 - 3) with mp by lia.
    replace ((153 * mp + 2) / 5 + (doy - (153 * mp + 2) / 5 + 1) - 1) with doy by lia.
    apply Hsum; lia.
  - destruct (Z.leb_spec (mp - 9) 2); [|lia]. cbv zeta.
    replace (mp - 9 + 9) with mp by lia.
    replace ((153 * mp + 2) / 5 + (doy - (153 * mp + 2) / 5 + 1) - 1) with doy by lia.
    apply Hsum; lia.
Qed.

Lemma civil_valid z :
  let '(y, m, d) := civil_of_days z in 1 ≤ m ≤ 12 ∧ 1 ≤ d ≤ days_in m y.
Proof.
  destruct (civil_cycles z) as (era & c & q & y & doy & Hcy & ->).
  pose proof (cy_doy _ _ _ _ _ _ Hcy) as Hd.
  pose proof (month_split doy Hd) as Hm.
  cbv zeta in *. set (mp := (5 * doy + 2) / 153) in *. clearbody mp.
  destruct Hm as (Hmp & Hlo & Hhi).
  assert (mp = 11 ∨ mp < 11) as [->|Hlt] by lia.
  - change (11 <? 10) with false. cbn iota.
    change (if 11 - 9 <=? 2 then 1 else 0) with 1.
    split; [lia|]. unfold days_in. change (11 - 9 =? 2) with true. cbn iota.
    change ((153 * 11 + 2) / 5) with 337 in *.
    destruct (Z.eq_dec doy 365) as [->|].
    + rewrite (cycles_leap _ _ _ _ _ _ Hcy eq_refl). lia.
    + case_match; lia.
  - specialize (Hhi Hlt).
    match goal with |- context [days_in _ ?y] => generalize y; intros Y end.
    set (m := if mp <? 10 then mp + 3 else mp - 9).
    assert (1 ≤ m ≤ 12 ∧ (153 * (mp + 1) + 2) / 5 - (153 * mp + 2) / 5 ≤ days_in m Y); [|lia].
    subst m. clear -Hmp Hlt. assert (∃ n : nat, (n < 11)%nat ∧ mp = Z.of_nat n) as (n & Hn & ->).
    { exists (Z.to_nat mp). lia. }
    do 11 (destruct n as [|n]; [vm_compute; split; [split|]; discriminate|]). lia.
Qed.

(** The years of the days between two dates. *)
Lemma civil_year_range z :
  -719528 ≤ z ≤ 2932896 → 0 ≤ (civil_of_days z).1.1 ≤ 9999.
Proof.
  intros Hz. destruct (civil_cycles z) as (era & c & q & y & doy & [Hc Hq Hy Hd Hl Hs] & ->).
  pose proof (month_split doy Hd) as Hm.
  cbv zeta in *. set (mp := (5 * doy + 2) / 153) in *. clearbody mp.
  destruct Hm as (Hmp & Hlo & Hhi). cbn [fst].
  destruct (Z.ltb_spec mp 10) as [H10|H10].
  - assert (doy < 306) by (specialize (Hhi ltac:(lia)); zlia).
    destruct (Z.leb_spec (mp + 3) 2); lia.
  - destruct (Z.leb_spec (mp - 9) 2); [|lia].
    assert (306 ≤ doy) by zlia. lia.
Qed.

(** ** Lemmas: printing and reading *)

Lemma dec_width_bound w n z :
  (0 < w)%nat → z < 10 ^ Z.of_nat w → (dec_width n z ≤ w)%nat.
Proof.
  revert w z. induction n as [|n IH]; intros w z Hw Hz; simpl; [lia|].
  destruct (Z.ltb_spec z 10); [lia|].
  destruct w as [|[|w]]; [lia|simpl in Hz; lia|].
  apply le_n_S, IH; [lia|]. apply Z.div_lt_upper_bound; [lia|].
  rewrite Nat2Z.inj_succ, Z.pow_succ_r in Hz by lia. done.
Qed.

Lemma append_int_pad x w :
  (0 < w)%nat → 0 ≤ x < 10 ^ Z.of_nat w → append_int x w = pad_digits w x.
Proof.
  intros Hw Hx. unfold append_int.
  destruct (Z.ltb_spec x 0); [lia|]. rewrite Z.abs_eq by lia.
  rewrite Nat.max_l; [done|]. apply dec_width_bound; lia.
Qed.

Lemma getnum_pad b x s : 0 ≤ x < 100 → getnum b (pad_digits 2 x +:+ s) = Some (x, s).
Proof.
  intros Hx. simpl. rewrite !digit_val_char by (apply Z.mod_pos_bound; lia).
  simpl. f_equal. f_equal. zlia.
Qed.

Lemma get_year_pad y s : 0 ≤ y < 10000 → get_year (pad_digits 4 y +:+ s) = Some (y, s).
Proof.
  intros Hy. simpl. rewrite !digit_val_char by (apply Z.mod_pos_bound; lia).
  simpl. f_equal. f_equal. zlia.
Qed.

Lemma in_range_Some lo hi z : lo ≤ z ≤ hi → in_range lo hi z = Some tt.
Proof. intros Hz. unfold in_range. by rewrite !(proj2 (Z.leb_le _ _)) by lia. Qed.

Lemma skip_char_lit c s : skip_char c (String c "" +:+ s) = Some s.
Proof. simpl. by rewrite Ascii.eqb_refl. Qed.

Lemma digit_char_no_space z : 0 ≤ z < 10 → Ascii.eqb (digit_char z) " " = false.
Proof.
  intros Hz. destruct (Ascii.eqb_spec (digit_char z) " ") as [E|]; [|done].
  pose proof (digit_val_char z Hz) as H. by rewrite E in H.
Qed.

Lemma skip_space_pad w z s :
  skip_space (" " +:+ pad_digits (S w) z +:+ s) = Some (pad_digits (S w) z +:+ s).
Proof.
  assert (∀ w z s, trim_left (λ a, Ascii.eqb a " ") (pad_digits (S w) z +:+ s)
    = pad_digits (S w) z +:+ s) as H.
  { clear. induction w as [|w IH]; intros z s.
    - simpl. by rewrite digit_char_no_space by (apply Z.mod_pos_bound; lia).
    - change (pad_digits (S (S w)) z) with
        (pad_digits (S w) (z / 10) +:+ String (digit_char (z mod 10)) "").
      rewrite string_app_assoc. apply IH. }
  rewrite <- H at 2. done.
Qed.

Lemma option_guard_bind {A B} (a : A) (k : A → option B) : (Some a ≫= k) = k a.
Proof. done. Qed.

(** Reading a printed instant in UTC gives the printed instant, to the second,
    moved by the zone it was printed in. *)
Lemma Parse_Format tz t :
  -719528 ≤ (t / second + tz) / 86400 ≤ 2932896 →
  Parse (Format tz t) = Some ((t / second + tz) * second).
Proof.
  intros Hr. unfold Format. set (secs := t / second + tz) in *.
  pose proof (civil_year_range _ Hr) as Hy.
  pose proof (civil_valid (secs / 86400)) as Hv.
  pose proof (civil_roundtrip (secs / 86400)) as Hc.
  destruct (civil_of_days (secs / 86400)) as [[y m] d]. cbn [fst] in Hy.
  assert (1 ≤ d ≤ 31) as Hd31.
  { destruct Hv as [_ Hv]. revert Hv. unfold days_in. repeat case_match; lia. }
  assert (0 ≤ secs mod 86400 < 86400) as Hs by (apply Z.mod_pos_bound; lia).
  set (sod := secs mod 86400) in *.
  assert (0 ≤ sod / 3600 < 24 ∧ 0 ≤ sod / 60 mod 60 < 60 ∧ 0 ≤ sod mod 60 < 60)
    as (Hh & Hm & Hse) by zlia.
  rewrite !append_int_pad by (simpl; lia).
  unfold Parse. rewrite get_year_pad by lia. cbn [mbind option_bind].
  rewrite <- (string_app_nil_r (pad_digits 2 (sod mod 60))).
  repeat first
    [ rewrite option_guard_bind; cbv beta iota | rewrite skip_char_lit
    | rewrite skip_space_pad | rewrite getnum_pad by lia | rewrite in_range_Some by lia ].
  cbn [get_fraction mbind option_bind String.eqb].
  rewrite Hc. f_equal. rewrite Z.add_0_r. f_equal. subst sod. zlia.
Qed.

(** ** Lemmas: printed integers *)

Lemma dec_width_enough n z : 0 ≤ z < 10 ^ Z.of_nat n → z < 10 ^ Z.of_nat (dec_width n z).
Proof.
  revert z. induction n as [|n IH]; intros z Hz; simpl dec_width; [simpl in *; lia|].
  destruct (Z.ltb_spec z 10); [simpl; lia|].
  rewrite Nat2Z.inj_succ, Z.pow_succ_r in Hz |- * by lia.
  specialize (IH (z / 10)). pose proof (Z.div_mod z 10 ltac:(lia)).
  pose proof (Z.mod_pos_bound z 10 ltac:(lia)).
  assert (0 ≤ z / 10 < 10 ^ Z.of_nat n) as Hd.
  { split; [zlia|]. apply Z.div_lt_upper_bound; lia. }
  specialize (IH Hd). lia.
Qed.

(** [strconv.Itoa]-like printing is read back by [strconv.Atoi]. *)
Lemma Atoi_append_int x w :
  (0 < w)%nat → 0 ≤ x → in_int64 x = true → Atoi (append_int x w) = Some x.
Proof.
  intros Hw Hx Hi. unfold append_int.
  destruct (Z.ltb_spec x 0); [lia|]. rewrite Z.abs_eq by lia. rewrite string_app_nil_l.
  set (k := Nat.max w (dec_width 20 x)).
  assert (x < 10 ^ Z.of_nat (dec_width 20 x)) as Hlt.
  { apply dec_width_enough. unfold in_int64, int64_max in Hi.
    rewrite andb_true_iff, !Z.leb_le in Hi. lia. }
  assert (x < 10 ^ Z.of_nat k) as Hk.
  { eapply Z.lt_le_trans; [exact Hlt|]. apply Z.pow_le_mono_r; lia. }
  apply Atoi_digits; [| |done].
  - intros E. apply (f_equal String.length) in E.
    rewrite pad_digits_length in E. change (String.length "") with O in E. lia.
  - rewrite digits_val_pad, Z.mod_small by lia. f_equal; lia.
Qed.

Lemma append_int_word x w : (0 < w)%nat → 0 ≤ x → word (append_int x w) = true.
Proof.
  intros Hw Hx. unfold append_int. destruct (Z.ltb_spec x 0); [lia|].
  rewrite string_app_nil_l. apply digits_word; [|apply pad_digits_chars].
  intros E. apply (f_equal String.length) in E. rewrite pad_digits_length in E.
  change (String.length "") with O in E. lia.
Qed.
