(* ===== verification/Kube.v ===== *)
(** * The Kubernetes objects the driver handles

    The fields of [corev1.Pod], [corev1.Secret] and [batchv1.Job] that the driver
    reads, writes or copies.  A Go map that the code compares with [nil] is an
    [option] of a map ([None] is the nil map); fields that are only copied from
    the CSI pod are kept as opaque text ([pod_env]). *)

From S2P Require Import Prelude.

Abbreviation smap := (gmap string string).

(** ** Metadata *)

Record owner_ref := OwnerRef {
  or_apiVersion : string; or_kind : string; or_name : string; or_uid : string;
  or_controller : bool }.

Record objmeta := ObjMeta {
  m_name : string;
  m_namespace : string;
  m_uid : string;
  m_resourceVersion : string;
  m_labels : smap;
  m_annotations : option smap;
  m_finalizers : list string;
  m_deletionTimestamp : option Z;
  m_ownerReferences : list owner_ref }.

(** A fresh [ObjectMeta{Name, Namespace}]. *)
Definition new_meta (name ns : string) : objmeta :=
  ObjMeta name ns "" "" ∅ None [] None [].

(** ** Containers *)

Inductive volume_source :=
  | HostPathSource (path : string) (type : string)
  | SecretSource (secretName : string) (items : list (string * string)).

Record volume := Volume { v_name : string; v_source : volume_source }.

Record volume_mount := VolumeMount {
  vm_name : string; vm_mountPath : string; vm_propagation : option string }.

(** [corev1.ResourceRequirements]; a [resource.Quantity] is kept as its text. *)
Record resources := Resources { r_limits : option smap; r_requests : option smap }.

Record probe := Probe { pr_command : list string; pr_initialDelay : Z; pr_period : Z }.

Record container := Container {
  c_name : string;
  c_image : string;
  c_privileged : bool;
  c_command : list string;
  c_env : list (string * string);
  c_envFrom : list string;            (* names of the secrets *)
  c_volumeMounts : list volume_mount;
  c_resources : resources;
  c_readinessProbe : option probe;
  c_preStop : option (list string) }.

Record pod_env := PodEnv {
  pe_hostNetwork : bool; pe_hostPID : bool; pe_hostIPC : bool;
  pe_hostAliases : string; pe_dnsConfig : string; pe_dnsPolicy : string;
  pe_imagePullSecrets : string; pe_preemptionPolicy : string; pe_tolerations : string }.

Record podspec := PodSpec {
  ps_containers : list container;
  ps_initContainers : list container;
  ps_volumes : list volume;
  ps_nodeName : string;
  ps_serviceAccountName : string;
  ps_priorityClassName : string;
  ps_restartPolicy : string;
  ps_env : pod_env }.

(** ** Status *)

Record condition := Condition {
  cond_type : string; cond_status : string; cond_reason : string; cond_message : string }.

Record terminated := Terminated { t_exitCode : Z; t_reason : string }.

(** [State.Waiting] (its reason) and [State.Terminated]. *)
Record container_status := ContainerStatus {
  cs_name : string; cs_ready : bool;
  cs_waiting : option string; cs_terminated : option terminated }.

Record podstatus := PodStatus {
  st_phase : string; st_reason : string; st_message : string;
  st_conditions : list condition;
  st_initContainerStatuses : list container_status;
  st_containerStatuses : list container_status }.

Definition empty_status : podstatus := PodStatus "" "" "" [] [] [].

(** ** Pods, secrets, jobs *)

Record pod := Pod { p_meta : objmeta; p_spec : podspec; p_status : podstatus }.

Record secret := Secret { s_meta : objmeta; s_stringData : smap }.

Record job := Job {
  j_meta : objmeta; j_template_meta : objmeta; j_template : podspec;
  j_ttlSecondsAfterFinished : option Z; j_conditions : list condition }.

Definition p_name (p : pod) : string := m_name (p_meta p).
Definition p_namespace (p : pod) : string := m_namespace (p_meta p).
Definition p_uid (p : pod) : string := m_uid (p_meta p).
Definition p_labels (p : pod) : smap := m_labels (p_meta p).
Definition p_annotations (p : pod) : option smap := m_annotations (p_meta p).
Definition p_finalizers (p : pod) : list string := m_finalizers (p_meta p).
Definition p_deletionTimestamp (p : pod) : option Z := m_deletionTimestamp (p_meta p).

(** Reading a map that may be nil: a nil map reads as empty. *)
Definition rd (m : option smap) : smap := default ∅ m.

Definition annots (p : pod) : smap := rd (p_annotations p).

(** ** Field updates *)

Definition meta_annotations (a : option smap) (m : objmeta) : objmeta :=
  ObjMeta (m_name m) (m_namespace m) (m_uid m) (m_resourceVersion m) (m_labels m)
          a (m_finalizers m) (m_deletionTimestamp m) (m_ownerReferences m).

Definition meta_finalizers (f : list string) (m : objmeta) : objmeta :=
  ObjMeta (m_name m) (m_namespace m) (m_uid m) (m_resourceVersion m) (m_labels m)
          (m_annotations m) f (m_deletionTimestamp m) (m_ownerReferences m).

Definition meta_owners (o : list owner_ref) (m : objmeta) : objmeta :=
  ObjMeta (m_name m) (m_namespace m) (m_uid m) (m_resourceVersion m) (m_labels m)
          (m_annotations m) (m_finalizers m) (m_deletionTimestamp m) o.

Definition meta_name_ns_labels (name ns : string) (l : smap) (m : objmeta) : objmeta :=
  ObjMeta name ns (m_uid m) (m_resourceVersion m) l
          (m_annotations m) (m_finalizers m) (m_deletionTimestamp m) (m_ownerReferences m).

Definition set_annotations (a : option smap) (p : pod) : pod :=
  Pod (meta_annotations a (p_meta p)) (p_spec p) (p_status p).

Definition set_finalizers (f : list string) (p : pod) : pod :=
  Pod (meta_finalizers f (p_meta p)) (p_spec p) (p_status p).

Definition set_spec (s : podspec) (p : pod) : pod := Pod (p_meta p) s (p_status p).

Definition spec_containers (c : list container) (s : podspec) : podspec :=
  PodSpec c (ps_initContainers s) (ps_volumes s) (ps_nodeName s)
          (ps_serviceAccountName s) (ps_priorityClassName s) (ps_restartPolicy s) (ps_env s).

Definition cont_resources (r : resources) (c : container) : container :=
  Container (c_name c) (c_image c) (c_privileged c) (c_command c) (c_env c) (c_envFrom c)
            (c_volumeMounts c) r (c_readinessProbe c) (c_preStop c).

Lemma annots_set a p : annots (set_annotations a p) = rd a.
Proof. done. Qed.

Lemma annots_set_finalizers f p : annots (set_finalizers f p) = annots p.
Proof. done. Qed.

#[export] Hint Rewrite annots_set annots_set_finalizers : jfs.

(** ** Errors *)

(** gRPC status codes. *)
Inductive code := InvalidArgument | Internal | AlreadyExists | NotFound | Unimplemented.

(** Errors of system calls: [os.IsNotExist] holds of [ENOENT]. *)
Inductive oserr := ENOENT | Errno (n : Z).

(** A Go error value: of the API server (what [apierrors.IsNotFound] and
    [IsConflict] tell apart), a gRPC status with its format string, an operating
    system error, a [fmt.Errorf] or any other error. *)
Inductive error :=
  | ApiNotFound
  | ApiConflict
  | ApiOther (msg : string)
  | StatusErr (c : code) (fmt : string)
  | OsErr (e : oserr)
  | Errorf (fmt : string).

#[export] Instance code_eq_dec : EqDecision code.
Proof. solve_decision. Defined.
#[export] Instance oserr_eq_dec : EqDecision oserr.
Proof. solve_decision. Defined.
#[export] Instance error_eq_dec : EqDecision error.
Proof. solve_decision. Defined.

Definition IsNotFound (e : error) : bool := bool_decide (e = ApiNotFound).
Definition IsConflict (e : error) : bool := bool_decide (e = ApiConflict).
Definition IsNotExist (e : oserr) : bool := bool_decide (e = ENOENT).

(** A Go function returning [(T, error)] of which one is meaningful. *)
Inductive res (A : Type) := Ok (a : A) | Err (e : error).
Arguments Ok {A} a.
Arguments Err {A} e.

#[export] Instance res_mret : MRet res := @Ok.
#[export] Instance res_mbind : MBind res := λ A B f r,
  match r with Ok a => f a | Err e => Err e end.
