(* ===== verification/Effects.v ===== *)
(** * Effects: what the driver asks of its environment

    A Go function that talks to the API server, the operating system, the clock
    or a mutex is a [prog]: a finite tree of requests ([eff]) whose branches are
    the possible answers.  The environment is a parameter: a theorem about [run]
    holds for every handler, hence for every sequence of answers. *)

From S2P Require Import Prelude Kube.

(** ** Requests *)

Record fileinfo := FileInfo { fi_ino : Z; fi_perm : Z }.

(** An entry of the mount table as [k8sMount.ParseMountInfo] returns it. *)
Record MountInfo := MkMountInfo { mi_MountPoint : string; mi_Root : string }.

(** How a goroutine races with its deadline in [doWithinTime]: it answers in time;
    the deadline fires and the work still gets done, its output stored before the
    caller reads it or not; the deadline fires and the work never happens. *)
Inductive race := InTime | LateDone (seen : bool) | Stuck.

(** The services a gRPC server of the driver is given. *)
Inductive csi_service := IdentityServer | ControllerServer | NodeServer.

Inductive eff : Set → Set :=
  (* Kubernetes API server *)
  | EPodGet (ns name : string) : eff (res pod)
  | EPodCreate (ns : string) (p : pod) : eff (res pod)
  | EPodUpdate (ns : string) (p : pod) : eff (res pod)
  | EPodDelete (ns name : string) : eff (option error)
  | EPodPatch (ns name data : string) : eff (res pod)
  | EPodList (ns : string) (selector : smap) : eff (res (list pod))
  | EPodLog (ns name container : string) : eff (res string)
  | ESecretGet (ns name : string) : eff (res secret)
  | ESecretCreate (ns : string) (s : secret) : eff (res secret)
  | ESecretUpdate (ns : string) (s : secret) : eff (res secret)
  | ESecretDelete (ns name : string) : eff (option error)
  | EJobGet (ns name : string) : eff (res job)
  | EJobCreate (ns : string) (j : job) : eff (res job)
  | EJobUpdate (ns : string) (j : job) : eff (res job)
  | EJobDelete (ns name : string) : eff (option error)
  (* rest.InClusterConfig and kubernetes.NewForConfig; a configuration, a client, a
     response, a listener is a handle *)
  | EInClusterConfig : eff (res (option Z))
  | ENewForConfig (config timeout : Z) : eff (res Z)
  (* net/http, net, grpc, standard output *)
  | EHttpGet (transport timeout : Z) (url : string) : eff (res Z)
  | EReadAll (body : Z) : eff (res string)
  | EListen (network address : string) : eff (res Z)
  | EGrpcServer : eff Z
  | EGrpcRegister (server : Z) (service : csi_service) : eff unit
  | EServe (server listener : Z) : eff (option error)
  | EGrpcStop (server : Z) : eff unit
  | EPrint (text : string) : eff unit
  (* clock, mutexes, map iteration order, goroutine races *)
  | ENow : eff Z
  | ESleep (ns : Z) : eff unit
  | ELock (i : Z) : eff unit
  | EUnlock (i : Z) : eff unit
  | EOrder (keys : list string) : eff (list string)
  | ERace : eff race
  (* the process-wide [config.ContainerResource] *)
  | EResourcesGet : eff resources
  | EResourcesSet (r : resources) : eff unit
  (* operating system *)
  | EStat (path : string) : eff (fileinfo + oserr)
  | EMkdirAll (path : string) (perm : Z) : eff (option oserr)
  | EChmod (path : string) (perm : Z) : eff (option oserr)
  | ERemove (path : string) : eff (option oserr)
  | EReadFile (path : string) : eff (string + oserr)
  | EWriteFile (path data : string) (perm : Z) : eff (option oserr)
  | EEvalSymlinks (path : string) : eff (string + oserr)
  | ELookupEnv (name : string) : eff (option string)
  | EEnviron : eff (list string)
  | EExec (cmd : string) (args : list string) (env : option (list string)) :
      eff (string * option error)
  | EStart (cmd : string) (args : list string) (env : list string) : eff unit
  (* k8s.io/utils/mount *)
  | EPathExists (path : string) : eff (bool * option oserr)
  | EMount (source target fstype : string) (options : list string) : eff (option error)
  | EUnmount (target : string) : eff (option error)
  | EIsLikelyNotMountPoint (path : string) : eff (res bool)
  | EIsNotMountPoint (path : string) : eff (res bool)
  | ECleanupMountPoint (path : string) : eff (option error)
  | EParseMountInfo : eff (res (list MountInfo)).

(** ** Programs *)

Inductive prog (A : Type) : Type :=
  | Ret (a : A)
  | Crash (why : string)                    (* a Go panic *)
  | Vis {X : Set} (e : eff X) (k : X → prog A).
Arguments Ret {A} a.
Arguments Crash {A} why.
Arguments Vis {A X} e k.

Definition call {X : Set} (e : eff X) : prog X := Vis e Ret.

Fixpoint prog_bind {A B} (f : A → prog B) (t : prog A) : prog B :=
  match t with
  | Ret a => f a
  | Crash s => Crash s
  | Vis e k => Vis e (λ x, prog_bind f (k x))
  end.

#[export] Instance prog_mret : MRet prog := @Ret.
#[export] Instance prog_mbind : MBind prog := @prog_bind.

(** [for i := 0; i < n; i++ { body }; after]: the body returns [Some b] to leave
    the function with [b], [None] to go on. *)
Fixpoint for_n {B} (n : nat) (body : prog (option B)) (after : prog B) : prog B :=
  match n with
  | 0 => after
  | S n' => r ← body; match r with Some b => mret b | None => for_n n' body after end
  end.

(** [for _, x := range l { body }] for a body that runs to its end. *)
Fixpoint for_each {A} (l : list A) (body : A → prog unit) : prog unit :=
  match l with
  | [] => mret tt
  | x :: l' => body x ;; for_each l' body
  end.

(** [mu.Lock(); defer mu.Unlock()]: the mutex is released when the rest of the
    function returns or panics. *)
Fixpoint finally {A} (t : prog A) (i : Z) : prog A :=
  match t with
  | Ret a => Vis (EUnlock i) (λ _, Ret a)
  | Crash s => Vis (EUnlock i) (λ _, Crash s)
  | Vis e k => Vis e (λ x, finally (k x) i)
  end.

Definition with_lock {A} (i : Z) (t : prog A) : prog A :=
  Vis (ELock i) (λ _, finally t i).

(** The keys of a map in the order the runtime iterates over them: any
    permutation. *)
Definition range_keys {V} (m : gmap string V) : prog (list string) :=
  let ks := (map_to_list m).*1 in
  l ← call (EOrder ks);
  mret (if decide (l ≡ₚ ks) then l else ks).

(** ** Runs *)

Inductive outcome (A : Type) := Done (a : A) | Panicked (why : string).
Arguments Done {A} a.
Arguments Panicked {A} why.

(** A request together with its answer. *)
Inductive event : Type :=
  | Ev {X : Set} (e : eff X) (x : X).

Abbreviation trace := (list event).

(** The environment: a state and an answer to every request. *)
Definition handler (W : Type) : Type := ∀ X : Set, eff X → W → X * W.

Fixpoint run {A W} (h : handler W) (t : prog A) (w : W) : outcome A * trace * W :=
  match t with
  | Ret a => (Done a, [], w)
  | Crash s => (Panicked s, [], w)
  | Vis e k =>
      let '(x, w1) := h _ e w in
      let '(o, τ, w2) := run h (k x) w1 in
      (o, Ev e x :: τ, w2)
  end.

Definition result_of {A W} (h : handler W) (t : prog A) (w : W) : outcome A :=
  (run h t w).1.1.
Definition trace_of {A W} (h : handler W) (t : prog A) (w : W) : trace :=
  (run h t w).1.2.
Definition state_of {A W} (h : handler W) (t : prog A) (w : W) : W := (run h t w).2.

(** ** Reasoning over every environment *)

(** [wp t Q τ]: after the events [τ], however the environment answers, [t] ends
    in an outcome and a trace that satisfy [Q]. *)
Fixpoint wp {A} (t : prog A) (Q : outcome A → trace → Prop) (τ : trace) : Prop :=
  match t with
  | Ret a => Q (Done a) τ
  | Crash s => Q (Panicked s) τ
  | Vis e k => ∀ x, wp (k x) Q (τ ++ [Ev e x])
  end.

Lemma wp_mono {A} (t : prog A) (Q Q' : outcome A → trace → Prop) τ :
  (∀ o τ', Q o τ' → Q' o τ') → wp t Q τ → wp t Q' τ.
Proof. intros HQ. revert τ. induction t; simpl; eauto. Qed.

Lemma wp_any {A} (t : prog A) (Q : outcome A → trace → Prop) τ :
  (∀ o τ', Q o τ') → wp t Q τ.
Proof. intros HQ. revert τ. induction t; simpl; auto. Qed.

Lemma wp_and {A} (t : prog A) (Q Q' : outcome A → trace → Prop) τ :
  wp t Q τ → wp t Q' τ → wp t (λ o τ', Q o τ' ∧ Q' o τ') τ.
Proof. revert τ. induction t; simpl; auto. Qed.

Lemma wp_bind {A B} (t : prog A) (f : A → prog B) Q τ :
  wp (t ≫= f) Q τ ↔
  wp t (λ o τ', match o with
                | Done a => wp (f a) Q τ'
                | Panicked s => Q (Panicked s) τ'
                end) τ.
Proof.
  revert τ. induction t as [a|s|X e k IH]; intros τ; [done..|].
  simpl. split; intros H x; apply IH, H.
Qed.

Lemma wp_call {X : Set} {B} (e : eff X) (f : X → prog B) Q τ :
  (∀ x, wp (f x) Q (τ ++ [Ev e x])) → wp (call e ≫= f) Q τ.
Proof. done. Qed.

Lemma wp_bind_2 {A B} (t : prog A) (f : A → prog B) Q R τ :
  wp t R τ →
  (∀ a τ', R (Done a) τ' → wp (f a) Q τ') →
  (∀ s τ', R (Panicked s) τ' → Q (Panicked s) τ') →
  wp (t ≫= f) Q τ.
Proof.
  intros Ht Hf Hp. apply wp_bind. eapply wp_mono; [|exact Ht].
  intros [a|s] τ'; simpl; eauto.
Qed.

Lemma wp_run {A W} (h : handler W) (t : prog A) Q τ w :
  wp t Q τ → Q (result_of h t w) (τ ++ trace_of h t w).
Proof.
  unfold result_of, trace_of. revert τ w.
  induction t as [a|s|X e k IH]; intros τ w; simpl.
  - by rewrite app_nil_r.
  - by rewrite app_nil_r.
  - intros Hwp. destruct (h X e w) as [x w1].
    specialize (IH x _ w1 (Hwp x)). destruct (run h (k x) w1) as [[o τ'] w2].
    simpl in *. by rewrite <- app_assoc in IH.
Qed.

(** A property of every run is proved by its weakest precondition. *)
Lemma wp_adequate {A W} (h : handler W) (t : prog A) (Q : outcome A → trace → Prop) w :
  wp t Q [] → Q (result_of h t w) (trace_of h t w).
Proof. apply (wp_run h t Q [] w). Qed.

(** Loops: an invariant of the trace kept by every iteration that goes on. *)
Lemma wp_for_n {B} (I : nat → trace → Prop) n (body : prog (option B)) after Q τ :
  I n τ →
  (∀ m τ', I (S m) τ' → wp body (λ o τ'', match o with
     | Done (Some b) => Q (Done b) τ''
     | Done None => I m τ''
     | Panicked s => Q (Panicked s) τ''
     end) τ') →
  (∀ τ', I 0 τ' → wp after Q τ') →
  wp (for_n n body after) Q τ.
Proof.
  intros HI Hb Ha. revert τ HI. induction n as [|n IH]; intros τ HI; simpl; [eauto|].
  apply wp_bind. eapply wp_mono; [|apply Hb, HI].
  intros [[b|]|s] τ' H; simpl; eauto.
Qed.

Lemma wp_finally {A} (t : prog A) i Q τ :
  wp (finally t i) Q τ ↔ wp t (λ o τ', Q o (τ' ++ [Ev (EUnlock i) tt])) τ.
Proof.
  revert τ. induction t as [a|s|X e k IH]; intros τ; simpl.
  - split; [intros H; apply (H tt)|by intros H []].
  - split; [intros H; apply (H tt)|by intros H []].
  - split; intros H x; apply IH, H.
Qed.

Lemma wp_with_lock {A} (t : prog A) i Q τ :
  wp (with_lock i t) Q τ ↔
  wp t (λ o τ', Q o (τ' ++ [Ev (EUnlock i) tt])) (τ ++ [Ev (ELock i) tt]).
Proof.
  unfold with_lock. simpl. split.
  - intros H. apply wp_finally, (H tt).
  - intros H []. by apply wp_finally.
Qed.

(** Ranging over a map visits its keys in some order. *)
Lemma wp_range_keys {V} (m : gmap string V) (Q : outcome (list string) → trace → Prop) τ :
  (∀ ks τ', ks ≡ₚ (map_to_list m).*1 → Q (Done ks) τ') → wp (range_keys m) Q τ.
Proof. intros HQ. simpl. intros l. apply HQ. by case_decide. Qed.

(** ** Properties of each event, given the events before it *)

Definition at_each (P : trace → event → Prop) (τ : trace) : Prop :=
  ∀ τ1 ev τ2, τ = τ1 ++ ev :: τ2 → P τ1 ev.

Lemma at_each_nil P : at_each P [].
Proof. intros τ1 ev τ2 H. by destruct τ1. Qed.

Lemma at_each_snoc P τ ev : at_each P τ → P τ ev → at_each P (τ ++ [ev]).
Proof.
  intros Hτ Hev τ1 ev' τ2 E.
  destruct τ2 as [|x τ2 _] using rev_ind.
  - apply app_inj_tail in E as [-> ->]. done.
  - rewrite app_comm_cons, app_assoc in E.
    apply app_inj_tail in E as [-> ->]. by eapply Hτ.
Qed.

#[export] Hint Resolve at_each_nil at_each_snoc : jfs.

(** ** Executing under a given environment *)

Lemma run_bind {A B W} (h : handler W) (t : prog A) (f : A → prog B) w :
  run h (t ≫= f) w =
  let '(o, τ1, w1) := run h t w in
  match o with
  | Done a => let '(o2, τ2, w2) := run h (f a) w1 in (o2, τ1 ++ τ2, w2)
  | Panicked s => (Panicked s, τ1, w1)
  end.
Proof.
  revert w. induction t as [a|s|X e k IH]; intros w; simpl.
  - by destruct (run h (f a) w) as [[??]?].
  - done.
  - destruct (h X e w) as [x w1]. rewrite IH.
    destruct (run h (k x) w1) as [[[a|s] τ1] w2]; [|done].
    by destruct (run h (f a) w2) as [[??]?].
Qed.

(** The outcome and the final state, without the trace. *)
Definition exec {A W} (h : handler W) (t : prog A) (w : W) : outcome A * W :=
  (result_of h t w, state_of h t w).
#[global] Arguments exec : simpl never.

Lemma exec_ret {A W} (h : handler W) (a : A) w : exec h (Ret a) w = (Done a, w).
Proof. done. Qed.

Lemma exec_vis {A W} {X : Set} (h : handler W) (e : eff X) (k : X → prog A) w :
  exec h (Vis e k) w = let '(x, w1) := h _ e w in exec h (k x) w1.
Proof.
  unfold exec, result_of, state_of. simpl. destruct (h X e w) as [x w1].
  by destruct (run h (k x) w1) as [[??]?].
Qed.

Lemma exec_call {W} {X : Set} (h : handler W) (e : eff X) w :
  exec h (call e) w = let '(x, w1) := h _ e w in (Done x, w1).
Proof. unfold call. rewrite exec_vis. by destruct (h X e w). Qed.

Lemma exec_bind {A B W} (h : handler W) (t : prog A) (f : A → prog B) w :
  exec h (t ≫= f) w =
  match exec h t w with
  | (Done a, w1) => exec h (f a) w1
  | (Panicked s, w1) => (Panicked s, w1)
  end.
Proof.
  unfold exec, result_of, state_of. rewrite run_bind.
  destruct (run h t w) as [[[a|s] τ1] w1]; [|done]. simpl.
  by destruct (run h (f a) w1) as [[??]?].
Qed.

Lemma exec_finally {A W} (h : handler W) (t : prog A) i w :
  exec h (finally t i) w =
  let '(o, w1) := exec h t w in (o, (h _ (EUnlock i) w1).2).
Proof.
  revert w. induction t as [a|s|X e k IH]; intros w; cbn [finally].
  1, 2: rewrite exec_vis; unfold exec, result_of, state_of; simpl;
    by destruct (h unit (EUnlock i) w).
  rewrite !exec_vis. destruct (h X e w) as [x w1]. apply IH.
Qed.

(** ** Automation *)

(** Unfold the monad down to the next request or library call. *)
Ltac prog_simpl :=
  cbn [wp mbind mret prog_mbind prog_mret prog_bind call fst snd].

(** ** Reading a trace *)

(** The pod a successful [EPodGet] answered with; the instant [ENow] answered. *)
Definition got_pod (ev : event) : option pod :=
  match ev with
  | @Ev X e x =>
      match e in eff X return X → option pod with
      | EPodGet _ _ => λ r, match r with Ok p => Some p | Err _ => None end
      | _ => λ _, None
      end x
  end.

Definition got_now (ev : event) : option Z :=
  match ev with
  | @Ev X e x =>
      match e in eff X return X → option Z with
      | ENow => Some
      | _ => λ _, None
      end x
  end.

Definition last_pod (τ : trace) : option pod := last (omap got_pod τ).
Definition last_now (τ : trace) : option Z := last (omap got_now τ).

Lemma last_pod_snoc τ ev :
  last_pod (τ ++ [ev]) = match got_pod ev with Some p => Some p | None => last_pod τ end.
Proof.
  unfold last_pod. rewrite omap_app. simpl. destruct (got_pod ev).
  - by rewrite last_snoc.
  - by rewrite app_nil_r.
Qed.

Lemma last_now_snoc τ ev :
  last_now (τ ++ [ev]) = match got_now ev with Some n => Some n | None => last_now τ end.
Proof.
  unfold last_now. rewrite omap_app. simpl. destruct (got_now ev).
  - by rewrite last_snoc.
  - by rewrite app_nil_r.
Qed.

(** The answer to the last [EPodGet]. *)
Definition got_get (ev : event) : option (res pod) :=
  match ev with
  | @Ev X e x =>
      match e in eff X return X → option (res pod) with
      | EPodGet _ _ => Some
      | _ => λ _, None
      end x
  end.

Definition last_get (τ : trace) : option (res pod) := last (omap got_get τ).

Lemma last_get_snoc τ ev :
  last_get (τ ++ [ev]) = match got_get ev with Some r => Some r | None => last_get τ end.
Proof.
  unfold last_get. rewrite omap_app. simpl. destruct (got_get ev).
  - by rewrite last_snoc.
  - by rewrite app_nil_r.
Qed.

#[export] Hint Rewrite last_pod_snoc last_now_snoc last_get_snoc : jfs.

(** ** Programs that never make some requests *)

Definition eff_class : Type := ∀ X : Set, eff X → bool.

Fixpoint avoids {A} (bad : eff_class) (t : prog A) : Prop :=
  match t with
  | Vis e k => bad _ e = false ∧ ∀ x, avoids bad (k x)
  | _ => True
  end.

Section Avoids.
Context (bad : eff_class).

Lemma avoids_bind {A B} (t : prog A) (f : A → prog B) :
  avoids bad t → (∀ a, avoids bad (f a)) → avoids bad (t ≫= f).
Proof. induction t as [a|s|X e k IH]; simpl; naive_solver. Qed.

Lemma avoids_for_n {B} n (body : prog (option B)) after :
  avoids bad body → avoids bad after → avoids bad (for_n n body after).
Proof.
  intros Hb Ha. induction n as [|n IH]; [done|].
  apply avoids_bind; [done|]. by intros [b|].
Qed.

Lemma avoids_for_each {A} (l : list A) (body : A → prog unit) :
  (∀ x, avoids bad (body x)) → avoids bad (for_each l body).
Proof.
  intros Hb. induction l as [|x l IH]; [done|]. by apply avoids_bind; [apply Hb|].
Qed.

Lemma avoids_with_lock {A} i (t : prog A) :
  bad _ (ELock i) = false → bad _ (EUnlock i) = false → avoids bad t →
  avoids bad (with_lock i t).
Proof.
  intros Hl Hu Ht. split; [done|]. intros _. induction t as [a|s|X e k IH]; simpl in *; naive_solver.
Qed.

Lemma avoids_mono (bad' : eff_class) {A} (t : prog A) :
  (∀ X e, bad' X e = true → bad X e = true) → avoids bad t → avoids bad' t.
Proof.
  intros Hb. induction t as [a|s|X e k IH]; simpl; [done..|]. intros [He Hk]. split; [|auto].
  destruct (bad' X e) eqn:E; [|done]. by rewrite (Hb X e E) in He.
Qed.

(** What the other requests leave unchanged is unchanged by the program. *)
Lemma wp_avoids {A T} (f : trace → T) (t : prog A) τ :
  (∀ τ (X : Set) (e : eff X) x, bad _ e = false → f (τ ++ [Ev e x]) = f τ) →
  avoids bad t → wp t (λ _ τ', f τ' = f τ) τ.
Proof.
  intros Hf. revert τ. induction t as [a|s|X e k IH]; intros τ; simpl; [done..|].
  intros [He Hk] x. rewrite <- (Hf τ X e x He). by apply IH.
Qed.
End Avoids.

#[export] Hint Resolve avoids_bind avoids_for_n avoids_for_each : jfs.

(** Proves [avoids] of a program written with calls, loops and cases. *)
Ltac avoids :=
  repeat first
    [ progress intros
    | match goal with
      | |- avoids _ (for_n _ _ _) => apply avoids_for_n
      | |- avoids _ (for_each _ _) => apply avoids_for_each
      | |- avoids _ (mbind _ _) => apply avoids_bind
      | |- avoids _ (match ?x with _ => _ end) => destruct x
      | |- avoids _ (call _) => split; [reflexivity|]
      | |- avoids _ (Vis _ _) => split; [reflexivity|]
      | |- avoids _ (mret _) => exact I
      | |- avoids _ (Ret _) => exact I
      | |- avoids _ (Crash _) => exact I
      end
    | solve [eauto with jfs] ].

(** The time slept. *)
Definition sleep_of (ev : event) : Z :=
  match ev with @Ev X e _ => match e with ESleep ns => ns | _ => 0%Z end end.

Definition slept (τ : trace) : Z := foldr Z.add 0%Z (sleep_of <$> τ).

Lemma slept_snoc τ ev : slept (τ ++ [ev]) = (slept τ + sleep_of ev)%Z.
Proof.
  unfold slept. induction τ as [|x τ IH]; csimpl; lia.
Qed.

#[export] Hint Rewrite slept_snoc : jfs.

Definition is_sleep : eff_class := λ X e, match e with ESleep _ => true | _ => false end.

Lemma wp_sleepless {A} (t : prog A) τ :
  avoids is_sleep t → wp t (λ _ τ', slept τ' = slept τ) τ.
Proof.
  apply wp_avoids. intros τ' X e x He. rewrite slept_snoc. destruct e; simpl; try lia. done.
Qed.

(** The mounts on a path that were accepted, less the unmounts that were. *)
Definition mount_weight (path : string) (ev : event) : Z :=
  match ev with
  | @Ev X e x =>
      match e in eff X return X → Z with
      | EMount _ t _ _ => λ r, if String.eqb t path && bool_decide (r = None) then 1%Z else 0%Z
      | EUnmount t => λ r, if String.eqb t path && bool_decide (r = None) then (-1)%Z else 0%Z
      | _ => λ _, 0%Z
      end x
  end.

Definition mount_balance (path : string) (τ : trace) : Z :=
  foldr Z.add 0%Z (mount_weight path <$> τ).

Lemma mount_balance_snoc path τ ev :
  mount_balance path (τ ++ [ev]) = (mount_balance path τ + mount_weight path ev)%Z.
Proof. unfold mount_balance. induction τ as [|x τ IH]; csimpl; lia. Qed.

Definition is_mounting : eff_class :=
  λ X e, match e with EMount _ _ _ _ | EUnmount _ => true | _ => false end.

Lemma wp_mountless {A} path (t : prog A) τ :
  avoids is_mounting t → wp t (λ _ τ', mount_balance path τ' = mount_balance path τ) τ.
Proof.
  apply wp_avoids. intros τ' X e x He. rewrite mount_balance_snoc.
  destruct e; simpl; try lia; done.
Qed.

(** A loop whose body sleeps at most [d]. *)
Lemma wp_sleep_loop {B} n d (body : prog (option B)) after τ :
  (0 ≤ d)%Z →
  (∀ τ', wp body (λ _ τ'', (slept τ'' ≤ slept τ' + d)%Z) τ') →
  avoids is_sleep after →
  wp (for_n n body after) (λ _ τ', (slept τ' ≤ slept τ + Z.of_nat n * d)%Z) τ.
Proof.
  intros Hd Hb Ha.
  apply (wp_for_n (λ m τ', m ≤ n ∧ (slept τ' ≤ slept τ + Z.of_nat (n - m) * d)%Z)).
  - split; [done|]. rewrite Nat.sub_diag. lia.
  - intros m τ' [Hm Hs]. assert (Z.of_nat (n - m) = Z.of_nat (n - S m) + 1)%Z as Hn by lia.
    assert (0 ≤ Z.of_nat m * d)%Z by nia.
    eapply wp_mono; [|apply Hb]. intros [[b|]|s] τ'' Hs'; [nia| |nia].
    split; [lia|]. rewrite Hn. lia.
  - intros τ' [_ Hs]. eapply wp_mono; [|by apply wp_sleepless].
    intros o τ'' ->. by rewrite Nat.sub_0_r in Hs.
Qed.

(** ** Mutexes *)

Definition is_lock : eff_class :=
  λ X e, match e with ELock _ | EUnlock _ => true | _ => false end.

Abbreviation lock_free := (avoids is_lock).

(** The mutexes held after a trace, last acquired first. *)
Definition held_step (l : list Z) (ev : event) : list Z :=
  match ev with
  | @Ev X e _ =>
      match e with
      | ELock i => i :: l
      | EUnlock i => filter (λ j, j ≠ i) l
      | _ => l
      end
  end.

Definition held (τ : trace) : list Z := fold_left held_step τ [].

(** A mutex is taken when none is held, and only a held one is released. *)
Definition lock_ok (τ : trace) (ev : event) : Prop :=
  match ev with
  | @Ev X e _ =>
      match e with
      | ELock _ => held τ = []
      | EUnlock i => held τ = [i]
      | _ => True
      end
  end.

Lemma held_snoc τ ev : held (τ ++ [ev]) = held_step (held τ) ev.
Proof. unfold held. by rewrite fold_left_app. Qed.

Lemma wp_lock_free {A} (t : prog A) τ :
  lock_free t → at_each lock_ok τ →
  wp t (λ _ τ', at_each lock_ok τ' ∧ held τ' = held τ) τ.
Proof.
  revert τ. induction t as [a|s|X e k IH]; intros τ; simpl; [done..|].
  intros [He Hk] Hτ x. eapply wp_mono; [|apply IH; [apply Hk|]].
  - intros o τ' [Hτ' ->]. split; [done|]. rewrite held_snoc. by destruct e.
  - apply at_each_snoc; [done|]. by destruct e.
Qed.

(** A lock-free body under a mutex: the mutex is taken free and released on every
    way out. *)
Lemma wp_with_lock_free {A} i (t : prog A) τ :
  lock_free t → at_each lock_ok τ → held τ = [] →
  wp (with_lock i t) (λ _ τ', at_each lock_ok τ' ∧ held τ' = []) τ.
Proof.
  intros Ht Hτ Hh. apply wp_with_lock. eapply wp_mono; [|apply wp_lock_free; [done|]].
  - intros o τ' [Hτ' Hh']. rewrite held_snoc in Hh'. simpl in Hh'. rewrite Hh in Hh'.
    split; [by apply at_each_snoc|]. rewrite held_snoc, Hh'. simpl.
    rewrite filter_cons_False by auto. done.
  - by apply at_each_snoc.
Qed.

(** A program that takes mutexes one at a time and leaves none held. *)
Definition disciplined (τ : trace) : Prop := at_each lock_ok τ ∧ held τ = [].

Definition one_lock {A} (t : prog A) : Prop :=
  ∀ τ, disciplined τ → wp t (λ _ τ', disciplined τ') τ.

Lemma one_lock_free {A} (t : prog A) : lock_free t → one_lock t.
Proof.
  intros Ht τ [Hτ Hh]. eapply wp_mono; [|by apply wp_lock_free].
  intros o τ' [Hτ' Hh']. split; [done|congruence].
Qed.

Lemma one_lock_with {A} i (t : prog A) : lock_free t → one_lock (with_lock i t).
Proof. intros Ht τ [Hτ Hh]. by apply wp_with_lock_free. Qed.

Lemma one_lock_bind {A B} (t : prog A) (f : A → prog B) :
  one_lock t → (∀ a, one_lock (f a)) → one_lock (t ≫= f).
Proof.
  intros Ht Hf τ Hτ. apply wp_bind. eapply wp_mono; [|by apply Ht].
  intros [a|s] τ'; [apply Hf|done].
Qed.

Lemma one_lock_run {A W} (h : handler W) (t : prog A) w :
  one_lock t → disciplined (trace_of h t w).
Proof.
  intros Ht. apply (wp_adequate h t (λ _ τ, disciplined τ)), Ht.
  split; [apply at_each_nil|done].
Qed.

#[export] Hint Resolve one_lock_free one_lock_with : jfs.

(** Proves [one_lock] of a sequence of lock-free parts and critical sections. *)
Ltac one_lock :=
  repeat first
    [ progress intros
    | match goal with
      | |- one_lock (mbind _ _) => apply one_lock_bind
      | |- one_lock (match ?x with _ => _ end) => destruct x
      | |- one_lock (call _) => apply one_lock_free; solve [avoids]
      | |- one_lock (mret _) => apply one_lock_free; exact I
      end
    | solve [eauto with jfs] ].

(** ** Requests and results under assumptions on the answers *)

(** As long as the answers satisfy [ans], every request satisfies [req] and the
    result satisfies [R]. *)
Fixpoint asks {A} (ans : event → Prop) (req : ∀ X : Set, eff X → Prop) (t : prog A)
    (R : A → Prop) : Prop :=
  match t with
  | Ret a => R a
  | Crash _ => True
  | Vis e k => req _ e ∧ ∀ x, ans (Ev e x) → asks ans req (k x) R
  end.

Section Asks.
Context (ans : event → Prop) (req : ∀ X : Set, eff X → Prop).

Lemma asks_mono {A} (t : prog A) (R R' : A → Prop) :
  (∀ a, R a → R' a) → asks ans req t R → asks ans req t R'.
Proof. intros HR. induction t as [a|s|X e k IH]; simpl; naive_solver. Qed.

Lemma asks_bind {A B} (t : prog A) (f : A → prog B) R :
  asks ans req t (λ a, asks ans req (f a) R) → asks ans req (t ≫= f) R.
Proof. induction t as [a|s|X e k IH]; simpl; naive_solver. Qed.

Lemma asks_bind_2 {A B} (t : prog A) (f : A → prog B) R0 R :
  asks ans req t R0 → (∀ a, R0 a → asks ans req (f a) R) → asks ans req (t ≫= f) R.
Proof. intros Ht Hf. apply asks_bind. by eapply asks_mono. Qed.

Lemma asks_call {X : Set} {B} (e : eff X) (f : X → prog B) R :
  req _ e → (∀ x, ans (Ev e x) → asks ans req (f x) R) → asks ans req (call e ≫= f) R.
Proof. done. Qed.

Lemma asks_for_n {B} n (body : prog (option B)) after (R : B → Prop) :
  asks ans req body (λ o, match o with Some b => R b | None => True end) →
  asks ans req after R → asks ans req (for_n n body after) R.
Proof.
  intros Hb Ha. induction n as [|n IH]; [done|]. simpl. apply asks_bind.
  eapply asks_mono; [|exact Hb]. by intros [b|].
Qed.

Lemma asks_for_each {A} (l : list A) (body : A → prog unit) :
  (∀ x, x ∈ l → asks ans req (body x) (λ _, True)) →
  asks ans req (for_each l body) (λ _, True).
Proof.
  induction l as [|x l IH]; intros Hb; [done|]. simpl.
  eapply asks_bind_2; [apply Hb; set_solver|]. intros _ _. apply IH. set_solver.
Qed.

Lemma asks_with_lock {A} i (t : prog A) R :
  req _ (ELock i) → req _ (EUnlock i) → asks ans req t R → asks ans req (with_lock i t) R.
Proof.
  intros Hl Hu Ht. split; [done|]. intros _ _.
  induction t as [a|s|X e k IH]; simpl in *; naive_solver.
Qed.

Lemma asks_avoids {A} (bad : eff_class) (t : prog A) :
  (∀ (X : Set) (e : eff X), bad _ e = false → req _ e) →
  avoids bad t → asks ans req t (λ _, True).
Proof. intros Hb. induction t as [a|s|X e k IH]; simpl; naive_solver. Qed.

Definition event_asks (ev : event) : Prop := match ev with Ev e _ => req _ e end.

Lemma asks_trace {A W} (h : handler W) (t : prog A) R w :
  (∀ X (e : eff X) w, ans (Ev e (h X e w).1)) →
  asks ans req t R → Forall event_asks (trace_of h t w).
Proof.
  intros Hans. unfold trace_of. revert w. induction t as [a|s|X e k IH]; intros w; simpl;
    [constructor..|].
  intros [He Hk]. specialize (Hans X e w). destruct (h X e w) as [x w1].
  specialize (IH x w1 (Hk x Hans)). destruct (run h (k x) w1) as [[o τ] w2]. by constructor.
Qed.
End Asks.

(** ** Answers a handler is known to give *)

(** A trace only grows. *)
Lemma wp_extends {A} (t : prog A) τ : wp t (λ _ τ', τ `prefix_of` τ') τ.
Proof.
  revert τ. induction t as [a|s|X e k IH]; intros τ; simpl; [done..|].
  intros x. eapply wp_mono; [|apply IH]. intros o τ'. apply prefix_app_l.
Qed.

(** An answer that was given and that [P] excludes: nothing remains to be shown. *)
Lemma wp_refuted {A} (P : event → Prop) (t : prog A) (Q : outcome A → trace → Prop) τ :
  ¬ Forall P τ → wp t (λ o τ', Forall P τ' → Q o τ') τ.
Proof.
  intros Hτ. eapply wp_mono; [|apply wp_extends].
  intros o τ' [τ2 ->] HP. apply Forall_app in HP as [HP _]. contradiction.
Qed.

Lemma not_Forall_snoc (P : event → Prop) τ ev : ¬ P ev → ¬ Forall P (τ ++ [ev]).
Proof. rewrite Forall_app, Forall_singleton. tauto. Qed.

#[export] Hint Resolve not_Forall_snoc : jfs.

Lemma trace_answers {A W} (h : handler W) (t : prog A) (P : event → Prop) w :
  (∀ X (e : eff X) w, P (Ev e (h X e w).1)) → Forall P (trace_of h t w).
Proof.
  intros HP. unfold trace_of. revert w.
  induction t as [a|s|X e k IH]; intros w; simpl; [constructor..|].
  specialize (HP X e w). destruct (h X e w) as [x w1].
  specialize (IH x w1). destruct (run h (k x) w1) as [[o τ] w2].
  by constructor.
Qed.
