(* ===== verification/Endpoint.v ===== *)
(** * pkg/util/util.go: [ParseEndpoint], the socket of the gRPC server *)

From S2P Require Import Prelude GoStrings GoUrl Kube Effects.

(** The network and the address to listen on; an old socket is removed. *)
Definition ParseEndpoint (endpoint : string) : prog (res (string * string)) :=
  match UrlParse endpoint with
  | None => mret (Err (Errorf "could not parse endpoint: %v"))
  | Some u =>
      let addr := PathJoin [u_Host u; u_Path u] in
      let scheme := ToLower (u_Scheme u) in
      if String.eqb scheme "tcp" then mret (Ok (scheme, addr))
      else if String.eqb scheme "unix" then
        let addr := PathJoin ["/"; addr] in
        e ← call (ERemove addr);
        mret (match e with
              | Some err =>
                  if IsNotExist err then Ok (scheme, addr)
                  else Err (Errorf "could not remove unix domain socket %q: %v")
              | None => Ok (scheme, addr)
              end)
      else mret (Err (Errorf "unsupported protocol: %s"))
  end.

(** ** Properties *)

Lemma PathJoin_rooted addr : ∃ r, PathJoin ["/"; addr] = "/" +:+ r.
Proof.
  unfold PathJoin. rewrite filter_cons_True by done.
  destruct (decide (addr = "")) as [->|Ha]; [by exists ""|].
  rewrite filter_cons_True, filter_nil by done. unfold Clean. simpl. by eexists.
Qed.

(** The outcome of [ParseEndpoint] and what it asked for. *)
Definition endpoint_ok (endpoint : string) (o : outcome (res (string * string))) (τ : trace) :
    Prop :=
  match o with
  | Done (Ok (scheme, addr)) =>
      (scheme = "tcp" ∧ τ = []) ∨
      (scheme = "unix" ∧ (∃ r, addr = "/" +:+ r) ∧
       ∃ e, τ = [Ev (ERemove addr) e] ∧ (e = None ∨ e = Some ENOENT))
  | Done (Err _) =>
      τ = [] ∨ ∃ r err, τ = [Ev (ERemove ("/" +:+ r)) (Some err)] ∧ err ≠ ENOENT
  | Panicked _ => False
  end.

Lemma wp_ParseEndpoint endpoint : wp (ParseEndpoint endpoint) (endpoint_ok endpoint) [].
Proof.
  unfold ParseEndpoint. destruct (UrlParse endpoint) as [u|]; [|by left].
  destruct (String.eqb_spec (ToLower (u_Scheme u)) "tcp") as [E|_]; [by left|].
  destruct (String.eqb_spec (ToLower (u_Scheme u)) "unix") as [E|_]; [|by left].
  destruct (PathJoin_rooted (PathJoin [u_Host u; u_Path u])) as [r Hr]. cbv zeta. rewrite Hr.
  apply wp_call. intros [err|].
  - unfold IsNotExist. case_bool_decide as He; cbn [wp mret prog_mret endpoint_ok].
    + right. split; [done|]. split; [by eexists|]. subst err. eauto.
    + right. eauto.
  - cbn [wp mret prog_mret endpoint_ok]. right. split; [done|]. split; [by eexists|]. eauto.
Qed.

(** Whatever the endpoint and the file system: the server listens on TCP, without
    touching a file, or on a Unix socket at an absolute path, and then the file at
    that very path, and no other, was removed or was not there. *)
Theorem ParseEndpoint_removes_socket {W} (h : handler W) w endpoint :
  endpoint_ok endpoint (result_of h (ParseEndpoint endpoint) w)
    (trace_of h (ParseEndpoint endpoint) w).
Proof. apply (wp_adequate h _ (endpoint_ok endpoint)), wp_ParseEndpoint. Qed.

(** ** The endpoints in use *)

Definition host_char (a : ascii) : bool := is_alnum a || one_of "-._" a.
Definition path_char (a : ascii) : bool := host_char a || Ascii.eqb a "/".

Lemma not_char (P : ascii → bool) c s : P c = false → all_chars P s = true → no_char c s = true.
Proof.
  intros Hc. apply all_chars_mono. intros a Ha. rewrite negb_true_iff, Ascii.eqb_neq.
  intros ->. congruence.
Qed.

Lemma host_path s : all_chars host_char s = true → all_chars path_char s = true.
Proof. apply all_chars_mono. intros a Ha. unfold path_char. by rewrite Ha. Qed.

Lemma path_no_ctl s : all_chars path_char s = true → all_chars (λ a, negb (is_ctl a)) s = true.
Proof. apply all_chars_mono. intros [[] [] [] [] [] [] [] []]; done. Qed.

Lemma unescape_host s : all_chars host_char s = true → unescape encodeHost s = Some s.
Proof.
  induction s as [|a s IH]; [done|]. rewrite all_chars_cons, andb_true_iff. intros [Ha Hs].
  assert (unescape encodeHost (String a s) = String a <$> unescape encodeHost s) as ->.
  { destruct a as [[] [] [] [] [] [] [] []]; done. }
  by rewrite IH.
Qed.

Lemma parseAuthority_host host : all_chars host_char host = true → parseAuthority host = Some host.
Proof.
  intros Hh. unfold parseAuthority.
  rewrite (LastIndex_None "@") by by apply (not_char host_char). unfold parseHost.
  destruct (HasPrefix host "[") eqn:E.
  - apply HasPrefix_true in E as [r ->]. by rewrite all_chars_app in Hh.
  - rewrite (LastIndex_None ":") by by apply (not_char host_char). by apply unescape_host.
Qed.

Lemma split_at_none c s : no_char c s = true → split_at (String c "") s = (s, "").
Proof. intros Hs. unfold split_at. by rewrite cut_char_None. Qed.

(** An URL without a fragment, a query and control characters. *)
Lemma UrlParse_simple s scheme rest u :
  all_chars path_char rest = true →
  no_char "#" s = true → all_chars (λ a, negb (is_ctl a)) s = true → s ≠ "*" →
  getscheme s = Some (scheme, rest) → parse_rest (ToLower scheme) rest = Some u →
  UrlParse s = Some u.
Proof.
  intros Hr Hf Hc Hs Hg Hp. unfold UrlParse. rewrite split_at_none by done. unfold parse_url.
  rewrite Hc. cbn [negb]. rewrite (proj2 (String.eqb_neq _ _) Hs), Hg. cbn [mbind option_bind].
  rewrite split_at_none by by apply (not_char path_char). cbn [fst]. by rewrite Hp.
Qed.

Lemma parse_rest_path scheme p :
  all_chars path_char p = true → HasPrefix p "/" = false → scheme ≠ "" →
  parse_rest scheme ("/" +:+ p) = Some (MkURL scheme "" ("/" +:+ p)).
Proof.
  intros Hp Hs Hsch. unfold parse_rest. rewrite HasPrefix_app. cbn [negb].
  assert (HasPrefix ("/" +:+ p) "//" = false) as ->.
  { destruct (HasPrefix _ _) eqn:E; [|done]. apply HasPrefix_true in E as [r [= ->]].
    by unfold HasPrefix in Hs. }
  rewrite andb_false_r, unescape_other_plain; [done|]. simpl. by apply (not_char path_char).
Qed.

Lemma parse_rest_host scheme host p :
  all_chars host_char host = true → all_chars path_char p = true → scheme ≠ "" →
  parse_rest scheme ("//" +:+ host +:+ "/" +:+ p) = Some (MkURL scheme host ("/" +:+ p)).
Proof.
  intros Hh Hp Hsch. unfold parse_rest.
  change ("//" +:+ host +:+ "/" +:+ p) with ("/" +:+ ("/" +:+ (host +:+ "/" +:+ p))).
  rewrite HasPrefix_app. cbn [negb]. rewrite (proj2 (String.eqb_neq _ _) Hsch). cbn [negb orb andb].
  change ("/" +:+ ("/" +:+ (host +:+ "/" +:+ p))) with ("//" +:+ (host +:+ "/" +:+ p)).
  rewrite HasPrefix_app. cbv zeta.
  change (drop_str 2 ("//" +:+ (host +:+ "/" +:+ p))) with (host +:+ "/" +:+ p).
  rewrite (Index_marked "/" host "" p); [|by apply (not_char host_char)].
  rewrite take_str_app, drop_str_app, parseAuthority_host by done. cbn [mbind option_bind].
  rewrite unescape_other_plain; [done|]. simpl. by apply (not_char path_char).
Qed.

(** The two forms of the endpoints in use, [unix://host/path] and [unix:/path]. *)
Lemma UrlParse_unix_host host p :
  all_chars host_char host = true → all_chars path_char p = true →
  UrlParse ("unix://" +:+ host +:+ "/" +:+ p) = Some (MkURL "unix" host ("/" +:+ p)).
Proof.
  intros Hh Hp. change ("unix://" +:+ ?r) with ("unix:" +:+ ("//" +:+ r)).
  assert (all_chars path_char ("//" +:+ host +:+ "/" +:+ p) = true) as Hr.
  { rewrite !all_chars_app, (host_path _ Hh), Hp. done. }
  eapply UrlParse_simple; [exact Hr| | |done|reflexivity|by apply parse_rest_host].
  - apply no_char_app. split; [done|]. by apply (not_char path_char).
  - rewrite all_chars_app. by rewrite (path_no_ctl _ Hr).
Qed.

Lemma UrlParse_unix_path p :
  all_chars path_char p = true → HasPrefix p "/" = false →
  UrlParse ("unix:/" +:+ p) = Some (MkURL "unix" "" ("/" +:+ p)).
Proof.
  intros Hp Hs. change ("unix:/" +:+ p) with ("unix:" +:+ ("/" +:+ p)).
  assert (all_chars path_char ("/" +:+ p) = true) as Hr by by rewrite all_chars_app, Hp.
  eapply UrlParse_simple; [exact Hr| | |done|reflexivity|by apply parse_rest_path].
  - apply no_char_app. split; [done|]. by apply (not_char path_char).
  - rewrite all_chars_app. by rewrite (path_no_ctl _ Hr).
Qed.

(** The driver listens on the socket these endpoints name. *)
Lemma exec_ParseEndpoint_unix {W} (h : handler W) w u endpoint :
  UrlParse endpoint = Some u → u_Scheme u = "unix" →
  let addr := PathJoin ["/"; PathJoin [u_Host u; u_Path u]] in
  exec h (ParseEndpoint endpoint) w =
  let '(e, w') := h _ (ERemove addr) w in
  (Done (if bool_decide (e = None ∨ e = Some ENOENT) then Ok ("unix", addr)
         else Err (Errorf "could not remove unix domain socket %q: %v")), w').
Proof.
  intros Hu Hs addr. unfold ParseEndpoint. rewrite Hu, Hs.
  change (String.eqb (ToLower "unix") "tcp") with false.
  change (String.eqb (ToLower "unix") "unix") with true. cbv iota. fold addr.
  rewrite exec_bind, exec_call. destruct (h _ (ERemove addr) w) as [[err|] w'].
  - unfold IsNotExist. destruct (decide (err = ENOENT)) as [->|Hne]; [done|].
    rewrite !bool_decide_eq_false_2 by naive_solver. done.
  - by rewrite bool_decide_eq_true_2 by auto.
Qed.
