(* ===== verification/Threads.v ===== *)
(** * Goroutines: programs that run interleaved

    A pool of programs over one environment.  In a step one of them makes its next
    request; a mutex is taken only while nobody holds it, so a program that asks
    for a held mutex waits.  Others (users, kubelets, controllers) change the state
    of the environment between the steps, as far as a relation [env] allows.

    The pool is a small-step semantics; the trace a thread has left is its view of
    the past.  Mutual exclusion is an invariant of all pools.  Programs that take
    mutexes one at a time ([one_lock]) never block each other for good: every
    schedule ends with all threads finished. *)

From stdpp Require Import relations.
From S2P Require Import Prelude Kube Effects.

(** ** The pool *)

Record thread := Thread { t_trace : trace; t_prog : prog unit }.

Record system (W : Type) := System { sys_world : W; sys_threads : list thread }.
Arguments System {W} _ _.
Arguments sys_world {W} _.
Arguments sys_threads {W} _.

(** A request waits only for a mutex that a thread holds. *)
Definition enabled {X : Set} (e : eff X) (ts : list thread) : Prop :=
  match e with ELock i => Forall (λ t, i ∉ held (t_trace t)) ts | _ => True end.

Inductive thread_step {W} (h : handler W) : system W → system W → Prop :=
  | step_thread w ts n τ (X : Set) (e : eff X) (k : X → prog unit) x w' :
      ts !! n = Some (Thread τ (Vis e k)) →
      enabled e ts →
      h X e w = (x, w') →
      thread_step h (System w ts) (System w' (<[n := Thread (τ ++ [Ev e x]) (k x)]> ts)).

Inductive step {W} (h : handler W) (env : W → W → Prop) : system W → system W → Prop :=
  | step_own s s' : thread_step h s s' → step h env s s'
  | step_env w w' ts : env w w' → step h env (System w ts) (System w' ts).

Definition start {W} (w : W) (ps : list (prog unit)) : system W :=
  System w (Thread [] <$> ps).

(** A thread that has returned, or panicked. *)
Definition finished (t : thread) : Prop :=
  match t_prog t with Vis _ _ => False | _ => True end.

#[export] Hint Constructors thread_step step : jfs.

(** *** Schedules, executed *)

#[export] Instance enabled_dec {X : Set} (e : eff X) ts : Decision (enabled e ts).
Proof. destruct e; simpl; apply _. Defined.

(** The [n]th thread makes its next request, if it has one and need not wait. *)
Definition advance {W} (h : handler W) (s : system W) (n : nat) : system W :=
  match sys_threads s !! n with
  | Some (Thread τ (Vis e k)) =>
      if decide (enabled e (sys_threads s)) then
        let r := h _ e (sys_world s) in
        System r.2 (<[n := Thread (τ ++ [Ev e r.1]) (k r.1)]> (sys_threads s))
      else s
  | _ => s
  end.

Definition schedule {W} (h : handler W) (ns : list nat) (s : system W) : system W :=
  fold_left (advance h) ns s.

Lemma schedule_steps {W} (h : handler W) env ns s : rtc (step h env) s (schedule h ns s).
Proof.
  revert s. induction ns as [|n ns IH]; intros s; [apply rtc_refl|].
  trans (advance h s n); [|apply IH].
  unfold advance. destruct s as [w ts]; simpl.
  destruct (ts !! n) as [[τ [a|c|X e k]]|] eqn:Hn; [done|done| |done].
  case_decide as He; [|done]. apply rtc_once, step_own.
  apply (step_thread h w ts n τ X e k); [done|done|]. by destruct (h X e w).
Qed.

(** ** What a thread has asked for and may ask for next *)

(** [safe ans P t R τ]: after the trace [τ], as long as the answers satisfy [ans],
    every request [t] makes satisfies [P] with the trace before it, and if [t]
    returns, the result and the trace satisfy [R]. *)
Definition request_spec : Type := trace → ∀ X : Set, eff X → Prop.

Fixpoint safe {A} (ans : event → Prop) (P : request_spec) (t : prog A)
    (R : A → trace → Prop) (τ : trace) : Prop :=
  match t with
  | Ret a => R a τ
  | Crash _ => True
  | Vis e k => P τ _ e ∧ ∀ x, ans (Ev e x) → safe ans P (k x) R (τ ++ [Ev e x])
  end.

Lemma safe_mono {A} ans P (t : prog A) (R R' : A → trace → Prop) τ :
  (∀ a τ', R a τ' → R' a τ') → safe ans P t R τ → safe ans P t R' τ.
Proof. intros HR. revert τ. induction t as [a|s|X e k IH]; intros τ; simpl; naive_solver. Qed.

Lemma safe_bind {A B} ans P (t : prog A) (f : A → prog B) R τ :
  safe ans P t (λ a, safe ans P (f a) R) τ → safe ans P (t ≫= f) R τ.
Proof. revert τ. induction t as [a|s|X e k IH]; intros τ; simpl; naive_solver. Qed.

Lemma safe_bind_2 {A B} ans P (t : prog A) (f : A → prog B) R0 R τ :
  safe ans P t R0 τ → (∀ a τ', R0 a τ' → safe ans P (f a) R τ') → safe ans P (t ≫= f) R τ.
Proof. intros Ht Hf. apply safe_bind. by eapply safe_mono. Qed.

Lemma safe_call {X : Set} {B} ans (P : request_spec) (e : eff X) (f : X → prog B) R τ :
  P τ _ e → (∀ x, ans (Ev e x) → safe ans P (f x) R (τ ++ [Ev e x])) →
  safe ans P (call e ≫= f) R τ.
Proof. done. Qed.

(** A loop: an invariant of the trace that every iteration keeps. *)
Lemma safe_for_n {B} ans P (I : trace → Prop) n (body : prog (option B)) after R τ :
  I τ →
  (∀ τ', I τ' → safe ans P body (λ o τ'', match o with Some b => R b τ'' | None => I τ'' end) τ') →
  (∀ τ', I τ' → safe ans P after R τ') →
  safe ans P (for_n n body after) R τ.
Proof.
  intros HI Hb Ha. revert τ HI. induction n as [|n IH]; intros τ HI; simpl; [auto|].
  eapply safe_bind_2; [by apply Hb|]. intros [b|] τ'; simpl; auto.
Qed.

Lemma safe_with_lock {A} ans (P : request_spec) i (t : prog A) R τ :
  P τ _ (ELock i) → (∀ τ', P τ' _ (EUnlock i)) →
  safe ans P t (λ a τ', R a (τ' ++ [Ev (EUnlock i) tt])) (τ ++ [Ev (ELock i) tt]) →
  safe ans P (with_lock i t) R τ.
Proof.
  intros Hl Hu Ht. split; [done|]. intros [] _. revert Ht. generalize (τ ++ [Ev (ELock i) tt]).
  induction t as [a|s|X e k IH]; intros τ1 Ht; simpl in *.
  - split; [done|]. by intros [] _.
  - by split.
  - destruct Ht as [He Hk]. split; [done|]. intros x Hx. by apply IH, Hk.
Qed.

(** ** Invariants of the pool *)

Section Pool.
Context {W : Type} (h : handler W) (env : W → W → Prop).

Definition reachable (w : W) (ps : list (prog unit)) : system W → Prop :=
  rtc (step h env) (start w ps).

(** Threads are only advanced, one request at a time. *)
Lemma step_threads (I : thread → Prop) s s' :
  (∀ τ (X : Set) (e : eff X) (k : X → prog unit) w, I (Thread τ (Vis e k)) →
     I (Thread (τ ++ [Ev e (h X e w).1]) (k (h X e w).1))) →
  step h env s s' → Forall I (sys_threads s) → Forall I (sys_threads s').
Proof.
  intros HI [s1 s2 [w ts n τ X e k x w' Hn _ Hh]|]; simpl; [|done].
  intros Hts. apply Forall_insert; [done|].
  specialize (HI τ X e k w (Forall_lookup_1 _ _ _ _ Hts Hn)). by rewrite Hh in HI.
Qed.

Lemma reachable_threads (I : thread → Prop) w ps s :
  (∀ τ (X : Set) (e : eff X) (k : X → prog unit) w, I (Thread τ (Vis e k)) →
     I (Thread (τ ++ [Ev e (h X e w).1]) (k (h X e w).1))) →
  Forall (λ p, I (Thread [] p)) ps →
  reachable w ps s → Forall I (sys_threads s).
Proof.
  intros HI Hps. revert s. apply rtc_ind_r.
  - by apply Forall_fmap.
  - intros s1 s2 _ Hs IH. by eapply step_threads.
Qed.

(** The same for one thread of the pool. *)
Lemma reachable_thread (I : thread → Prop) n w ps s t :
  (∀ τ (X : Set) (e : eff X) (k : X → prog unit) w, I (Thread τ (Vis e k)) →
     I (Thread (τ ++ [Ev e (h X e w).1]) (k (h X e w).1))) →
  (∀ p, ps !! n = Some p → I (Thread [] p)) →
  reachable w ps s → sys_threads s !! n = Some t → I t.
Proof.
  intros HI Hps Hs. revert t. revert Hs. revert s.
  refine (rtc_ind_r (R := step h env) (λ s, ∀ t, sys_threads s !! n = Some t → I t) (start w ps) _ _).
  - intros t Ht. simpl in Ht. apply list_lookup_fmap_Some in Ht as (p & -> & Hp). eauto.
  - intros s1 s2 _ [? ? [w1 ts m τ X e k x w' Hm _ Hh]|] IH t Ht; simpl in *; [|by apply IH].
    destruct (decide (m = n)) as [->|Hmn].
    + rewrite list_lookup_insert_eq in Ht by by eapply lookup_lt_Some. injection Ht as <-.
      specialize (HI τ X e k w1 (IH _ Hm)). by rewrite Hh in HI.
    + rewrite list_lookup_insert_ne in Ht by done. by apply IH.
Qed.

(** *** Mutexes *)

(** The thread takes mutexes one at a time, has done so, and will release them. *)
Definition locks_ok (t : thread) : Prop :=
  wp (t_prog t) (λ _ τ, disciplined τ) (t_trace t).

Lemma locks_ok_past (w : W) t : locks_ok t → at_each lock_ok (t_trace t).
Proof.
  intros Ht. apply (wp_run h _ _ _ w) in Ht as [Ht _].
  intros τ1 ev τ2 E. eapply Ht. rewrite E, <- app_assoc. done.
Qed.

Lemma locks_ok_next (w : W) τ (X : Set) (e : eff X) k x :
  locks_ok (Thread τ (Vis e k)) → lock_ok τ (Ev e x).
Proof.
  intros Ht. eapply (locks_ok_past w (Thread _ (k x)) (Ht x)). done.
Qed.

Lemma locks_ok_start p : one_lock p → locks_ok (Thread [] p).
Proof. intros Hp. apply Hp. split; [apply at_each_nil|done]. Qed.

Lemma held_step_elem i τ (X : Set) (e : eff X) x :
  i ∈ held (τ ++ [Ev e x]) →
  i ∈ held τ ∨ ∃ H : X = unit, eq_rect X eff e unit H = ELock i.
Proof.
  rewrite held_snoc. destruct e; simpl; try (by left).
  - rewrite elem_of_cons. intros [->|Hi]; [|by left]. right. by exists eq_refl.
  - rewrite list_elem_of_filter. naive_solver.
Qed.

(** No two threads hold the same mutex. *)
Definition exclusive (ts : list thread) : Prop :=
  ∀ n m t u i, ts !! n = Some t → ts !! m = Some u →
    i ∈ held (t_trace t) → i ∈ held (t_trace u) → n = m.

Lemma exclusive_insert ts n τ (X : Set) (e : eff X) (k : X → prog unit) x :
  ts !! n = Some (Thread τ (Vis e k)) → enabled e ts → exclusive ts →
  exclusive (<[n := Thread (τ ++ [Ev e x]) (k x)]> ts).
Proof.
  intros Hn He Hts.
  assert (∀ m u i, n ≠ m → ts !! m = Some u → i ∈ held (t_trace u) →
            i ∉ held (τ ++ [Ev e x])) as Hnew.
  { intros m u i Hnm Hm Hu Hi. apply held_step_elem in Hi as [Hi|[Hty He']].
    - apply Hnm. by eapply Hts.
    - subst X. simpl in He'. subst e. simpl in He.
      by eapply (Forall_lookup_1 _ _ _ _ He Hm). }
  assert (n < length ts) as Hlen by by eapply lookup_lt_Some.
  intros m1 m2 t u i H1 H2 Ht Hu. destruct (decide (n = m1)) as [<-|N1], (decide (n = m2)) as [<-|N2].
  - done.
  - rewrite list_lookup_insert_eq in H1 by done. injection H1 as <-.
    rewrite list_lookup_insert_ne in H2 by done. by destruct (Hnew m2 u i N2 H2 Hu).
  - rewrite list_lookup_insert_eq in H2 by done. injection H2 as <-.
    rewrite list_lookup_insert_ne in H1 by done. by destruct (Hnew m1 t i N1 H1 Ht).
  - rewrite list_lookup_insert_ne in H1, H2 by done. by eapply Hts.
Qed.

Lemma start_exclusive ps : exclusive (Thread [] <$> ps).
Proof.
  intros n m t u i Hn _ Ht _. apply list_lookup_fmap_Some in Hn as (p & -> & _).
  by apply elem_of_nil in Ht.
Qed.

Lemma reachable_exclusive w ps s : reachable w ps s → exclusive (sys_threads s).
Proof.
  revert s. apply rtc_ind_r; [apply start_exclusive|].
  intros s1 s2 _ [? ? [w1 ts n τ X e k x w' Hn He _]|] IH; simpl in *; [|done].
  by apply exclusive_insert.
Qed.

(** *** No deadlock *)

#[local] Instance finished_dec t : Decision (finished t).
Proof. unfold finished. destruct (t_prog t); [left|left|right]; auto. Defined.

Lemma finished_holds_none t : locks_ok t → finished t → held (t_trace t) = [].
Proof. unfold locks_ok, finished. destruct (t_prog t); [by intros []..|done]. Qed.

Lemma unfinished_next t :
  ¬ finished t → ∃ (X : Set) (e : eff X) k, t = Thread (t_trace t) (Vis e k).
Proof. destruct t as [τ [a|w|X e k]]; simpl; [intros []; exact I..|]. eauto. Qed.

(** Unless all threads have finished, one can go on: a thread that holds a mutex is
    never waiting for one. *)
Lemma pool_progress w ts :
  Forall locks_ok ts → ¬ Forall finished ts → ∃ s', thread_step h (System w ts) s'.
Proof.
  intros Hts Hfin.
  assert (∀ n t, ts !! n = Some t → ¬ finished t →
            (held (t_trace t) ≠ [] ∨ Forall (λ u, held (t_trace u) = []) ts) →
            ∃ s', thread_step h (System w ts) s') as Hgo.
  { intros n t Hn Hu Hh. destruct (unfinished_next t Hu) as (X & e & k & Et).
    pose proof (Forall_lookup_1 _ _ _ _ Hts Hn) as Hok. rewrite Et in Hn, Hok.
    destruct (h X e w) as [x w'] eqn:He. eexists.
    eapply (step_thread h w ts n (t_trace t) X e k x w'); [done| |done].
    pose proof (locks_ok_next w _ _ _ _ x Hok) as Hl.
    destruct e; simpl in *; try done. destruct Hh as [Hh|Hh]; [done|].
    eapply Forall_impl; [exact Hh|]. intros u ->. apply not_elem_of_nil. }
  destruct (decide (Forall (λ u, held (t_trace u) = []) ts)) as [Hnone|Hsome].
  - apply not_Forall_Exists in Hfin; [|apply _].
    apply Exists_exists in Hfin as (t & [n Hn]%list_elem_of_lookup & Hu).
    eapply Hgo; eauto.
  - apply not_Forall_Exists in Hsome; [|apply _].
    apply Exists_exists in Hsome as (t & [n Hn]%list_elem_of_lookup & Hh).
    apply (Hgo n t Hn); [|by left]. intros Hf. apply Hh, finished_holds_none; [|done].
    by eapply Forall_lookup_1.
Qed.

Lemma locks_ok_step τ (X : Set) (e : eff X) (k : X → prog unit) w :
  locks_ok (Thread τ (Vis e k)) →
  locks_ok (Thread (τ ++ [Ev e (h X e w).1]) (k (h X e w).1)).
Proof. intros Ht. apply Ht. Qed.

Lemma reachable_locks_ok w ps s :
  Forall one_lock ps → reachable w ps s → Forall locks_ok (sys_threads s).
Proof.
  intros Hps. apply reachable_threads; [apply locks_ok_step|].
  eapply Forall_impl; [exact Hps|]. apply locks_ok_start.
Qed.

(** *** Termination *)

(** What is left of a program after a request. *)
Definition rest_of (q p : prog unit) : Prop :=
  match p with Vis e k => ∃ x, q = k x | _ => False end.

Lemma rest_of_wf p : Acc rest_of p.
Proof.
  induction p as [a|s|X e k IH]; constructor; intros q; [done..|]. intros [x ->]. apply IH.
Qed.

(** One program of a list has advanced. *)
Definition rest_of_one (qs ps : list (prog unit)) : Prop :=
  ∃ n p q, ps !! n = Some p ∧ rest_of q p ∧ qs = <[n := q]> ps.

Lemma rest_of_one_wf ps : Acc rest_of_one ps.
Proof.
  induction ps as [|p ps IHps].
  { constructor. intros qs (n & p & q & Hn & _). done. }
  revert ps IHps. induction (rest_of_wf p) as [p _ IHp]. intros ps Hps.
  induction Hps as [ps Hps IHps]. constructor. intros qs ([|n] & p' & q & Hn & Hq & ->); simpl in *.
  - injection Hn as <-. apply IHp; [done|]. by constructor.
  - apply IHps. by exists n, p', q.
Qed.

Lemma thread_step_rest s s' :
  thread_step h s s' → rest_of_one (t_prog <$> sys_threads s') (t_prog <$> sys_threads s).
Proof.
  intros [w ts n τ X e k x w' Hn _ _]. exists n, (Vis e k), (k x). simpl.
  rewrite list_lookup_fmap, Hn, list_fmap_insert. split; [done|]. split; [by exists x|done].
Qed.

(** No schedule goes on for ever. *)
Lemma thread_step_sn s : sn (thread_step h) s.
Proof.
  remember (t_prog <$> sys_threads s) as ps eqn:E. revert s E.
  induction (rest_of_one_wf ps) as [ps _ IH]. intros s ->. constructor. intros s' Hs.
  by eapply IH; [apply thread_step_rest|].
Qed.

(** Threads that take mutexes one at a time: every schedule ends, with all threads
    finished. *)
Lemma pool_finishes w ps :
  Forall one_lock ps →
  sn (thread_step h) (start w ps) ∧
  ∀ s, rtc (thread_step h) (start w ps) s → nf (thread_step h) s →
       Forall finished (sys_threads s).
Proof.
  intros Hps. split; [apply thread_step_sn|]. intros [w1 ts] Hs Hnf.
  destruct (decide (Forall finished ts)) as [|Hfin]; [done|]. destruct Hnf.
  apply pool_progress; [|done]. apply (reachable_locks_ok w ps (System w1 ts)); [done|].
  revert Hs. apply rtc_congruence with (f := id). intros. by apply step_own.
Qed.
End Pool.
