(* ===== verification/Interference.v ===== *)
(** * A rely-guarantee logic for goroutines

    [Threads] runs programs interleaved; this file says what one of them may conclude
    about the state of the environment while the others run.  [rely] is what the
    others may do while it holds some mutexes, [guar] what it may do itself, [inv] an
    invariant of every state.  [secure] follows a program request by request: before
    each one the others have moved.  When what each thread guarantees is what the
    others rely on, a pool of secure programs keeps [inv] in every schedule. *)

From stdpp Require Import relations.
From S2P Require Import Prelude Kube Effects Threads.

(** Facts about a state; [held] are the mutexes of the thread. *)
Section Logic.
Context {W : Type} (h : handler W).
Context (rely guar : list Z → W → W → Prop) (inv : W → Prop).

(** From [w], with the mutexes [H], the program keeps its guarantee and [inv], and
    returns only where [R] holds. *)
Fixpoint secure {A} (t : prog A) (R : A → list Z → W → Prop) (H : list Z) (w : W) : Prop :=
  match t with
  | Ret a => R a H w
  | Crash _ => True
  | Vis e k => ∀ w1, rely H w w1 → inv w1 →
      let r := h _ e w1 in
      guar H w1 r.2 ∧ inv r.2 ∧ secure (k r.1) R (held_step H (Ev e r.1)) r.2
  end.

Lemma secure_mono {A} (t : prog A) (R R' : A → list Z → W → Prop) H w :
  (∀ a H' w', R a H' w' → R' a H' w') → secure t R H w → secure t R' H w.
Proof.
  intros HR. revert H w. induction t as [a|s|X e k IH]; intros H w; simpl; [auto|done|].
  intros Ht w1 Hr Hi. destruct (Ht w1 Hr Hi) as (? & ? & ?). auto.
Qed.

Lemma secure_bind {A B} (t : prog A) (f : A → prog B) R H w :
  secure t (λ a, secure (f a) R) H w → secure (t ≫= f) R H w.
Proof.
  revert H w. induction t as [a|s|X e k IH]; intros H w; simpl; [done..|].
  intros Ht w1 Hr Hi. destruct (Ht w1 Hr Hi) as (? & ? & ?). split; [done|]. split; [done|]. by apply IH.
Qed.

Lemma secure_bind_2 {A B} (t : prog A) (f : A → prog B) Q R H w :
  secure t Q H w → (∀ a H' w', Q a H' w' → secure (f a) R H' w') → secure (t ≫= f) R H w.
Proof. intros Ht Hf. apply secure_bind. by eapply secure_mono. Qed.

(** What every run of the program says of its result. *)
Lemma secure_wp {A} (t : prog A) (P : A → Prop) R H w τ :
  wp t (λ o _, match o with Done a => P a | Panicked _ => True end) τ →
  secure t R H w → secure t (λ a H' w', P a ∧ R a H' w') H w.
Proof.
  revert H w τ. induction t as [a|s|X e k IH]; intros H w τ; simpl; [done..|].
  intros Hp Ht w1 Hr Hi. destruct (Ht w1 Hr Hi) as (? & ? & ?). split; [done|]. split; [done|].
  by eapply IH.
Qed.

(** A run of one program alone. *)
Lemma secure_exec {A} (t : prog A) R H w o w' :
  (∀ H w, rely H w w) → inv w → secure t R H w → exec h t w = (o, w') →
  inv w' ∧ ∀ a, o = Done a → ∃ H', R a H' w'.
Proof.
  intros Hrefl. revert H w. induction t as [a|s|X e k IH]; intros H w Hi Ht He.
  - injection He as <- <-. split; [done|]. intros a' [= <-]. by exists H.
  - injection He as <- <-. by split.
  - destruct (Ht w (Hrefl H w) Hi) as (_ & Hi' & Ht'). rewrite exec_vis in He.
    destruct (h X e w) as [x w1]. by eapply IH.
Qed.

(** The others may move before the program starts. *)
Lemma secure_rely {A} (t : prog A) R H w w' :
  (∀ w1 w2 w3, rely H w1 w2 → rely H w2 w3 → rely H w1 w3) →
  (∀ a, R a H w → R a H w') →
  rely H w w' → secure t R H w → secure t R H w'.
Proof. intros Htrans HR Hw. destruct t; simpl; eauto. Qed.

(** The rest of the program under a deferred unlock. *)
Lemma secure_finally {A} (t : prog A) i R H w :
  secure t (λ a, secure (Vis (EUnlock i) (λ _, Ret a)) R) H w →
  (∀ s H w, secure (@Vis A _ (EUnlock i) (λ _, Crash s)) R H w) →
  secure (finally t i) R H w.
Proof.
  intros Ht Hc. revert H w Ht. induction t as [a|s|X e k IH]; intros H w Ht; cbn [finally];
    [exact Ht|apply Hc|].
  intros w1 Hr Hi. destruct (Ht w1 Hr Hi) as (? & ? & ?). split; [done|]. split; [done|]. by apply IH.
Qed.
End Logic.

(** ** Rules for a thread that holds the mutexes [H] before and after *)

Section Rules.
Context {W : Type} (h : handler W) (rely guar : list Z → W → W → Prop) (inv : W → Prop).

Definition ensures (H : list Z) {A} (t : prog A) (Q : A → W → Prop) (w : W) : Prop :=
  inv w → secure h rely guar inv t (λ a H' w', H' = H ∧ inv w' ∧ Q a w') H w.

Lemma ensures_ret H {A} (a : A) (Q : A → W → Prop) w : Q a w → ensures H (mret a) Q w.
Proof. by intros HQ Hi. Qed.

Lemma ensures_crash H {A} s (Q : A → W → Prop) w : ensures H (Crash s) Q w.
Proof. done. Qed.

Lemma ensures_mono H {A} (t : prog A) (Q R : A → W → Prop) w :
  ensures H t Q w → (∀ a w', inv w' → Q a w' → R a w') → ensures H t R w.
Proof.
  intros Ht HQ Hi. eapply secure_mono; [|by apply Ht]. intros a H' w' (-> & Hi' & Ha). auto.
Qed.

Lemma ensures_bind H {A B} (t : prog A) (f : A → prog B) Q R w :
  ensures H t Q w → (∀ a w', Q a w' → ensures H (f a) R w') → ensures H (t ≫= f) R w.
Proof.
  intros Ht Hf Hi. eapply secure_bind_2; [by apply Ht|]. intros a H' w' (-> & Hi' & Ha).
  by apply Hf.
Qed.

Lemma ensures_call H {X : Set} (e : eff X) (Q : X → W → Prop) w :
  is_lock X e = false →
  (∀ w1, rely H w w1 → inv w1 → let r := h X e w1 in
     guar H w1 r.2 ∧ inv r.2 ∧ Q r.1 r.2) →
  ensures H (call e) Q w.
Proof.
  intros He Ht _ w1 Hr Hi. destruct (Ht w1 Hr Hi) as (? & ? & ?). split; [done|]. split; [done|].
  split; [|done]. by destruct e.
Qed.

Lemma ensures_wp H {A} (t : prog A) (P : A → Prop) Q w :
  wp t (λ o _, match o with Done a => P a | Panicked _ => True end) [] →
  ensures H t Q w → ensures H t (λ a w', P a ∧ Q a w') w.
Proof.
  intros Hp Ht Hi. eapply secure_mono; [|eapply secure_wp; [exact Hp|by apply Ht]].
  naive_solver.
Qed.

Lemma ensures_for_n H {B} (P : W → Prop) n (body : prog (option B)) after Q w :
  P w → (∀ w', P w' → ensures H body (λ o w'', match o with Some b => Q b w'' | None => P w'' end) w') →
  (∀ w', P w' → ensures H after Q w') → ensures H (for_n n body after) Q w.
Proof.
  intros HP Hb Ha. revert w HP. induction n as [|n IH]; intros w HP; [by apply Ha|].
  eapply ensures_bind; [by apply Hb|]. intros [b|] w' HQ; [by apply ensures_ret|by apply IH].
Qed.

(** A program alone. *)
Lemma ensures_exec H {A} (t : prog A) Q w o w' :
  (∀ H w, rely H w w) → inv w → ensures H t Q w → exec h t w = (o, w') →
  inv w' ∧ ∀ a, o = Done a → Q a w'.
Proof.
  intros Hrefl Hi Ht He.
  destruct (secure_exec h rely guar inv t _ H w o w' Hrefl Hi (Ht Hi) He) as [Hi' HR].
  split; [done|]. intros a Ha. by destruct (HR a Ha) as (H' & _ & _ & HQ).
Qed.
End Rules.

(** ** Pools *)

Section Pool.
Context {W : Type} (h : handler W) (env : W → W → Prop).
Context (rely guar : nat → list Z → W → W → Prop) (inv : W → Prop).

(** What a thread does is what the others rely on: they hold other mutexes. *)
Record peaceful : Prop := {
  rely_trans n H w1 w2 w3 : rely n H w1 w2 → rely n H w2 w3 → rely n H w1 w3;
  guar_rely n m H H' w w' : n ≠ m → (∀ i, i ∈ H → i ∉ H') → guar m H' w w' → rely n H w w';
  env_rely n H w w' : inv w → env w w' → rely n H w w';
  env_inv w w' : inv w → env w w' → inv w' }.

Context (Hc : peaceful).

Local Abbreviation ends := (λ _ _ _, True).

(** Every thread is secure from the current state on. *)
Definition all_secure (s : system W) : Prop :=
  inv (sys_world s) ∧
  ∀ n t, sys_threads s !! n = Some t →
    secure h (rely n) (guar n) inv (t_prog t) ends (held (t_trace t)) (sys_world s).

Lemma secure_moved n t H w w' :
  rely n H w w' →
  secure h (rely n) (guar n) inv t ends H w → secure h (rely n) (guar n) inv t (A := unit) ends H w'.
Proof. intros Hr. apply secure_rely; [|done|done]. apply (rely_trans Hc). Qed.

Lemma all_secure_step s s' :
  exclusive (sys_threads s) → step h env s s' →
  (∀ n H w, rely n H w w) → all_secure s → all_secure s'.
Proof.
  intros Hex Hstep Hrefl [Hi Hs].
  destruct Hstep as [s1 s2 [w ts n τ X e k x w' Hn He Hh]|w w' ts Henv];
    unfold all_secure; cbn [sys_world sys_threads] in *.
  - destruct (Hs n _ Hn w (Hrefl n _ w) Hi) as (Hg & Hi' & Hk). rewrite Hh in Hg, Hi', Hk.
    split; [done|]. intros m t Hm. destruct (decide (m = n)) as [->|Hne].
    + rewrite list_lookup_insert_eq in Hm by by eapply lookup_lt_Some. injection Hm as <-.
      cbn [t_prog t_trace]. by rewrite held_snoc.
    + rewrite list_lookup_insert_ne in Hm by done. eapply secure_moved; [|by apply Hs].
      eapply (guar_rely Hc m n); [done| |exact Hg].
      intros i Hi1 Hi2. apply Hne. by eapply (Hex m n).
  - split; [by eapply (env_inv Hc)|]. intros n t Hn. eapply secure_moved; [|by apply Hs].
    by eapply (env_rely Hc).
Qed.

(** A pool of secure programs keeps the invariant. *)
Lemma pool_secure w ps s :
  (∀ n H w, rely n H w w) → inv w →
  (∀ n p, ps !! n = Some p → secure h (rely n) (guar n) inv p ends [] w) →
  reachable h env w ps s → all_secure s.
Proof.
  intros Hrefl Hi Hps. revert s. apply rtc_ind_r.
  - split; [done|]. intros n t Hn. simpl in Hn. apply list_lookup_fmap_Some in Hn as (p & -> & Hp).
    by apply Hps.
  - intros s1 s2 Hr Hs IH. eapply (all_secure_step s1); [|done..].
    by eapply (reachable_exclusive h env).
Qed.
End Pool.
