(* ===== verification/Config.v ===== *)
(** * pkg/config: configuration, settings of a volume, pod locks

    [Config] is the package's variables that [cmd/main.go] sets from flags and
    environment and the modelled code reads; the ones no code assigns are constants,
    and [ContainerResource], which code writes, is state of the environment
    ([EResourcesGet], [EResourcesSet]).  [ParseSetting] turns a
    volume's secrets and context into a [JfsSetting]; the YAML and JSON decoders
    it calls are the operations of [Codec]. *)

From S2P Require Import Prelude GoStrings GoHash GoTime Kube Effects.

(** ** Package variables and constants *)

Record Config := MkConfig {
  ByProcess : bool;
  EnableManager : bool;
  FormatInPod : bool;
  NodeName : string;
  Namespace : string;
  PodName : string;
  MountImage : string;
  MountLabels : string;
  HostIp : string;
  KubeletPort : string;
  CSIPod : pod;
  MountPointPath : string;
  JFSConfigPath : string;
  JFSMountPriorityName : string;
  ReconcilerInterval : Z }.

Definition PodMountBase : string := "/jfs".
Definition MountBase : string := "/var/lib/jfs".
Definition FsType : string := "juicefs".
Definition CliPath : string := "/usr/bin/juicefs".
Definition CeCliPath : string := "/usr/local/bin/juicefs".
Definition CeMountPath : string := "/bin/mount.juicefs".
Definition JfsMountPath : string := "/sbin/mount.juicefs".

Definition PodTypeKey : string := "app.kubernetes.io/name".
Definition PodTypeValue : string := "juicefs-mount".
Definition Finalizer : string := "juicefs.com/finalizer".

Definition mountPodCpuLimitKey : string := "juicefs/mount-cpu-limit".
Definition mountPodMemLimitKey : string := "juicefs/mount-memory-limit".
Definition mountPodCpuRequestKey : string := "juicefs/mount-cpu-request".
Definition mountPodMemRequestKey : string := "juicefs/mount-memory-request".
Definition mountPodLabelKey : string := "juicefs/mount-labels".
Definition mountPodAnnotationKey : string := "juicefs/mount-annotations".
Definition mountPodServiceAccount : string := "juicefs/mount-service-account".
Definition deleteDelay : string := "juicefs/mount-delete-delay".

Definition DeleteDelayTimeKey : string := "juicefs-delete-delay".
Definition DeleteDelayAtKey : string := "juicefs-delete-at".

(** ** [GetPodLock]: one of 1024 mutexes *)

(** [int(u)] for a 32-bit unsigned [u] on a platform whose [int] has [bits] bits. *)
Definition int_of_uint32 (bits : Z) (u : Z) : Z :=
  let m := (u mod 2 ^ bits)%Z in if (m <? 2 ^ (bits - 1))%Z then m else (m - 2 ^ bits)%Z.

(** The index of the mutex; [None] when it is out of the array's range, where Go
    panics. *)
Definition GetPodLock (bits : Z) (podName : string) : option Z :=
  let index := int_of_uint32 bits (fnv32a podName) in
  let i := Z.rem index 1024 in
  if (0 <=? i)%Z && (i <? 1024)%Z then Some i else None.

(** [lock := config.GetPodLock(podName); lock.Lock(); defer lock.Unlock()] on a
    64-bit platform. *)
Definition with_pod_lock {A} (podName : string) (body : prog A) : prog A :=
  match GetPodLock 64 podName with
  | Some i => with_lock i body
  | None => Crash "index out of range"
  end.

(** ** [GeneratePodTemplate] *)

Definition GeneratePodTemplate (cfg : Config) : pod :=
  let csi := p_spec (CSIPod cfg) in
  Pod (ObjMeta "" (Namespace cfg) "" "" {[PodTypeKey := PodTypeValue]} (Some ∅) [] None [])
      (PodSpec
         [Container "jfs-mount" (MountImage cfg) true [] [] [] [] (Resources None None) None None]
         [] [] (NodeName cfg) (ps_serviceAccountName csi) "" "" (ps_env csi))
      empty_status.

(** ** [JfsSetting] *)

Record JfsSetting := MkSetting {
  js_IsCe : bool;
  js_UsePod : bool;
  js_Name : string;
  js_MetaUrl : string;
  js_Source : string;
  js_Storage : string;
  js_SecretKey : string;
  js_SecretKey2 : string;
  js_Token : string;
  js_Passphrase : string;
  js_Envs : option smap;
  js_EncryptRsaKey : string;
  js_InitConfig : string;
  js_Configs : option smap;
  js_MountPodCpuLimit : string;
  js_MountPodMemLimit : string;
  js_MountPodCpuRequest : string;
  js_MountPodMemRequest : string;
  js_MountPodLabels : option smap;
  js_MountPodAnnotations : option smap;
  js_MountPodServiceAccount : string;
  js_DeletedDelay : string;
  js_VolumeId : string;
  js_MountPath : string;
  js_TargetPath : string;
  js_Options : list string;
  js_FormatCmd : string;
  js_SubPath : string;
  js_SecretName : string }.

(** [JfsSetting{Options: []string{}}]. *)
Definition empty_setting : JfsSetting :=
  MkSetting false false "" "" "" "" "" "" "" "" None "" "" None "" "" "" "" None None ""
    "" "" "" "" [] "" "" "".

Definition with_IsCe (v : bool) (s : JfsSetting) : JfsSetting :=
  MkSetting v (js_UsePod s) (js_Name s) (js_MetaUrl s) (js_Source s) (js_Storage s)
    (js_SecretKey s) (js_SecretKey2 s) (js_Token s) (js_Passphrase s) (js_Envs s)
    (js_EncryptRsaKey s) (js_InitConfig s) (js_Configs s) (js_MountPodCpuLimit s)
    (js_MountPodMemLimit s) (js_MountPodCpuRequest s) (js_MountPodMemRequest s)
    (js_MountPodLabels s) (js_MountPodAnnotations s) (js_MountPodServiceAccount s)
    (js_DeletedDelay s) (js_VolumeId s) (js_MountPath s) (js_TargetPath s) (js_Options s)
    (js_FormatCmd s) (js_SubPath s) (js_SecretName s).

Definition with_UsePod (v : bool) (s : JfsSetting) : JfsSetting :=
  MkSetting (js_IsCe s) v (js_Name s) (js_MetaUrl s) (js_Source s) (js_Storage s) (js_SecretKey
    s) (js_SecretKey2 s) (js_Token s) (js_Passphrase s) (js_Envs s) (js_EncryptRsaKey s)
    (js_InitConfig s) (js_Configs s) (js_MountPodCpuLimit s) (js_MountPodMemLimit s)
    (js_MountPodCpuRequest s) (js_MountPodMemRequest s) (js_MountPodLabels s)
    (js_MountPodAnnotations s) (js_MountPodServiceAccount s) (js_DeletedDelay s) (js_VolumeId s)
    (js_MountPath s) (js_TargetPath s) (js_Options s) (js_FormatCmd s) (js_SubPath s)
    (js_SecretName s).

Definition with_Name (v : string) (s : JfsSetting) : JfsSetting :=
  MkSetting (js_IsCe s) (js_UsePod s) v (js_MetaUrl s) (js_Source s) (js_Storage s)
    (js_SecretKey s) (js_SecretKey2 s) (js_Token s) (js_Passphrase s) (js_Envs s)
    (js_EncryptRsaKey s) (js_InitConfig s) (js_Configs s) (js_MountPodCpuLimit s)
    (js_MountPodMemLimit s) (js_MountPodCpuRequest s) (js_MountPodMemRequest s)
    (js_MountPodLabels s) (js_MountPodAnnotations s) (js_MountPodServiceAccount s)
    (js_DeletedDelay s) (js_VolumeId s) (js_MountPath s) (js_TargetPath s) (js_Options s)
    (js_FormatCmd s) (js_SubPath s) (js_SecretName s).

Definition with_MetaUrl (v : string) (s : JfsSetting) : JfsSetting :=
  MkSetting (js_IsCe s) (js_UsePod s) (js_Name s) v (js_Source s) (js_Storage s) (js_SecretKey
    s) (js_SecretKey2 s) (js_Token s) (js_Passphrase s) (js_Envs s) (js_EncryptRsaKey s)
    (js_InitConfig s) (js_Configs s) (js_MountPodCpuLimit s) (js_MountPodMemLimit s)
    (js_MountPodCpuRequest s) (js_MountPodMemRequest s) (js_MountPodLabels s)
    (js_MountPodAnnotations s) (js_MountPodServiceAccount s) (js_DeletedDelay s) (js_VolumeId s)
    (js_MountPath s) (js_TargetPath s) (js_Options s) (js_FormatCmd s) (js_SubPath s)
    (js_SecretName s).

Definition with_Source (v : string) (s : JfsSetting) : JfsSetting :=
  MkSetting (js_IsCe s) (js_UsePod s) (js_Name s) (js_MetaUrl s) v (js_Storage s) (js_SecretKey
    s) (js_SecretKey2 s) (js_Token s) (js_Passphrase s) (js_Envs s) (js_EncryptRsaKey s)
    (js_InitConfig s) (js_Configs s) (js_MountPodCpuLimit s) (js_MountPodMemLimit s)
    (js_MountPodCpuRequest s) (js_MountPodMemRequest s) (js_MountPodLabels s)
    (js_MountPodAnnotations s) (js_MountPodServiceAccount s) (js_DeletedDelay s) (js_VolumeId s)
    (js_MountPath s) (js_TargetPath s) (js_Options s) (js_FormatCmd s) (js_SubPath s)
    (js_SecretName s).

Definition with_Storage (v : string) (s : JfsSetting) : JfsSetting :=
  MkSetting (js_IsCe s) (js_UsePod s) (js_Name s) (js_MetaUrl s) (js_Source s) v (js_SecretKey
    s) (js_SecretKey2 s) (js_Token s) (js_Passphrase s) (js_Envs s) (js_EncryptRsaKey s)
    (js_InitConfig s) (js_Configs s) (js_MountPodCpuLimit s) (js_MountPodMemLimit s)
    (js_MountPodCpuRequest s) (js_MountPodMemRequest s) (js_MountPodLabels s)
    (js_MountPodAnnotations s) (js_MountPodServiceAccount s) (js_DeletedDelay s) (js_VolumeId s)
    (js_MountPath s) (js_TargetPath s) (js_Options s) (js_FormatCmd s) (js_SubPath s)
    (js_SecretName s).

Definition with_SecretKey (v : string) (s : JfsSetting) : JfsSetting :=
  MkSetting (js_IsCe s) (js_UsePod s) (js_Name s) (js_MetaUrl s) (js_Source s) (js_Storage s) v
    (js_SecretKey2 s) (js_Token s) (js_Passphrase s) (js_Envs s) (js_EncryptRsaKey s)
    (js_InitConfig s) (js_Configs s) (js_MountPodCpuLimit s) (js_MountPodMemLimit s)
    (js_MountPodCpuRequest s) (js_MountPodMemRequest s) (js_MountPodLabels s)
    (js_MountPodAnnotations s) (js_MountPodServiceAccount s) (js_DeletedDelay s) (js_VolumeId s)
    (js_MountPath s) (js_TargetPath s) (js_Options s) (js_FormatCmd s) (js_SubPath s)
    (js_SecretName s).

Definition with_SecretKey2 (v : string) (s : JfsSetting) : JfsSetting :=
  MkSetting (js_IsCe s) (js_UsePod s) (js_Name s) (js_MetaUrl s) (js_Source s) (js_Storage s)
    (js_SecretKey s) v (js_Token s) (js_Passphrase s) (js_Envs s) (js_EncryptRsaKey s)
    (js_InitConfig s) (js_Configs s) (js_MountPodCpuLimit s) (js_MountPodMemLimit s)
    (js_MountPodCpuRequest s) (js_MountPodMemRequest s) (js_MountPodLabels s)
    (js_MountPodAnnotations s) (js_MountPodServiceAccount s) (js_DeletedDelay s) (js_VolumeId s)
    (js_MountPath s) (js_TargetPath s) (js_Options s) (js_FormatCmd s) (js_SubPath s)
    (js_SecretName s).

Definition with_Token (v : string) (s : JfsSetting) : JfsSetting :=
  MkSetting (js_IsCe s) (js_UsePod s) (js_Name s) (js_MetaUrl s) (js_Source s) (js_Storage s)
    (js_SecretKey s) (js_SecretKey2 s) v (js_Passphrase s) (js_Envs s) (js_EncryptRsaKey s)
    (js_InitConfig s) (js_Configs s) (js_MountPodCpuLimit s) (js_MountPodMemLimit s)
    (js_MountPodCpuRequest s) (js_MountPodMemRequest s) (js_MountPodLabels s)
    (js_MountPodAnnotations s) (js_MountPodServiceAccount s) (js_DeletedDelay s) (js_VolumeId s)
    (js_MountPath s) (js_TargetPath s) (js_Options s) (js_FormatCmd s) (js_SubPath s)
    (js_SecretName s).

Definition with_Passphrase (v : string) (s : JfsSetting) : JfsSetting :=
  MkSetting (js_IsCe s) (js_UsePod s) (js_Name s) (js_MetaUrl s) (js_Source s) (js_Storage s)
    (js_SecretKey s) (js_SecretKey2 s) (js_Token s) v (js_Envs s) (js_EncryptRsaKey s)
    (js_InitConfig s) (js_Configs s) (js_MountPodCpuLimit s) (js_MountPodMemLimit s)
    (js_MountPodCpuRequest s) (js_MountPodMemRequest s) (js_MountPodLabels s)
    (js_MountPodAnnotations s) (js_MountPodServiceAccount s) (js_DeletedDelay s) (js_VolumeId s)
    (js_MountPath s) (js_TargetPath s) (js_Options s) (js_FormatCmd s) (js_SubPath s)
    (js_SecretName s).

Definition with_Envs (v : option smap) (s : JfsSetting) : JfsSetting :=
  MkSetting (js_IsCe s) (js_UsePod s) (js_Name s) (js_MetaUrl s) (js_Source s) (js_Storage s)
    (js_SecretKey s) (js_SecretKey2 s) (js_Token s) (js_Passphrase s) v (js_EncryptRsaKey s)
    (js_InitConfig s) (js_Configs s) (js_MountPodCpuLimit s) (js_MountPodMemLimit s)
    (js_MountPodCpuRequest s) (js_MountPodMemRequest s) (js_MountPodLabels s)
    (js_MountPodAnnotations s) (js_MountPodServiceAccount s) (js_DeletedDelay s) (js_VolumeId s)
    (js_MountPath s) (js_TargetPath s) (js_Options s) (js_FormatCmd s) (js_SubPath s)
    (js_SecretName s).

Definition with_EncryptRsaKey (v : string) (s : JfsSetting) : JfsSetting :=
  MkSetting (js_IsCe s) (js_UsePod s) (js_Name s) (js_MetaUrl s) (js_Source s) (js_Storage s)
    (js_SecretKey s) (js_SecretKey2 s) (js_Token s) (js_Passphrase s) (js_Envs s) v
    (js_InitConfig s) (js_Configs s) (js_MountPodCpuLimit s) (js_MountPodMemLimit s)
    (js_MountPodCpuRequest s) (js_MountPodMemRequest s) (js_MountPodLabels s)
    (js_MountPodAnnotations s) (js_MountPodServiceAccount s) (js_DeletedDelay s) (js_VolumeId s)
    (js_MountPath s) (js_TargetPath s) (js_Options s) (js_FormatCmd s) (js_SubPath s)
    (js_SecretName s).

Definition with_InitConfig (v : string) (s : JfsSetting) : JfsSetting :=
  MkSetting (js_IsCe s) (js_UsePod s) (js_Name s) (js_MetaUrl s) (js_Source s) (js_Storage s)
    (js_SecretKey s) (js_SecretKey2 s) (js_Token s) (js_Passphrase s) (js_Envs s)
    (js_EncryptRsaKey s) v (js_Configs s) (js_MountPodCpuLimit s) (js_MountPodMemLimit s)
    (js_MountPodCpuRequest s) (js_MountPodMemRequest s) (js_MountPodLabels s)
    (js_MountPodAnnotations s) (js_MountPodServiceAccount s) (js_DeletedDelay s) (js_VolumeId s)
    (js_MountPath s) (js_TargetPath s) (js_Options s) (js_FormatCmd s) (js_SubPath s)
    (js_SecretName s).

Definition with_Configs (v : option smap) (s : JfsSetting) : JfsSetting :=
  MkSetting (js_IsCe s) (js_UsePod s) (js_Name s) (js_MetaUrl s) (js_Source s) (js_Storage s)
    (js_SecretKey s) (js_SecretKey2 s) (js_Token s) (js_Passphrase s) (js_Envs s)
    (js_EncryptRsaKey s) (js_InitConfig s) v (js_MountPodCpuLimit s) (js_MountPodMemLimit s)
    (js_MountPodCpuRequest s) (js_MountPodMemRequest s) (js_MountPodLabels s)
    (js_MountPodAnnotations s) (js_MountPodServiceAccount s) (js_DeletedDelay s) (js_VolumeId s)
    (js_MountPath s) (js_TargetPath s) (js_Options s) (js_FormatCmd s) (js_SubPath s)
    (js_SecretName s).

Definition with_MountPodCpuLimit (v : string) (s : JfsSetting) : JfsSetting :=
  MkSetting (js_IsCe s) (js_UsePod s) (js_Name s) (js_MetaUrl s) (js_Source s) (js_Storage s)
    (js_SecretKey s) (js_SecretKey2 s) (js_Token s) (js_Passphrase s) (js_Envs s)
    (js_EncryptRsaKey s) (js_InitConfig s) (js_Configs s) v (js_MountPodMemLimit s)
    (js_MountPodCpuRequest s) (js_MountPodMemRequest s) (js_MountPodLabels s)
    (js_MountPodAnnotations s) (js_MountPodServiceAccount s) (js_DeletedDelay s) (js_VolumeId s)
    (js_MountPath s) (js_TargetPath s) (js_Options s) (js_FormatCmd s) (js_SubPath s)
    (js_SecretName s).

Definition with_MountPodMemLimit (v : string) (s : JfsSetting) : JfsSetting :=
  MkSetting (js_IsCe s) (js_UsePod s) (js_Name s) (js_MetaUrl s) (js_Source s) (js_Storage s)
    (js_SecretKey s) (js_SecretKey2 s) (js_Token s) (js_Passphrase s) (js_Envs s)
    (js_EncryptRsaKey s) (js_InitConfig s) (js_Configs s) (js_MountPodCpuLimit s) v
    (js_MountPodCpuRequest s) (js_MountPodMemRequest s) (js_MountPodLabels s)
    (js_MountPodAnnotations s) (js_MountPodServiceAccount s) (js_DeletedDelay s) (js_VolumeId s)
    (js_MountPath s) (js_TargetPath s) (js_Options s) (js_FormatCmd s) (js_SubPath s)
    (js_SecretName s).

Definition with_MountPodCpuRequest (v : string) (s : JfsSetting) : JfsSetting :=
  MkSetting (js_IsCe s) (js_UsePod s) (js_Name s) (js_MetaUrl s) (js_Source s) (js_Storage s)
    (js_SecretKey s) (js_SecretKey2 s) (js_Token s) (js_Passphrase s) (js_Envs s)
    (js_EncryptRsaKey s) (js_InitConfig s) (js_Configs s) (js_MountPodCpuLimit s)
    (js_MountPodMemLimit s) v (js_MountPodMemRequest s) (js_MountPodLabels s)
    (js_MountPodAnnotations s) (js_MountPodServiceAccount s) (js_DeletedDelay s) (js_VolumeId s)
    (js_MountPath s) (js_TargetPath s) (js_Options s) (js_FormatCmd s) (js_SubPath s)
    (js_SecretName s).

Definition with_MountPodMemRequest (v : string) (s : JfsSetting) : JfsSetting :=
  MkSetting (js_IsCe s) (js_UsePod s) (js_Name s) (js_MetaUrl s) (js_Source s) (js_Storage s)
    (js_SecretKey s) (js_SecretKey2 s) (js_Token s) (js_Passphrase s) (js_Envs s)
    (js_EncryptRsaKey s) (js_InitConfig s) (js_Configs s) (js_MountPodCpuLimit s)
    (js_MountPodMemLimit s) (js_MountPodCpuRequest s) v (js_MountPodLabels s)
    (js_MountPodAnnotations s) (js_MountPodServiceAccount s) (js_DeletedDelay s) (js_VolumeId s)
    (js_MountPath s) (js_TargetPath s) (js_Options s) (js_FormatCmd s) (js_SubPath s)
    (js_SecretName s).

Definition with_MountPodLabels (v : option smap) (s : JfsSetting) : JfsSetting :=
  MkSetting (js_IsCe s) (js_UsePod s) (js_Name s) (js_MetaUrl s) (js_Source s) (js_Storage s)
    (js_SecretKey s) (js_SecretKey2 s) (js_Token s) (js_Passphrase s) (js_Envs s)
    (js_EncryptRsaKey s) (js_InitConfig s) (js_Configs s) (js_MountPodCpuLimit s)
    (js_MountPodMemLimit s) (js_MountPodCpuRequest s) (js_MountPodMemRequest s) v
    (js_MountPodAnnotations s) (js_MountPodServiceAccount s) (js_DeletedDelay s) (js_VolumeId s)
    (js_MountPath s) (js_TargetPath s) (js_Options s) (js_FormatCmd s) (js_SubPath s)
    (js_SecretName s).

Definition with_MountPodAnnotations (v : option smap) (s : JfsSetting) : JfsSetting :=
  MkSetting (js_IsCe s) (js_UsePod s) (js_Name s) (js_MetaUrl s) (js_Source s) (js_Storage s)
    (js_SecretKey s) (js_SecretKey2 s) (js_Token s) (js_Passphrase s) (js_Envs s)
    (js_EncryptRsaKey s) (js_InitConfig s) (js_Configs s) (js_MountPodCpuLimit s)
    (js_MountPodMemLimit s) (js_MountPodCpuRequest s) (js_MountPodMemRequest s)
    (js_MountPodLabels s) v (js_MountPodServiceAccount s) (js_DeletedDelay s) (js_VolumeId s)
    (js_MountPath s) (js_TargetPath s) (js_Options s) (js_FormatCmd s) (js_SubPath s)
    (js_SecretName s).

Definition with_MountPodServiceAccount (v : string) (s : JfsSetting) : JfsSetting :=
  MkSetting (js_IsCe s) (js_UsePod s) (js_Name s) (js_MetaUrl s) (js_Source s) (js_Storage s)
    (js_SecretKey s) (js_SecretKey2 s) (js_Token s) (js_Passphrase s) (js_Envs s)
    (js_EncryptRsaKey s) (js_InitConfig s) (js_Configs s) (js_MountPodCpuLimit s)
    (js_MountPodMemLimit s) (js_MountPodCpuRequest s) (js_MountPodMemRequest s)
    (js_MountPodLabels s) (js_MountPodAnnotations s) v (js_DeletedDelay s) (js_VolumeId s)
    (js_MountPath s) (js_TargetPath s) (js_Options s) (js_FormatCmd s) (js_SubPath s)
    (js_SecretName s).

Definition with_DeletedDelay (v : string) (s : JfsSetting) : JfsSetting :=
  MkSetting (js_IsCe s) (js_UsePod s) (js_Name s) (js_MetaUrl s) (js_Source s) (js_Storage s)
    (js_SecretKey s) (js_SecretKey2 s) (js_Token s) (js_Passphrase s) (js_Envs s)
    (js_EncryptRsaKey s) (js_InitConfig s) (js_Configs s) (js_MountPodCpuLimit s)
    (js_MountPodMemLimit s) (js_MountPodCpuRequest s) (js_MountPodMemRequest s)
    (js_MountPodLabels s) (js_MountPodAnnotations s) (js_MountPodServiceAccount s) v
    (js_VolumeId s) (js_MountPath s) (js_TargetPath s) (js_Options s) (js_FormatCmd s)
    (js_SubPath s) (js_SecretName s).

Definition with_VolumeId (v : string) (s : JfsSetting) : JfsSetting :=
  MkSetting (js_IsCe s) (js_UsePod s) (js_Name s) (js_MetaUrl s) (js_Source s) (js_Storage s)
    (js_SecretKey s) (js_SecretKey2 s) (js_Token s) (js_Passphrase s) (js_Envs s)
    (js_EncryptRsaKey s) (js_InitConfig s) (js_Configs s) (js_MountPodCpuLimit s)
    (js_MountPodMemLimit s) (js_MountPodCpuRequest s) (js_MountPodMemRequest s)
    (js_MountPodLabels s) (js_MountPodAnnotations s) (js_MountPodServiceAccount s)
    (js_DeletedDelay s) v (js_MountPath s) (js_TargetPath s) (js_Options s) (js_FormatCmd s)
    (js_SubPath s) (js_SecretName s).

Definition with_MountPath (v : string) (s : JfsSetting) : JfsSetting :=
  MkSetting (js_IsCe s) (js_UsePod s) (js_Name s) (js_MetaUrl s) (js_Source s) (js_Storage s)
    (js_SecretKey s) (js_SecretKey2 s) (js_Token s) (js_Passphrase s) (js_Envs s)
    (js_EncryptRsaKey s) (js_InitConfig s) (js_Configs s) (js_MountPodCpuLimit s)
    (js_MountPodMemLimit s) (js_MountPodCpuRequest s) (js_MountPodMemRequest s)
    (js_MountPodLabels s) (js_MountPodAnnotations s) (js_MountPodServiceAccount s)
    (js_DeletedDelay s) (js_VolumeId s) v (js_TargetPath s) (js_Options s) (js_FormatCmd s)
    (js_SubPath s) (js_SecretName s).

Definition with_TargetPath (v : string) (s : JfsSetting) : JfsSetting :=
  MkSetting (js_IsCe s) (js_UsePod s) (js_Name s) (js_MetaUrl s) (js_Source s) (js_Storage s)
    (js_SecretKey s) (js_SecretKey2 s) (js_Token s) (js_Passphrase s) (js_Envs s)
    (js_EncryptRsaKey s) (js_InitConfig s) (js_Configs s) (js_MountPodCpuLimit s)
    (js_MountPodMemLimit s) (js_MountPodCpuRequest s) (js_MountPodMemRequest s)
    (js_MountPodLabels s) (js_MountPodAnnotations s) (js_MountPodServiceAccount s)
    (js_DeletedDelay s) (js_VolumeId s) (js_MountPath s) v (js_Options s) (js_FormatCmd s)
    (js_SubPath s) (js_SecretName s).

Definition with_Options (v : list string) (s : JfsSetting) : JfsSetting :=
  MkSetting (js_IsCe s) (js_UsePod s) (js_Name s) (js_MetaUrl s) (js_Source s) (js_Storage s)
    (js_SecretKey s) (js_SecretKey2 s) (js_Token s) (js_Passphrase s) (js_Envs s)
    (js_EncryptRsaKey s) (js_InitConfig s) (js_Configs s) (js_MountPodCpuLimit s)
    (js_MountPodMemLimit s) (js_MountPodCpuRequest s) (js_MountPodMemRequest s)
    (js_MountPodLabels s) (js_MountPodAnnotations s) (js_MountPodServiceAccount s)
    (js_DeletedDelay s) (js_VolumeId s) (js_MountPath s) (js_TargetPath s) v (js_FormatCmd s)
    (js_SubPath s) (js_SecretName s).

Definition with_FormatCmd (v : string) (s : JfsSetting) : JfsSetting :=
  MkSetting (js_IsCe s) (js_UsePod s) (js_Name s) (js_MetaUrl s) (js_Source s) (js_Storage s)
    (js_SecretKey s) (js_SecretKey2 s) (js_Token s) (js_Passphrase s) (js_Envs s)
    (js_EncryptRsaKey s) (js_InitConfig s) (js_Configs s) (js_MountPodCpuLimit s)
    (js_MountPodMemLimit s) (js_MountPodCpuRequest s) (js_MountPodMemRequest s)
    (js_MountPodLabels s) (js_MountPodAnnotations s) (js_MountPodServiceAccount s)
    (js_DeletedDelay s) (js_VolumeId s) (js_MountPath s) (js_TargetPath s) (js_Options s) v
    (js_SubPath s) (js_SecretName s).

Definition with_SubPath (v : string) (s : JfsSetting) : JfsSetting :=
  MkSetting (js_IsCe s) (js_UsePod s) (js_Name s) (js_MetaUrl s) (js_Source s) (js_Storage s)
    (js_SecretKey s) (js_SecretKey2 s) (js_Token s) (js_Passphrase s) (js_Envs s)
    (js_EncryptRsaKey s) (js_InitConfig s) (js_Configs s) (js_MountPodCpuLimit s)
    (js_MountPodMemLimit s) (js_MountPodCpuRequest s) (js_MountPodMemRequest s)
    (js_MountPodLabels s) (js_MountPodAnnotations s) (js_MountPodServiceAccount s)
    (js_DeletedDelay s) (js_VolumeId s) (js_MountPath s) (js_TargetPath s) (js_Options s)
    (js_FormatCmd s) v (js_SecretName s).

Definition with_SecretName (v : string) (s : JfsSetting) : JfsSetting :=
  MkSetting (js_IsCe s) (js_UsePod s) (js_Name s) (js_MetaUrl s) (js_Source s) (js_Storage s)
    (js_SecretKey s) (js_SecretKey2 s) (js_Token s) (js_Passphrase s) (js_Envs s)
    (js_EncryptRsaKey s) (js_InitConfig s) (js_Configs s) (js_MountPodCpuLimit s)
    (js_MountPodMemLimit s) (js_MountPodCpuRequest s) (js_MountPodMemRequest s)
    (js_MountPodLabels s) (js_MountPodAnnotations s) (js_MountPodServiceAccount s)
    (js_DeletedDelay s) (js_VolumeId s) (js_MountPath s) (js_TargetPath s) (js_Options s)
    (js_FormatCmd s) (js_SubPath s) v.

(** ** [ParseSetting] *)

(** The decoders: of the secrets, marshalled as one JSON object, into the fields of
    a [JfsSetting] by their tags, and of a text into a map of strings. *)
Class Codec := {
  yaml_setting : smap → option JfsSetting;
  json_setting : smap → option JfsSetting;
  yaml_map : string → option smap;
  json_map : string → option smap }.

Definition parseYamlOrJson {S A} (yaml json : S → option A) (source : S) : res A :=
  match yaml source with
  | Some a => Ok a
  | None => match json source with
            | Some a => Ok a
            | None => Err (StatusErr InvalidArgument "Parse yaml or json error: %v")
            end
  end.

(** [m[k]] for a map of strings: the empty string when absent. *)
Definition get (m : smap) (k : string) : string := default "" (m !! k).

(** The decoded map of [m[k]], the empty one when [m[k]] is empty. *)
Definition decode_key `{Codec} (m : smap) (k : string) : res smap :=
  if String.eqb (get m k) "" then Ok ∅ else parseYamlOrJson yaml_map json_map (get m k).

Definition nonempty_or (a b : string) : string := if String.eqb a "" then b else a.

(** The part of [ParseSetting] that reads the volume context: the setting, and the
    labels with the context's labels on top. *)
Definition parse_volCtx `{Codec} (volCtx : smap) (labels : smap) (s : JfsSetting) :
    res (JfsSetting * smap) :=
  let s := with_MountPodCpuLimit (get volCtx mountPodCpuLimitKey) s in
  let s := with_MountPodMemLimit (get volCtx mountPodMemLimitKey) s in
  let s := with_MountPodCpuRequest (get volCtx mountPodCpuRequestKey) s in
  let s := with_MountPodMemRequest (get volCtx mountPodMemRequestKey) s in
  let s := with_MountPodServiceAccount (get volCtx mountPodServiceAccount) s in
  let delay := get volCtx deleteDelay in
  s ← (if String.eqb delay "" then Ok s
       else match ParseDuration delay with
            | None => Err (Errorf "can't parse delay time %s")
            | Some _ => Ok (with_DeletedDelay delay s)
            end);
  ctxLabel ← decode_key volCtx mountPodLabelKey;
  let labels := ctxLabel ∪ labels in
  s ← (if String.eqb (get volCtx mountPodAnnotationKey) "" then Ok s
       else annos ← decode_key volCtx mountPodAnnotationKey;
            Ok (with_MountPodAnnotations (Some annos) s));
  Ok (s, labels).

Definition ParseSetting `{Codec} (cfg : Config) (secrets volCtx : option smap) (usePod : bool) :
    res JfsSetting :=
  match secrets with
  | None => Ok empty_setting
  | Some secrets =>
      s ← parseYamlOrJson yaml_setting json_setting secrets;
      if String.eqb (get secrets "name") "" then Err (StatusErr InvalidArgument "Empty name")
      else
      let s := with_Name (get secrets "name") s in
      let s := with_Storage (get secrets "storage") s in
      let s := with_MetaUrl (get secrets "metaurl") s in
      let s := with_IsCe (bool_decide (is_Some (secrets !! "metaurl"))) s in
      let s := with_UsePod usePod s in
      let s := with_SecretKey (nonempty_or (get secrets "secretkey") (js_SecretKey s)) s in
      let s := with_SecretKey2 (nonempty_or (get secrets "secretkey2") (js_SecretKey2 s)) s in
      configs ← decode_key secrets "configs";
      let s := with_Configs (Some configs) s in
      envs ← decode_key secrets "envs";
      let s := with_Envs (Some envs) s in
      labels ← (if String.eqb (MountLabels cfg) "" then Ok ∅
                else parseYamlOrJson yaml_map json_map (MountLabels cfg));
      '(s, labels) ← match volCtx with
                     | None => Ok (s, labels)
                     | Some ctx => parse_volCtx ctx labels s
                     end;
      Ok (if bool_decide (labels = ∅) then s else with_MountPodLabels (Some labels) s)
  end.

(** ** Lemmas *)

Lemma int_of_uint32_64 u : (0 ≤ u < 2^32)%Z → int_of_uint32 64 u = u.
Proof.
  intros Hu. unfold int_of_uint32. rewrite Z.mod_small by lia.
  by rewrite (proj2 (Z.ltb_lt _ _)) by lia.
Qed.

(** On a 64-bit platform the lock index is always in range. *)
Lemma GetPodLock_64 podName :
  GetPodLock 64 podName = Some (fnv32a podName mod 1024)%Z.
Proof.
  unfold GetPodLock. pose proof (fnv32a_range podName).
  rewrite int_of_uint32_64, Z.rem_mod_nonneg by lia.
  pose proof (Z.mod_pos_bound (fnv32a podName) 1024 ltac:(lia)).
  by rewrite (proj2 (Z.leb_le _ _)), (proj2 (Z.ltb_lt _ _)) by lia.
Qed.

Lemma with_pod_lock_eq {A} podName (body : prog A) :
  with_pod_lock podName body = with_lock (fnv32a podName mod 1024)%Z body.
Proof. unfold with_pod_lock. by rewrite GetPodLock_64. Qed.

#[export] Hint Rewrite GetPodLock_64 @with_pod_lock_eq : jfs.
#[global] Arguments GetPodLock : simpl never.
#[global] Arguments with_pod_lock : simpl never.
