(* ===== verification/Lib.v ===== *)
(** * Third-party code: parameters and the laws the driver relies on

    The pure functions of [controller-runtime], [k8s.io/utils/mount],
    [apimachinery] and [client-go] that the driver calls are the operations of
    [Lib]; [LibLaws] states the documented behaviour that some theorems use. *)

From S2P Require Import Prelude Kube Effects.

(** [fn] again and again while it returns a conflict, [S n] times at most. *)
Fixpoint attempts (n : nat) (fn : prog (option error)) : prog (option error) :=
  match n with
  | 0 => fn
  | S n' =>
      r ← fn;
      match r with
      | Some e => if IsConflict e then attempts n' fn else mret r
      | None => mret None
      end
  end.

(** The fields of client-go's [transport.Config] the driver sets. *)
Record TransportConfig := MkTransportConfig {
  tc_CAFile : string; tc_CAData : string;
  tc_CertFile : string; tc_CertData : string;
  tc_KeyFile : string; tc_KeyData : string;
  tc_Insecure : bool;
  tc_BearerToken : string }.

Class Lib := {
  (* controllerutil.AddFinalizer and RemoveFinalizer, on the list of finalizers *)
  AddFinalizer : list string → string → list string;
  RemoveFinalizer : list string → string → list string;
  (* mount.IsCorruptedMnt on the error of a system call *)
  IsCorruptedMnt : oserr → bool;
  (* resource.MustParse: None is its panic *)
  MustParse : string → option string;
  (* retry.RetryOnConflict(retry.DefaultBackoff, fn) *)
  RetryOnConflict : prog (option error) → prog (option error);
  (* json.Unmarshal into a PodList that points to an empty list; a nil pointer when
     the document is null *)
  UnmarshalPodList : string → res (option (list pod));
  (* client-go: transport.Config.HasCA, transport.TLSConfigFor and
     transport.HTTPWrappersForConfig, utilnet.SetOldTransportDefaults of an
     http.Transport with a TLS configuration, http.DefaultTransport *)
  HasCA : TransportConfig → bool;
  TLSConfigFor : TransportConfig → res (option Z);
  SetOldTransportDefaults : Z → Z;
  DefaultTransport : Z;
  HTTPWrappersForConfig : TransportConfig → Z → res Z;
  (* the offset of time.Local, in seconds east of UTC *)
  local_offset : Z }.

Class LibLaws (L : Lib) := {
  in_AddFinalizer l f g : g ∈ AddFinalizer l f ↔ g = f ∨ g ∈ l;
  in_RemoveFinalizer l f g : g ∈ RemoveFinalizer l f ↔ g ≠ f ∧ g ∈ l;
  (* a bounded number of attempts, stopping at the first that is not a conflict *)
  retry_steps : nat;
  retry_attempts fn : RetryOnConflict fn = attempts retry_steps fn }.

(** An invariant of one attempt that a conflict keeps is one of the retried call. *)
Lemma wp_attempts (I : trace → Prop) (Q : outcome (option error) → trace → Prop) n fn τ :
  I τ →
  (∀ τ', I τ' → wp fn (λ o τ'', match o with
     | Done (Some e) => Q (Done (Some e)) τ'' ∧ (IsConflict e = true → I τ'')
     | _ => Q o τ''
     end) τ') →
  wp (attempts n fn) Q τ.
Proof.
  revert τ. induction n as [|n IH]; intros τ HI Hfn; simpl.
  - eapply wp_mono; [|by apply Hfn]. intros [[e|]|s] τ'; simpl; tauto.
  - apply wp_bind. eapply wp_mono; [|by apply Hfn].
    intros [[e|]|s] τ'; simpl; [|tauto|tauto].
    intros [HQ Hc]. destruct (IsConflict e) eqn:E; simpl; [|done]. by apply IH; auto.
Qed.

Lemma wp_retry `{LibLaws} (I : trace → Prop) (Q : outcome (option error) → trace → Prop) fn τ :
  I τ →
  (∀ τ', I τ' → wp fn (λ o τ'', match o with
     | Done (Some e) => Q (Done (Some e)) τ'' ∧ (IsConflict e = true → I τ'')
     | _ => Q o τ''
     end) τ') →
  wp (RetryOnConflict fn) Q τ.
Proof. rewrite retry_attempts. apply wp_attempts. Qed.

(** Without a conflict the first attempt is the only one. *)
Lemma exec_retry_once `{LibLaws} {W} (h : handler W) fn w o w' :
  exec h fn w = (o, w') →
  (∀ e, o = Done (Some e) → IsConflict e = false) →
  exec h (RetryOnConflict fn) w = (o, w').
Proof.
  intros Hfn Hc. rewrite retry_attempts. destruct retry_steps as [|n]; [done|]. simpl.
  rewrite exec_bind, Hfn. destruct o as [[e|]|s]; [|done|done].
  by rewrite (Hc e eq_refl).
Qed.

(** ** An instance, to evaluate the model *)

Definition demo_lib : Lib := {|
  AddFinalizer l f := if decide (f ∈ l) then l else l ++ [f];
  RemoveFinalizer l f := filter (λ g, g ≠ f) l;
  IsCorruptedMnt e := bool_decide (e = Errno 107);
  MustParse := Some;
  RetryOnConflict := attempts 3;
  UnmarshalPodList s := if String.eqb s "null" then Ok None else Ok (Some []);
  HasCA c := negb (String.eqb (tc_CAFile c) "" && String.eqb (tc_CAData c) "");
  TLSConfigFor c := Ok (Some 10%Z);
  SetOldTransportDefaults t := t;
  DefaultTransport := 11%Z;
  HTTPWrappersForConfig c rt := Ok rt;
  local_offset := 0 |}.

Definition demo_laws : LibLaws demo_lib.
Proof.
  refine {| retry_steps := 3 |}; simpl.
  - intros l f g. case_decide; set_solver.
  - intros l f g. by rewrite list_elem_of_filter.
  - done.
Defined.

Lemma avoids_retry `{LibLaws} bad fn : avoids bad fn → avoids bad (RetryOnConflict fn).
Proof.
  intros Hfn. rewrite retry_attempts. induction retry_steps as [|n IH]; [done|].
  simpl. avoids.
Qed.

#[export] Hint Resolve avoids_retry : jfs.
