(* ===== verification/Client.v ===== *)
(** * pkg/juicefs/k8sclient: the API client

    Thin wrappers of the requests to the API server.  A nil object is not sent.  The
    driver has one client: [NewClient] makes it from the cluster's files, and the
    requests go through it. *)

From S2P Require Import Prelude GoTime Kube Effects.

(** The [timeout] of the package. *)
Definition client_timeout : Z := (10 * second)%Z.

Definition NewClient : prog (res Z) :=
  r ← call EInClusterConfig;
  match r with
  | Err err => mret (Err err)
  | Ok None => mret (Err (StatusErr NotFound "Can't get kube InClusterConfig"))
  | Ok (Some config) => call (ENewForConfig config client_timeout)
  end.

Definition err_of {A} (r : res A) : option error :=
  match r with Ok _ => None | Err e => Some e end.

Definition CreatePod (p : option pod) : prog (res (option pod)) :=
  match p with
  | None => mret (Ok None)
  | Some p =>
      r ← call (EPodCreate (p_namespace p) p);
      mret (match r with Ok p' => Ok (Some p') | Err e => Err e end)
  end.

Definition GetPod (podName namespace : string) : prog (res pod) :=
  call (EPodGet namespace podName).

Definition ListPod (namespace : string) (labelSelector : smap) : prog (res (list pod)) :=
  call (EPodList namespace labelSelector).

Definition GetPodLog (podName namespace containerName : string) : prog (res string) :=
  call (EPodLog namespace podName containerName).

Definition PatchPod (p : option pod) (data : string) : prog (option error) :=
  match p with
  | None => mret None
  | Some p => r ← call (EPodPatch (p_namespace p) (p_name p) data); mret (err_of r)
  end.

Definition UpdatePod (p : option pod) : prog (option error) :=
  match p with
  | None => mret None
  | Some p => r ← call (EPodUpdate (p_namespace p) p); mret (err_of r)
  end.

Definition DeletePod (p : option pod) : prog (option error) :=
  match p with
  | None => mret None
  | Some p => call (EPodDelete (p_namespace p) (p_name p))
  end.

Definition s_name (s : secret) : string := m_name (s_meta s).
Definition s_namespace (s : secret) : string := m_namespace (s_meta s).

Definition GetSecret (secretName namespace : string) : prog (res secret) :=
  call (ESecretGet namespace secretName).

Definition CreateSecret (s : option secret) : prog (res (option secret)) :=
  match s with
  | None => mret (Ok None)
  | Some s =>
      r ← call (ESecretCreate (s_namespace s) s);
      mret (match r with Ok s' => Ok (Some s') | Err e => Err e end)
  end.

Definition UpdateSecret (s : option secret) : prog (option error) :=
  match s with
  | None => mret None
  | Some s => r ← call (ESecretUpdate (s_namespace s) s); mret (err_of r)
  end.

Definition DeleteSecret (secretName namespace : string) : prog (option error) :=
  call (ESecretDelete namespace secretName).

Definition j_name (j : job) : string := m_name (j_meta j).
Definition j_namespace (j : job) : string := m_namespace (j_meta j).

Definition GetJob (jobName namespace : string) : prog (res job) :=
  call (EJobGet namespace jobName).

Definition CreateJob (j : option job) : prog (res (option job)) :=
  match j with
  | None => mret (Ok None)
  | Some j =>
      r ← call (EJobCreate (j_namespace j) j);
      mret (match r with Ok j' => Ok (Some j') | Err e => Err e end)
  end.

Definition UpdateJob (j : option job) : prog (option error) :=
  match j with
  | None => mret None
  | Some j => r ← call (EJobUpdate (j_namespace j) j); mret (err_of r)
  end.

Definition DeleteJob (jobName namespace : string) : prog (option error) :=
  call (EJobDelete namespace jobName).
