(* ===== verification/Store.v ===== *)
(** * An API server as its clients see it, and one in memory

    [PodStore] states what the refinement theorems rely on: a handler whose state
    holds the pods by namespace and name, and that answers without errors.
    [memory] is such a handler; with it theorems are applied to concrete runs. *)

From S2P Require Import Prelude GoStrings GoTime Kube Effects Client.

(** ** The interface *)

(** The API server keeps what the client wrote, and sets the rest. *)
Definition stored (p p' : pod) : Prop :=
  p_name p' = p_name p ∧ p_namespace p' = p_namespace p ∧ p_labels p' = p_labels p ∧
  p_annotations p' = p_annotations p ∧ p_finalizers p' = p_finalizers p ∧ p_spec p' = p_spec p.

(** What a client sends back unchanged to show which revision it has read. *)
Definition revision (p : pod) : string := m_resourceVersion (p_meta p).

(** A pod that is being deleted goes with its last finalizer. *)
Definition finalized (old p : pod) : Prop :=
  p_deletionTimestamp old ≠ None ∧ p_finalizers p = [].

Definition is_pod_write : eff_class := λ X e,
  match e with
  | EPodCreate _ _ | EPodUpdate _ _ | EPodDelete _ _ | EPodPatch _ _ _ => true
  | _ => false
  end.

Abbreviation podmap := (gmap (string * string) pod).

Class PodStore {W} (h : handler W) (pods : W → podmap) : Prop := {
  store_other X (e : eff X) w : is_pod_write X e = false → pods (h X e w).2 = pods w;
  store_get ns n w :
    (h _ (EPodGet ns n) w).1 = match pods w !! (ns, n) with
                               | Some p => Ok p
                               | None => Err ApiNotFound
                               end;
  store_create p w : pods w !! (p_namespace p, p_name p) = None →
    ∃ p' w', h _ (EPodCreate (p_namespace p) p) w = (Ok p', w') ∧ stored p p' ∧
             p_deletionTimestamp p' = None ∧
             pods w' = <[(p_namespace p, p_name p) := p']> (pods w);
  store_update p w old : pods w !! (p_namespace p, p_name p) = Some old →
    revision p = revision old →
    ∃ p' w', h _ (EPodUpdate (p_namespace p) p) w = (Ok p', w') ∧ stored p p' ∧
             p_deletionTimestamp p' = p_deletionTimestamp old ∧ p_status p' = p_status old ∧
             (pods w' = <[(p_namespace p, p_name p) := p']> (pods w) ∨
              finalized old p ∧ pods w' = delete (p_namespace p, p_name p) (pods w));
  (* an update of another revision than the last changes nothing *)
  store_conflict p w old : pods w !! (p_namespace p, p_name p) = Some old →
    revision p ≠ "" → revision p ≠ revision old →
    ∃ w', h _ (EPodUpdate (p_namespace p) p) w = (Err ApiConflict, w') ∧ pods w' = pods w;
  (* a pod with finalizers, or with containers that still run, is only marked *)
  store_delete ns n w p : pods w !! (ns, n) = Some p →
    ∃ w', h _ (EPodDelete ns n) w = (None, w') ∧
      ((p_finalizers p = [] ∧ pods w' = delete (ns, n) (pods w)) ∨
       ∃ p', stored p p' ∧ p_deletionTimestamp p' ≠ None ∧ pods w' = <[(ns, n) := p']> (pods w));
  store_names ns n w p : pods w !! (ns, n) = Some p → p_namespace p = ns ∧ p_name p = n;
  store_secret_get ns n w : ∀ e, (h _ (ESecretGet ns n) w).1 = Err e → e = ApiNotFound;
  store_secret_create ns s w : ∃ s', (h _ (ESecretCreate ns s) w).1 = Ok s';
  store_secret_update ns s w : ∃ s', (h _ (ESecretUpdate ns s) w).1 = Ok s' }.

(** An API server on a node whose containers have ended: nothing but finalizers
    keeps a pod that is being deleted. *)
Class PromptStore {W} (h : handler W) (pods : W → podmap) : Prop := {
  prompt_store :: PodStore h pods;
  store_finalized p w old r w' : pods w !! (p_namespace p, p_name p) = Some old →
    finalized old p → h _ (EPodUpdate (p_namespace p) p) w = (Ok r, w') →
    pods w' = delete (p_namespace p, p_name p) (pods w) }.

(** ** In memory *)

Record world := World {
  w_pods : podmap;
  w_secrets : gmap (string * string) secret;
  w_now : Z;
  w_revision : N }.

(** A plain answer to every request: reads fail as not found, writes are accepted. *)
Definition plain (X : Set) (e : eff X) : X :=
  match e with
  | EPodGet _ _ => Err ApiNotFound
  | EPodCreate _ p => Ok p
  | EPodUpdate _ p => Ok p
  | EPodDelete _ _ => None
  | EPodPatch _ _ _ => Err ApiNotFound
  | EPodList _ _ => Ok []
  | EPodLog _ _ _ => Ok ""
  | ESecretGet _ _ => Err ApiNotFound
  | ESecretCreate _ s => Ok s
  | ESecretUpdate _ s => Ok s
  | ESecretDelete _ _ => None
  | EJobGet _ _ => Err ApiNotFound
  | EJobCreate _ j => Ok j
  | EJobUpdate _ j => Ok j
  | EJobDelete _ _ => None
  | EInClusterConfig => Ok (Some 1%Z)
  | ENewForConfig _ _ => Ok 2%Z
  | EHttpGet _ _ _ => Ok 3%Z
  | EReadAll _ => Ok ""
  | EListen _ _ => Ok 4%Z
  | EGrpcServer => 5%Z
  | EGrpcRegister _ _ => tt
  | EServe _ _ => None
  | EGrpcStop _ => tt
  | EPrint _ => tt
  | ENow => 0%Z
  | ESleep _ => tt
  | ELock _ => tt
  | EUnlock _ => tt
  | EOrder keys => keys
  | ERace => InTime
  | EResourcesGet => Resources (Some ∅) (Some ∅)
  | EResourcesSet _ => tt
  | EStat _ => inl (FileInfo 1 511)
  | EMkdirAll _ _ => None
  | EChmod _ _ => None
  | ERemove _ => None
  | EReadFile _ => inl ""
  | EWriteFile _ _ _ => None
  | EEvalSymlinks p => inl p
  | ELookupEnv _ => None
  | EEnviron => []
  | EExec _ _ _ => ("", None)
  | EStart _ _ _ => tt
  | EPathExists _ => (true, None)
  | EMount _ _ _ _ => None
  | EUnmount _ => None
  | EIsLikelyNotMountPoint _ => Ok true
  | EIsNotMountPoint _ => Ok true
  | ECleanupMountPoint _ => None
  | EParseMountInfo => Ok []
  end.

Definition set_pods (ps : podmap) (w : world) : world :=
  World ps (w_secrets w) (w_now w) (w_revision w + 1)%N.

(** What the server sets: the revision, the time of the deletion and the status. *)
Definition admitted (rev : N) (deletion : option Z) (st : podstatus) (p : pod) : pod :=
  let m := p_meta p in
  Pod (ObjMeta (m_name m) (m_namespace m) (m_uid m) (append_int (Z.of_N rev) 1) (m_labels m)
         (m_annotations m) (m_finalizers m) deletion (m_ownerReferences m))
      (p_spec p) st.

Definition write_pod (p : pod) (deletion : option Z) (st : podstatus) (w : world) :
    res pod * world :=
  let p' := admitted (w_revision w) deletion st p in
  (Ok p', set_pods (<[(p_namespace p, p_name p) := p']> (w_pods w)) w).

(** The pods of the world are filed under their own names. *)
Definition filed (ps : podmap) : podmap :=
  filter (λ kp, kp.1 = (p_namespace kp.2, p_name kp.2)) ps.

Definition memory : handler world := λ X e,
  match e in eff X return world → X * world with
  | EPodGet ns n => λ w,
      (match filed (w_pods w) !! (ns, n) with Some p => Ok p | None => Err ApiNotFound end, w)
  | EPodCreate ns p => λ w,
      match filed (w_pods w) !! (p_namespace p, p_name p) with
      | Some _ => (Err (ApiOther "AlreadyExists"), w)
      | None => write_pod p None empty_status w
      end
  | EPodUpdate ns p => λ w,
      match filed (w_pods w) !! (p_namespace p, p_name p) with
      | None => (Err ApiNotFound, w)
      | Some old =>
          if negb (String.eqb (revision p) "") && negb (String.eqb (revision p) (revision old))
          then (Err ApiConflict, w)
          else match p_deletionTimestamp old, p_finalizers p with
               | Some _ as d, [] =>
                   (Ok (admitted (w_revision w) d (p_status old) p),
                    set_pods (delete (p_namespace p, p_name p) (w_pods w)) w)
               | d, _ => write_pod p d (p_status old) w
               end
      end
  | EPodDelete ns n => λ w,
      match filed (w_pods w) !! (ns, n) with
      | None => (Some ApiNotFound, w)
      | Some p =>
          match p_finalizers p with
          | [] => (None, set_pods (delete (ns, n) (w_pods w)) w)
          | _ => (None, (write_pod p (Some (w_now w)) (p_status p) w).2)
          end
      end
  | ESecretGet ns n => λ w,
      (match w_secrets w !! (ns, n) with Some s => Ok s | None => Err ApiNotFound end, w)
  | ESecretCreate ns s => λ w,
      (Ok s, World (w_pods w) (<[(ns, s_name s) := s]> (w_secrets w)) (w_now w) (w_revision w))
  | ESecretUpdate ns s => λ w,
      (Ok s, World (w_pods w) (<[(ns, s_name s) := s]> (w_secrets w)) (w_now w) (w_revision w))
  | ENow => λ w, (w_now w, w)
  | ESleep n => λ w, (tt, World (w_pods w) (w_secrets w) (w_now w + n)%Z (w_revision w))
  | e => λ w, (plain _ e, w)
  end.

#[global] Arguments write_pod : simpl never.

Lemma filed_insert p ps :
  filed (<[(p_namespace p, p_name p) := p]> ps) = <[(p_namespace p, p_name p) := p]> (filed ps).
Proof. unfold filed. by rewrite map_filter_insert_True. Qed.

Lemma filed_delete k ps : filed (delete k ps) = delete k (filed ps).
Proof. apply map_filter_delete. Qed.

Lemma stored_admitted rev d st p : stored p (admitted rev d st p).
Proof. done. Qed.

Lemma filed_write p d st w :
  filed (w_pods (write_pod p d st w).2) =
  <[(p_namespace p, p_name p) := admitted (w_revision w) d st p]> (filed (w_pods w)).
Proof. apply (filed_insert (admitted _ d st p)). Qed.

Lemma filed_written p d st w :
  filed (w_pods (write_pod p d st w).2) !! (p_namespace p, p_name p) =
  Some (admitted (w_revision w) d st p).
Proof. by rewrite filed_write, lookup_insert_eq. Qed.

Lemma memory_update p w old :
  filed (w_pods w) !! (p_namespace p, p_name p) = Some old → revision p = revision old →
  ∃ w', memory _ (EPodUpdate (p_namespace p) p) w =
          (Ok (admitted (w_revision w) (p_deletionTimestamp old) (p_status old) p), w') ∧
    filed (w_pods w') =
      (if decide (finalized old p) then delete (p_namespace p, p_name p) (filed (w_pods w))
       else <[(p_namespace p, p_name p) :=
                admitted (w_revision w) (p_deletionTimestamp old) (p_status old) p]> (filed (w_pods w))).
Proof.
  intros Hp Hr. simpl. rewrite Hp, Hr, String.eqb_refl, andb_false_r. unfold finalized.
  destruct (p_deletionTimestamp old) as [d|], (p_finalizers p) as [|f l];
    eexists; (split; [done|]).
  2-4: rewrite decide_False by naive_solver; apply filed_write.
  rewrite decide_True by done. apply filed_delete.
Qed.

#[export] Instance memory_store : PromptStore memory (λ w, filed (w_pods w)).
Proof.
  split; [split|].
  - intros X e w He. destruct e; simpl; done.
  - done.
  - intros p w Hp. simpl. rewrite Hp. do 2 eexists. rewrite (surjective_pairing (write_pod _ _ _ _)).
    split; [done|]. split; [done|]. split; [done|]. apply filed_write.
  - intros p w old Hp Hr. destruct (memory_update p w old Hp Hr) as (w' & -> & Hw).
    do 2 eexists. split; [done|]. split; [done|]. split; [done|]. split; [done|].
    rewrite Hw. case_decide; [by right|by left].
  - intros p w old Hp Hne Hr. exists w. simpl. rewrite Hp.
    apply String.eqb_neq in Hne as ->. by apply String.eqb_neq in Hr as ->.
  - intros ns n w p Hp. simpl. rewrite Hp.
    unfold filed in Hp. apply map_lookup_filter_Some in Hp as [Hp [= -> ->]].
    destruct (p_finalizers p) eqn:Hf; simpl.
    + eexists. split; [done|]. left. split; [done|]. apply filed_delete.
    + eexists. split; [done|]. right. exists (admitted (w_revision w) (Some (w_now w)) (p_status p) p).
      split; [done|]. split; [done|]. apply (filed_write p).
  - intros ns n w p [_ [= -> ->]]%map_lookup_filter_Some. done.
  - intros ns n w e. simpl. by destruct (w_secrets w !! _); intros [= <-].
  - intros ns s w. simpl. eauto.
  - intros ns s w. simpl. eauto.
  - intros p w old r w' Hp Hf He.
    (* a stale revision is refused *)
    destruct (decide (revision p = "")) as [H0|H0].
    + simpl in He. rewrite Hp, H0 in He. simpl in He.
      destruct Hf as [Hd Hf]. rewrite Hf in He. destruct (p_deletionTimestamp old); [|done].
      injection He as _ <-. apply filed_delete.
    + destruct (decide (revision p = revision old)) as [Hr|Hr].
      * destruct (memory_update p w old Hp Hr) as (w2 & He2 & Hw). rewrite He in He2.
        injection He2 as _ ->. by rewrite Hw, decide_True.
      * simpl in He. rewrite Hp in He. apply String.eqb_neq in H0, Hr. by rewrite H0, Hr in He.
Qed.
