(* ===== verification/Builder.v ===== *)
(** * pkg/juicefs/mount/builder: mount pods, jobs and secrets

    A [Builder] is the [JfsSetting] it wraps.  Functions that Go may leave by a
    panic return an [option].  The volumes of [Configs] are numbered in the order
    in which the runtime iterates over the map, here the argument [order].
    [parsePodResources] writes through the maps of the process-wide
    [config.ContainerResource], so it takes that value and returns the new one. *)

From S2P Require Import Prelude GoStrings GoTime Kube Effects Lib Config Util.

(** ** common.go *)

Definition host_path_dir (name path : string) : volume :=
  Volume name (HostPathSource path "DirectoryOrCreate").

Definition bidirectional (name path : string) : volume_mount :=
  VolumeMount name path (Some "Bidirectional").

Definition getVolumes (cfg : Config) (s : JfsSetting) : list volume :=
  [host_path_dir "jfs-dir" (MountPointPath cfg);
   host_path_dir "jfs-root-dir" (JFSConfigPath cfg)] ++
  (if String.eqb (js_EncryptRsaKey s) "" then []
   else [Volume "rsa-key" (SecretSource (js_SecretName s) [("encrypt_rsa_key", "rsa-key.pem")])]) ++
  (if String.eqb (js_InitConfig s) "" then []
   else [Volume "init_config"
           (SecretSource (js_SecretName s) [("init_config", js_Name s +:+ ".conf")])]).

Definition getVolumeMounts (s : JfsSetting) : list volume_mount :=
  [bidirectional "jfs-dir" PodMountBase; bidirectional "jfs-root-dir" "/root/.juicefs"] ++
  (if String.eqb (js_EncryptRsaKey s) "" then []
   else if js_IsCe s then [] else [VolumeMount "rsa-key" "/root/.rsa" None]) ++
  (if String.eqb (js_InitConfig s) "" then []
   else [VolumeMount "init_config" "/root/.juicefs" None]).

Definition config_name (i : nat) : string := "config-" +:+ append_int (Z.of_nat i) 1.

Definition config_volumes (order : list string) : list volume :=
  imap (λ i k, Volume (config_name (S i)) (SecretSource k [])) order.

Definition config_mounts (configs : smap) (order : list string) : list volume_mount :=
  imap (λ i k, VolumeMount (config_name (S i)) (get configs k) None) order.

Definition getInitContainer (cfg : Config) (s : JfsSetting) : container :=
  let rsa := negb (String.eqb (js_EncryptRsaKey s) "") && js_IsCe s in
  Container "jfs-format" (MountImage cfg) true
    ["sh"; "-c";
     if rsa then js_FormatCmd s +:+ " --encrypt-rsa-key=/root/.rsa/rsa-key.pem"
     else js_FormatCmd s]
    [] [js_SecretName s]
    ((if String.eqb (js_InitConfig s) "" then []
      else [VolumeMount "init_config" "/root/.juicefs" None]) ++
     (if rsa then [VolumeMount "rsa-key" "/root/.rsa" None] else []))
    (Resources None None) None None.

(** The fields of [pod.Spec.Containers[0]] the builder assigns. *)
Definition cont_mounts (vms : list volume_mount) (c : container) : container :=
  Container (c_name c) (c_image c) (c_privileged c) (c_command c) (c_env c) (c_envFrom c)
            vms (c_resources c) (c_readinessProbe c) (c_preStop c).

Definition cont_envFrom (e : list string) (c : container) : container :=
  Container (c_name c) (c_image c) (c_privileged c) (c_command c) (c_env c) e
            (c_volumeMounts c) (c_resources c) (c_readinessProbe c) (c_preStop c).

Definition cont_preStop (cmd : list string) (c : container) : container :=
  Container (c_name c) (c_image c) (c_privileged c) (c_command c) (c_env c) (c_envFrom c)
            (c_volumeMounts c) (c_resources c) (c_readinessProbe c) (Some cmd).

Definition cont_command (cmd : list string) (c : container) : container :=
  Container (c_name c) (c_image c) (c_privileged c) cmd (c_env c) (c_envFrom c)
            (c_volumeMounts c) (c_resources c) (c_readinessProbe c) (c_preStop c).

Definition on_first (f : container → container) (l : list container) : list container :=
  match l with [] => [] | c :: l' => f c :: l' end.

Definition generateJuicePod (cfg : Config) (s : JfsSetting) (order : list string) : pod :=
  let p := GeneratePodTemplate cfg in
  let volumes := getVolumes cfg s ++ config_volumes order in
  let volumeMounts := getVolumeMounts s ++ config_mounts (rd (js_Configs s)) order in
  let init := getInitContainer cfg s in
  let sp := p_spec p in
  set_spec
    (PodSpec
       (on_first (λ c, cont_envFrom [js_SecretName s] (cont_mounts volumeMounts c))
                 (ps_containers sp))
       (if String.eqb (js_FormatCmd s) "" then ps_initContainers sp
        else [cont_mounts (c_volumeMounts init ++ volumeMounts) init])
       volumes (ps_nodeName sp) (ps_serviceAccountName sp) (ps_priorityClassName sp)
       (ps_restartPolicy sp) (ps_env sp)) p.

(** ** pod.go *)

(** [m[key] = resource.MustParse(v)] when [v] is not empty. *)
Definition put_quantity `{Lib} (key v : string) (m : smap) : option smap :=
  if String.eqb v "" then Some m else q ← MustParse v; Some (<[key := q]> m).

(** The resources of the pod, and the new [config.ContainerResource]: a non-nil map
    of the latter is the very map the quantities are written to. *)
Definition parsePodResources `{Lib} (s : JfsSetting) (g : resources) :
    option (resources * resources) :=
  podLimit ← put_quantity "cpu" (js_MountPodCpuLimit s) (rd (r_limits g));
  podLimit ← put_quantity "memory" (js_MountPodMemLimit s) podLimit;
  podRequest ← put_quantity "cpu" (js_MountPodCpuRequest s) (rd (r_requests g));
  podRequest ← put_quantity "memory" (js_MountPodMemRequest s) podRequest;
  Some (Resources (Some podLimit) (Some podRequest),
        Resources ((λ _, podLimit) <$> r_limits g) ((λ _, podRequest) <$> r_requests g)).

Definition cache_volume (cacheDir : string) : volume * volume_mount :=
  let name := ReplaceAll (TrimPrefix cacheDir "/") "/" "-" in
  (host_path_dir name cacheDir, bidirectional name cacheDir).

(** The cache directories named by the mount options. *)
Definition cache_dirs_of (opt : string) : list string :=
  let optValStr := TrimSpace opt in
  if negb (HasPrefix optValStr "cache-dir") then []
  else match Split optValStr "=" with
       | [_; v] => Split (TrimSpace v) ":"
       | _ => []
       end.

Definition getCacheDirVolumes (cmd : string) : list volume * list volume_mount :=
  match Split cmd " -o " with
  | [_; opts] =>
      if negb (Contains cmd "cache-dir")
      then ([host_path_dir "jfs-default-cache" "/var/jfsCache"],
            [bidirectional "jfs-default-cache" "/var/jfsCache"])
      else split (map cache_volume (concat (map cache_dirs_of (Split opts ","))))
  | _ => ([], [])
  end.

Definition getCommand (s : JfsSetting) : option string :=
  let options := js_Options s in
  if js_IsCe s then
    StripPasswd (js_Source s) ;;          (* the argument of a log line *)
    let mountArgs := [CeMountPath; "${metaurl}"; js_MountPath s] in
    let options := if ContainsString options "metrics" then options
                   else options ++ ["metrics=0.0.0.0:9567"] in
    Some (QuoteForShell (Join (mountArgs ++ ["-o"; Join options ","]) " "))
  else
    let mountArgs := [JfsMountPath; js_Source s; js_MountPath s] in
    let options := options ++ ["foreground"] in
    let options := if String.eqb (js_EncryptRsaKey s) "" then options
                   else options ++ ["rsa-key=/root/.rsa/rsa-key.pem"] in
    Some (QuoteForShell (Join (mountArgs ++ ["-o"; Join options ","]) " ")).

Definition readiness_probe (mountPath : string) : probe :=
  Probe ["sh"; "-c"; "if [ x$(stat -c %i " +:+ mountPath +:+
                     ") = x1 ]; then exit 0; else exit 1; fi "] 1 1.

Definition mount_container (s : JfsSetting) (cmd : string) (res : resources)
    (cacheMounts : list volume_mount) (c : container) : container :=
  Container (c_name c) (c_image c) (c_privileged c) ["sh"; "-c"; cmd]
    [("JFS_FOREGROUND", "1")] (c_envFrom c) (c_volumeMounts c ++ cacheMounts) res
    (Some (readiness_probe (js_MountPath s)))
    (Some ["sh"; "-c"; "umount " +:+ js_MountPath s +:+ " && rmdir " +:+ js_MountPath s]).

(** The mount pod and the new [config.ContainerResource]. *)
Definition NewMountPod `{Lib} (cfg : Config) (s : JfsSetting) (order : list string)
    (g : resources) (podName : string) : option (pod * resources) :=
  '(resourceRequirements, g') ← parsePodResources s g;
  cmd ← getCommand s;
  let p := generateJuicePod cfg s order in
  let '(cacheVolumes, cacheVolumeMounts) := getCacheDirVolumes cmd in
  let m := p_meta p in
  let sp := p_spec p in
  let annotations := rd (js_MountPodAnnotations s) ∪ rd (m_annotations m) in
  let annotations := if String.eqb (js_DeletedDelay s) "" then annotations
                     else <[DeleteDelayTimeKey := js_DeletedDelay s]> annotations in
  Some (Pod
    (ObjMeta podName (m_namespace m) (m_uid m) (m_resourceVersion m)
       (rd (js_MountPodLabels s) ∪ m_labels m) (Some annotations)
       (AddFinalizer (m_finalizers m) Finalizer) (m_deletionTimestamp m) (m_ownerReferences m))
    (PodSpec
       (on_first (mount_container s cmd resourceRequirements cacheVolumeMounts)
                 (ps_containers sp))
       (ps_initContainers sp) (ps_volumes sp ++ cacheVolumes) (ps_nodeName sp)
       (nonempty_or (js_MountPodServiceAccount s) (ps_serviceAccountName sp))
       (JFSMountPriorityName cfg) "Always" (ps_env sp))
    (p_status p), g').

(** ** secret.go *)

Definition put_nonempty (key v : string) (m : smap) : smap :=
  if String.eqb v "" then m else <[key := v]> m.

Definition NewSecret (cfg : Config) (s : JfsSetting) : secret :=
  let data := put_nonempty "metaurl" (js_MetaUrl s) ∅ in
  let data := put_nonempty "secretkey" (js_SecretKey s) data in
  let data := put_nonempty "secretkey2" (js_SecretKey2 s) data in
  let data := put_nonempty "token" (js_Token s) data in
  let data := put_nonempty "passphrase" (js_Passphrase s) data in
  let data := put_nonempty "encrypt_rsa_key" (js_EncryptRsaKey s) data in
  let data := put_nonempty "init_config" (js_InitConfig s) data in
  let data := rd (js_Envs s) ∪ data in
  Secret (new_meta (js_SecretName s) (Namespace cfg)) data.

Definition set_owner (o : owner_ref) (s : secret) : secret :=
  Secret (meta_owners [o] (s_meta s)) (s_stringData s).

Definition SetPodAsOwner (s : secret) (owner : pod) : secret :=
  set_owner (OwnerRef "v1" "Pod" (p_name owner) (p_uid owner) true) s.

Definition SetJobAsOwner (s : secret) (owner : job) : secret :=
  set_owner (OwnerRef "batch/v1" "Job" (m_name (j_meta owner)) (m_uid (j_meta owner)) true) s.

(** ** job.go *)

Definition GenJobNameByVolumeId (volumeId : string) : string := "juicefs-" +:+ volumeId.

(** The job, and the setting whose [SecretName] it sets. *)
Definition newJob (cfg : Config) (s : JfsSetting) (order : list string) (jobName : string) :
    job * JfsSetting :=
  let s := with_SecretName (jobName +:+ "-secret") s in
  let sp := p_spec (generateJuicePod cfg s order) in
  let sp := PodSpec
    (on_first (cont_preStop ["sh"; "-c"; "umount /mnt/jfs && rmdir /mnt/jfs"]) (ps_containers sp))
    (ps_initContainers sp) (ps_volumes sp) (ps_nodeName sp) (ps_serviceAccountName sp)
    (ps_priorityClassName sp) "OnFailure" (ps_env sp) in
  (Job (new_meta jobName (Namespace cfg)) (new_meta jobName (Namespace cfg)) sp (Some 1%Z) [], s).

Definition getJobCommand (s : JfsSetting) : string :=
  let options := js_Options s in
  QuoteForShell
    (if js_IsCe s then
       let args := [CeMountPath; "${metaurl}"; "/mnt/jfs"] in
       Join (match options with
             | [] => args
             | _ => args ++ ["-o"; Join options ","]
             end) " "
     else
       let args := [JfsMountPath; js_Source s; "/mnt/jfs"] in
       let options := if String.eqb (js_EncryptRsaKey s) "" then options
                      else options ++ ["rsa-key=/root/.rsa/rsa-key.pem"] in
       let options := options ++ ["background"] in
       Join (args ++ ["-o"; Join options ","]) " ").

Definition getCreateVolumeCmd (s : JfsSetting) : string :=
  getJobCommand s +:+ " && if [ ! -d /mnt/jfs/" +:+ js_SubPath s +:+
  " ]; then mkdir -m 777 /mnt/jfs/" +:+ js_SubPath s +:+ "; fi;".

Definition getDeleteVolumeCmd (s : JfsSetting) : string :=
  let jfsPath := if js_IsCe s then CeCliPath else CliPath in
  getJobCommand s +:+ " && if [ -d /mnt/jfs/" +:+ js_SubPath s +:+
  " ]; then " +:+ jfsPath +:+ " rmr /mnt/jfs/" +:+ js_SubPath s +:+ "; fi;".

Definition job_command (cmd : string) (j : job) : job :=
  Job (j_meta j) (j_template_meta j)
      (spec_containers (on_first (cont_command ["sh"; "-c"; cmd]) (ps_containers (j_template j)))
                       (j_template j))
      (j_ttlSecondsAfterFinished j) (j_conditions j).

Definition NewJobForCreateVolume (cfg : Config) (s : JfsSetting) (order : list string) :
    job * JfsSetting :=
  let '(j, s) := newJob cfg s order (GenJobNameByVolumeId (js_VolumeId s) +:+ "-createvol") in
  (job_command (getCreateVolumeCmd s) j, s).

Definition NewJobForDeleteVolume (cfg : Config) (s : JfsSetting) (order : list string) :
    job * JfsSetting :=
  let '(j, s) := newJob cfg s order (GenJobNameByVolumeId (js_VolumeId s) +:+ "-delvol") in
  (job_command (getDeleteVolumeCmd s) j, s).
