(* ===== verification/Mount.v ===== *)
(** * pkg/juicefs/mount/interface.go: what a mounter promises to the provider

    [MntInterface] is the Go interface; [MntLaws] what its clients may rely on. *)

From S2P Require Import Prelude Kube Effects Config.

Record MntInterface := {
  mnt_JMount : JfsSetting → prog (option error * JfsSetting);
  mnt_JCreateVolume : JfsSetting → prog (option error);
  mnt_JDeleteVolume : JfsSetting → prog (option error);
  mnt_JUmount : string → string → prog (option error);
  mnt_AddRefOfMount : string → string → prog (option error) }.

(** A mount may set fields of the setting, but keeps the paths, the volume and the
    options; mutexes are taken one at a time. *)
Definition same_mount (s s' : JfsSetting) : Prop :=
  js_MountPath s' = js_MountPath s ∧ js_VolumeId s' = js_VolumeId s ∧
  js_TargetPath s' = js_TargetPath s ∧ js_Options s' = js_Options s ∧
  js_Source s' = js_Source s.

Class MntLaws (m : MntInterface) : Prop := {
  JMount_setting s τ :
    wp (mnt_JMount m s)
       (λ o _, match o with Done (_, s') => same_mount s s' | Panicked _ => True end) τ;
  JMount_one_lock s : one_lock (mnt_JMount m s);
  JUmount_one_lock volumeId target : one_lock (mnt_JUmount m volumeId target);
  JCreateVolume_one_lock s : one_lock (mnt_JCreateVolume m s);
  JDeleteVolume_one_lock s : one_lock (mnt_JDeleteVolume m s) }.

(** A nil interface: every call panics. *)
Definition nil_mount : MntInterface := {|
  mnt_JMount _ := Crash "nil pointer dereference";
  mnt_JCreateVolume _ := Crash "nil pointer dereference";
  mnt_JDeleteVolume _ := Crash "nil pointer dereference";
  mnt_JUmount _ _ := Crash "nil pointer dereference";
  mnt_AddRefOfMount _ _ := Crash "nil pointer dereference" |}.

#[export] Instance nil_mount_laws : MntLaws nil_mount.
Proof. split; [done|..]; intros; by apply one_lock_free. Qed.
