(* ===== verification/PodMount.v ===== *)
(** * pkg/juicefs/mount/pod_mount.go: mount pods and their references

    A mount pod's annotations hold one reference per target: the key
    [GetReferenceKey target] with value [target].  Every operation is a program
    over the API server; the mutex of the pod name brackets [JUmount] and
    [createOrAddRef]. *)

From S2P Require Import Prelude GoStrings GoTime Kube Effects Lib Client Config Util Builder.

Section PodMount.
Context `{Lib} (cfg : Config).

Definition GenerateNameByVolumeId (volumeId : string) : string :=
  "juicefs-" +:+ NodeName cfg +:+ "-" +:+ volumeId.

(** ** References *)

Definition is_ref (k target : string) : bool := String.eqb k (GetReferenceKey target).

Definition HasRef (p : pod) : bool :=
  existsb (λ kt, is_ref kt.1 kt.2) (map_to_list (annots p)).

Definition ms (n : Z) : Z := (n * 1000000)%Z.

(** One attempt of [AddRefOfMount]. *)
Definition add_ref_attempt (target podName : string) : prog (option error) :=
  let key := GetReferenceKey target in
  r ← GetPod podName (Namespace cfg);
  match r with
  | Err err => mret (Some err)
  | Ok existing =>
      match p_deletionTimestamp existing with
      | Some _ => mret (Some (StatusErr Internal "addRefOfMount: Mount pod [%s] has been deleted."))
      | None =>
          match annots existing !! key with
          | Some _ => mret None
          | None =>
              UpdatePod (Some (set_annotations
                (Some (delete DeleteDelayAtKey (<[key := target]> (annots existing)))) existing))
          end
      end
  end.

Definition AddRefOfMount (target podName : string) : prog (option error) :=
  RetryOnConflict (add_ref_attempt target podName).

(** ** Secrets *)

Definition secret_attempt (s : secret) : prog (option error) :=
  r ← GetSecret (s_name s) (Namespace cfg);
  match r with
  | Err err =>
      if IsNotFound err then r ← CreateSecret (Some s); mret (err_of r)
      else mret (Some err)
  | Ok oldSecret => UpdateSecret (Some (Secret (s_meta oldSecret) (s_stringData s)))
  end.

Definition createOrUpdateSecret (s : secret) : prog (option error) :=
  RetryOnConflict (secret_attempt s).

(** ** [createOrAddRef] *)

(** [newPod := r.NewMountPod(podName)] with the process-wide resources. *)
Definition new_mount_pod (s : JfsSetting) (podName : string) : prog pod :=
  g ← call EResourcesGet;
  order ← range_keys (rd (js_Configs s));
  match NewMountPod cfg s order g podName with
  | None => Crash "NewMountPod"
  | Some (p, g') => call (EResourcesSet g') ;; mret p
  end.

(** The pod does not exist: create it with the reference.  [po] is nil when the
    creation fails. *)
Definition create_with_ref (s : JfsSetting) (sec : secret) (podName : string) :
    prog (option error) :=
  newPod ← new_mount_pod s podName;
  let newPod := set_annotations
    (Some (<[GetReferenceKey (js_TargetPath s) := js_TargetPath s]> (annots newPod))) newPod in
  r ← CreatePod (Some newPod);
  match r with
  | Ok (Some po) =>
      e ← createOrUpdateSecret (SetPodAsOwner sec po);
      match e with Some err => mret (Some err) | None => mret None end
  | Ok None | Err _ => Crash "nil pointer dereference"
  end.

(** The error and the setting, whose [SecretName] is set first. *)
Definition createOrAddRef (s : JfsSetting) : prog (option error * JfsSetting) :=
  let podName := GenerateNameByVolumeId (js_VolumeId s) in
  let s := with_SecretName (podName +:+ "-secret") s in
  with_pod_lock podName (
    let sec := NewSecret cfg s in
    for_n 120
      (r ← GetPod podName (Namespace cfg);
       match r with
       | Ok oldPod =>
           match p_deletionTimestamp oldPod with
           | Some _ => call (ESleep (ms 500)) ;; mret None
           | None =>
               e ← createOrUpdateSecret (SetPodAsOwner sec oldPod);
               match e with
               | Some err => mret (Some (Some err, s))
               | None => e ← AddRefOfMount (js_TargetPath s) podName; mret (Some (e, s))
               end
           end
       | Err err =>
           if IsNotFound err then e ← create_with_ref s sec podName; mret (Some (e, s))
           else mret (Some (Some err, s))
       end)
      (mret (Some (StatusErr Internal
        "Mount %v failed: mount pod %s has been deleting for 1 min"), s))).

(** ** Waiting *)

(** The first container that is not ready, init containers first. *)
Definition first_container (P : container_status → bool) (p : pod) : option container_status :=
  find P (st_initContainerStatuses (p_status p) ++ st_containerStatuses (p_status p)).

Definition container_log (P : container_status → bool) (podName : string) :
    prog (string * option error) :=
  r ← GetPod podName (Namespace cfg);
  match r with
  | Err err => mret ("", Some err)
  | Ok p =>
      match first_container P p with
      | None => mret ("", None)
      | Some cn =>
          l ← GetPodLog (p_name p) (p_namespace p) (cs_name cn);
          mret (match l with Ok log => (log, None) | Err e => ("", Some e) end)
      end
  end.

Definition getErrContainerLog (podName : string) : prog (string * option error) :=
  container_log (λ cn, negb (cs_ready cn)) podName.

Definition getNotCompleteCnLog (podName : string) : prog (string * option error) :=
  container_log (λ cn, match cs_terminated cn with
                       | None => true
                       | Some t => negb (String.eqb (t_reason t) "Completed")
                       end) podName.

Definition waitUtilPodReady (podName : string) : prog (option error) :=
  for_n 60
    (r ← GetPod podName (Namespace cfg);
     match r with
     | Err _ => mret (Some (Some (StatusErr Internal "waitUtilPodReady: Get pod %v failed: %v")))
     | Ok p =>
         if IsPodReady p then mret (Some None)
         else call (ESleep (ms 500)) ;; mret None
     end)
    (_ ← getErrContainerLog podName;
     mret (Some (StatusErr Internal
       "waitUtilPodReady: mount pod %s isn't ready in 30 seconds: %v"))).

Definition waitUtilJobCompleted (jobName : string) : prog (option error) :=
  for_n 60
    (r ← GetJob jobName (Namespace cfg);
     match r with
     | Err err =>
         if IsNotFound err then mret (Some None)
         else mret (Some (Some (StatusErr Internal "waitUtilJobCompleted: Get job %v failed: %v")))
     | Ok j =>
         if IsJobCompleted j then mret (Some None)
         else call (ESleep (ms 500)) ;; mret None
     end)
    (r ← ListPod (Namespace cfg) {["job-name" := jobName]};
     let pods := match r with Ok pods => pods | Err _ => [] end in
     match pods with
     | [] => Crash "index out of range"                  (* pods[0] *)
     | p0 :: _ =>
         _ ← getNotCompleteCnLog (p_name p0);
         mret (Some (StatusErr Internal
           "waitUtilJobCompleted: job %s isn't completed in 30 seconds: %v"))
     end).

(** ** [JMount] and [JUmount] *)

Definition JMount (s : JfsSetting) : prog (option error * JfsSetting) :=
  '(e, s) ← createOrAddRef s;
  match e with
  | Some err => mret (Some err, s)
  | None => e ← waitUtilPodReady (GenerateNameByVolumeId (js_VolumeId s)); mret (e, s)
  end.

(** One attempt to remove the reference of [target]. *)
Definition remove_ref_attempt (key podName namespace : string) : prog (option error) :=
  r ← GetPod podName namespace;
  match r with
  | Err err => mret (Some err)
  | Ok po =>
      match annots po !! key with
      | None => mret None
      | Some _ => UpdatePod (Some (set_annotations (Some (delete key (annots po))) po))
      end
  end.

(** One attempt to delete the mount pod when nothing refers to it. *)
Definition delete_attempt (podName namespace : string) : prog (option error) :=
  r ← GetPod podName namespace;
  match r with
  | Err err => if IsNotFound err then mret None else mret (Some err)
  | Ok po =>
      if HasRef po then mret None
      else
        '(po, shouldDelay, err) ← ShouldDelay po;
        match err with
        | Some err => mret (Some err)
        | None => if shouldDelay : bool then mret None else DeletePod (Some po)
        end
  end.

Definition JUmount (volumeId target : string) : prog (option error) :=
  let podName := GenerateNameByVolumeId volumeId in
  with_pod_lock podName (
    r ← GetPod podName (Namespace cfg);
    match r with
    | Err err => if IsNotFound err then mret None else mret (Some err)
    | Ok p =>
        let key := GetReferenceKey target in
        err ← RetryOnConflict (remove_ref_attempt key (p_name p) (p_namespace p));
        match err with
        | Some err => mret (Some err)
        | None =>
            r ← GetPod (p_name p) (p_namespace p);
            match r with
            | Err err => if IsNotFound err then mret None else mret (Some err)
            | Ok newPod =>
                if HasRef newPod then mret None
                else RetryOnConflict (delete_attempt (p_name p) (p_namespace p))
            end
        end
    end).

(** ** Volumes created and deleted by a job *)

(** The part [JCreateVolume] and [JDeleteVolume] share: create the job unless it
    exists, its secret, wait for it, and delete it when it did not complete. *)
Definition run_job (j : job) (s : JfsSetting) : prog (option error) :=
  r ← GetJob (j_name j) (j_namespace j);
  r ← match r with
      | Err err =>
          if IsNotFound err then
            r ← CreateJob (Some j);
            match r with
            | Ok (Some created) => mret (Ok created)
            | Ok None => Crash "nil pointer dereference"
            | Err e => mret (Err e)
            end
          else mret (Err err)
      | Ok existing => mret (Ok existing)
      end;
  match r with
  | Err err => mret (Some err)
  | Ok owner =>
      e ← createOrUpdateSecret (SetJobAsOwner (NewSecret cfg s) owner);
      match e with
      | Some err => mret (Some err)
      | None =>
          e ← waitUtilJobCompleted (j_name j);
          match e with
          | None => mret None
          | Some err => _ ← DeleteJob (j_name j) (j_namespace j); mret (Some err)
          end
      end
  end.

Definition JCreateVolume (s : JfsSetting) : prog (option error) :=
  order ← range_keys (rd (js_Configs s));
  let '(j, s) := NewJobForCreateVolume cfg s order in run_job j s.

Definition JDeleteVolume (s : JfsSetting) : prog (option error) :=
  order ← range_keys (rd (js_Configs s));
  let '(j, s) := NewJobForDeleteVolume cfg s order in run_job j s.

End PodMount.
