(* ===== verification/PodMountSafety.v ===== *)
(** * Safety of the mount pod's references, over every environment

    What [JUmount], [AddRefOfMount] and [createOrAddRef] may ask of the API server,
    whatever it answers: a run is judged by its trace of requests and answers. *)

From S2P Require Import Prelude GoStrings GoTime Kube Effects Lib Client Config Util Builder PodMount.

(** ** When a pod may be deleted *)

(** The delayed deletion of [p] is over: no delay is set, it cannot be read, or the
    clock last read has reached the deadline. *)
Definition delay_over (τ : trace) (p : pod) : Prop :=
  match annots p !! DeleteDelayTimeKey with
  | None => True
  | Some delayStr =>
      match annots p !! DeleteDelayAtKey with
      | None => ParseDuration delayStr = None
      | Some at_ =>
          match GetTime at_ with
          | None => True
          | Some t => ∃ now, last_now τ = Some now ∧ (t ≤ now)%Z
          end
      end
  end.

(** A deletion of a pod is of the pod last read, which has no reference and no
    pending delay. *)
Definition deletion_ok (τ : trace) (ev : event) : Prop :=
  match ev with
  | @Ev X e _ =>
      match e with
      | EPodDelete ns name =>
          ∃ p, last_pod τ = Some p ∧ HasRef p = false ∧ delay_over τ p ∧
               ns = p_namespace p ∧ name = p_name p
      | _ => True
      end
  end.

Section Safety.
Context `{LibLaws} (cfg : Config).

Local Ltac step := first [assumption | exact I | by apply at_each_snoc].

(** [ShouldDelay] reads the clock and may mark the pod: it keeps every invariant of
    the trace these two keep, and when it does not ask to wait the delay is over. *)
Lemma wp_ShouldDelay (I : trace → Prop) p τ :
  (∀ τ now, I τ → I (τ ++ [Ev ENow now])) →
  (∀ τ d r, I τ → annots p !! DeleteDelayAtKey = None → I (τ ++ [Ev (EPodUpdate (p_namespace p)
     (set_annotations (Some (<[DeleteDelayAtKey := d]> (annots p))) p)) r])) →
  I τ →
  wp (ShouldDelay p) (λ o τ', I τ' ∧
    match o with
    | Done (p', false, None) => p' = p ∧ delay_over τ' p
    | Done _ => True
    | Panicked _ => False
    end) τ.
Proof.
  intros Hnow Hmark HI. unfold ShouldDelay.
  destruct (annots p !! DeleteDelayTimeKey) as [delayStr|] eqn:Hd.
  2: { simpl. unfold delay_over. by rewrite Hd. }
  destruct (annots p !! DeleteDelayAtKey) as [at_|] eqn:Ha.
  - destruct (GetTime at_) as [t|] eqn:Ht.
    + apply wp_call. intros now; prog_simpl. split; [auto|].
      destruct (Z.ltb_spec now t); [done|]. split; [done|].
      unfold delay_over. rewrite Hd, Ha, Ht. exists now. by rewrite last_now_snoc.
    + prog_simpl. unfold delay_over. by rewrite Hd, Ha, Ht.
  - unfold GetTimeAfterDelay. destruct (ParseDuration delayStr) as [d|] eqn:Hpd.
    + prog_simpl. intros now; prog_simpl. cbn [UpdatePod]. prog_simpl. intros r; prog_simpl.
      split; [auto|by destruct r].
    + prog_simpl. unfold delay_over. by rewrite Hd, Ha.
Qed.

Lemma wp_delete_attempt podName ns τ :
  at_each deletion_ok τ →
  wp (delete_attempt podName ns) (λ _ τ', at_each deletion_ok τ') τ.
Proof.
  intros Hτ. unfold delete_attempt. apply wp_call. intros [po|err]; prog_simpl.
  - set (τ1 := τ ++ _).
    assert (at_each deletion_ok τ1) as Hτ1 by by apply at_each_snoc.
    destruct (HasRef po) eqn:Href; [done|].
    apply wp_bind. eapply wp_mono;
      [|apply (wp_ShouldDelay (λ τ, at_each deletion_ok τ ∧ last_pod τ = Some po))].
    + intros [[[p' [|]] [err|]]|s] τ' ([Hτ' Hl] & Ho); prog_simpl; try done.
      destruct Ho as [-> Ho]. intros r. apply at_each_snoc; [done|]. simpl. eauto 10.
    + intros τ' now [? ?]. rewrite last_pod_snoc. split; [by apply at_each_snoc|done].
    + intros τ' d r [? ?] _. rewrite last_pod_snoc. split; [by apply at_each_snoc|done].
    + split; [done|]. subst τ1. by rewrite last_pod_snoc.
  - destruct (IsNotFound err); prog_simpl; by apply at_each_snoc.
Qed.

Lemma wp_remove_ref_attempt key podName ns τ :
  at_each deletion_ok τ →
  wp (remove_ref_attempt key podName ns) (λ _ τ', at_each deletion_ok τ') τ.
Proof.
  intros Hτ. unfold remove_ref_attempt. prog_simpl. intros [po|err]; prog_simpl.
  - destruct (annots po !! key); cbn [UpdatePod]; prog_simpl; intros;
      by repeat apply at_each_snoc.
  - by apply at_each_snoc.
Qed.

(** A retried attempt keeps an invariant of the trace that every attempt keeps. *)
Lemma wp_retry_inv (I : trace → Prop) fn τ :
  I τ → (∀ τ', I τ' → wp fn (λ _ τ'', I τ'') τ') →
  wp (RetryOnConflict fn) (λ _ τ', I τ') τ.
Proof.
  intros Hτ Hfn. apply (wp_retry I); [done|].
  intros τ' Hτ'. eapply wp_mono; [|by apply Hfn]. by intros [[e|]|s] τ''.
Qed.

Lemma wp_JUmount volumeId target τ :
  at_each deletion_ok τ →
  wp (JUmount cfg volumeId target) (λ _ τ', at_each deletion_ok τ') τ.
Proof.
  intros Hτ. unfold JUmount. rewrite with_pod_lock_eq.
  apply wp_with_lock. set (τ0 := τ ++ _).
  assert (at_each deletion_ok τ0) as Hτ0 by by apply at_each_snoc.
  eapply (wp_mono _ (λ _ τ', at_each deletion_ok τ')).
  { intros o τ' Hτ'. by apply at_each_snoc. }
  prog_simpl. intros [p|err]; prog_simpl.
  2: { destruct (IsNotFound err); prog_simpl; by apply at_each_snoc. }
  apply wp_bind. eapply wp_mono; [|apply (wp_retry_inv (at_each deletion_ok));
    [by apply at_each_snoc|intros; by apply wp_remove_ref_attempt]].
  intros [[err|]|s] τ' Hτ'; prog_simpl; [done| |done].
  intros [newPod|err]; prog_simpl.
  - destruct (HasRef newPod); [by apply at_each_snoc|].
    apply (wp_retry_inv (at_each deletion_ok)); [by apply at_each_snoc|].
    intros; by apply wp_delete_attempt.
  - destruct (IsNotFound err); prog_simpl; by apply at_each_snoc.
Qed.

(** C6: whatever the API server answers, [JUmount] deletes a pod only if the pod it
    read last carries no reference and its delayed deletion is over. *)
Theorem JUmount_deletes_unreferenced {W} (h : handler W) w volumeId target :
  at_each deletion_ok (trace_of h (JUmount cfg volumeId target) w).
Proof.
  apply (wp_adequate h _ (λ _ τ, at_each deletion_ok τ)).
  by apply wp_JUmount, at_each_nil.
Qed.

(** ** References are recorded *)

(** The pod with the reference of [target] added and its deadline removed. *)
Definition with_ref (target : string) (p : pod) : pod :=
  set_annotations
    (Some (delete DeleteDelayAtKey (<[GetReferenceKey target := target]> (annots p)))) p.

(** The reference of [target] is on the mount pod: it was there when the pod was
    read last, or the last request added it and was accepted. *)
Definition ref_recorded (target : string) (τ : trace) : Prop :=
  ∃ p, last_pod τ = Some p ∧ p_deletionTimestamp p = None ∧
    (is_Some (annots p !! GetReferenceKey target) ∨
     ∃ τ0 p', τ = τ0 ++ [Ev (EPodUpdate (p_namespace p) (with_ref target p)) (Ok p')]).

Lemma wp_AddRefOfMount target podName τ :
  wp (AddRefOfMount cfg target podName) (λ o τ', match o with
    | Done None => ref_recorded target τ'
    | Done (Some _) => True
    | Panicked _ => False
    end) τ.
Proof.
  apply (wp_retry (λ _, True)); [done|]. intros τ' _.
  unfold add_ref_attempt. prog_simpl. intros [p|err]; prog_simpl; [|done].
  destruct (p_deletionTimestamp p) eqn:Hdel; [done|].
  destruct (annots p !! GetReferenceKey target) eqn:Href; prog_simpl.
  - exists p. rewrite last_pod_snoc. by eauto.
  - cbn [UpdatePod]. prog_simpl. intros [p'|err]; [|done]. simpl.
    exists p. rewrite !last_pod_snoc. split_and!; [done|done|]. right. eauto.
Qed.

(** When [AddRefOfMount] reports success the reference is on a mount pod that is
    not being deleted; it never panics. *)
Lemma AddRefOfMount_records {W} (h : handler W) w target podName :
  match result_of h (AddRefOfMount cfg target podName) w with
  | Done None => ref_recorded target (trace_of h (AddRefOfMount cfg target podName) w)
  | Done (Some _) => True
  | Panicked _ => False
  end.
Proof.
  apply (wp_adequate h _ (λ o τ, match o with
    | Done None => ref_recorded target τ | Done (Some _) => True | Panicked _ => False end)).
  apply wp_AddRefOfMount.
Qed.

(** The mount pod was created with the reference. *)
Definition created_with_ref (target : string) (τ : trace) : Prop :=
  ∃ τ1 ns p p' τ2, τ = τ1 ++ Ev (EPodCreate ns p) (Ok p') :: τ2 ∧
    annots p !! GetReferenceKey target = Some target.

(** The setting of [createOrAddRef] after it named its secret. *)
Definition ref_setting (s : JfsSetting) : JfsSetting :=
  with_SecretName (GenerateNameByVolumeId cfg (js_VolumeId s) +:+ "-secret") s.

Lemma created_with_ref_app target τ τ' :
  created_with_ref target τ → created_with_ref target (τ ++ τ').
Proof.
  intros (τ1 & ns & p & p' & τ2 & -> & Hp). exists τ1, ns, p, p', (τ2 ++ τ').
  by rewrite <- app_assoc.
Qed.

Lemma wp_created_kept {A} target (t : prog A) τ :
  created_with_ref target τ → wp t (λ _ τ', created_with_ref target τ') τ.
Proof.
  revert τ. induction t as [a|e|X e k IH]; intros τ Hτ; simpl; [done..|].
  intros x. by apply IH, created_with_ref_app.
Qed.

Lemma wp_create_with_ref s sec podName τ :
  wp (create_with_ref cfg s sec podName) (λ o τ', match o with
    | Done None => created_with_ref (js_TargetPath s) τ'
    | _ => True
    end) τ.
Proof.
  unfold create_with_ref, new_mount_pod. prog_simpl. intros g; prog_simpl.
  unfold range_keys. prog_simpl. intros l; prog_simpl.
  destruct (NewMountPod _ _ _ _ _) as [[p g']|]; [|done]. prog_simpl. intros []; prog_simpl.
  cbn [CreatePod]. prog_simpl. intros [po|err]; prog_simpl; [|done].
  apply wp_bind. eapply wp_mono; [|apply wp_created_kept].
  - intros [[e|]|w] τ' Hτ'; prog_simpl; done.
  - do 4 eexists. exists []. split; [done|].
    rewrite annots_set. apply lookup_insert_eq.
Qed.

Lemma wp_secret_no_panic sec τ :
  wp (createOrUpdateSecret cfg sec) (λ o _, ∃ e, o = Done e) τ.
Proof.
  apply (wp_retry (λ _, True)); [done|]. intros τ' _. unfold secret_attempt.
  prog_simpl. intros [old|err]; prog_simpl.
  - cbn [UpdateSecret]. prog_simpl. intros [r|e]; simpl; eauto.
  - destruct (IsNotFound err); prog_simpl; [|by eauto].
    cbn [CreateSecret]. prog_simpl. intros [r|e]; simpl; eauto.
Qed.

Lemma wp_createOrAddRef s τ :
  wp (createOrAddRef cfg s) (λ o τ', match o with
    | Done (None, s') => s' = ref_setting s ∧
        ∃ τ0 i, τ' = τ0 ++ [Ev (EUnlock i) tt] ∧
        (created_with_ref (js_TargetPath s) τ0 ∨ ref_recorded (js_TargetPath s) τ0)
    | _ => True
    end) τ.
Proof.
  unfold createOrAddRef. rewrite with_pod_lock_eq. apply wp_with_lock.
  fold (ref_setting s).
  eapply (wp_mono _ (λ o τ', match o with
    | Done (None, s') => s' = ref_setting s ∧
        (created_with_ref (js_TargetPath s) τ' ∨ ref_recorded (js_TargetPath s) τ')
    | _ => True
    end)).
  { intros [[[e|] s']|w] τ' Hq; [done| |done]. destruct Hq as [-> Hq]. eauto 10. }
  apply (wp_for_n (λ _ _, True)); [done| |done]. intros m τ' _.
  prog_simpl. intros [p|err]; prog_simpl.
  - destruct (p_deletionTimestamp p) eqn:Hdel; prog_simpl; [done|].
    apply wp_bind. eapply wp_mono; [|apply wp_secret_no_panic].
    intros o τ'' [[e|] ->]; prog_simpl; [done|].
    apply wp_bind. eapply wp_mono; [|apply wp_AddRefOfMount].
    intros [[e|]|w] τ3; prog_simpl; [done| |done]. intros Hr. split; [done|]. by right.
  - destruct (IsNotFound err); prog_simpl; [|done].
    apply wp_bind. eapply wp_mono; [|apply wp_create_with_ref].
    intros [[e|]|w] τ3; prog_simpl; [done| |done]. intros Hr. split; [done|]. by left.
Qed.


End Safety.
