(* ===== verification/PodMountWait.v ===== *)
(** * Waiting, mutexes and panics of the mount-pod operations

    Bounds on the time the retry loops sleep, the mutex discipline of [JMount] and
    [JUmount], and the ways [createOrAddRef] and [waitUtilJobCompleted] panic. *)

From S2P Require Import Prelude GoStrings GoTime Kube Effects Lib Client Config Util Builder Mount PodMount.

Section Wait.
Context `{LibLaws} (cfg : Config).

(** ** What the operations do not ask for *)

Lemma avoids_ShouldDelay (bad : eff_class) p :
  bad _ ENow = false → (∀ ns p, bad _ (EPodUpdate ns p) = false) →
  avoids bad (ShouldDelay p).
Proof.
  intros Hn Hu. unfold ShouldDelay, GetTimeAfterDelay, UpdatePod.
  avoids; simpl; auto.
Qed.

Lemma avoids_secret (bad : eff_class) sec :
  (∀ ns n, bad _ (ESecretGet ns n) = false) → (∀ ns s, bad _ (ESecretCreate ns s) = false) →
  (∀ ns s, bad _ (ESecretUpdate ns s) = false) →
  avoids bad (createOrUpdateSecret cfg sec).
Proof.
  intros H1 H2 H3. unfold createOrUpdateSecret. apply avoids_retry.
  unfold secret_attempt, GetSecret, CreateSecret, UpdateSecret. avoids; simpl; auto.
Qed.

Lemma avoids_add_ref (bad : eff_class) target podName :
  (∀ ns n, bad _ (EPodGet ns n) = false) → (∀ ns p, bad _ (EPodUpdate ns p) = false) →
  avoids bad (AddRefOfMount cfg target podName).
Proof.
  intros H1 H2. unfold AddRefOfMount. apply avoids_retry.
  unfold add_ref_attempt, GetPod, UpdatePod. avoids; simpl; auto.
Qed.

Lemma lock_free_createOrAddRef_body s sec podName :
  lock_free (create_with_ref cfg s sec podName).
Proof.
  unfold create_with_ref, new_mount_pod, range_keys, CreatePod. avoids.
  by apply avoids_secret.
Qed.

Lemma sleepless_create_with_ref s sec podName :
  avoids is_sleep (create_with_ref cfg s sec podName).
Proof.
  unfold create_with_ref, new_mount_pod, range_keys, CreatePod. avoids.
  by apply avoids_secret.
Qed.

(** ** Mutexes *)

Lemma one_lock_createOrAddRef s : one_lock (createOrAddRef cfg s).
Proof.
  unfold createOrAddRef. rewrite with_pod_lock_eq. apply one_lock_with.
  unfold GetPod. avoids.
  - by apply avoids_secret.
  - by apply avoids_add_ref.
  - by apply lock_free_createOrAddRef_body.
Qed.

Lemma lock_free_wait podName : lock_free (waitUtilPodReady cfg podName).
Proof. unfold waitUtilPodReady, getErrContainerLog, container_log, GetPod, GetPodLog. avoids. Qed.

Lemma one_lock_JMount s : one_lock (JMount cfg s).
Proof.
  unfold JMount. one_lock; [apply one_lock_createOrAddRef|].
  apply one_lock_free, lock_free_wait.
Qed.

Lemma one_lock_JUmount volumeId target : one_lock (JUmount cfg volumeId target).
Proof.
  unfold JUmount. rewrite with_pod_lock_eq. apply one_lock_with.
  unfold remove_ref_attempt, delete_attempt, GetPod, UpdatePod, DeletePod. avoids.
  - apply avoids_retry. avoids.
  - apply avoids_retry. avoids. by apply avoids_ShouldDelay.
Qed.

(** [JMount] and [JUmount] take the pod's mutex while holding none and release
    it on every way out, errors and panics included, whatever the API answers. *)
Lemma mutex_discipline {W} (h : handler W) w s volumeId target :
  disciplined (trace_of h (JMount cfg s) w) ∧
  disciplined (trace_of h (JUmount cfg volumeId target) w).
Proof.
  split; apply one_lock_run; [apply one_lock_JMount|apply one_lock_JUmount].
Qed.

(** ** The mounter of pods as a [MntInterface] *)

Definition PodMount : MntInterface := {|
  mnt_JMount := JMount cfg;
  mnt_JCreateVolume := JCreateVolume cfg;
  mnt_JDeleteVolume := JDeleteVolume cfg;
  mnt_JUmount := JUmount cfg;
  mnt_AddRefOfMount := AddRefOfMount cfg |}.

Lemma wp_createOrAddRef_setting s τ :
  wp (createOrAddRef cfg s)
     (λ o _, match o with Done (_, s') => same_mount s s' | Panicked _ => True end) τ.
Proof.
  unfold createOrAddRef. rewrite with_pod_lock_eq. apply wp_with_lock.
  apply (wp_for_n (λ _ _, True)); [done| |by intros; split_and!].
  intros m τ' _. unfold GetPod. apply wp_call. intros [p|err].
  - destruct (p_deletionTimestamp p); [by intros []|].
    apply wp_bind, wp_any. intros [[e|]|w] τ1; [by split_and!| |done].
    apply wp_bind, wp_any. intros [e|w] τ2; [by split_and!|done].
  - destruct (IsNotFound err); [|by split_and!].
    apply wp_bind, wp_any. intros [e|w] τ1; [by split_and!|done].
Qed.

Lemma lock_free_run_job j s : lock_free (run_job cfg j s).
Proof.
  unfold run_job, CreateJob, GetJob, DeleteJob. avoids; try (by apply avoids_secret).
  all: unfold waitUtilJobCompleted, GetJob, ListPod, getNotCompleteCnLog, container_log,
    GetPod, GetPodLog; avoids.
Qed.

#[export] Instance PodMount_laws : MntLaws PodMount.
Proof.
  split; simpl; intros.
  - unfold JMount. apply wp_bind. eapply wp_mono; [|apply wp_createOrAddRef_setting].
    intros [[[e|] s']|w] τ' Hs; [done| |done]. apply wp_bind, wp_any. by intros [e|w] τ''.
  - apply one_lock_JMount.
  - apply one_lock_JUmount.
  - apply one_lock_free. unfold JCreateVolume, range_keys. avoids. apply lock_free_run_job.
  - apply one_lock_free. unfold JDeleteVolume, range_keys. avoids. apply lock_free_run_job.
Qed.

(** ** Bounded waiting *)

(** A program that sleeps nothing after a trace that slept as much as [τ]. *)
Lemma wp_sleepless_after {A} (t : prog A) d τ0 τ :
  (0 ≤ d)%Z → slept τ = slept τ0 → avoids is_sleep t →
  wp t (λ _ τ', (slept τ' ≤ slept τ0 + d)%Z) τ.
Proof.
  intros Hd Hτ Ht. eapply wp_mono; [|by apply wp_sleepless]. intros o τ' ->. lia.
Qed.

Lemma ms_500 : (0 ≤ ms 500)%Z.
Proof. unfold ms. lia. Qed.

Hint Resolve ms_500 : jfs.

Lemma wp_createOrAddRef_sleep s τ :
  wp (createOrAddRef cfg s)
     (λ _ τ', (slept τ' ≤ slept τ + Z.of_nat 120 * ms 500)%Z) τ.
Proof.
  unfold createOrAddRef, GetPod. rewrite with_pod_lock_eq. apply wp_with_lock.
  eapply wp_mono; [|apply (wp_sleep_loop 120 (ms 500)); [apply ms_500| |done]].
  - intros o τ' Hs. rewrite slept_snoc in *. cbn [sleep_of] in *. lia.
  - intros τ'. apply wp_call. intros [p|err].
    + destruct (p_deletionTimestamp p).
      { apply wp_call. intros []. cbn [wp mret prog_mret]. rewrite !slept_snoc. cbn [sleep_of]. lia. }
      apply wp_sleepless_after; [apply ms_500|by rewrite slept_snoc; cbn; lia|].
      avoids; [by apply avoids_secret|by apply avoids_add_ref].
    + apply wp_sleepless_after; [apply ms_500|by rewrite slept_snoc; cbn; lia|].
      avoids. apply sleepless_create_with_ref.
Qed.

Lemma sleepless_log P podName : avoids is_sleep (container_log cfg P podName).
Proof. unfold container_log, GetPod, GetPodLog. avoids. Qed.

Lemma wp_waitUtilPodReady_sleep podName τ :
  wp (waitUtilPodReady cfg podName)
     (λ _ τ', (slept τ' ≤ slept τ + Z.of_nat 60 * ms 500)%Z) τ.
Proof.
  unfold waitUtilPodReady, GetPod.
  apply (wp_sleep_loop 60 (ms 500)); [apply ms_500| |].
  - intros τ'. apply wp_call. intros [p|err].
    + destruct (IsPodReady p).
      * cbn [wp mret prog_mret]. rewrite slept_snoc. pose proof ms_500. cbn [sleep_of]. lia.
      * apply wp_call. intros []. cbn [wp mret prog_mret]. rewrite !slept_snoc. cbn [sleep_of]. lia.
    + cbn [wp mret prog_mret]. rewrite slept_snoc. pose proof ms_500. cbn [sleep_of]. lia.
  - unfold getErrContainerLog. avoids. apply sleepless_log.
Qed.

Lemma wp_JMount_sleep s :
  wp (JMount cfg s) (λ _ τ, (slept τ ≤ 90 * second)%Z) [].
Proof.
  unfold JMount. apply wp_bind. eapply wp_mono; [|apply wp_createOrAddRef_sleep].
  change (slept []) with 0%Z.
  intros [[[e|] s']|v] τ' Hs; prog_simpl; unfold ms, second in *; [lia| |lia].
  apply wp_bind. eapply wp_mono; [|apply wp_waitUtilPodReady_sleep].
  intros [e|v] τ'' Hs'; prog_simpl; unfold ms, second in *; lia.
Qed.

(** ** What waiting reports *)

Lemma wp_waitUtilPodReady podName τ :
  wp (waitUtilPodReady cfg podName) (λ o τ', match o with
    | Done None => ∃ p, last_pod τ' = Some p ∧ IsPodReady p = true
    | Done (Some _) => True
    | Panicked _ => False
    end) τ.
Proof.
  apply (wp_for_n (λ _ _, True)); [done| |].
  - intros m τ' _. prog_simpl. intros [p|err]; prog_simpl; [|done].
    destruct (IsPodReady p) eqn:Hr; prog_simpl; [|done].
    exists p. by rewrite last_pod_snoc.
  - intros τ' _. unfold getErrContainerLog, container_log. prog_simpl.
    intros [p|err]; prog_simpl; [|done].
    destruct (first_container _ p); prog_simpl; [|done]. by intros [l|e]; prog_simpl.
Qed.

Lemma wp_JMount_ready s τ :
  wp (JMount cfg s) (λ o τ, match o with
    | Done (None, _) => ∃ p, last_pod τ = Some p ∧ IsPodReady p = true
    | _ => True end) τ.
Proof.
  unfold JMount. apply wp_bind.
  eapply wp_mono; [|apply (wp_createOrAddRef_sleep s τ)].
  intros [[[e|] s1]|v] τ' _; prog_simpl; [done| |done].
  apply wp_bind. eapply wp_mono; [|apply wp_waitUtilPodReady].
  by intros [[e|]|v] τ''; prog_simpl.
Qed.


(** ** Panics *)

(** No pod of that name exists and the API server refuses to create one. *)
Definition create_refused (ev : event) : Prop :=
  match ev with
  | @Ev X e x =>
      match e in eff X return X → Prop with
      | EPodGet _ _ => λ r, r = Err ApiNotFound
      | EPodCreate _ _ => λ r, ∃ err, r = Err err
      | _ => λ _, True
      end x
  end.

(** No job completes, none is missing, and no pod carries the job's label. *)
Definition job_without_pods (ev : event) : Prop :=
  match ev with
  | @Ev X e x =>
      match e in eff X return X → Prop with
      | EJobGet _ _ => λ r, ∃ j, r = Ok j ∧ IsJobCompleted j = false
      | EPodList _ _ => λ r, r = Ok [] ∨ ∃ err, r = Err err
      | _ => λ _, True
      end x
  end.

Definition panics {A} (o : outcome A) : Prop := ∃ why, o = Panicked why.

Lemma wp_create_with_ref_panics s sec podName τ :
  wp (create_with_ref cfg s sec podName) (λ o τ', Forall create_refused τ' → panics o) τ.
Proof.
  unfold create_with_ref, CreatePod. apply wp_bind.
  eapply wp_mono; [|apply wp_extends]. intros [newPod|why] τ1 _; [|by exists why].
  apply wp_bind. apply wp_call. intros [p|err]; cbn [wp mret prog_mret].
  - apply wp_refuted, not_Forall_snoc. intros [err E]. discriminate E.
  - by eexists.
Qed.

Lemma wp_createOrAddRef_panics s τ :
  wp (createOrAddRef cfg s) (λ o τ', Forall create_refused τ' → panics o) τ.
Proof.
  unfold createOrAddRef, GetPod. rewrite with_pod_lock_eq. apply wp_with_lock.
  eapply wp_mono with (Q := λ o τ', Forall create_refused τ' → panics o).
  { intros o τ' Hp HF. apply Forall_app in HF as [HF _]. by apply Hp. }
  cbn [for_n]. apply wp_bind, wp_call. intros [p|err].
  - eapply wp_mono; [|apply (wp_refuted create_refused _ (λ _ _, False))].
    + intros [o|why] τ' Hf; [|tauto]. destruct o as [b|]; [|].
      * cbn [wp mret prog_mret]. tauto.
      * eapply wp_mono; [|apply wp_extends]. intros o' τ2 [τ3 ->] HF.
        apply Forall_app in HF as [HF _]. tauto.
    + by apply not_Forall_snoc.
  - destruct (decide (err = ApiNotFound)) as [->|Hn].
    + apply wp_bind. eapply wp_mono; [|apply wp_create_with_ref_panics].
      intros [a|why] τ' Hp; cbn [wp mret prog_mret]; [|intros; by eexists].
      intros HF. destruct (Hp HF) as [? E]. discriminate E.
    + unfold IsNotFound. rewrite bool_decide_eq_false_2 by done.
      cbn [wp mret prog_mret]. rewrite Forall_app, Forall_singleton. intros [_ E]. by inversion E.
Qed.

(** When the mount pod does not exist and its creation fails, [createOrAddRef]
    panics: it uses the nil pod of the failed creation as the secret's owner. *)
Theorem createOrAddRef_create_fails {W} (h : handler W) w s :
  (∀ X (e : eff X) w, create_refused (Ev e (h X e w).1)) →
  panics (result_of h (createOrAddRef cfg s) w).
Proof.
  intros Hh.
  apply (wp_adequate h _ (λ o τ', Forall create_refused τ' → panics o)).
  - apply wp_createOrAddRef_panics.
  - by apply trace_answers.
Qed.

Lemma wp_waitUtilJobCompleted_panics jobName τ :
  wp (waitUtilJobCompleted cfg jobName)
     (λ o τ', Forall job_without_pods τ' → panics o) τ.
Proof.
  unfold waitUtilJobCompleted, GetJob, ListPod.
  apply (wp_for_n (λ _ _, True)); [done| |].
  - intros m τ' _. apply wp_call. intros [j|err].
    + destruct (IsJobCompleted j) eqn:Hj.
      * cbn [wp mret prog_mret]. rewrite Forall_app, Forall_singleton.
        intros [_ (j' & [= ->] & Hj')]. congruence.
      * apply wp_call. intros []. done.
    + destruct (IsNotFound err); cbn [wp mret prog_mret];
        rewrite Forall_app, Forall_singleton; intros [_ (j & E & _)]; discriminate E.
  - intros τ' _. apply wp_call. intros [[|p0 pods]|err]; [by eexists| |by eexists].
    apply wp_refuted, not_Forall_snoc. intros [E|[err E]]; discriminate E.
Qed.

(** When the job does not complete in 30 seconds and no pod of it is listed,
    [waitUtilJobCompleted] panics on [pods[0]] instead of returning its error. *)
Theorem waitUtilJobCompleted_no_pods {W} (h : handler W) w jobName :
  (∀ X (e : eff X) w, job_without_pods (Ev e (h X e w).1)) →
  panics (result_of h (waitUtilJobCompleted cfg jobName) w).
Proof.
  intros Hh.
  apply (wp_adequate h _ (λ o τ', Forall job_without_pods τ' → panics o)).
  - apply wp_waitUtilJobCompleted_panics.
  - by apply trace_answers.
Qed.
End Wait.
