(* ===== verification/MountInfo.v ===== *)
(** * pkg/controller/mountinfo.go: the mount table of the node

    [mountInfoTable] pairs the records of /proc/self/mountinfo with the pods known
    to the kubelet.  [resolveTarget] finds, for the target path of a volume, its own
    mount and the subpath mounts of the same volume, counts the layers of each and
    asks the file system for their state. *)

From S2P Require Import Prelude GoStrings Kube Effects Lib.

(** ** Data *)

Record mountInfoTable := MkMit {
  mis : list MountInfo;
  deletedPods : gmap string bool }.      (* key is pod UID *)

Definition newMountInfoTable : mountInfoTable := MkMit [] ∅.

Definition containerSubPathDirectory : string := "volume-subpaths".
Definition containerCsiDirectory : string := "volumes/kubernetes.io~csi".

Inductive target_status :=
  | targetStatusNotExist
  | targetStatusMounted
  | targetStatusNotMount
  | targetStatusCorrupt
  | targetStatusUnexpect.

Record targetItem := TargetItem {
  target : string;
  subpath : string;
  count : Z;
  inconsistent : bool;
  status : target_status;
  ti_err : option oserr }.

(** [&targetItem{target, subpath, count}]: the zero status is the first one. *)
Definition new_item (t sp : string) (n : Z) : targetItem :=
  TargetItem t sp n false targetStatusNotExist None.

Record mountItem := MountItem {
  podExist : bool;
  podDeleted : bool;
  baseTarget : targetItem;
  subPathTarget : list targetItem }.

(** ** The table *)

Definition parse (mit : mountInfoTable) : prog (mountInfoTable * option error) :=
  r ← call EParseMountInfo;
  mret (match r with
        | Ok l => (MkMit l (deletedPods mit), None)
        | Err e => (MkMit [] (deletedPods mit), Some e)
        end).

Definition is_deleted (p : pod) : bool :=
  match p_deletionTimestamp p with Some _ => true | None => false end.

Definition setPodStatus (p : pod) (mit : mountInfoTable) : mountInfoTable :=
  MkMit (mis mit) (<[p_uid p := is_deleted p]> (deletedPods mit)).

Definition setPodsStatus (podList : option (list pod)) (mit : mountInfoTable) : mountInfoTable :=
  MkMit (mis mit)
    (match podList with
     | None => ∅
     | Some items => fold_left (λ m p, <[p_uid p := is_deleted p]> m) items ∅
     end).

(** ** Paths *)

Definition getPodUid (target : string) : string :=
  match Split target containerCsiDirectory with
  | [before; _] =>
      let podDir := TrimSuffix before "/" in
      match LastIndex podDir "/" with
      | Some (S i) => drop_str (S (S i)) podDir
      | _ => ""                                  (* index <= 0 *)
      end
  | _ => ""
  end.

Definition getPVName (target : string) : string :=
  match Split target containerCsiDirectory with
  | [_; after] =>
      let pvName := TrimPrefix after "/" in
      match Index pvName "/" with
      | Some (S i) => take_str (S i) pvName
      | _ => ""                                  (* index <= 0 *)
      end
  | _ => ""
  end.

(** ** Items *)

Definition item_status (st : target_status) (err : option oserr) (ti : targetItem) : targetItem :=
  TargetItem (target ti) (subpath ti) (count ti) (inconsistent ti) st err.

(** [check] on the answer of [os.Stat]. *)
Definition checked `{Lib} (mounted : bool) (r : fileinfo + oserr) (ti : targetItem) : targetItem :=
  match r with
  | inl _ =>
      item_status (if mounted then targetStatusMounted else targetStatusNotMount) (ti_err ti) ti
  | inr err =>
      if IsNotExist err then item_status targetStatusNotExist (ti_err ti) ti
      else
        let ti := if mounted then ti else item_status targetStatusUnexpect (Some err) ti in
        if IsCorruptedMnt err then item_status targetStatusCorrupt (ti_err ti) ti
        else item_status targetStatusUnexpect (Some err) ti
  end.

Definition check `{Lib} (mounted : bool) (ti : targetItem) : prog targetItem :=
  r ← call (EStat (target ti)); mret (checked mounted r ti).

(** The record of the table's line [mi] in [records]. *)
Definition record_line (records : gmap string targetItem) (mi : MountInfo) :
    gmap string targetItem :=
  let sp := Trim (TrimSuffix (mi_Root mi) "//deleted") "/"%char in
  match records !! mi_MountPoint mi with
  | None => <[mi_MountPoint mi := new_item (mi_MountPoint mi) sp 1]> records
  | Some r =>
      <[mi_MountPoint mi :=
          TargetItem (target r) (subpath r) (count r + 1)
            (inconsistent r || negb (String.eqb (subpath r) sp)) (status r) (ti_err r)]> records
  end.

Definition item_match (path : string) (isPrefix : bool) (mi : MountInfo) : bool :=
  if isPrefix then HasPrefix (mi_MountPoint mi) path else String.eqb path (mi_MountPoint mi).

Definition records_of (l : list MountInfo) (path : string) (isPrefix : bool) :
    gmap string targetItem :=
  fold_left record_line (filter (λ mi, item_match path isPrefix mi = true) l) ∅.

(** The records at the keys [ks], each checked in turn. *)
Fixpoint check_all `{Lib} (records : gmap string targetItem) (ks : list string) :
    prog (list targetItem) :=
  match ks with
  | [] => mret []
  | k :: ks' =>
      match records !! k with
      | Some r => r ← check true r; rs ← check_all records ks'; mret (r :: rs)
      | None => check_all records ks'
      end
  end.

Definition resolveTargetItem `{Lib} (mit : mountInfoTable) (path : string) (isPrefix : bool) :
    prog (list targetItem) :=
  let records := records_of (mis mit) path isPrefix in
  ks ← range_keys records;
  check_all records ks.

(** [None]: not a valid CSI target path. *)
Definition resolveTarget `{Lib} (mit : mountInfoTable) (t : string) : prog (option mountItem) :=
  match Split t containerCsiDirectory with
  | [before; _] =>
      let podDir := TrimSuffix before "/" in
      let podUID := getPodUid t in
      if String.eqb podUID "" then mret None
      else
        let pvName := getPVName t in
        if String.eqb pvName "" then mret None
        else
          let exist := bool_decide (is_Some (deletedPods mit !! podUID)) in
          let deleted := default false (deletedPods mit !! podUID) in
          iterms ← resolveTargetItem mit t false;
          base ← match iterms with
                 | [it] => mret it
                 | _ => check false (new_item t "" 0)
                 end;
          let subpathTargetPrefix := Join [podDir; containerSubPathDirectory; pvName] "/" in
          subs ← resolveTargetItem mit subpathTargetPrefix true;
          mret (Some (MountItem exist deleted base subs))
  | _ => mret None
  end.

(** ** Lemmas *)

Lemma csi_directory_marked : containerCsiDirectory = "volumes/kubernetes.io" +:+ "~csi".
Proof. done. Qed.

(** The target path the kubelet passes for volume [pv] of the pod [uid]. *)
Definition csi_target (dir uid pv : string) : string :=
  dir +:+ "/" +:+ uid +:+ "/" +:+ containerCsiDirectory +:+ "/" +:+ pv +:+ "/mount".

(** A path component: no slash and no tilde. *)
Definition comp (s : string) : bool := no_char "/" s && no_char "~" s.

Lemma csi_target_split dir uid pv :
  no_char "~" dir = true → no_char "~" uid = true → no_char "~" pv = true →
  Split (csi_target dir uid pv) containerCsiDirectory =
  [dir +:+ "/" +:+ uid +:+ "/"; "/" +:+ pv +:+ "/mount"].
Proof.
  intros Hd Hu Hp. unfold csi_target. rewrite csi_directory_marked.
  rewrite <- (Split_marked "~" "volumes/kubernetes.io" "csi"); [|done|..].
  - by rewrite !string_app_assoc.
  - by rewrite !no_char_app, Hd, Hu.
  - by rewrite !no_char_app, Hp.
Qed.

(** C32: on the target path of a CSI volume, [getPodUid] and [getPVName] give back the
    pod's UID and the volume's name it was built from. *)
Theorem target_path_roundtrip dir uid pv :
  dir ≠ "" → no_char "~" dir = true → comp uid = true → comp pv = true → pv ≠ "" →
  getPodUid (csi_target dir uid pv) = uid ∧ getPVName (csi_target dir uid pv) = pv.
Proof.
  unfold comp. rewrite !andb_true_iff. intros Hne Hd [Hu1 Hu2] [Hp1 Hp2] Hpv.
  unfold getPodUid, getPVName. rewrite csi_target_split by done. split.
  - replace (dir +:+ "/" +:+ uid +:+ "/") with ((dir +:+ "/" +:+ uid) +:+ "/")
      by by rewrite !string_app_assoc.
    rewrite TrimSuffix_app. change ("/" +:+ uid) with (String "/" uid).
    rewrite (LastIndex_char "/" dir uid Hu1).
    destruct dir as [|a dir]; [done|]. apply (drop_str_sep "/" (String a dir) uid).
  - rewrite TrimPrefix_app. change (pv +:+ "/mount") with (pv +:+ "/" +:+ "mount").
    rewrite (Index_marked "/" pv "" "mount") by done.
    destruct pv as [|a pv]; [done|]. apply (take_str_app (String a pv) "/mount").
Qed.

Lemma target_path_roundtrip_witness :
  let t := csi_target "/var/lib/kubelet/pods" "6c38f8dc-1f04" "pvc-1" in
  t = "/var/lib/kubelet/pods/6c38f8dc-1f04/volumes/kubernetes.io~csi/pvc-1/mount" ∧
  getPodUid t = "6c38f8dc-1f04" ∧ getPVName t = "pvc-1".
Proof.
  split; [reflexivity|].
  apply (target_path_roundtrip "/var/lib/kubelet/pods" "6c38f8dc-1f04" "pvc-1");
    [discriminate|reflexivity|reflexivity|reflexivity|discriminate].
Defined.

(** *** Records *)

Definition subpath_of (mi : MountInfo) : string :=
  Trim (TrimSuffix (mi_Root mi) "//deleted") "/"%char.

(** The lines of the table for the mount point [mp]. *)
Definition lines_at (mp : string) (l : list MountInfo) : list MountInfo :=
  filter (λ mi, mi_MountPoint mi = mp) l.

(** The record of the lines of one mount point: the first one's subpath, how many
    there are, and whether another subpath occurs. *)
Definition summary (mp : string) (l : list MountInfo) : option targetItem :=
  match l with
  | [] => None
  | mi :: rest =>
      Some (TargetItem mp (subpath_of mi) (Z.of_nat (length l))
              (existsb (λ mi', negb (String.eqb (subpath_of mi) (subpath_of mi'))) rest)
              targetStatusNotExist None)
  end.

Lemma summary_snoc mp l mi :
  summary mp (l ++ [mi]) =
  match summary mp l with
  | None => Some (new_item mp (subpath_of mi) 1)
  | Some r => Some (TargetItem (target r) (subpath r) (count r + 1)
      (inconsistent r || negb (String.eqb (subpath r) (subpath_of mi))) (status r) (ti_err r))
  end.
Proof.
  destruct l as [|mi0 rest]; [done|]. unfold summary. cbn [app].
  rewrite existsb_app. simpl. rewrite orb_false_r, length_app. simpl.
  do 2 f_equal. lia.
Qed.

Lemma records_fold l mp :
  fold_left record_line l ∅ !! mp = summary mp (lines_at mp l).
Proof.
  induction l as [|mi l IH] using rev_ind; [done|].
  rewrite fold_left_app. simpl. unfold lines_at. rewrite filter_app. fold (lines_at mp l).
  unfold record_line. fold (subpath_of mi). rewrite filter_cons, filter_nil.
  destruct (decide (mi_MountPoint mi = mp)) as [->|Hne].
  - rewrite summary_snoc, <- IH. destruct (_ !! mp) as [r|]; by rewrite lookup_insert_eq.
  - rewrite app_nil_r, <- IH.
    destruct (_ !! mi_MountPoint mi); by rewrite lookup_insert_ne.
Qed.

(** One record per matching mount point. *)
Lemma records_of_lookup l path isPrefix mp :
  records_of l path isPrefix !! mp =
  if item_match path isPrefix (MkMountInfo mp "") then summary mp (lines_at mp l) else None.
Proof.
  unfold records_of. rewrite records_fold. unfold lines_at. rewrite list_filter_filter.
  assert (∀ mi, mi_MountPoint mi = mp →
    item_match path isPrefix mi = item_match path isPrefix (MkMountInfo mp "")) as Hm.
  { intros mi <-. by destruct isPrefix. }
  destruct (item_match path isPrefix (MkMountInfo mp "")) eqn:E.
  - f_equal. apply list_filter_iff. intros mi. split; [tauto|].
    intros Hmp. split; [done|]. by rewrite Hm.
  - replace (filter _ l) with (@nil MountInfo); [done|]. symmetry.
    induction l as [|mi l IH]; [done|]. rewrite filter_cons, decide_False; [done|].
    intros [H1 H2]. rewrite Hm in H2 by done. congruence.
Qed.

(** *** [resolveTargetItem] and [resolveTarget], over every environment *)

Section Resolve.
Context `{Lib}.

Lemma checked_target b a r : target (checked b a r) = target r.
Proof. unfold checked. by split_matches. Qed.

Lemma checked_count b a r : count (checked b a r) = count r.
Proof. unfold checked. by split_matches. Qed.

(** The items of the keys [ks]: each is its record with a checked status. *)
Lemma wp_check_all records ks τ :
  (∀ k, k ∈ ks → ∃ r, records !! k = Some r ∧ target r = k) →
  wp (check_all records ks) (λ o _, ∃ items, o = Done items ∧
    (target <$> items) = ks ∧
    Forall (λ it, ∃ a r, records !! target it = Some r ∧ it = checked true a r) items) τ.
Proof.
  revert τ. induction ks as [|k ks IH]; intros τ Hks; simpl; [by exists []|].
  destruct (Hks k) as (r & Hr & Ht); [set_solver|]. rewrite Hr.
  intros a. apply wp_bind. eapply wp_mono; [|apply IH; set_solver].
  intros o τ' (items & -> & Hi & HF). prog_simpl. eexists. split; [done|].
  rewrite fmap_cons, checked_target, Ht, Hi. split; [done|].
  constructor; [|done]. exists a, r. by rewrite checked_target, Ht.
Qed.

(** What [resolveTargetItem] returns for the lines [l]. *)
Definition items_ok (l : list MountInfo) (path : string) (isPrefix : bool)
    (items : list targetItem) : Prop :=
  NoDup (target <$> items) ∧
  (∀ mp, mp ∈ (target <$> items) ↔
         item_match path isPrefix (MkMountInfo mp "") = true ∧ lines_at mp l ≠ []) ∧
  Forall (λ it, ∃ a r, summary (target it) (lines_at (target it) l) = Some r ∧
                       it = checked true a r) items.

Lemma summary_target mp l r : summary mp l = Some r → target r = mp.
Proof. by destruct l; intros [= <-]. Qed.

Lemma records_elem l path isPrefix mp r :
  records_of l path isPrefix !! mp = Some r →
  item_match path isPrefix (MkMountInfo mp "") = true ∧ summary mp (lines_at mp l) = Some r.
Proof. rewrite records_of_lookup. by destruct (item_match _ _ _). Qed.

Lemma wp_resolveTargetItem mit path isPrefix τ :
  wp (resolveTargetItem mit path isPrefix)
     (λ o _, ∃ items, o = Done items ∧ items_ok (mis mit) path isPrefix items) τ.
Proof.
  unfold resolveTargetItem. apply wp_bind, wp_range_keys. intros ks τ' Hks.
  assert (∀ k, k ∈ ks ↔ is_Some (records_of (mis mit) path isPrefix !! k)) as Hk.
  { intros k. rewrite Hks, list_elem_of_fmap. split.
    - intros ([k' r] & -> & Hr%elem_of_map_to_list). by exists r.
    - intros [r Hr]. exists (k, r). by rewrite elem_of_map_to_list. }
  eapply wp_mono; [|apply wp_check_all].
  - intros o τ'' (items & -> & Hi & HF). exists items. split; [done|].
    split_and!.
    + rewrite Hi, Hks. apply NoDup_fst_map_to_list.
    + intros mp. rewrite Hi, Hk. rewrite records_of_lookup. unfold summary.
      destruct (item_match _ _ _), (lines_at mp (mis mit)); naive_solver.
    + eapply Forall_impl; [exact HF|]. intros it (a & r & Hr & Hit).
      exists a, r. split; [|done]. by apply records_elem in Hr as [_ Hr].
  - intros k [r Hr]%Hk. exists r. split; [done|].
    apply records_elem in Hr as [_ Hr]. by apply summary_target in Hr.
Qed.


(** What [resolveTarget] knows of the target [t] itself. *)
Definition base_ok (mit : mountInfoTable) (t : string) (mi : mountItem) : Prop :=
  podExist mi = bool_decide (is_Some (deletedPods mit !! getPodUid t)) ∧
  podDeleted mi = default false (deletedPods mit !! getPodUid t) ∧
  target (baseTarget mi) = t ∧
  count (baseTarget mi) = Z.of_nat (length (lines_at t (mis mit))) ∧
  Forall (λ it, (0 < count it)%Z) (subPathTarget mi).

Lemma items_counts l path isPrefix items :
  items_ok l path isPrefix items →
  Forall (λ it, count it = Z.of_nat (length (lines_at (target it) l)) ∧ (0 < count it)%Z) items.
Proof.
  intros (_ & _ & HF). eapply Forall_impl; [exact HF|].
  intros it (a & r & Hr & ->). rewrite checked_target in *. rewrite checked_count.
  generalize dependent (target r). intros mp Hr.
  destruct (lines_at mp l) as [|mi rest]; [discriminate Hr|].
  injection Hr as <-. simpl. lia.
Qed.

Lemma items_exact l t items :
  items_ok l t false items →
  match items with
  | [] => lines_at t l = []
  | [it] => target it = t
  | _ => False
  end.
Proof.
  intros (Hnd & Hin & _).
  assert (∀ it, it ∈ items → target it = t) as Ht.
  { intros it Hit. destruct (Hin (target it)) as [[Hm _] _].
    - by apply list_elem_of_fmap_2.
    - simpl in Hm. by apply String.eqb_eq in Hm. }
  destruct items as [|i1 [|i2 items]].
  - destruct (lines_at t l) eqn:E; [done|]. exfalso.
    destruct (Hin t) as [_ Hin']. apply (not_elem_of_nil t), Hin'.
    simpl. rewrite String.eqb_refl, E. done.
  - apply Ht. set_solver.
  - rewrite !fmap_cons, !NoDup_cons in Hnd. destruct Hnd as [Hnd _]. apply Hnd.
    rewrite (Ht i1), (Ht i2) by set_solver. set_solver.
Qed.

Lemma wp_resolveTarget mit t τ :
  wp (resolveTarget mit t) (λ o _, match o with
    | Done None => True
    | Done (Some mi) => base_ok mit t mi
    | Panicked _ => False
    end) τ.
Proof.
  unfold resolveTarget. destruct (Split t _) as [|before [|after [|]]]; try done.
  destruct (String.eqb _ _); [done|]. destruct (String.eqb _ _); [done|].
  apply wp_bind. eapply wp_mono; [|apply wp_resolveTargetItem].
  intros o τ1 (iterms & -> & Hi). apply wp_bind.
  pose proof (items_exact _ _ _ Hi) as Hx. pose proof (items_counts _ _ _ _ Hi) as Hc.
  eapply (wp_mono _ (λ o _, ∃ base, o = Done base ∧ target base = t ∧
    count base = Z.of_nat (length (lines_at t (mis mit))))).
  - intros o' τ2 (base & -> & Hbt & Hbc).
    apply wp_bind. eapply wp_mono; [|apply wp_resolveTargetItem].
    intros o'' τ3 (subs & -> & Hs). unfold base_ok. prog_simpl. simpl.
    split_and!; [done..|]. eapply Forall_impl; [exact (items_counts _ _ _ _ Hs)|].
    by intros it [_ Hp].
  - destruct iterms as [|it [|it2 iterms]]; [|simpl|done].
    + simpl. intros a. eexists. split; [done|].
      rewrite checked_target, checked_count, Hx. done.
    + exists it. rewrite Forall_singleton in Hc. rewrite Hx in Hc. naive_solver.
Qed.

(** The item [resolveTarget] returns for a target tells whether the pod of the
    target's UID is known and being deleted, and counts exactly the layers mounted
    on the target; every subpath item has at least one layer. *)
Theorem resolveTarget_base {W} (h : handler W) w mit t mi :
  result_of h (resolveTarget mit t) w = Done (Some mi) → base_ok mit t mi.
Proof.
  intros Hr. pose proof (wp_run h _ _ [] w (wp_resolveTarget mit t [])) as Hq.
  by rewrite Hr in Hq.
Qed.
End Resolve.
