(* ===== verification/Kubelet.v ===== *)
(** * pkg/controller/kubelet_client.go: the client of the kubelet

    [newKubeletClient] builds an HTTPS client from the environment;
    [GetNodeRunningPods] asks the kubelet for the pods of the node.  The transport of
    client-go and the decoder of the answer are operations of [Lib]. *)

From S2P Require Import Prelude GoStrings GoTime Kube Effects Lib.

Definition defaultKubeletTimeout : Z := 10.

Definition serviceAccountTokenFile : string :=
  "/var/run/secrets/kubernetes.io/serviceaccount/token".

(** The client: its transport is a handle, its timeout a [time.Duration]. *)
Record kubeletClient := MkKubelet {
  kc_host : string;
  kc_port : Z;
  kc_transport : Z;
  kc_timeout : Z }.

(** The fields of rest.TLSClientConfig. *)
Record TLSClientConfig := MkTLSClientConfig {
  tls_Insecure : bool;
  tls_ServerName : string;
  tls_CertFile : string;
  tls_KeyFile : string;
  tls_CAFile : string;
  tls_CertData : string;
  tls_KeyData : string;
  tls_CAData : string }.

Record KubeletClientConfig := MkKubeletConfig {
  kcc_Address : string;
  kcc_Port : Z;
  kcc_TLS : TLSClientConfig;
  kcc_BearerToken : string;
  kcc_HTTPTimeout : Z }.

(** [os.Getenv]: the empty string when the variable is not set. *)
Definition Getenv (name : string) : prog string :=
  v ← call (ELookupEnv name); mret (default "" v).

(** ["%d"]. *)
Definition Itoa (z : Z) : string := append_int z 1.

Definition tc_insecure (c : TransportConfig) : TransportConfig :=
  MkTransportConfig (tc_CAFile c) (tc_CAData c) (tc_CertFile c) (tc_CertData c) (tc_KeyFile c)
    (tc_KeyData c) true (tc_BearerToken c).

Definition tc_without_ca (c : TransportConfig) : TransportConfig :=
  MkTransportConfig "" "" (tc_CertFile c) (tc_CertData c) (tc_KeyFile c)
    (tc_KeyData c) (tc_Insecure c) (tc_BearerToken c).

Section Kubelet.
Context `{Lib}.

Definition transportConfig (c : KubeletClientConfig) : TransportConfig :=
  let t := kcc_TLS c in
  let cfg := MkTransportConfig (tls_CAFile t) (tls_CAData t) (tls_CertFile t) (tls_CertData t)
               (tls_KeyFile t) (tls_KeyData t) false (kcc_BearerToken c) in
  if negb (HasCA cfg) then tc_insecure cfg else cfg.

Definition makeTransport (config : KubeletClientConfig) (insecureSkipTLSVerify : bool) : res Z :=
  let preTLSConfig := transportConfig config in
  let preTLSConfig :=
    if insecureSkipTLSVerify then tc_without_ca (tc_insecure preTLSConfig) else preTLSConfig in
  match TLSConfigFor preTLSConfig with
  | Err err => Err err
  | Ok tlsConfig =>
      let rt := match tlsConfig with
                | Some t => SetOldTransportDefaults t
                | None => DefaultTransport
                end in
      HTTPWrappersForConfig (transportConfig config) rt
  end.

(** The token of the driver's service account, when no client certificate is set. *)
Definition kubelet_token (cert key : string) : prog (res string) :=
  if String.eqb cert "" && String.eqb key "" then
    r ← call (EReadFile serviceAccountTokenFile);
    mret (match r with
          | inl token => Ok token
          | inr _ => Err (Errorf "in cluster mode, find token failed: %v")
          end)
  else mret (Ok "").

(** The seconds of a request to the kubelet. *)
Definition kubelet_seconds : prog (res Z) :=
  v ← Getenv "KUBELET_TIMEOUT";
  if String.eqb v "" then mret (Ok defaultKubeletTimeout)
  else
    v ← Getenv "KUBELET_TIMEOUT";
    mret (match Atoi v with
          | Some n => Ok n
          | None => Err (Errorf "got error when parsing kubelet timeout: %v")
          end).

Definition kubelet_config (host : string) (port : Z) (cert key token : string) (seconds : Z) :
    KubeletClientConfig :=
  MkKubeletConfig host port (MkTLSClientConfig true "kubelet" cert key "" "" "" "") token
    (int64_wrap (seconds * second)).

Definition newKubeletClient (host : string) (port : Z) : prog (res kubeletClient) :=
  cert ← Getenv "KUBELET_CLIENT_CERT";
  key ← Getenv "KUBELET_CLIENT_KEY";
  token ← kubelet_token cert key;
  match token with
  | Err err => mret (Err err)
  | Ok token =>
      seconds ← kubelet_seconds;
      match seconds with
      | Err err => mret (Err err)
      | Ok seconds =>
          let config := kubelet_config host port cert key token seconds in
          mret (match makeTransport config (tls_Insecure (kcc_TLS config)) with
                | Err err => Err err
                | Ok trans =>
                    Ok (MkKubelet (kcc_Address config) (kcc_Port config) trans
                          (kcc_HTTPTimeout config))
                end)
      end
  end.

(** The pods of the node; [Ok None] is a nil list. *)
Definition GetNodeRunningPods (kc : kubeletClient) : prog (res (option (list pod))) :=
  r ← call (EHttpGet (kc_transport kc) (kc_timeout kc)
              ("https://" +:+ kc_host kc +:+ ":" +:+ Itoa (kc_port kc) +:+ "/pods/"));
  match r with
  | Err err => mret (Err err)
  | Ok body =>
      r ← call (EReadAll body);
      mret (match r with Err err => Err err | Ok body => UnmarshalPodList body end)
  end.

(** ** Properties *)

Lemma quiet_GetNodeRunningPods (bad : eff_class) kc :
  (∀ t d u, bad _ (EHttpGet t d u) = false) → (∀ b, bad _ (EReadAll b) = false) →
  avoids bad (GetNodeRunningPods kc).
Proof. intros H1 H2. unfold GetNodeRunningPods. avoids; simpl; auto. Qed.

Lemma int64_wrap_small z : (int64_min ≤ z ≤ int64_max)%Z → int64_wrap z = z.
Proof. unfold int64_wrap, int64_min, int64_max. intros Hz. rewrite Z.mod_small; lia. Qed.

(** The handler answers a variable of the environment with [v]. *)
Definition env_is {W} (h : handler W) (name : string) (v : option string) : Prop :=
  ∀ w, (h _ (ELookupEnv name) w).1 = v.

Lemma exec_getenv {W} (h : handler W) name v w :
  env_is h name v → ∃ w', exec h (Getenv name) w = (Done (default "" v), w').
Proof.
  intros Hv. unfold Getenv. rewrite exec_bind, exec_call. specialize (Hv w).
  destruct (h _ (ELookupEnv name) w) as [x w1]. simpl in Hv. subst x. by exists w1.
Qed.

Lemma exec_kubelet_seconds {W} (h : handler W) v w :
  env_is h "KUBELET_TIMEOUT" v →
  ∃ w', exec h kubelet_seconds w =
    (Done (match v with
           | None | Some "" => Ok defaultKubeletTimeout
           | Some s => match Atoi s with
                       | Some n => Ok n
                       | None => Err (Errorf "got error when parsing kubelet timeout: %v")
                       end
           end), w').
Proof.
  intros Hv. unfold kubelet_seconds. rewrite exec_bind.
  destruct (exec_getenv h _ v w Hv) as (w1 & ->).
  destruct v as [[|a s]|]; [by exists w1| |by exists w1]. simpl String.eqb. cbv iota.
  rewrite exec_bind. destruct (exec_getenv h _ _ w1 Hv) as (w2 & ->). by exists w2.
Qed.

(** What [newKubeletClient] returns, by the seconds it was told. *)
Lemma exec_newKubeletClient {W} (h : handler W) host port v kc w w' :
  env_is h "KUBELET_TIMEOUT" v →
  exec h (newKubeletClient host port) w = (Done (Ok kc), w') →
  kc_host kc = host ∧ kc_port kc = port ∧
  ∃ cert key token n,
    kc_timeout kc = int64_wrap (n * second) ∧
    makeTransport (kubelet_config host port cert key token n) true = Ok (kc_transport kc) ∧
    (token = "" ∨ cert = "" ∧ key = "") ∧
    match v with
    | None | Some "" => n = defaultKubeletTimeout
    | Some s => Atoi s = Some n
    end.
Proof.
  intros Hv. unfold newKubeletClient. rewrite exec_bind.
  destruct (exec h (Getenv "KUBELET_CLIENT_CERT") w) as [[cert|why] w1]; [|done].
  rewrite exec_bind. destruct (exec h (Getenv "KUBELET_CLIENT_KEY") w1) as [[key|why] w2]; [|done].
  rewrite exec_bind. destruct (exec h (kubelet_token cert key) w2) as [[[token|err]|why] w3] eqn:Ht;
    [|done..].
  assert (token = "" ∨ cert = "" ∧ key = "") as Htok.
  { unfold kubelet_token in Ht. destruct (String.eqb cert "" && String.eqb key "") eqn:E.
    - apply andb_true_iff in E as [E1%String.eqb_eq E2%String.eqb_eq]. by right.
    - injection Ht as <- _. by left. }
  rewrite exec_bind. destruct (exec_kubelet_seconds h v w3 Hv) as (w4 & ->).
  set (seconds := match v with None | Some "" => Ok defaultKubeletTimeout | Some _ => _ end).
  destruct seconds as [n|err] eqn:Hn; [|done]. unfold seconds in Hn.
  destruct (makeTransport _ _) as [trans|err] eqn:Hm; [|done]. intros [= <- <-].
  split; [done|]. split; [done|]. exists cert, key, token, n. split; [done|]. split; [done|].
  split; [done|]. destruct v as [[|a s]|]; [by injection Hn| |by injection Hn].
  by destruct (Atoi (String a s)); simplify_eq.
Qed.

(** C36: the time a request to the kubelet may take: ten seconds, or what the variable
    says as long as it fits a duration.  Above that the product overflows: from
    9223372037 to 18446744073 seconds it is negative, and requests have no deadline. *)
Theorem newKubeletClient_timeout {W} (h : handler W) host port v kc w w' :
  env_is h "KUBELET_TIMEOUT" v →
  exec h (newKubeletClient host port) w = (Done (Ok kc), w') →
  match v with
  | None | Some "" => kc_timeout kc = (10 * second)%Z
  | Some s => ∃ n, Atoi s = Some n ∧
      ((0 ≤ n ≤ 9223372036)%Z → kc_timeout kc = (n * second)%Z) ∧
      ((9223372037 ≤ n ≤ 18446744073)%Z → (kc_timeout kc < 0)%Z)
  end.
Proof.
  intros Hv He. destruct (exec_newKubeletClient h host port v kc w w' Hv He)
    as (_ & _ & cert & key & token & n & -> & _ & _ & Hn).
  destruct v as [[|a s]|]; [by subst n| |by subst n].
  exists n. split; [done|]. unfold second. split; intros Hb.
  - apply int64_wrap_small. unfold int64_min, int64_max. lia.
  - unfold int64_wrap.
    rewrite <- (Z.mod_unique (n * 1000000000 + 2^63) (2^64) 1 (n * 1000000000 - 2^63)) by lia. lia.
Qed.

(** Whatever the environment says, the kubelet's certificate is not verified: no
    certificate authority reaches the transport and verification is off; a bearer
    token is sent exactly when there is no client certificate. *)
Theorem newKubeletClient_unverified {W} (h : handler W) host port v kc w w' :
  env_is h "KUBELET_TIMEOUT" v →
  exec h (newKubeletClient host port) w = (Done (Ok kc), w') →
  ∃ cert key token tls rt,
    TLSConfigFor (MkTransportConfig "" "" cert "" key "" true token) = Ok tls ∧
    rt = match tls with Some t => SetOldTransportDefaults t | None => DefaultTransport end ∧
    (∃ skip, HTTPWrappersForConfig (MkTransportConfig "" "" cert "" key "" skip token) rt =
               Ok (kc_transport kc)) ∧
    (token = "" ∨ cert = "" ∧ key = "").
Proof.
  intros Hv He. destruct (exec_newKubeletClient h host port v kc w w' Hv He)
    as (_ & _ & cert & key & token & n & _ & Hm & Ht & _).
  unfold makeTransport in Hm.
  assert (tc_without_ca (tc_insecure (transportConfig (kubelet_config host port cert key token n)))
          = MkTransportConfig "" "" cert "" key "" true token) as Hpre
    by (unfold transportConfig; simpl; by destruct (HasCA _)).
  rewrite Hpre in Hm. destruct (TLSConfigFor _) as [tls|err] eqn:Htls; [|done].
  exists cert, key, token, tls. eexists. split; [done|]. split; [done|]. split; [|done].
  revert Hm. unfold transportConfig. simpl. destruct (HasCA _); simpl; eauto.
Qed.
End Kubelet.
