(* ===== verification/PodDriver.v ===== *)
(** * pkg/controller: the reconciler of mount pods

    [PodDriver] keeps the mount pods of the node in line with the pods that use
    them.  [Run] handles one mount pod: it drops the references of pods that are
    gone, then acts on the pod's status.  [doReconcile] runs it for every mount pod
    the kubelet reports, again and again. *)

From S2P Require Import Prelude GoStrings GoTime Kube Effects Lib Client Config Util PodMount MountInfo Kubelet.

(** ** Status *)

Inductive podStatus := podReady | podError | podDeleted_ | podPending.

(** [None] is the nil pod. *)
Definition getPodStatus (p : option pod) : podStatus :=
  match p with
  | None => podError
  | Some p =>
      if is_deleted p then podDeleted_
      else if IsPodError p then podError
      else if IsPodReady p then podReady
      else podPending
  end.

(** ** Work under a deadline of one second *)

Definition timeout_err : error := StatusErr Internal "context timeout".

(** The output and the error of [work], or the deadline's error. *)
Definition doWithinTime (work : prog (string * option error)) : prog (string * option error) :=
  r ← call ERace;
  match r with
  | InTime => work
  | LateDone seen => '(out, _) ← work; mret (if seen : bool then out else "", Some timeout_err)
  | Stuck => mret ("", Some timeout_err)
  end.

(** A function that only returns an error. *)
Definition no_output (f : prog (option error)) : prog (string * option error) :=
  e ← f; mret ("", e).

(** ** Annotations *)

(** The references among the annotations [m]. *)
Definition refs_of (m : smap) : smap := filter (λ kv, is_ref kv.1 kv.2 = true) m.

(** The pod of the target is known to the kubelet and is not being deleted. *)
Definition live (mit : mountInfoTable) (t : string) : bool :=
  match deletedPods mit !! getPodUid t with Some false => true | _ => false end.

(** The annotations [checkAnnotations] keeps, and how many live references. *)
Definition kept_annotations (mit : mountInfoTable) (m : smap) : smap :=
  filter (λ kv, is_ref kv.1 kv.2 = true → live mit kv.2 = true) m.

Definition existTargets (mit : mountInfoTable) (m : smap) : nat :=
  size (filter (λ kv, is_ref kv.1 kv.2 = true ∧ live mit kv.2 = true) m).

Section PodDriver.
Context `{Lib} (cfg : Config).

Definition checkAnnotations (mit : mountInfoTable) (p : pod) : prog (pod * option error) :=
  with_pod_lock (p_name p) (
    let kept := kept_annotations mit (annots p) in
    let n := existTargets mit (annots p) in
    let kept := if n =? 0 then kept else delete DeleteDelayAtKey kept in
    '(p, err) ← (if size (annots p) =? size kept then mret (p, None)
                 else let p := set_annotations (Some kept) p in
                      e ← UpdatePod (Some p); mret (p, e));
    match err with
    | Some err => mret (p, Some err)
    | None =>
        if (n =? 0) && negb (is_deleted p) then
          '(p, shouldDelay, err) ← ShouldDelay p;
          match err with
          | Some err => mret (p, Some err)
          | None =>
              if shouldDelay : bool then mret (p, None)
              else e ← DeletePod (Some p); mret (p, e)
          end
        else mret (p, None)
    end).

(** ** Handlers *)

(** A pod of the same name, labels, annotations and spec, with the finalizer. *)
Definition recreated (annotations : option smap) (p : pod) : pod :=
  Pod (ObjMeta (p_name p) (p_namespace p) "" "" (p_labels p) annotations
         (AddFinalizer [] Finalizer) None [])
      (p_spec p) empty_status.

Definition without_finalizer (p : pod) : pod :=
  set_finalizers (RemoveFinalizer (p_finalizers p) Finalizer) p.

(** [time.Microsecond]. *)
Definition us (n : Z) : Z := (n * 1000)%Z.

(** Wait for the pod to be gone. *)
Definition wait_deleted (p : pod) : prog bool :=
  for_n 120
    (r ← GetPod (p_name p) (p_namespace p);
     match r with
     | Ok _ => call (ESleep (us 500)) ;; mret None
     | Err err => mret (if IsNotFound err then Some true else None)
     end)
    (mret false).

Definition podErrorHandler (po : option pod) : prog (option error) :=
  match po with
  | None => mret None
  | Some p =>
      with_pod_lock (p_name p) (
        if IsPodResourceError p && IsPodHasResource p then
          let p := without_finalizer p in
          e ← UpdatePod (Some p);
          match e with
          | Some _ => mret None
          | None =>
              e ← DeletePod (Some p);
              match e with
              | Some _ => mret None
              | None =>
                  isDeleted ← wait_deleted p;
                  if isDeleted : bool then
                    _ ← CreatePod (Some (DeleteResourceOfPod (recreated (p_annotations p) p)));
                    mret None
                  else mret None
              end
          end
        else mret None)
  end.

(** [umount sourcePath], lazily when that fails for a mounted path. *)
Definition umount_source (sourcePath : string) : prog unit :=
  '(out, err) ← doWithinTime (call (EExec "umount" [sourcePath] None));
  match err with
  | None => mret tt
  | Some _ =>
      if Contains out "not mounted" || Contains out "mountpoint not found" ||
         Contains out "no mount point specified"
      then mret tt
      else _ ← doWithinTime (call (EExec "umount" ["-l"; sourcePath] None)); mret tt
  end.

(** The mount path cannot be seen within the deadline. *)
Definition source_lost (sourcePath : string) : prog bool :=
  '(_, err) ← doWithinTime (no_output
     ('(found, _) ← call (EPathExists sourcePath);
      mret (if found : bool then None else Some (Errorf "%s not exist"))));
  mret (match err with Some _ => true | None => false end).

(** One turn of the loop of [podDeletedHandler], under the pod's mutex. *)
Definition recreate_turn (p : pod) (sourcePath : string) (refs : smap) :
    prog (option (option error)) :=
  r ← GetPod (p_name p) (p_namespace p);
  match r with
  | Ok po =>
      if is_deleted po then call (ESleep (ms 500)) ;; mret None
      else
        _ ← UpdatePod (Some (set_annotations (Some (refs ∪ annots po)) po));
        mret (Some None)
  | Err err =>
      if IsNotFound err then
        lost ← source_lost sourcePath;
        (if lost : bool then umount_source sourcePath else mret tt) ;;
        _ ← CreatePod (Some (recreated (p_annotations p) p));
        mret (Some None)
      else mret (Some None)
  end.

Definition podDeletedHandler (po : option pod) : prog (option error) :=
  match po with
  | None => mret None
  | Some p =>
      if negb (ContainsString (p_finalizers p) Finalizer) then mret None
      else if IsPodResourceError p then mret None
      else
        let p := without_finalizer p in
        e ← UpdatePod (Some p);
        match e with
        | Some err => mret (Some err)
        | None =>
            match GetMountPathOfPod p with
            | Err _ => mret None
            | Ok (sourcePath, _) =>
                match p_annotations p with
                | None => mret None
                | Some annotation =>
                    let refs := refs_of annotation in
                    if bool_decide (refs = ∅) then
                      _ ← doWithinTime (no_output (call (ECleanupMountPoint sourcePath)));
                      mret None
                    else
                      with_pod_lock (p_name p)
                        (for_n 120 (recreate_turn p sourcePath refs)
                           (mret (Some (Errorf "old pod %s %s can't be deleted within 1min"))))
                end
            end
        end
  end.

Definition podPendingHandler (po : option pod) : prog (option error) := mret None.

(** ** Recovery of targets *)

Definition umountTarget (target : string) (count : Z) : prog unit :=
  for_each (seq 0 (Z.to_nat count)) (λ _, _ ← call (EUnmount target); mret tt).

(** The source to bind: its subpath must exist. *)
Definition volume_source_path (sourcePath sp : string) : prog (option string) :=
  if String.eqb sp "" then mret (Some sourcePath)
  else
    let path := sourcePath +:+ "/" +:+ sp in
    r ← call (EStat path);
    mret (match r with inl _ => Some path | inr _ => None end).

Definition recoverTarget (sourcePath : string) (ti : targetItem) (mi : mountItem) : prog unit :=
  match status ti with
  | targetStatusNotExist =>
      if (0 <? count ti)%Z && podDeleted mi then umountTarget (target ti) (count ti)
      else mret tt
  | targetStatusMounted | targetStatusNotMount | targetStatusUnexpect => mret tt
  | targetStatusCorrupt =>
      if inconsistent ti then mret tt
      else if podDeleted mi then mret tt
      else
        umountTarget (target ti) (count ti - 1) ;;
        src ← volume_source_path sourcePath (subpath ti);
        match src with
        | None => mret tt
        | Some src => _ ← call (EMount src (target ti) "none" ["bind"]); mret tt
        end
  end.

(** Recover the target of the annotation [k], if it is a reference. *)
Definition recover_annotation (mit : mountInfoTable) (m : smap) (mntPath k : string) : prog unit :=
  match m !! k with
  | None => mret tt
  | Some t =>
      if is_ref k t then
        r ← resolveTarget mit t;
        match r with
        | None => mret tt
        | Some mi =>
            recoverTarget mntPath (baseTarget mi) mi ;;
            for_each (subPathTarget mi) (λ ti, recoverTarget mntPath ti mi)
        end
      else mret tt
  end.

Definition stat_error (path : string) : prog (option error) :=
  r ← call (EStat path); mret (match r with inl _ => None | inr e => Some (OsErr e) end).

Definition podReadyHandler (mit : mountInfoTable) (po : option pod) : prog (option error) :=
  match po with
  | None => mret None
  | Some p =>
      match p_annotations p with
      | None => mret None
      | Some annotation =>
          match GetMountPathOfPod p with
          | Err _ => mret None
          | Ok (mntPath, _) =>
              '(_, e) ← doWithinTime (no_output (stat_error mntPath));
              match e with
              | Some _ => mret None
              | None =>
                  ks ← range_keys annotation;
                  for_each ks (recover_annotation mit annotation mntPath) ;;
                  mret None
              end
          end
      end
  end.

(** ** [Run] *)

Definition handle (mit : mountInfoTable) (st : podStatus) (po : option pod) :
    prog (option error) :=
  match st with
  | podReady => podReadyHandler mit po
  | podError => podErrorHandler po
  | podPending => podPendingHandler po
  | podDeleted_ => podDeletedHandler po
  end.

(** [checkAnnotations], once more on the pod of the API server after a conflict. *)
Definition check_retry (mit : mountInfoTable) (current : pod) : prog (pod * option error) :=
  '(current, err) ← checkAnnotations mit current;
  match err with
  | Some e =>
      if IsConflict e then
        r ← GetPod (p_name current) (p_namespace current);
        match r with
        | Err err => mret (current, Some err)
        | Ok current => checkAnnotations mit current
        end
      else mret (current, Some e)
  | None => mret (current, None)
  end.

Definition Run (mit : mountInfoTable) (current : pod) : prog (mountInfoTable * option error) :=
  '(current, err) ← check_retry mit current;
  match err with
  | Some err => mret (mit, Some err)
  | None =>
      let st := getPodStatus (Some current) in
      match st with
      | podReady | podPending => e ← handle mit st (Some current); mret (mit, e)
      | podError | podDeleted_ =>
          r ← GetPod (p_name current) (p_namespace current);
          match r with
          | Err err => mret (mit, Some err)
          | Ok p =>
              let mit := setPodStatus p mit in
              e ← handle mit (getPodStatus (Some p)) (Some p);
              mret (mit, e)
          end
      end
  end.

(** ** [doReconcile] *)

Definition is_mount_pod (p : pod) : bool :=
  String.eqb (p_namespace p) (Namespace cfg) &&
  match p_labels p !! PodTypeKey with
  | Some value => String.eqb value PodTypeValue
  | None => false
  end.

Fixpoint run_pods (mit : mountInfoTable) (pods : list pod) : prog mountInfoTable :=
  match pods with
  | [] => mret mit
  | p :: pods' =>
      if is_mount_pod p then '(mit, _) ← Run mit p; run_pods mit pods'
      else run_pods mit pods'
  end.

(** One turn of the loop; the table is kept between turns. *)
Definition reconcile_turn (kc : kubeletClient) (mit : mountInfoTable) : prog mountInfoTable :=
  r ← GetNodeRunningPods kc;
  mit ← match r with
        | Err _ => mret mit
        | Ok podList =>
            '(mit, err) ← parse mit;
            match err with
            | Some _ => mret mit
            | None =>
                let mit := setPodsStatus podList mit in
                match podList with
                | None => Crash "nil pointer dereference"       (* podList.Items *)
                | Some items => run_pods mit items
                end
            end
        end;
  call (ESleep (int64_wrap (ReconcilerInterval cfg * second)%Z)) ;;
  mret mit.

(** The first [n] turns of the endless loop. *)
Fixpoint doReconcile (kc : kubeletClient) (n : nat) (mit : mountInfoTable) :
    prog mountInfoTable :=
  match n with
  | 0 => mret mit
  | S n' => mit ← reconcile_turn kc mit; doReconcile kc n' mit
  end.

End PodDriver.
