(* ===== verification/Refs.v ===== *)
(** * Refinement: mount pods as maps

    The abstract state of the mount pod of a volume: there is none, or a map, its
    annotations, on a pod that lives or is being deleted; the references are part of
    the map ([refs_of]).  Over any [PodStore] the operations of pod_mount.go implement
    the operations on that state: adding a reference inserts it, unmounting removes it
    and removes the pod with the last one; pods of other names stay as they are. *)

From S2P Require Import Prelude GoStrings GoHash GoTime Kube Effects Lib Client Config Util Builder PodMount MountInfo Kubelet PodDriver Store.

(** ** The specification *)

Inductive mount_state := Gone | Deleting (A : smap) | Live (A : smap).

(** The annotations with the reference of [t]; a new one ends a pending deletion. *)
Definition spec_add (t : string) (A : smap) : smap :=
  match A !! GetReferenceKey t with
  | Some _ => A
  | None => delete DeleteDelayAtKey (<[GetReferenceKey t := t]> A)
  end.

(** Gone, or marked for deletion with the annotations [A]. *)
Definition spec_deleted (A : smap) (st : mount_state) : Prop := st = Gone ∨ st = Deleting A.

(** The states an unmount of [t] may lead to. *)
Definition spec_unmount (t : string) (st st' : mount_state) : Prop :=
  match st with
  | Gone => st' = Gone
  | Deleting A => spec_deleted (delete (GetReferenceKey t) A) st'
  | Live A =>
      let A' := delete (GetReferenceKey t) A in
      if bool_decide (refs_of A' = ∅) then spec_deleted A' st' else st' = Live A'
  end.

Definition state_of_pod (p : option pod) : mount_state :=
  match p with
  | None => Gone
  | Some p => if is_deleted p then Deleting (annots p) else Live (annots p)
  end.

(** The annotations of a state. *)
Definition annots_of (st : mount_state) : smap :=
  match st with Gone => ∅ | Deleting A | Live A => A end.

(** ** Lemmas on references *)

Lemma HasRef_refs p : HasRef p = negb (bool_decide (refs_of (annots p) = ∅)).
Proof.
  unfold HasRef, refs_of. destruct (existsb _ _) eqn:E; symmetry.
  - apply existsb_exists in E as ([k t] & Hin%list_elem_of_In%elem_of_map_to_list & Hr).
    rewrite negb_true_iff, bool_decide_eq_false, map_empty_filter.
    intros Hm. by apply (Hm k t Hin).
  - rewrite negb_false_iff, bool_decide_eq_true, map_empty_filter.
    rewrite <- not_true_iff_false, existsb_exists in E. intros k t Hk Hr. apply E.
    exists (k, t). split; [by apply list_elem_of_In, elem_of_map_to_list|done].
Qed.

Lemma refs_of_insert m t :
  refs_of (<[GetReferenceKey t := t]> m) = <[GetReferenceKey t := t]> (refs_of m).
Proof. unfold refs_of. rewrite map_filter_insert_True; [done|]. apply String.eqb_refl. Qed.

Lemma refs_of_delete_delay m : refs_of (delete DeleteDelayAtKey m) = refs_of m.
Proof.
  unfold refs_of. rewrite map_filter_delete. apply delete_id.
  apply map_lookup_filter_None. right. intros v _ Hr. simpl in Hr.
  unfold is_ref in Hr. apply String.eqb_eq in Hr.
  by destruct (GetReferenceKey_not_delay v) as [_ []].
Qed.

Section Refs.
Context `{LibLaws} (cfg : Config) {W : Type} (h : handler W) (pods : W → podmap)
  `{!PodStore h pods}.

Local Abbreviation key name := ((Namespace cfg, name) : string * string).

(** The mount pod of the name and its state; the other pods are those of [w]. *)
Definition mount_state_of (name : string) (w : W) : mount_state :=
  state_of_pod (pods w !! (Namespace cfg, name)).

Definition others_kept (name : string) (w w' : W) : Prop :=
  ∀ k, k ≠ (Namespace cfg, name) → pods w' !! k = pods w !! k.

Lemma others_kept_refl name w w' : pods w' = pods w → others_kept name w w'.
Proof. intros Hp k _. by rewrite Hp. Qed.

Lemma others_kept_insert name p w w' :
  pods w' = <[key name := p]> (pods w) → others_kept name w w'.
Proof. intros Hp k Hk. by rewrite Hp, lookup_insert_ne. Qed.

Lemma others_kept_delete name w w' :
  pods w' = delete (key name) (pods w) → others_kept name w w'.
Proof. intros Hp k Hk. by rewrite Hp, lookup_delete_ne. Qed.

Lemma others_kept_trans name w1 w2 w3 :
  others_kept name w1 w2 → others_kept name w2 w3 → others_kept name w1 w3.
Proof. intros H1 H2 k Hk. by rewrite H2, H1. Qed.

(** ** Single requests *)

Lemma exec_get n ns w :
  ∃ w1, exec h (GetPod n ns) w =
    (Done (match pods w !! (ns, n) with Some p => Ok p | None => Err ApiNotFound end), w1) ∧
    pods w1 = pods w.
Proof.
  unfold GetPod. rewrite exec_call. pose proof (store_get ns n w) as Hg.
  pose proof (store_other _ (EPodGet ns n) w eq_refl) as Ho.
  destruct (h _ (EPodGet ns n) w) as [r w1]. simpl in *. subst r. eauto.
Qed.

(** The pod [q] is an edit of [p]: the same object at the same revision. *)
Definition edits (p q : pod) : Prop :=
  p_name q = p_name p ∧ p_namespace q = p_namespace p ∧ revision q = revision p.

Lemma exec_update p q name w :
  pods w !! key name = Some p → edits p q →
  ∃ q' w1, exec h (UpdatePod (Some q)) w = (Done None, w1) ∧ stored q q' ∧
    (is_deleted q' = is_deleted p ∧ p_status q' = p_status p) ∧
    (pods w1 = <[key name := q']> (pods w) ∨
     finalized p q ∧ pods w1 = delete (key name) (pods w)).
Proof.
  intros Hp (Hn' & Hns' & Hr). destruct (store_names _ _ _ _ Hp) as [Hns Hn].
  rewrite Hns in Hns'. rewrite Hn in Hn'.
  destruct (store_update q w p) as (q' & w1 & Hh & Hs & Hd & Hst & Hw); [by rewrite Hns', Hn'|done|].
  rewrite Hns', Hn' in Hw. cbn [UpdatePod]. rewrite exec_bind, exec_call, Hns'.
  rewrite Hns' in Hh. rewrite Hh, exec_ret.
  assert (is_deleted q' = is_deleted p) by (unfold is_deleted; by rewrite Hd). eauto 8.
Qed.

Lemma exec_update_live p q name w :
  pods w !! key name = Some p → is_deleted p = false → edits p q →
  ∃ q' w1, exec h (UpdatePod (Some q)) w = (Done None, w1) ∧ stored q q' ∧
    is_deleted q' = false ∧ pods w1 = <[key name := q']> (pods w).
Proof.
  intros Hp Hd Hq. destruct (exec_update p q name w Hp Hq) as (q' & w1 & He & Hs & [Hd' _] & Hw).
  exists q', w1. rewrite Hd'. split; [done|]. split; [done|]. split; [done|].
  destruct Hw as [Hw|[[Hf _] _]]; [done|]. unfold is_deleted in Hd. by destruct (p_deletionTimestamp p).
Qed.

Lemma exec_lock {A} i (t : prog A) w :
  ∃ w0, pods w0 = pods w ∧
    ∀ o w1, exec h t w0 = (o, w1) →
      ∃ w2, exec h (with_lock i t) w = (o, w2) ∧ pods w2 = pods w1.
Proof.
  unfold with_lock. pose proof (store_other _ (ELock i) w eq_refl) as Hl.
  setoid_rewrite exec_vis. destruct (h _ (ELock i) w) as [[] w0]. simpl in Hl.
  exists w0. split; [done|]. intros o w1 He.
  rewrite exec_finally, He. eexists. split; [done|]. by apply store_other.
Qed.

(** ** Adding a reference *)

Lemma stored_annots p p' : stored p p' → annots p' = annots p.
Proof. intros (_ & _ & _ & Ha & _). unfold annots. by rewrite Ha. Qed.

(** The state is that of the pod the API server stored. *)
Lemma stored_state p q name w :
  pods w !! key name = Some q → stored p q →
  mount_state_of name w = if is_deleted q then Deleting (annots p) else Live (annots p).
Proof. intros Hq Hs. unfold mount_state_of. rewrite Hq. simpl. by rewrite (stored_annots p q Hs). Qed.

Lemma pod_state p name w :
  pods w !! key name = Some p →
  mount_state_of name w = if is_deleted p then Deleting (annots p) else Live (annots p).
Proof. intros Hp. by apply (stored_state p p). Qed.

Lemma is_deleted_none p : is_deleted p = false → p_deletionTimestamp p = None.
Proof. unfold is_deleted. by destruct (p_deletionTimestamp p). Qed.

Lemma is_deleted_some p : p_deletionTimestamp p ≠ None → is_deleted p = true.
Proof. unfold is_deleted. by destruct (p_deletionTimestamp p). Qed.

Lemma exec_AddRefOfMount t name p w :
  pods w !! key name = Some p → is_deleted p = false →
  ∃ w', exec h (AddRefOfMount cfg t name) w = (Done None, w') ∧
    mount_state_of name w' = Live (spec_add t (annots p)) ∧ others_kept name w w'.
Proof.
  intros Hp Hd.
  assert (∃ w', exec h (add_ref_attempt cfg t name) w = (Done None, w') ∧
    mount_state_of name w' = Live (spec_add t (annots p)) ∧ others_kept name w w')
    as (w' & He & Hw).
  2: { exists w'. split; [|done]. by apply exec_retry_once. }
  unfold add_ref_attempt. rewrite exec_bind.
  destruct (exec_get name (Namespace cfg) w) as (w1 & -> & Hw1). rewrite Hp.
  rewrite (is_deleted_none p Hd). unfold spec_add.
  destruct (annots p !! GetReferenceKey t) eqn:Hk.
  - exists w1. split; [done|]. split; [|by apply others_kept_refl].
    rewrite (pod_state p) by by rewrite Hw1. by rewrite Hd.
  - set (q := set_annotations _ p).
    destruct (exec_update_live p q name w1) as (p' & w2 & -> & Hs & Hd' & Hw2); [by rewrite Hw1|done..|].
    exists w2. split; [done|]. rewrite Hw1 in Hw2. split; [|by eapply others_kept_insert].
    rewrite (stored_state q p') by (done || by rewrite Hw2, lookup_insert_eq). by rewrite Hd'.
Qed.

(** Refinement of [AddRefOfMount]: on a mount pod that is not being deleted it succeeds
    and inserts the reference, leaving all other pods alone; without the pod, or on
    one that is being deleted, it fails and changes nothing. *)
Theorem AddRefOfMount_refines t name w :
  ∃ r w', exec h (AddRefOfMount cfg t name) w = (Done r, w') ∧ others_kept name w w' ∧
    match mount_state_of name w with
    | Live A => r = None ∧ mount_state_of name w' = Live (spec_add t A)
    | st => r ≠ None ∧ mount_state_of name w' = st
    end.
Proof.
  unfold mount_state_of at 1. destruct (pods w !! key name) as [p|] eqn:Hp; simpl.
  - destruct (is_deleted p) eqn:Hd.
    + destruct (exec_get name (Namespace cfg) w) as (w1 & Hg & Hw1). rewrite Hp in Hg.
      exists (Some (StatusErr Internal "addRefOfMount: Mount pod [%s] has been deleted.")), w1.
      split; [|split; [by apply (others_kept_refl name w w1)|]].
      * apply exec_retry_once; [|by intros e [= <-]].
        unfold add_ref_attempt. rewrite exec_bind, Hg. unfold is_deleted in Hd.
        destruct (p_deletionTimestamp p); done.
      * split; [done|]. rewrite (pod_state p) by by rewrite Hw1. by rewrite Hd.
    + destruct (exec_AddRefOfMount t name p w Hp Hd) as (w' & He & Hs & Ho). eauto 6.
  - destruct (exec_get name (Namespace cfg) w) as (w1 & Hg & Hw1). rewrite Hp in Hg.
    exists (Some ApiNotFound), w1. split; [|split; [by apply (others_kept_refl name w w1)|]].
    + apply exec_retry_once; [|by intros e [= <-]].
      unfold add_ref_attempt. rewrite exec_bind, Hg. done.
    + split; [done|]. unfold mount_state_of. by rewrite Hw1, Hp.
Qed.

(** ** Removing a reference *)

Lemma refs_of_delete m k : refs_of (delete k m) = delete k (refs_of m).
Proof. unfold refs_of. by rewrite map_filter_delete. Qed.

(** The pod after the reference of [t] was removed from it. *)
Definition unreferenced (t : string) (p p' : pod) : Prop :=
  annots p' = delete (GetReferenceKey t) (annots p) ∧ is_deleted p' = is_deleted p.

Lemma exec_remove_ref t name p w :
  pods w !! key name = Some p →
  ∃ w', exec h (RetryOnConflict (remove_ref_attempt (GetReferenceKey t) name (Namespace cfg))) w
             = (Done None, w') ∧ others_kept name w w' ∧
    ((∃ p', unreferenced t p p' ∧ pods w' !! key name = Some p') ∨
     is_deleted p = true ∧ pods w' !! key name = None).
Proof.
  intros Hp.
  assert (∃ w', exec h (remove_ref_attempt (GetReferenceKey t) name (Namespace cfg)) w
             = (Done None, w') ∧ others_kept name w w' ∧
    ((∃ p', unreferenced t p p' ∧ pods w' !! key name = Some p') ∨
     is_deleted p = true ∧ pods w' !! key name = None))
    as (w' & He & Hw).
  2: { exists w'. split; [|done]. by apply exec_retry_once. }
  unfold remove_ref_attempt. rewrite exec_bind.
  destruct (exec_get name (Namespace cfg) w) as (w1 & -> & Hw1). rewrite Hp.
  destruct (annots p !! GetReferenceKey t) eqn:Hk.
  - set (q := set_annotations _ p).
    destruct (exec_update p q name w1) as (p' & w2 & -> & Hs & [Hd _] & Hw2); [by rewrite Hw1|done|].
    rewrite Hw1 in Hw2. exists w2. split; [done|]. destruct Hw2 as [Hw2|[[Hf _] Hw2]].
    + split; [by eapply others_kept_insert|]. left. exists p'.
      split; [|by rewrite Hw2, lookup_insert_eq]. by apply stored_annots in Hs.
    + split; [by apply others_kept_delete|]. right. rewrite Hw2, lookup_delete_eq.
      split; [|done]. unfold is_deleted. by destruct (p_deletionTimestamp p).
  - exists w1. split; [done|]. split; [by apply others_kept_refl|]. left. exists p.
    split; [split; [by rewrite delete_id|done]|by rewrite Hw1].
Qed.

(** Deleting the pod when no reference is left. *)
Lemma exec_delete_attempt name p w :
  pods w !! key name = Some p → HasRef p = false →
  annots p !! DeleteDelayTimeKey = None →
  ∃ w', exec h (RetryOnConflict (delete_attempt name (Namespace cfg))) w = (Done None, w') ∧
    spec_deleted (annots p) (mount_state_of name w') ∧ others_kept name w w'.
Proof.
  intros Hp Hr Hdelay.
  assert (∃ w', exec h (delete_attempt name (Namespace cfg)) w = (Done None, w') ∧
    spec_deleted (annots p) (mount_state_of name w') ∧ others_kept name w w')
    as (w' & He & Hw).
  2: { exists w'. split; [|done]. by apply exec_retry_once. }
  unfold delete_attempt. rewrite exec_bind.
  destruct (exec_get name (Namespace cfg) w) as (w1 & -> & Hw1). rewrite Hp, Hr.
  unfold ShouldDelay. rewrite Hdelay. rewrite exec_bind.
  change (exec h (mret (p, false, None)) w1) with (Done (p, false, @None error), w1). cbv beta iota.
  cbn [DeletePod]. rewrite exec_call.
  destruct (store_names _ _ _ _ Hp) as [Hns Hn]. rewrite Hns, Hn.
  destruct (store_delete (Namespace cfg) name w1 p) as (w2 & -> & Hw2); [by rewrite Hw1|].
  exists w2. split; [done|]. rewrite Hw1 in Hw2.
  destruct Hw2 as [[_ Hw2]|(p' & Hs & Hd & Hw2)].
  - split; [left|by apply others_kept_delete]. unfold mount_state_of.
    by rewrite Hw2, lookup_delete_eq.
  - split; [right|by eapply others_kept_insert].
    rewrite (stored_state p p') by (done || by rewrite Hw2, lookup_insert_eq).
    by rewrite (is_deleted_some _ Hd).
Qed.

(** [JUmount] without its mutex. *)
Lemma exec_JUmount_body t name p w :
  pods w !! key name = Some p → annots p !! DeleteDelayTimeKey = None →
  ∃ w', exec h
    (err ← RetryOnConflict (remove_ref_attempt (GetReferenceKey t) name (Namespace cfg));
     match err with
     | Some err => mret (Some err)
     | None =>
         r ← GetPod name (Namespace cfg);
         match r with
         | Err err => if IsNotFound err then mret None else mret (Some err)
         | Ok newPod =>
             if HasRef newPod then mret None
             else RetryOnConflict (delete_attempt name (Namespace cfg))
         end
     end) w = (Done None, w') ∧
    spec_unmount t (state_of_pod (Some p)) (mount_state_of name w') ∧ others_kept name w w'.
Proof.
  intros Hp Hdelay. rewrite exec_bind.
  destruct (exec_remove_ref t name p w Hp) as (w1 & -> & Ho1 & Hw1). rewrite exec_bind.
  destruct (exec_get name (Namespace cfg) w1) as (w2 & -> & Hw2). simpl.
  destruct Hw1 as [(p' & Hu & Hp')|[Hd Hp']]; rewrite Hp'.
  2: { exists w2. split; [done|]. rewrite Hd. unfold mount_state_of. rewrite Hw2, Hp'.
       split; [by left|]. intros k Hk. by rewrite Hw2, Ho1. }
  destruct Hu as [Ha Hd]. rewrite HasRef_refs, Ha. simpl.
  destruct (bool_decide (refs_of (delete (GetReferenceKey t) (annots p)) = ∅)) eqn:Hb; cbn [negb].
  - destruct (exec_delete_attempt name p' w2) as (w3 & He & Hs & Ho2);
      [by rewrite Hw2|by rewrite HasRef_refs, Ha, Hb| |].
    { rewrite Ha, lookup_delete_None. by right. }
    exists w3. split; [done|]. split; [|intros k Hk; by rewrite Ho2, Hw2, Ho1].
    rewrite Ha in Hs. destruct (is_deleted p); simpl; [done|]. by rewrite Hb.
  - exists w2. split; [done|]. split; [|intros k Hk; by rewrite Hw2, Ho1].
    rewrite (pod_state p') by by rewrite Hw2. rewrite Hd, Ha.
    destruct (is_deleted p); simpl; [by right|]. by rewrite Hb.
Qed.

(** C7: refinement of [JUmount]: on a mount pod without a delay it succeeds and
    removes the reference; the pod goes, or is marked for deletion, exactly when that
    was the last one.  Other pods, and a missing pod, are left alone; a pod that is
    being deleted stays so, or goes. *)
Theorem JUmount_refines volumeId t w :
  let name := GenerateNameByVolumeId cfg volumeId in
  annots_of (mount_state_of name w) !! DeleteDelayTimeKey = None →
  ∃ w', exec h (JUmount cfg volumeId t) w = (Done None, w') ∧ others_kept name w w' ∧
    spec_unmount t (mount_state_of name w) (mount_state_of name w').
Proof.
  intros name Hpod. unfold JUmount. fold name. rewrite with_pod_lock_eq.
  match goal with |- context [exec h (with_lock ?i ?t) w] =>
    destruct (exec_lock i t w) as (w0 & Hw0 & Hl) end.
  setoid_rewrite exec_bind in Hl.
  destruct (exec_get name (Namespace cfg) w0) as (w1 & Hg & Hw1).
  rewrite Hg, Hw0 in Hl. unfold mount_state_of at 1.
  destruct (pods w !! key name) as [p|] eqn:Hp.
  - destruct (store_names _ _ _ _ Hp) as [Hns Hn]. rewrite Hns, Hn in Hl.
    destruct (exec_JUmount_body t name p w1) as (w2 & He & Hs & Ho);
      [by rewrite Hw1, Hw0| |].
    { rewrite (pod_state p name w Hp) in Hpod. by destruct (is_deleted p). }
    destruct (Hl _ _ He) as (w3 & He3 & Hw3). exists w3. split; [done|].
    unfold mount_state_of, others_kept in *. setoid_rewrite Hw3. split; [|done].
    intros k Hk. by rewrite Ho, Hw1, Hw0.
  - destruct (Hl (Done None) w1 eq_refl) as (w3 & He3 & Hw3). exists w3. split; [done|].
    split; [apply others_kept_refl; congruence|]. simpl. unfold mount_state_of.
    by rewrite Hw3, Hw1, Hw0, Hp.
Qed.

(** ** Creating the mount pod *)

(** The annotations of a new mount pod. *)
Definition base_annots (s : JfsSetting) : smap :=
  let a := rd (js_MountPodAnnotations s) ∪ ∅ in
  if String.eqb (js_DeletedDelay s) "" then a else <[DeleteDelayTimeKey := js_DeletedDelay s]> a.

Lemma NewMountPod_fields s order g name p g' :
  NewMountPod cfg s order g name = Some (p, g') →
  p_name p = name ∧ p_namespace p = Namespace cfg ∧ is_deleted p = false ∧
  annots p = base_annots s.
Proof.
  unfold NewMountPod. destruct (parsePodResources s g) as [[r g1]|]; [|done]. simpl.
  destruct (getCommand s) as [cmd|]; [|done]. simpl.
  destruct (getCacheDirVolumes cmd) as [vs ms]. by intros [= <- <-].
Qed.

Lemma exec_secret sec w :
  ∃ w', exec h (createOrUpdateSecret cfg sec) w = (Done None, w') ∧ pods w' = pods w.
Proof.
  assert (∃ w', exec h (secret_attempt cfg sec) w = (Done None, w') ∧ pods w' = pods w)
    as (w' & He & Hw).
  2: { exists w'. split; [|done]. by apply exec_retry_once. }
  unfold secret_attempt, GetSecret. rewrite exec_bind, exec_call.
  pose proof (store_secret_get (Namespace cfg) (s_name sec) w) as Hg.
  pose proof (store_other _ (ESecretGet (Namespace cfg) (s_name sec)) w eq_refl) as Ho.
  destruct (h _ (ESecretGet _ _) w) as [[old|err] w1]; simpl in Hg, Ho.
  - cbn [UpdateSecret]. rewrite exec_bind, exec_call.
    set (sn := Secret _ _). destruct (store_secret_update (s_namespace sn) sn w1) as [s' Hs].
    pose proof (store_other _ (ESecretUpdate (s_namespace sn) sn) w1 eq_refl) as Ho1.
    destruct (h _ (ESecretUpdate _ _) w1) as [r w2]. simpl in Hs, Ho1. subst r.
    exists w2. split; [done|congruence].
  - rewrite (Hg err eq_refl). cbn [IsNotFound]. simpl (IsNotFound _).
    change (IsNotFound ApiNotFound) with true. cbv iota. rewrite exec_bind.
    cbn [CreateSecret]. rewrite exec_bind, exec_call.
    destruct (store_secret_create (s_namespace sec) sec w1) as [s' Hs].
    pose proof (store_other _ (ESecretCreate (s_namespace sec) sec) w1 eq_refl) as Ho1.
    destruct (h _ (ESecretCreate _ _) w1) as [r w2]. simpl in Hs, Ho1. subst r.
    exists w2. split; [done|congruence].
Qed.

(** The pod is built, or a quantity of the setting is not valid and the code panics. *)
Lemma exec_new_mount_pod s name w :
  ∃ o w', exec h (new_mount_pod cfg s name) w = (o, w') ∧ pods w' = pods w ∧
    match o with
    | Done p => p_name p = name ∧ p_namespace p = Namespace cfg ∧ is_deleted p = false ∧
                annots p = base_annots s
    | Panicked _ => ∃ order g, NewMountPod cfg s order g name = None
    end.
Proof.
  unfold new_mount_pod. rewrite exec_bind, exec_call.
  pose proof (store_other _ EResourcesGet w eq_refl) as H1.
  destruct (h _ EResourcesGet w) as [g w1]. simpl in H1.
  unfold range_keys. rewrite exec_bind, exec_bind, exec_call.
  match goal with |- context [EOrder ?ks] =>
    pose proof (store_other _ (EOrder ks) w1 eq_refl) as H2;
    destruct (h _ (EOrder ks) w1) as [order w2] end. simpl in H2.
  change (exec h (mret ?x) w2) with (Done x, w2). cbv beta iota.
  set (order' := if decide _ then _ else _).
  destruct (NewMountPod cfg s order' g name) as [[p g']|] eqn:Hp.
  - rewrite exec_bind, exec_call. pose proof (store_other _ (EResourcesSet g') w2 eq_refl) as H3.
    destruct (h _ (EResourcesSet g') w2) as [[] w3]. simpl in H3.
    exists (Done p), w3. split; [done|]. split; [congruence|]. by eapply NewMountPod_fields.
  - exists (Panicked "NewMountPod"), w2. split; [done|]. split; [congruence|]. by exists order', g.
Qed.

Lemma for_n_S {B} n (body : prog (option B)) after :
  for_n (S n) body after =
  (r ← body; match r with Some b => mret b | None => for_n n body after end).
Proof. done. Qed.

(** The pod is created with the reference of the setting's target. *)
Lemma exec_create_with_ref s name w :
  pods w !! key name = None →
  ∃ o w', exec h (create_with_ref cfg s (NewSecret cfg s) name) w = (o, w') ∧
    others_kept name w w' ∧
    match o with
    | Done r => r = None ∧ mount_state_of name w' =
        Live (<[GetReferenceKey (js_TargetPath s) := js_TargetPath s]> (base_annots s))
    | Panicked _ => mount_state_of name w' = Gone ∧ ∃ order g, NewMountPod cfg s order g name = None
    end.
Proof.
  intros Hp. unfold create_with_ref. rewrite exec_bind.
  destruct (exec_new_mount_pod s name w) as ([q|why] & w2 & Hq & Hw2 & Hnew); rewrite Hq.
  2: { exists (Panicked why), w2. split; [done|]. split; [by apply others_kept_refl|]. split; [|done].
       unfold mount_state_of. by rewrite Hw2, Hp. }
  destruct Hnew as (Hn & Hns & _ & Ha). cbn [CreatePod]. set (q' := set_annotations _ q).
  assert (p_namespace q' = Namespace cfg ∧ p_name q' = name) as [Hns' Hn'] by done.
  destruct (store_create q' w2) as (q2 & w3 & Hc & Hst & Hd & Hw3); [by rewrite Hns', Hn', Hw2|].
  rewrite exec_bind, exec_bind, exec_call, Hc.
  change (exec h (mret ?x) w3) with (Done x, w3). cbv beta iota. rewrite exec_bind.
  destruct (exec_secret (SetPodAsOwner (NewSecret cfg s) q2) w3) as (w4 & Hs & Hw4).
  rewrite Hs. rewrite Hns', Hn', Hw2 in Hw3. exists (Done None), w4. split; [done|]. split.
  - apply (others_kept_insert name q2). congruence.
  - split; [done|]. rewrite (stored_state q' q2) by (done || by rewrite Hw4, Hw3, lookup_insert_eq).
    unfold is_deleted. rewrite Hd. subst q'. rewrite annots_set. simpl rd. by rewrite Ha.
Qed.

(** While the old pod is being deleted, [createOrAddRef] polls and gives up. *)
Lemma exec_sleep n w : ∃ w', exec h (call (ESleep n)) w = (Done tt, w') ∧ pods w' = pods w.
Proof.
  rewrite exec_call. pose proof (store_other _ (ESleep n) w eq_refl) as Ho.
  destruct (h _ (ESleep n) w) as [[] w']. eauto.
Qed.

Lemma exec_polls {B} n name p (body : res pod → prog (option B)) (b : B) w :
  pods w !! key name = Some p → (∀ w, ∃ w', exec h (body (Ok p)) w = (Done None, w') ∧ pods w' = pods w) →
  ∃ w', exec h (for_n n (GetPod name (Namespace cfg) ≫= body) (mret b)) w = (Done b, w') ∧
    pods w' = pods w.
Proof.
  intros Hp Hbody. revert w Hp. induction n as [|n IH]; intros w Hp; [by exists w|].
  rewrite for_n_S, exec_bind, exec_bind.
  destruct (exec_get name (Namespace cfg) w) as (w1 & -> & Hw1). rewrite Hp.
  destruct (Hbody w1) as (w2 & -> & Hw2).
  destruct (IH w2) as (w3 & -> & Hw3); [by rewrite Hw2, Hw1|].
  exists w3. split; [done|congruence].
Qed.

(** [createOrAddRef] on every way out. *)
Lemma exec_createOrAddRef s w :
  let name := GenerateNameByVolumeId cfg (js_VolumeId s) in
  let s' := with_SecretName (name +:+ "-secret") s in
  let t := js_TargetPath s in
  ∃ o w', exec h (createOrAddRef cfg s) w = (o, w') ∧ others_kept name w w' ∧
    match o with
    | Done (r, s1) => s1 = s' ∧
        match mount_state_of name w with
        | Gone => r = None ∧ mount_state_of name w' =
                    Live (<[GetReferenceKey t := t]> (base_annots s))
        | Deleting A => r ≠ None ∧ mount_state_of name w' = Deleting A
        | Live A => r = None ∧ mount_state_of name w' = Live (spec_add t A)
        end
    | Panicked _ => mount_state_of name w = Gone ∧ mount_state_of name w' = Gone ∧
        ∃ order g, NewMountPod cfg s' order g name = None
    end.
Proof.
  intros name s' t. unfold createOrAddRef. fold name. fold s'.
  rewrite with_pod_lock_eq. change 120 with (S 119). generalize 119. intros polls.
  match goal with |- context [exec h (with_lock ?i ?t) w] =>
    destruct (exec_lock i t w) as (w0 & Hw0 & Hl) end.
  change (mount_state_of name w) with (state_of_pod (pods w !! key name)).
  destruct (pods w !! key name) as [p|] eqn:Hp; simpl.
  - destruct (is_deleted p) eqn:Hd.
    + (* polls in vain *)
      match type of Hl with context [for_n _ (_ ≫= ?body) (mret ?b)] =>
        destruct (exec_polls (S polls) name p body b w0) as (w1 & He & Hw1) end;
        [by rewrite Hw0| |].
      { intros w1. unfold is_deleted in Hd. destruct (p_deletionTimestamp p); [|done].
        rewrite exec_bind. destruct (exec_sleep (ms 500) w1) as (w2 & -> & Hw2). by exists w2. }
      destruct (Hl _ _ He) as (w2 & He2 & Hw2). do 2 eexists. split; [exact He2|].
      split; [apply others_kept_refl; congruence|]. split; [done|]. split; [done|].
      rewrite (pod_state p) by by rewrite Hw2, Hw1, Hw0. by rewrite Hd.
    + rewrite (for_n_S polls), exec_bind, exec_bind in Hl.
      destruct (exec_get name (Namespace cfg) w0) as (w1 & Hg & Hw1). rewrite Hg, Hw0, Hp in Hl.
      pose proof Hd as Hd0. unfold is_deleted in Hd0.
      destruct (p_deletionTimestamp p); [done|].
      rewrite exec_bind in Hl.
      destruct (exec_secret (SetPodAsOwner (NewSecret cfg s') p) w1) as (w2 & Hs & Hw2).
      rewrite Hs, exec_bind in Hl. change (js_TargetPath s') with t in Hl.
      destruct (exec_AddRefOfMount t name p w2) as (w3 & Ha & Hst & Ho);
        [by rewrite Hw2, Hw1, Hw0|done..|].
      rewrite Ha in Hl. destruct (Hl (Done (None, s')) w3 eq_refl) as (w4 & He & Hw4).
      exists (Done (None, s')), w4. split; [done|]. unfold mount_state_of, others_kept in *.
      setoid_rewrite Hw4. split; [|done]. intros k Hk. by rewrite Ho, Hw2, Hw1, Hw0.
  - rewrite (for_n_S polls), exec_bind, exec_bind in Hl.
    destruct (exec_get name (Namespace cfg) w0) as (w1 & Hg & Hw1). rewrite Hg, Hw0, Hp in Hl.
    change (IsNotFound ApiNotFound) with true in Hl. cbv iota in Hl. rewrite exec_bind in Hl.
    destruct (exec_create_with_ref s' name w1) as ([r|why] & w2 & Hc & Ho & Hst);
      [by rewrite Hw1, Hw0| |]; rewrite Hc in Hl.
    + destruct (Hl (Done (r, s')) w2 eq_refl) as (w3 & He & Hw3).
      exists (Done (r, s')), w3. split; [done|]. unfold mount_state_of, others_kept in *.
      setoid_rewrite Hw3. split; [|done]. intros k Hk. by rewrite Ho, Hw1, Hw0.
    + destruct (Hl (Panicked why) w2 eq_refl) as (w3 & He & Hw3).
      exists (Panicked why), w3. split; [done|]. unfold mount_state_of, others_kept in *.
      setoid_rewrite Hw3. split; [|done]. intros k Hk. by rewrite Ho, Hw1, Hw0.
Qed.

(** C8: refinement of [createOrAddRef]: it succeeds and adds the reference to the
    mount pod, or creates the pod with it and the annotations of the setting when
    there is none; on a pod that goes on being deleted it fails and changes nothing.
    Other pods are left alone. *)
Theorem createOrAddRef_refines s w :
  let name := GenerateNameByVolumeId cfg (js_VolumeId s) in
  let s' := with_SecretName (name +:+ "-secret") s in
  let t := js_TargetPath s in
  (∀ order g, is_Some (NewMountPod cfg s' order g name)) →
  ∃ r w', exec h (createOrAddRef cfg s) w = (Done (r, s'), w') ∧ others_kept name w w' ∧
    match mount_state_of name w with
    | Gone => r = None ∧ mount_state_of name w' =
                Live (<[GetReferenceKey t := t]> (base_annots s))
    | Deleting A => r ≠ None ∧ mount_state_of name w' = Deleting A
    | Live A => r = None ∧ mount_state_of name w' = Live (spec_add t A)
    end.
Proof.
  intros name s' t Hnew.
  destruct (exec_createOrAddRef s w) as ([[r s1]|why] & w' & He & Ho & Hs).
  - destruct Hs as [-> Hs]. by exists r, w'.
  - destruct Hs as (_ & _ & order & g & Hn). destruct (Hnew order g). fold name s' in Hn. by simplify_eq.
Qed.

End Refs.
