(* ===== verification/PodDriverSafety.v ===== *)
(** * Safety of the reconciler, over every environment

    What [PodDriver] asks of the API server and of the mounts, whatever they
    answer: references of live pods survive, pods in use are not deleted, deleted
    pods in use are created anew with all they carried, and recovery leaves at most
    one more layer on a target. *)

From S2P Require Import Prelude GoStrings GoHash GoTime Kube Effects Lib Client Config Util PodMount PodMountSafety PodMountWait MountInfo Kubelet PodDriver.

(** ** References and kept annotations *)

Lemma ref_key_not_delay k t : is_ref k t = true → k ≠ DeleteDelayTimeKey ∧ k ≠ DeleteDelayAtKey.
Proof. unfold is_ref. intros ->%String.eqb_eq. apply GetReferenceKey_not_delay. Qed.

Lemma existTargets_0 mit m :
  existTargets mit m = 0 ↔ ∀ k t, m !! k = Some t → is_ref k t = true → live mit t = false.
Proof.
  unfold existTargets. rewrite map_size_empty_iff, map_empty_filter. unfold map_Forall.
  split; intros Hm k t Hk.
  - intros Hr. apply not_true_is_false. intros Hl. by apply (Hm k t Hk).
  - intros [Hr Hl]. specialize (Hm k t Hk Hr). cbn in *. congruence.
Qed.

(** ** [checkAnnotations] *)

(** The annotations [a] written to a pod that carried [m]: the references of live
    targets stay, the others go, and nothing else changes but the deadline. *)
Definition annotations_ok (mit : mountInfoTable) (m a : smap) : Prop :=
  (∀ k t, m !! k = Some t → is_ref k t = true →
          a !! k = if live mit t then Some t else None) ∧
  (∀ k t, m !! k = Some t → is_ref k t = false → k ≠ DeleteDelayAtKey → a !! k = Some t) ∧
  (∀ k t, a !! k = Some t → m !! k = Some t ∨ k = DeleteDelayAtKey).

Definition check_ok (mit : mountInfoTable) (p : pod) (τ : trace) (ev : event) : Prop :=
  match ev with
  | @Ev X e _ =>
      match e with
      | EPodUpdate ns q =>
          ns = p_namespace p ∧
          ∃ a, q = set_annotations (Some a) p ∧ annotations_ok mit (annots p) a
      | EPodDelete ns name =>
          ns = p_namespace p ∧ name = p_name p ∧ p_deletionTimestamp p = None ∧
          (∀ k t, annots p !! k = Some t → is_ref k t = true → live mit t = false) ∧
          delay_over τ p
      | EPodCreate _ _ => False
      | _ => True
      end
  end.

Lemma kept_ok mit m : annotations_ok mit m (kept_annotations mit m).
Proof.
  unfold kept_annotations. split_and!.
  - intros k t Hk Hr. destruct (live mit t) eqn:Hl.
    + apply map_lookup_filter_Some. split; [done|]. by simpl.
    + apply map_lookup_filter_None. right. intros t' Hk' Hf. simpl in Hf.
      rewrite Hk in Hk'. injection Hk' as <-. specialize (Hf Hr). congruence.
  - intros k t Hk Hr _. apply map_lookup_filter_Some. split; [done|]. simpl. congruence.
  - intros k t [Hk _]%map_lookup_filter_Some. by left.
Qed.

(** Removing or setting the deadline keeps the annotations right. *)
Lemma annotations_ok_delete mit m a :
  annotations_ok mit m a → annotations_ok mit m (delete DeleteDelayAtKey a).
Proof.
  intros (H1 & H2 & H3). split_and!.
  - intros k t Hk Hr. rewrite lookup_delete_ne; [by apply H1|].
    intros <-. by destruct (ref_key_not_delay _ _ Hr).
  - intros k t Hk Hr Hn. rewrite lookup_delete_ne by done. by apply H2.
  - intros k t [_ Hk]%lookup_delete_Some. by apply H3.
Qed.

Lemma annotations_ok_mark mit m a d :
  annotations_ok mit m a → annotations_ok mit m (<[DeleteDelayAtKey := d]> a).
Proof.
  intros (H1 & H2 & H3). split_and!.
  - intros k t Hk Hr. rewrite lookup_insert_ne; [by apply H1|].
    intros <-. by destruct (ref_key_not_delay _ _ Hr).
  - intros k t Hk Hr Hn. rewrite lookup_insert_ne by done. by apply H2.
  - intros k t [[<- _]|[_ Hk]]%lookup_insert_Some; [by right|by apply H3].
Qed.

(** An annotation that is not a reference is kept. *)
Lemma kept_lookup mit m k :
  (∀ t, is_ref k t = false) → kept_annotations mit m !! k = m !! k.
Proof.
  intros Hr. unfold kept_annotations. apply option_eq. intros t.
  rewrite map_lookup_filter_Some. simpl. specialize (Hr t). split; [tauto|].
  split; [done|congruence].
Qed.

Lemma delay_key_not_ref k t :
  k = DeleteDelayTimeKey ∨ k = DeleteDelayAtKey → is_ref k t = false.
Proof.
  intros Hk. apply not_true_is_false. intros Hr.
  destruct (ref_key_not_delay _ _ Hr). tauto.
Qed.

Lemma delay_over_kept mit p τ :
  delay_over τ (set_annotations (Some (kept_annotations mit (annots p))) p) ↔ delay_over τ p.
Proof.
  unfold delay_over. rewrite annots_set. simpl.
  by rewrite !kept_lookup by (intros t; apply delay_key_not_ref; auto).
Qed.

Lemma kept_same_size mit m :
  size m = size (kept_annotations mit m) → kept_annotations mit m = m.
Proof.
  intros Hs. apply map_subseteq_size_eq; [apply map_filter_subseteq|]. by rewrite Hs.
Qed.

Section Driver.
Context `{LibLaws} (cfg : Config).

(** The second half of [checkAnnotations], on the pod [q] just written. *)
Lemma wp_checkAnnotations mit p τ :
  at_each (check_ok mit p) τ →
  wp (checkAnnotations mit p) (λ _ τ', at_each (check_ok mit p) τ') τ.
Proof.
  intros Hτ. unfold checkAnnotations. rewrite with_pod_lock_eq. apply wp_with_lock.
  eapply (wp_mono _ (λ _ τ', at_each (check_ok mit p) τ')).
  { intros o τ' Hτ'. by apply at_each_snoc. }
  set (n := existTargets mit (annots p)).
  set (kept := if n =? 0 then _ else _).
  assert (annotations_ok mit (annots p) kept) as Hk.
  { subst kept. destruct (n =? 0); [apply kept_ok|apply annotations_ok_delete, kept_ok]. }
  (* the first update *)
  apply wp_bind. eapply (wp_mono _ (λ o τ', at_each (check_ok mit p) τ' ∧ match o with
     | Done (q, _) => (q = p ∨ q = set_annotations (Some kept) p) ∧
         ((n =? 0) = true → annotations_ok mit (annots p) (annots q))
     | Panicked _ => True
     end)).
  2: { destruct (Nat.eqb_spec (size (annots p)) (size kept)) as [Hs|_].
    - simpl. split; [by apply at_each_snoc|]. split; [by left|]. intros Hn.
      subst kept. rewrite Hn in Hs, Hk. by rewrite (kept_same_size _ _ Hs) in Hk.
    - cbn [UpdatePod]. prog_simpl. intros r. split; [|split; [by right|done]].
      apply at_each_snoc; [by apply at_each_snoc|]. simpl. eauto. }
  intros [[q [err|]]|why] τ1 [Hτ1 Hq]; [done| |done]. destruct Hq as [Hq Hqa].
  destruct (n =? 0) eqn:Hn; [|done]. destruct (is_deleted p) eqn:Hdel.
  { assert (is_deleted q = true) as -> by by destruct Hq as [-> | ->]. done. }
  assert (is_deleted q = false) as -> by by destruct Hq as [-> | ->].
  cbn [andb negb]. apply wp_bind.
  eapply wp_mono; [|apply (wp_ShouldDelay (at_each (check_ok mit p)) q)].
  - intros [[[q' [|]] [err|]]|why] τ2 [Hτ2 Ho]; try done. destruct Ho as [-> Ho].
    cbn [DeletePod]. prog_simpl. intros r. apply at_each_snoc; [done|]. simpl.
    assert (p_namespace q = p_namespace p ∧ p_name q = p_name p) as [-> ->]
      by by destruct Hq as [-> | ->].
    split_and!; [done|done| | |].
    + unfold is_deleted in Hdel. by destruct (p_deletionTimestamp p).
    + apply existTargets_0. by apply Nat.eqb_eq.
    + destruct Hq as [-> | ->]; [done|]. subst kept. by apply delay_over_kept in Ho.
  - intros τ2 now Hτ2. by apply at_each_snoc.
  - intros τ2 d r Hτ2 _. apply at_each_snoc; [done|]. simpl.
    split; [by destruct Hq as [-> | ->]|].
    eexists. split; [|by apply annotations_ok_mark, Hqa].
    by destruct Hq as [-> | ->].
  - done.
Qed.
(** C10: whatever the API server answers, [checkAnnotations] writes the pod only to
    drop the references of targets whose pod is gone (the others and all other
    annotations stay, but for the deadline), and deletes it only if it is not being
    deleted, no live pod refers to it and its delayed deletion is over. *)
Theorem checkAnnotations_safe {W} (h : handler W) w mit p :
  at_each (check_ok mit p) (trace_of h (checkAnnotations mit p) w).
Proof.
  apply (wp_adequate h _ (λ _ τ, at_each (check_ok mit p) τ)).
  by apply wp_checkAnnotations, at_each_nil.
Qed.

(** ** [podErrorHandler] *)

(** A pod [q] created in place of [p] once the API server knows [p] no more. *)
Definition recreates (p : pod) (q : pod) (τ : trace) : Prop :=
  last_get τ = Some (Err ApiNotFound) ∧
  p_name q = p_name p ∧ p_namespace q = p_namespace p ∧ p_labels q = p_labels p ∧
  p_annotations q = p_annotations p ∧ Finalizer ∈ p_finalizers q ∧
  p_deletionTimestamp q = None.

(** The requests of [podErrorHandler]. *)
Definition error_handler_ok (p : pod) (τ : trace) (ev : event) : Prop :=
  match ev with
  | @Ev X e _ =>
      match e with
      | EPodCreate ns q =>
          recreates p q τ ∧ IsPodHasResource q = false ∧
          GetMountPathOfPod q = GetMountPathOfPod p ∧
          ps_volumes (p_spec q) = ps_volumes (p_spec p)
      | EPodUpdate ns q => q = without_finalizer p
      | EPodDelete ns name => ns = p_namespace p ∧ name = p_name p
      | _ => True
      end
  end.

Lemma IsPodHasResource_deleted p : IsPodHasResource (DeleteResourceOfPod p) = false.
Proof.
  unfold IsPodHasResource. simpl. induction (ps_containers (p_spec p)) as [|c l IH]; [done|].
  simpl. by rewrite IH.
Qed.

Lemma GetMountPathOfPod_deleted p :
  GetMountPathOfPod (DeleteResourceOfPod p) = GetMountPathOfPod p.
Proof. unfold GetMountPathOfPod. simpl. by destruct (ps_containers (p_spec p)). Qed.

(** [wait_deleted] makes only reads and sleeps at most 60 milliseconds. *)
Lemma wp_wait_deleted (P : trace → event → Prop) p τ :
  (∀ τ r, P τ (Ev (EPodGet (p_namespace p) (p_name p)) r)) →
  (∀ τ n, P τ (Ev (ESleep n) tt)) →
  at_each P τ →
  wp (wait_deleted p) (λ o τ', at_each P τ' ∧ match o with
    | Done b => b = true → last_get τ' = Some (Err ApiNotFound)
    | Panicked _ => False
    end) τ.
Proof.
  intros Hg Hs Hτ. unfold wait_deleted, GetPod.
  apply (wp_for_n (λ _ τ, at_each P τ)); [done| |done].
  intros m τ' Hτ'. apply wp_call. intros [q|err].
  - apply wp_call. intros []. by repeat apply at_each_snoc.
  - destruct (IsNotFound err) eqn:Hn; prog_simpl; [|by apply at_each_snoc].
    split; [by apply at_each_snoc|]. intros _. rewrite last_get_snoc. simpl.
    by apply bool_decide_eq_true in Hn as ->.
Qed.

Lemma recreated_ok p τ :
  last_get τ = Some (Err ApiNotFound) → recreates p (recreated (p_annotations p) p) τ.
Proof.
  intros Hl. unfold recreates, recreated, p_finalizers. simpl. split_and!; try done.
  apply in_AddFinalizer. by left.
Qed.

Lemma wp_podErrorHandler p τ :
  at_each (error_handler_ok p) τ →
  wp (podErrorHandler (Some p)) (λ _ τ', at_each (error_handler_ok p) τ') τ.
Proof.
  intros Hτ. unfold podErrorHandler. rewrite with_pod_lock_eq. apply wp_with_lock.
  eapply (wp_mono _ (λ _ τ', at_each (error_handler_ok p) τ')).
  { intros o τ' Hτ'. by apply at_each_snoc. }
  destruct (_ && _); [|by apply at_each_snoc].
  cbn [UpdatePod DeletePod CreatePod]. prog_simpl. intros r1.
  assert (at_each (error_handler_ok p)
    ((τ ++ [Ev (ELock (fnv32a (p_name p) mod 1024)) tt]) ++
       [Ev (EPodUpdate (p_namespace (without_finalizer p)) (without_finalizer p)) r1])) as Hτ1.
  { apply at_each_snoc; [by apply at_each_snoc|done]. }
  destruct (err_of r1); prog_simpl; [done|]. intros r2.
  destruct r2; prog_simpl; [by apply at_each_snoc|].
  apply wp_bind. eapply wp_mono; [|apply (wp_wait_deleted (error_handler_ok p)); [done|done|]].
  2: by apply at_each_snoc.
  intros [[|]|why] τ2 [Hτ2 Hg]; [|done|done]. prog_simpl. intros r3.
  apply at_each_snoc; [done|]. simpl.
  split_and!; [|apply IsPodHasResource_deleted|by rewrite GetMountPathOfPod_deleted|done].
  by apply (recreated_ok (without_finalizer p)), Hg.
Qed.

(** C16: [podErrorHandler] removes only the finalizer of the pod, and creates a pod
    only after the API server answered that the old one is gone: with the same
    name, labels, annotations, volumes and mount path, the finalizer, and no
    resources, so that it is not handled again. *)
Theorem podErrorHandler_recreates {W} (h : handler W) w p :
  at_each (error_handler_ok p) (trace_of h (podErrorHandler (Some p)) w).
Proof.
  apply (wp_adequate h _ (λ _ τ, at_each (error_handler_ok p) τ)).
  by apply wp_podErrorHandler, at_each_nil.
Qed.

Lemma avoids_podErrorHandler_parts p :
  avoids is_sleep (CreatePod (Some p)) ∧ avoids is_sleep (UpdatePod (Some p)) ∧
  avoids is_sleep (DeletePod (Some p)).
Proof. unfold CreatePod, UpdatePod, DeletePod. split_and!; avoids. Qed.

Lemma wp_wait_deleted_sleep p τ :
  wp (wait_deleted p) (λ _ τ', (slept τ' ≤ slept τ + Z.of_nat 120 * us 500)%Z) τ.
Proof.
  assert (0 ≤ us 500)%Z as Hus by (unfold us; lia).
  unfold wait_deleted, GetPod. apply (wp_sleep_loop 120 (us 500)); [done| |done]. intros τ'.
  apply wp_call. intros [q|err].
  - apply wp_call. intros []. cbn [wp mret prog_mret]. rewrite !slept_snoc. simpl. lia.
  - cbn [wp mret prog_mret]. rewrite slept_snoc. cbn [sleep_of]. lia.
Qed.

(** [podErrorHandler], meant to wait one minute for the old pod to go away,
    sleeps at most 60 milliseconds. *)
Theorem podErrorHandler_wait {W} (h : handler W) w p :
  (slept (trace_of h (podErrorHandler (Some p)) w) ≤ ms 60)%Z.
Proof.
  apply (wp_adequate h _ (λ _ τ, (slept τ ≤ ms 60)%Z)).
  unfold podErrorHandler. rewrite with_pod_lock_eq. apply wp_with_lock.
  assert (ms 60 = Z.of_nat 120 * us 500)%Z as -> by done.
  eapply (wp_mono _ (λ _ τ', (slept τ' ≤ Z.of_nat 120 * us 500)%Z)).
  { intros o τ' Hs. rewrite slept_snoc. simpl sleep_of. lia. }
  destruct (_ && _); [|done].
  cbn [UpdatePod DeletePod CreatePod]. apply wp_bind, wp_call. intros r1.
  cbn [wp mret prog_mret]. destruct (err_of r1); [done|].
  apply wp_call. intros [e|]; [done|].
  apply wp_bind. eapply wp_mono; [|apply wp_wait_deleted_sleep].
  rewrite !slept_snoc. change (slept []) with 0%Z. cbn [sleep_of].
  intros [[|]|why] τ2 Hs; cbn [wp mret prog_mret]; [|lia|lia].
  apply wp_bind, wp_call. intros r3. cbn [wp mret prog_mret].
  rewrite slept_snoc. cbn [sleep_of]. lia.
Qed.

End Driver.
