(* ===== verification/Lifecycle.v ===== *)
(** * The reconciler and the state of a mount pod

    What [Run] does to a mount pod that the kubelet reports as it is: the references
    of pods that are gone are dropped, and a mount pod that is being deleted is gone
    afterwards, or back with its live references when it has any.  And what
    [checkAnnotations] does when the kubelet's report is older than the pod. *)

From S2P Require Import Prelude GoStrings GoHash GoTime Kube Effects Lib Client Config Store Util Builder PodMount MountInfo Kubelet PodDriver Refs PodDriverSafety.

(** ** Live references *)

(** The references whose pod the kubelet reports, not marked for deletion. *)
Definition live_refs (mit : mountInfoTable) (m : smap) : smap :=
  filter (λ kv, deletedPods mit !! getPodUid kv.2 = Some false) (refs_of m).

Lemma live_true mit t : live mit t = true ↔ deletedPods mit !! getPodUid t = Some false.
Proof. unfold live. by destruct (deletedPods mit !! getPodUid t) as [[]|]. Qed.

Lemma existTargets_live mit m : existTargets mit m = size (live_refs mit m).
Proof.
  unfold existTargets, live_refs, refs_of. f_equal. rewrite map_filter_filter.
  apply map_filter_ext. intros k t _. simpl. rewrite live_true. tauto.
Qed.

Lemma refs_of_kept mit m : refs_of (kept_annotations mit m) = live_refs mit m.
Proof.
  unfold live_refs, refs_of, kept_annotations. rewrite !map_filter_filter.
  apply map_filter_ext. intros k t _. simpl. rewrite live_true. tauto.
Qed.

Lemma kept_annotations_no_refs mit m : refs_of m = ∅ → kept_annotations mit m = m.
Proof.
  intros Hm. unfold kept_annotations. apply map_filter_id. intros k t Hk Hr.
  assert (refs_of m !! k = Some t) as E by by apply map_lookup_filter_Some.
  by rewrite Hm in E.
Qed.

(** The annotations [checkAnnotations] leaves on the pod. *)
Definition checked_annots (mit : mountInfoTable) (m : smap) : smap :=
  if existTargets mit m =? 0 then kept_annotations mit m
  else delete DeleteDelayAtKey (kept_annotations mit m).

Lemma refs_of_checked mit m : refs_of (checked_annots mit m) = live_refs mit m.
Proof.
  unfold checked_annots. destruct (_ =? _); [|rewrite refs_of_delete_delay]; apply refs_of_kept.
Qed.

Lemma checked_subseteq mit m : checked_annots mit m ⊆ m.
Proof.
  unfold checked_annots. destruct (_ =? _); [|etrans; [apply delete_subseteq|]];
    apply map_filter_subseteq.
Qed.

Lemma checked_same_size mit m : size m = size (checked_annots mit m) → checked_annots mit m = m.
Proof. intros Hs. apply map_subseteq_size_eq; [apply checked_subseteq|by rewrite Hs]. Qed.

Lemma checked_delay mit m :
  m !! DeleteDelayTimeKey = None → checked_annots mit m !! DeleteDelayTimeKey = None.
Proof. intros Hm. eapply lookup_weaken_None; [exact Hm|apply checked_subseteq]. Qed.

Section Lifecycle.
Context `{LibLaws} (cfg : Config) {W : Type} (h : handler W) (pods : W → podmap)
  `{!PodStore h pods}.

Local Abbreviation key name := ((Namespace cfg, name) : string * string).
Local Abbreviation state := (mount_state_of cfg pods).
Local Abbreviation others := (others_kept cfg pods).

(** ** [checkAnnotations] *)

(** The pod is asked to be deleted. *)
Lemma exec_delete p q name w :
  pods w !! key name = Some q → p_namespace p = Namespace cfg → p_name p = name →
  ∃ w', exec h (DeletePod (Some p)) w = (Done None, w') ∧ others name w w' ∧
    spec_deleted (annots q) (state name w').
Proof.
  intros Hq Hns Hn. cbn [DeletePod]. rewrite exec_call, Hns, Hn.
  destruct (store_delete (Namespace cfg) name w q Hq) as (w2 & -> & Hw2).
  exists w2. split; [done|]. destruct Hw2 as [[_ Hw2]|(q' & Hs & Hd & Hw2)].
  - split; [by apply others_kept_delete|]. left. unfold mount_state_of.
    by rewrite Hw2, lookup_delete_eq.
  - split; [by eapply others_kept_insert|]. right.
    rewrite (stored_state cfg pods q q') by (done || by rewrite Hw2, lookup_insert_eq).
    by rewrite (is_deleted_some _ Hd).
Qed.

(** The end of [checkAnnotations]: on a pod that must go, without a delay. *)
Lemma exec_check_delete p q name (b : bool) w :
  pods w !! key name = Some q → p_namespace p = Namespace cfg → p_name p = name →
  b && negb (is_deleted p) = true → annots p !! DeleteDelayTimeKey = None →
  ∃ w', exec h
    (if b && negb (is_deleted p) then
       '(p, shouldDelay, err) ← ShouldDelay p;
       match err with
       | Some err => mret (p, Some err)
       | None => if shouldDelay : bool then mret (p, None)
                 else e ← DeletePod (Some p); mret (p, e)
       end
     else mret (p, None)) w = (Done (p, None), w') ∧ others name w w' ∧
    spec_deleted (annots q) (state name w').
Proof.
  intros Hq Hns Hn Hb Hd. rewrite Hb. unfold ShouldDelay. rewrite Hd, exec_bind.
  change (exec h (mret ?x) w) with (Done x, w). cbv beta iota. rewrite exec_bind.
  destruct (exec_delete p q name w Hq Hns Hn) as (w' & -> & Ho & Hs). by exists w'.
Qed.

(** C22: the kubelet's report may be older than the pod: when it shows the mount pod
    without references, [checkAnnotations] deletes the pod of that name whatever
    references it has got since. *)
Theorem checkAnnotations_stale_view mit p q name w :
  p_namespace p = Namespace cfg → p_name p = name → is_deleted p = false →
  refs_of (annots p) = ∅ → annots p !! DeleteDelayTimeKey = None →
  pods w !! key name = Some q →
  ∃ w', exec h (checkAnnotations mit p) w = (Done (p, None), w') ∧ others name w w' ∧
    spec_deleted (annots q) (state name w').
Proof.
  intros Hns Hn Hdel Hrefs Hdelay Hq. unfold checkAnnotations. rewrite with_pod_lock_eq.
  assert (existTargets mit (annots p) = 0) as Hn0.
  { rewrite existTargets_live. unfold live_refs. by rewrite Hrefs, map_filter_empty, map_size_empty. }
  rewrite Hn0, (kept_annotations_no_refs mit _ Hrefs). cbn [Nat.eqb]. rewrite Nat.eqb_refl.
  match goal with |- context [exec h (with_lock ?i ?t) w] =>
    destruct (exec_lock h pods i t w) as (w0 & Hw0 & Hl) end.
  setoid_rewrite exec_bind in Hl.
  change (exec h (mret ?x) w0) with (Done x, w0) in Hl. cbv beta iota in Hl.
  destruct (exec_check_delete p q name true w0) as (w1 & He & Ho & Hs);
    [by rewrite Hw0|done|done|by rewrite Hdel|done|].
  destruct (Hl _ _ He) as (w2 & He2 & Hw2). exists w2. split; [exact He2|].
  unfold mount_state_of, others_kept in *. setoid_rewrite Hw2. split; [|done].
  intros k Hk. by rewrite Ho, Hw0.
Qed.

(** The pod of the API server after [p1] was written over [p], or not at all. *)
Definition kept_pod (p p1 : pod) (o : option pod) : Prop :=
  match o with
  | Some q => stored p1 q ∧ is_deleted q = is_deleted p ∧ p_status q = p_status p
  | None => is_deleted p = true ∧ p_finalizers p = []
  end.

(** The edit of [checkAnnotations]. *)
Definition checked_pod (mit : mountInfoTable) (p p1 : pod) : Prop :=
  annots p1 = checked_annots mit (annots p) ∧ edits p p1 ∧ is_deleted p1 = is_deleted p ∧
  p_spec p1 = p_spec p ∧ p_finalizers p1 = p_finalizers p ∧ p_status p1 = p_status p.

Lemma exec_check_update mit p name w :
  pods w !! key name = Some p →
  ∃ p1 w1, exec h
    (if size (annots p) =? size (checked_annots mit (annots p)) then mret (p, None)
     else let p := set_annotations (Some (checked_annots mit (annots p))) p in
          e ← UpdatePod (Some p); mret (p, e)) w = (Done (p1, None), w1) ∧
    others name w w1 ∧ checked_pod mit p p1 ∧ kept_pod p p1 (pods w1 !! key name).
Proof.
  intros Hp. destruct (Nat.eqb_spec (size (annots p)) (size (checked_annots mit (annots p)))) as [E|_].
  - exists p, w. split; [done|]. split; [done|]. rewrite Hp.
    split; [by split_and!; [rewrite checked_same_size|..]|done].
  - set (p1 := set_annotations _ p). cbv zeta. rewrite exec_bind.
    destruct (exec_update cfg h pods p p1 name w Hp) as (q & w1 & -> & Hs & [Hd Hst] & Hw); [done|].
    exists p1, w1. split; [done|]. destruct Hw as [Hw|[[Hf1 Hf2] Hw]].
    + split; [by eapply others_kept_insert|]. split; [done|]. by rewrite Hw, lookup_insert_eq.
    + split; [by apply others_kept_delete|]. split; [done|]. rewrite Hw, lookup_delete_eq.
      split; [|done]. unfold is_deleted. by destruct (p_deletionTimestamp p).
Qed.

(** [checkAnnotations] on a pod the API server holds as it is. *)
Lemma exec_checkAnnotations mit p name w :
  pods w !! key name = Some p →
  (live_refs mit (annots p) = ∅ → is_deleted p = false → annots p !! DeleteDelayTimeKey = None) →
  ∃ p1 w', exec h (checkAnnotations mit p) w = (Done (p1, None), w') ∧ others name w w' ∧
    checked_pod mit p p1 ∧
    if bool_decide (live_refs mit (annots p) = ∅) && negb (is_deleted p)
    then spec_deleted (checked_annots mit (annots p)) (state name w')
    else kept_pod p p1 (pods w' !! key name).
Proof.
  intros Hp Hdelay. destruct (store_names _ _ _ _ Hp) as [Hns Hn].
  unfold checkAnnotations. rewrite with_pod_lock_eq. cbv zeta.
  fold (checked_annots mit (annots p)).
  assert ((existTargets mit (annots p) =? 0) = bool_decide (live_refs mit (annots p) = ∅)) as Hb.
  { rewrite existTargets_live. destruct (Nat.eqb_spec (size (live_refs mit (annots p))) 0) as [E|E];
      rewrite map_size_empty_iff in E; symmetry; by case_bool_decide. }
  rewrite Hb.
  match goal with |- context [exec h (with_lock ?i ?t) w] =>
    destruct (exec_lock h pods i t w) as (w0 & Hw0 & Hl) end.
  destruct (exec_check_update mit p name w0) as (p1 & w1 & He & Ho & Hc & Hk); [by rewrite Hw0|].
  setoid_rewrite exec_bind in Hl. cbv zeta in He. rewrite He in Hl.
  pose proof Hc as (Ha & (Hn1 & Hns1 & _) & Hd1 & _).
  destruct (bool_decide (live_refs mit (annots p) = ∅) && negb (is_deleted p)) eqn:E.
  - apply andb_true_iff in E as [E1 E2].
    apply negb_true_iff in E2. destruct (pods w1 !! key name) as [q|] eqn:Hq;
      [|destruct Hk; congruence]. destruct Hk as (Hs & _ & _).
    destruct (exec_check_delete p1 q name (bool_decide (live_refs mit (annots p) = ∅)) w1)
      as (w2 & He2 & Ho2 & Hs2); [done|by rewrite Hns1|by rewrite Hn1|by rewrite E1, Hd1, E2| |].
    + rewrite Ha. apply checked_delay, Hdelay; [by eapply bool_decide_eq_true_1|done].
    + rewrite (stored_annots _ _ Hs), Ha in Hs2.
      destruct (Hl _ _ He2) as (w3 & He3 & Hw3). exists p1, w3. split; [exact He3|].
      unfold mount_state_of, others_kept in *. setoid_rewrite Hw3. split; [|done].
      intros k Hne. by rewrite Ho2, Ho, Hw0.
  - rewrite Hd1, E in Hl. destruct (Hl (Done (p1, None)) w1 eq_refl) as (w2 & He2 & Hw2).
    exists p1, w2. split; [exact He2|].
    unfold others_kept in *. setoid_rewrite Hw2. split; [|done].
    intros k Hne. by rewrite Ho, Hw0.
Qed.


(** A stale revision is refused, and nothing changes. *)
Lemma exec_checkAnnotations_conflict mit p q name w :
  pods w !! key name = Some q → p_namespace p = Namespace cfg → p_name p = name →
  revision p ≠ "" → revision p ≠ revision q →
  checked_annots mit (annots p) ≠ annots p →
  ∃ p1 w', exec h (checkAnnotations mit p) w = (Done (p1, Some ApiConflict), w') ∧
    p_name p1 = name ∧ p_namespace p1 = Namespace cfg ∧ pods w' = pods w.
Proof.
  intros Hq Hns Hn Hr0 Hr Hc. unfold checkAnnotations. rewrite with_pod_lock_eq. cbv zeta.
  fold (checked_annots mit (annots p)).
  match goal with |- context [exec h (with_lock ?i ?t) w] =>
    destruct (exec_lock h pods i t w) as (w0 & Hw0 & Hl) end.
  destruct (Nat.eqb_spec (size (annots p)) (size (checked_annots mit (annots p)))) as [E|_];
    [by destruct Hc; apply checked_same_size|].
  set (p1 := set_annotations (Some (checked_annots mit (annots p))) p) in *.
  destruct (store_conflict p1 w0 q) as (w1 & Hh & Hw1);
    [change (p_namespace p1) with (p_namespace p); change (p_name p1) with (p_name p);
     by rewrite Hns, Hn, Hw0|done..|].
  cbn [UpdatePod] in Hl. setoid_rewrite exec_bind in Hl. rewrite !exec_bind, exec_call, Hh in Hl.
  destruct (Hl (Done (p1, Some ApiConflict)) w1 eq_refl) as (w2 & He & Hw2).
  exists p1, w2. split; [exact He|]. split; [done|]. split; [done|congruence].
Qed.

(** C23: after a conflict [check_retry] reads the mount pod again but keeps the table
    of the older report: a reference that was added since, by a pod the table does not
    know, is dropped, and without any other the mount pod is deleted under it. *)
Theorem check_retry_old_table mit p q name w :
  pods w !! key name = Some q → p_namespace p = Namespace cfg → p_name p = name →
  revision p ≠ "" → revision p ≠ revision q → checked_annots mit (annots p) ≠ annots p →
  is_deleted q = false → annots q !! DeleteDelayTimeKey = None →
  (∀ k t, refs_of (annots q) !! k = Some t → deletedPods mit !! getPodUid t = None) →
  ∃ p1 w', exec h (check_retry mit p) w = (Done (p1, None), w') ∧ others name w w' ∧
    state name w = Live (annots q) ∧
    spec_deleted (checked_annots mit (annots q)) (state name w').
Proof.
  intros Hq Hns Hn Hr0 Hr Hc Hd Hdelay Hnew.
  destruct (exec_checkAnnotations_conflict mit p q name w) as (p1 & w1 & He & Hn1 & Hns1 & Hw1);
    [done..|].
  destruct (exec_get h pods name (Namespace cfg) w1) as (w2 & Hg & Hw2). rewrite Hw1, Hq in Hg.
  destruct (exec_checkAnnotations mit q name w2) as (p2 & w3 & He3 & Ho3 & _ & Hs3);
    [by rewrite Hw2, Hw1|done|].
  exists p2, w3. unfold check_retry. rewrite exec_bind, He. change (IsConflict ApiConflict) with true.
  cbv iota. rewrite exec_bind, Hn1, Hns1, Hg, He3. split; [done|].
  split; [intros k Hk; by rewrite (Ho3 k Hk), Hw2, Hw1|].
  split; [by rewrite (pod_state cfg pods q name w Hq), Hd|].
  rewrite Hd, bool_decide_eq_true_2 in Hs3; [exact Hs3|].
  apply map_empty. intros k. apply map_lookup_filter_None. right. intros t Hk. simpl.
  unfold live. by rewrite (Hnew k t Hk).
Qed.

(** ** Programs that write no pod *)

(** No pod is written, and no panic. *)
Fixpoint calm {A} (t : prog A) : Prop :=
  match t with
  | Ret _ => True
  | Crash _ => False
  | Vis e k => is_pod_write _ e = false ∧ ∀ x, calm (k x)
  end.

Lemma calm_bind {A B} (t : prog A) (f : A → prog B) :
  calm t → (∀ a, calm (f a)) → calm (t ≫= f).
Proof. induction t as [a|s|X e k IH]; simpl; naive_solver. Qed.

Lemma calm_doWithinTime work : calm work → calm (doWithinTime work).
Proof.
  intros Hw. unfold doWithinTime. split; [done|]. intros [|seen|]; [done| |done].
  apply (calm_bind work); [done|]. by intros [out e].
Qed.

Lemma calm_umount_source path : calm (umount_source path).
Proof.
  unfold umount_source. apply calm_bind; [by apply calm_doWithinTime|].
  intros [out [e|]]; [|done]. destruct (_ || _ || _); [done|].
  by apply calm_bind; [apply calm_doWithinTime|].
Qed.

Lemma calm_source_lost path : calm (source_lost path).
Proof.
  unfold source_lost, no_output. apply calm_bind; [|by intros [o e]].
  apply calm_doWithinTime. split; [done|]. by intros [found e].
Qed.

Lemma exec_calm {A} (t : prog A) w :
  calm t → ∃ a w', exec h t w = (Done a, w') ∧ pods w' = pods w.
Proof.
  revert w. induction t as [a|s|X e k IH]; intros w; simpl; [by exists a, w|done|].
  intros [He Hk]. rewrite exec_vis. pose proof (store_other X e w He) as Ho.
  destruct (h X e w) as [x w1]. simpl in Ho.
  destruct (IH x w1 (Hk x)) as (a & w' & -> & Hw'). exists a, w'. split; [done|congruence].
Qed.
End Lifecycle.

(** ** [podDeletedHandler] and [Run] where finalizers alone keep a pod *)

Section Prompt.
Context `{LibLaws} (cfg : Config) {W : Type} (h : handler W) (pods : W → podmap)
  `{!PromptStore h pods}.

Local Abbreviation key name := ((Namespace cfg, name) : string * string).
Local Abbreviation state := (mount_state_of cfg pods).
Local Abbreviation others := (others_kept cfg pods).

(** A mount pod that is being deleted and can be made anew: the driver's finalizer is
    the only one, and its command tells the mount path. *)
Definition restorable (p : pod) : Prop :=
  is_deleted p = true ∧ Finalizer ∈ p_finalizers p ∧
  (∀ f, f ∈ p_finalizers p → f = Finalizer) ∧ IsPodResourceError p = false ∧
  ∃ path vol, GetMountPathOfPod p = Ok (path, vol).

Lemma no_finalizer_left p :
  (∀ f, f ∈ p_finalizers p → f = Finalizer) → p_finalizers (without_finalizer p) = [].
Proof.
  intros Hf. apply elem_of_nil_inv. intros f.
  intros Hi. apply in_RemoveFinalizer in Hi as [Hn Hi]. by apply Hn, Hf.
Qed.

(** Removing its finalizer removes the pod. *)
Lemma exec_finalize p name w :
  pods w !! key name = Some p → restorable p →
  ∃ w', exec h (UpdatePod (Some (without_finalizer p))) w = (Done None, w') ∧
    pods w' = delete (key name) (pods w).
Proof.
  intros Hp (Hd & _ & Hf & _). destruct (store_names _ _ _ _ Hp) as [Hns Hn].
  set (q := without_finalizer p).
  assert (p_namespace q = Namespace cfg ∧ p_name q = name) as [Hns' Hn'] by done.
  destruct (store_update q w p) as (r & w1 & Hh & _); [by rewrite Hns', Hn'|done|].
  cbn [UpdatePod]. rewrite exec_bind, exec_call, Hh. exists w1. split; [done|].
  rewrite <- Hns', <- Hn'. eapply store_finalized; [by rewrite Hns', Hn'| |exact Hh].
  split; [|by apply no_finalizer_left]. unfold is_deleted in Hd. by destruct (p_deletionTimestamp p).
Qed.

(** The pod is made anew with its annotations. *)
Lemma exec_create_anew p name w :
  pods w !! key name = None → p_namespace p = Namespace cfg → p_name p = name →
  ∃ w', exec h (_ ← CreatePod (Some (recreated (p_annotations p) p));
                mret (Some (@None error))) w = (Done (Some None), w') ∧
    others name w w' ∧ state name w' = Live (annots p).
Proof.
  intros Hw Hns Hn. set (q := recreated _ p).
  assert (p_namespace q = Namespace cfg ∧ p_name q = name) as [Hns' Hn'] by done.
  destruct (store_create q w) as (r & w1 & Hh & Hs & Hd & Hw1); [by rewrite Hns', Hn'|].
  cbn [CreatePod]. rewrite exec_bind, exec_bind, exec_call, Hh. exists w1. split; [done|].
  rewrite Hns', Hn' in Hw1. split; [by eapply others_kept_insert|].
  rewrite (stored_state cfg pods q r) by (done || by rewrite Hw1, lookup_insert_eq).
  unfold is_deleted. by rewrite Hd.
Qed.

Lemma exec_recreate_turn p name path w :
  pods w !! key name = None → p_namespace p = Namespace cfg → p_name p = name →
  ∃ w', exec h (recreate_turn p path (refs_of (annots p))) w = (Done (Some None), w') ∧
    others name w w' ∧ state name w' = Live (annots p).
Proof.
  intros Hw Hns Hn. unfold recreate_turn. rewrite exec_bind, Hns, Hn.
  destruct (exec_get h pods name (Namespace cfg) w) as (w1 & -> & Hw1). rewrite Hw.
  change (IsNotFound ApiNotFound) with true. cbv iota. rewrite exec_bind.
  destruct (exec_calm h pods (source_lost path) w1) as (lost & w2 & -> & Hw2);
    [apply calm_source_lost|]. rewrite exec_bind.
  destruct (exec_calm h pods (if lost : bool then umount_source path else mret tt) w2)
    as ([] & w3 & -> & Hw3); [destruct lost; [apply calm_umount_source|done]|].
  destruct (exec_create_anew p name w3) as (w4 & He & Ho & Hs); [congruence|done..|].
  exists w4. split; [exact He|]. split; [|done]. intros k Hk. rewrite (Ho k Hk). congruence.
Qed.

(** The handler of pods that are being deleted. *)
Lemma exec_podDeletedHandler p name w :
  pods w !! key name = Some p → restorable p →
  ∃ w', exec h (podDeletedHandler (Some p)) w = (Done None, w') ∧ others name w w' ∧
    state name w' = (if bool_decide (refs_of (annots p) = ∅) then Gone else Live (annots p)).
Proof.
  intros Hp Hr. destruct (store_names _ _ _ _ Hp) as [Hns Hn].
  destruct (exec_finalize p name w Hp Hr) as (w1 & Hu & Hw1).
  pose proof Hr as (Hd & Hfin & _ & Herr & path & vol & Hpath).
  assert (others name w w1) as Ho1 by by apply others_kept_delete.
  assert (pods w1 !! key name = None) as Hg by by rewrite Hw1, lookup_delete_eq.
  assert (state name w1 = Gone) as Hs1 by (unfold mount_state_of; by rewrite Hg).
  unfold podDeletedHandler. rewrite (proj2 (ContainsString_In _ _) Hfin), Herr. cbn [negb].
  cbv zeta. rewrite exec_bind, Hu.
  change (GetMountPathOfPod (without_finalizer p)) with (GetMountPathOfPod p). rewrite Hpath.
  change (p_annotations (without_finalizer p)) with (p_annotations p).
  destruct (p_annotations p) as [a|] eqn:Ha.
  2: { exists w1. split; [done|]. split; [done|]. unfold annots. rewrite Ha. simpl.
    by rewrite bool_decide_eq_true_2. }
  assert (annots p = a) as <- by (unfold annots; by rewrite Ha).
  case_bool_decide as Hb.
  - rewrite exec_bind.
    destruct (exec_calm h pods (doWithinTime (no_output (call (ECleanupMountPoint path)))) w1)
      as (r & w2 & -> & Hw2); [apply calm_doWithinTime; by split|].
    exists w2. split; [done|]. unfold mount_state_of, others_kept in *. by rewrite Hw2.
  - change (p_name (without_finalizer p)) with (p_name p). rewrite with_pod_lock_eq.
    change 120 with (S 119). generalize 119. intros polls. rewrite for_n_S.
    match goal with |- context [exec h (with_lock ?i ?t) w1] =>
      destruct (exec_lock h pods i t w1) as (w2 & Hw2 & Hl) end.
    rewrite exec_bind in Hl.
    destruct (exec_recreate_turn (without_finalizer p) name path w2) as (w3 & He & Ho3 & Hs3);
      [by rewrite Hw2|done..|].
    change (annots (without_finalizer p)) with (annots p) in *. rewrite He in Hl.
    destruct (Hl (Done None) w3 eq_refl) as (w4 & He4 & Hw4). exists w4. split; [exact He4|].
    unfold mount_state_of, others_kept in *. setoid_rewrite Hw4. split; [|done].
    intros k Hk. rewrite (Ho3 k Hk), Hw2. by apply Ho1.
Qed.

Lemma restorable_kept mit p p1 q :
  restorable p → checked_pod mit p p1 → kept_pod p p1 (Some q) → restorable q.
Proof.
  intros (Hd & Hfin & Hf & Herr & Hpath) (_ & _ & _ & Hsp & Hfi & _)
    ((_ & _ & _ & _ & Hfi' & Hsp') & Hdq & Hst).
  unfold restorable, IsPodResourceError, GetMountPathOfPod in *.
  by rewrite Hdq, Hfi', Hfi, Hst, Hsp', Hsp.
Qed.

End Prompt.
