(* ===== verification/History.v ===== *)
(** * Histories of mounts and unmounts

    The mount pods of a node under any sequence of [JMount] and [JUmount] of any
    volumes: the run refines a history of the abstract state, a map of every mount
    pod to its annotations, and no mount pod is left without references. *)

From S2P Require Import Prelude GoStrings GoHash GoTime Kube Effects Lib Client Config Store Util Builder PodMount MountInfo Kubelet PodDriver Refs Lifecycle.

Section History.
Context `{LibLaws} (cfg : Config).

(** ** Operations *)

Inductive vol_op := VMount (s : JfsSetting) | VUnmount (volumeId target : string).

Definition vol_prog (o : vol_op) : prog unit :=
  match o with
  | VMount s => _ ← JMount cfg s; mret tt
  | VUnmount volumeId target => _ ← JUmount cfg volumeId target; mret tt
  end.

(** The mount pod an operation is about. *)
Definition op_pod (o : vol_op) : string :=
  GenerateNameByVolumeId cfg
    (match o with VMount s => js_VolumeId s | VUnmount volumeId _ => volumeId end).

(** ** The specification *)

Definition node_state : Type := string → mount_state.

Definition spec_op (o : vol_op) (st st' : mount_state) : Prop :=
  match o with
  | VMount s =>
      let t := js_TargetPath s in
      match st with
      | Gone => st' = Live (<[GetReferenceKey t := t]> (base_annots s))
      | Deleting A => st' = Deleting A                           (* the mount fails *)
      | Live A => st' = Live (spec_add t A)
      end
  | VUnmount _ target => spec_unmount target st st'
  end.

Definition spec_node (o : vol_op) (σ σ' : node_state) : Prop :=
  spec_op o (σ (op_pod o)) (σ' (op_pod o)) ∧ ∀ n, n ≠ op_pod o → σ' n = σ n.

Inductive spec_history : list vol_op → node_state → node_state → Prop :=
  | history_nil σ σ' : (∀ n, σ' n = σ n) → spec_history [] σ σ'
  | history_cons o os σ1 σ2 σ3 :
      spec_node o σ1 σ2 → spec_history os σ2 σ3 → spec_history (o :: os) σ1 σ3.

(** No mount pod has a delayed deletion; every mount pod that lives has a reference. *)
Definition undelayed (σ : node_state) : Prop :=
  ∀ n, annots_of (σ n) !! DeleteDelayTimeKey = None.

Definition in_use (σ : node_state) : Prop := ∀ n A, σ n = Live A → refs_of A ≠ ∅.

(** The settings of a mount: no delay, and a mount pod can be built from them. *)
Definition op_ok (o : vol_op) : Prop :=
  match o with
  | VMount s =>
      base_annots s !! DeleteDelayTimeKey = None ∧
      ∀ order g, is_Some (NewMountPod cfg (with_SecretName (op_pod o +:+ "-secret") s)
                            order g (op_pod o))
  | VUnmount _ _ => True
  end.

Lemma insert_ref_delay t (A : smap) :
  A !! DeleteDelayTimeKey = None → <[GetReferenceKey t := t]> A !! DeleteDelayTimeKey = None.
Proof.
  intros HA. rewrite lookup_insert_ne; [done|]. apply GetReferenceKey_not_delay.
Qed.

Lemma spec_op_delay o st st' :
  op_ok o → spec_op o st st' → annots_of st !! DeleteDelayTimeKey = None →
  annots_of st' !! DeleteDelayTimeKey = None.
Proof.
  destruct o as [s|volumeId target]; simpl.
  - intros [Hs _]. destruct st as [|A|A]; intros ->; simpl; [|done|].
    + intros _. by apply insert_ref_delay.
    + intros HA. unfold spec_add. destruct (A !! GetReferenceKey _); [done|].
      rewrite lookup_delete_None. right. by apply insert_ref_delay.
  - intros _ Hst HA.
    assert (∀ A : smap, A !! DeleteDelayTimeKey = None →
              delete (GetReferenceKey target) A !! DeleteDelayTimeKey = None) as Hd.
    { intros A' HA'. rewrite lookup_delete_None. by right. }
    destruct st as [|A|A]; simpl in *; [by subst| |].
    + destruct Hst as [-> | ->]; simpl; auto.
    + case_bool_decide; [destruct Hst as [-> | ->]|subst]; simpl; auto.
Qed.

Lemma ref_not_empty t A : refs_of (<[GetReferenceKey t := t]> A) ≠ ∅.
Proof. rewrite refs_of_insert. apply insert_non_empty. Qed.

Lemma spec_op_in_use o st st' :
  spec_op o st st' → (∀ A, st = Live A → refs_of A ≠ ∅) → ∀ A, st' = Live A → refs_of A ≠ ∅.
Proof.
  intros Hst HA A' ->. destruct o as [s|volumeId target]; simpl in Hst.
  - destruct st as [|A|A]; simplify_eq; [apply ref_not_empty|]. unfold spec_add.
    destruct (A !! GetReferenceKey _); [by apply HA|]. rewrite refs_of_delete_delay. apply ref_not_empty.
  - destruct st as [|A|A]; simpl in Hst; [done|by destruct Hst|].
    case_bool_decide as Hb; [by destruct Hst|]. by injection Hst as ->.
Qed.

Lemma history_in_use os σ σ' : spec_history os σ σ' → in_use σ → in_use σ'.
Proof.
  induction 1 as [σ σ' Heq|o os σ1 σ2 σ3 [Ho Hn] _ IH]; intros Hu.
  - intros n A Hs. rewrite Heq in Hs. by eapply Hu.
  - apply IH. intros n A Hs. destruct (decide (n = op_pod o)) as [->|Hne].
    + by eapply (spec_op_in_use o _ _ Ho); [apply Hu|].
    + rewrite (Hn n Hne) in Hs. by eapply Hu.
Qed.

(** ** The refinement *)

Context {W : Type} (h : handler W) (pods : W → podmap) `{!PodStore h pods}.

Definition node (w : W) : node_state := λ n, mount_state_of cfg pods n w.

Lemma calm_container_log P podName : calm (container_log cfg P podName).
Proof.
  unfold container_log. split; [done|]. intros [p|e]; simpl; [|done].
  destruct (first_container P p); [|done]. split; [done|]. by intros [l|e].
Qed.

Lemma calm_waitUtilPodReady podName : calm (waitUtilPodReady cfg podName).
Proof.
  unfold waitUtilPodReady. generalize 60. intros n. induction n as [|n IH].
  - apply calm_bind; [apply calm_container_log|done].
  - split; [done|]. intros [p|e]; simpl; [|done]. destruct (IsPodReady p); [done|].
    split; [done|]. intros []. exact IH.
Qed.

Lemma exec_vol_prog o w :
  op_ok o → undelayed (node w) →
  ∃ w', exec h (vol_prog o) w = (Done tt, w') ∧ spec_node o (node w) (node w').
Proof.
  assert (∀ name w w', others_kept cfg pods name w w' → ∀ n, n ≠ name → node w' n = node w n)
    as Hkept.
  { intros name w1 w2 Ho n Hn. unfold node, mount_state_of. rewrite Ho; [done|congruence]. }
  destruct o as [s|volumeId target]; simpl; intros Hok Hd.
  - destruct Hok as [_ Hnew].
    destruct (createOrAddRef_refines cfg h pods s w Hnew) as (r & w1 & He & Ho & Hst).
    unfold JMount. rewrite !exec_bind, He. set (s' := with_SecretName _ s).
    destruct (exec_calm h pods (match r with
        | Some err => mret (Some err, s')
        | None => e ← waitUtilPodReady cfg (GenerateNameByVolumeId cfg (js_VolumeId s')); mret (e, s')
        end) w1) as (a & w2 & -> & Hw2).
    { destruct r; [done|]. by apply calm_bind; [apply calm_waitUtilPodReady|]. }
    exists w2. split; [done|].
    assert (∀ n, node w2 n = node w1 n) as Hn by (intros n; unfold node, mount_state_of; by rewrite Hw2).
    split; [|intros n Hne; rewrite Hn; by eapply Hkept].
    rewrite Hn. unfold node. destruct (mount_state_of cfg pods _ w); simpl in Hst |- *; by destruct Hst.
  - destruct (JUmount_refines cfg h pods volumeId target w) as (w1 & He & Ho & Hst); [apply Hd|].
    rewrite exec_bind, He. exists w1. split; [done|]. split; [exact Hst|]. by apply Hkept.
Qed.

End History.
