(* ===== verification/Unmount.v ===== *)
(** * [JUmount] in every state of the mount pod

    [Refs] has the refinement of an unmount where no deletion is delayed.  Here the
    deletion may be delayed, and the pod may be on its way out: [JUmount] succeeds and
    takes the reference, and only it, off the pod. *)

From S2P Require Import Prelude GoStrings GoHash GoTime Kube Effects Lib Client Config Store Util Builder PodMount PodMountSafety MountInfo Kubelet PodDriver Refs Lifecycle.

(** ** An unmount, with or without a delayed deletion *)

Section Unmount.
Context `{LibLaws} (cfg : Config) {W : Type} (h : handler W) (pods : W → podmap)
  `{!PodStore h pods}.

Local Abbreviation key name := ((Namespace cfg, name) : string * string).
Local Abbreviation state := (mount_state_of cfg pods).
Local Abbreviation others := (others_kept cfg pods).

(** The annotations are those of [A], but for the time of a delayed deletion. *)
Definition but_delay (A A' : smap) : Prop := delete DeleteDelayAtKey A' = delete DeleteDelayAtKey A.

(** What an unmount of [t] may make of a state. *)
Definition unmounted (t : string) (st st' : mount_state) : Prop :=
  match st with
  | Gone => st' = Gone
  | Deleting A => st' = Gone ∨ ∃ A', st' = Deleting A' ∧ but_delay (delete (GetReferenceKey t) A) A'
  | Live A =>
      let A' := delete (GetReferenceKey t) A in
      if bool_decide (refs_of A' = ∅)
      then st' = Gone ∨ ∃ A'', (st' = Deleting A'' ∨ st' = Live A'') ∧ but_delay A' A''
      else st' = Live A'
  end.

(** The pod after [ShouldDelay], in the API server; it may be gone when it was being
    deleted. *)
Lemma exec_ShouldDelay p name w :
  pods w !! key name = Some p →
  ∃ p' b w', exec h (ShouldDelay p) w = (Done (p', b, None), w') ∧ others name w w' ∧
    p_name p' = name ∧ p_namespace p' = Namespace cfg ∧
    ((∃ q, pods w' !! key name = Some q ∧ is_deleted q = is_deleted p ∧ but_delay (annots p) (annots q)) ∨
     is_deleted p = true ∧ b = true ∧ pods w' !! key name = None).
Proof.
  intros Hp. destruct (store_names _ _ _ _ Hp) as [Hns Hn].
  assert (∀ b w', pods w' = pods w →
    others name w w' ∧ p_name p = name ∧ p_namespace p = Namespace cfg ∧
    ((∃ q, pods w' !! key name = Some q ∧ is_deleted q = is_deleted p ∧ but_delay (annots p) (annots q)) ∨
     is_deleted p = true ∧ b = true ∧ pods w' !! key name = None)) as Hsame.
  { intros b w' Hw. split; [by apply others_kept_refl|]. split; [done|]. split; [done|].
    left. exists p. by rewrite Hw. }
  unfold ShouldDelay. destruct (annots p !! DeleteDelayTimeKey) as [d|].
  2: { exists p, false, w. split; [done|]. by apply Hsame. }
  destruct (annots p !! DeleteDelayAtKey) as [d'|].
  - destruct (GetTime d') as [t|]; [|exists p, false, w; split; [done|]; by apply Hsame].
    rewrite exec_bind, exec_call. pose proof (store_other _ ENow w eq_refl) as Ho.
    destruct (h _ ENow w) as [now w1]. simpl in Ho. exists p, (now <? t)%Z, w1.
    split; [done|]. by apply Hsame.
  - unfold GetTimeAfterDelay. destruct (ParseDuration d) as [delay|].
    2: { exists p, false, w. split; [done|]. by apply Hsame. }
    rewrite exec_bind, exec_bind, exec_call. pose proof (store_other _ ENow w eq_refl) as Ho.
    destruct (h _ ENow w) as [now w1]. simpl in Ho.
    change (exec h (mret ?x) w1) with (Done x, w1). cbv beta iota.
    set (p' := set_annotations _ p). cbv zeta. rewrite exec_bind.
    destruct (exec_update cfg h pods p p' name w1) as (q & w2 & -> & Hs & [Hd _] & Hw2);
      [by rewrite Ho|done|].
    rewrite Ho in Hw2. exists p', true, w2. split; [done|].
    destruct Hw2 as [Hw2|[[Hf _] Hw2]].
    + split; [by eapply others_kept_insert|]. split; [done|]. split; [done|]. left. exists q.
      rewrite Hw2, lookup_insert_eq. split; [done|]. split; [done|]. unfold but_delay.
      rewrite (stored_annots p' q Hs). subst p'. rewrite annots_mark. apply delete_insert_eq.
    + split; [by apply others_kept_delete|]. split; [done|]. split; [done|]. right.
      rewrite Hw2, lookup_delete_eq. split; [|done]. unfold is_deleted. by destruct (p_deletionTimestamp p).
Qed.

Lemma exec_delete_unreferenced name p w :
  pods w !! key name = Some p → HasRef p = false →
  ∃ w', exec h (RetryOnConflict (delete_attempt name (Namespace cfg))) w = (Done None, w') ∧
    others name w w' ∧
    (state name w' = Gone ∨
     ∃ A, (state name w' = Deleting A ∨ is_deleted p = false ∧ state name w' = Live A) ∧
          but_delay (annots p) A).
Proof.
  intros Hp Hr.
  assert (∃ w', exec h (delete_attempt name (Namespace cfg)) w = (Done None, w') ∧
    others name w w' ∧
    (state name w' = Gone ∨
     ∃ A, (state name w' = Deleting A ∨ is_deleted p = false ∧ state name w' = Live A) ∧
          but_delay (annots p) A))
    as (w' & He & Hw).
  2: { exists w'. split; [|done]. by apply exec_retry_once. }
  unfold delete_attempt. rewrite exec_bind.
  destruct (exec_get h pods name (Namespace cfg) w) as (w1 & -> & Hw1). rewrite Hp, Hr, exec_bind.
  destruct (exec_ShouldDelay p name w1) as (p' & b & w2 & -> & Ho & Hn & Hns & Hq); [by rewrite Hw1|].
  assert (others name w w2) as Ho' by (intros k Hk; by rewrite Ho, Hw1).
  destruct Hq as [(q & Hq & Hd & Ha)|(_ & -> & Hq)].
  2: { exists w2. split; [done|]. split; [done|]. left. unfold mount_state_of. by rewrite Hq. }
  destruct b.
  - exists w2. split; [done|]. split; [done|]. right. exists (annots q). split; [|done].
    rewrite (pod_state cfg pods q) by done. rewrite Hd. destruct (is_deleted p); auto.
  - destruct (exec_delete cfg h pods p' q name w2 Hq Hns Hn) as (w3 & -> & Ho3 & Hs).
    exists w3. split; [done|]. split; [intros k Hk; by rewrite Ho3, Ho'|].
    destruct Hs as [->|Hs]; [by left|]. right. exists (annots q). rewrite Hs. auto.
Qed.

(** [JUmount] without its mutex. *)
Lemma exec_JUmount_pod t name p w :
  pods w !! key name = Some p →
  ∃ w', exec h
    (err ← RetryOnConflict (remove_ref_attempt (GetReferenceKey t) name (Namespace cfg));
     match err with
     | Some err => mret (Some err)
     | None =>
         r ← GetPod name (Namespace cfg);
         match r with
         | Err err => if IsNotFound err then mret None else mret (Some err)
         | Ok newPod =>
             if HasRef newPod then mret None
             else RetryOnConflict (delete_attempt name (Namespace cfg))
         end
     end) w = (Done None, w') ∧ others name w w' ∧
    unmounted t (state_of_pod (Some p)) (state name w').
Proof.
  intros Hp. rewrite exec_bind.
  destruct (exec_remove_ref cfg h pods t name p w Hp) as (w1 & -> & Ho1 & Hw1). rewrite exec_bind.
  destruct (exec_get h pods name (Namespace cfg) w1) as (w2 & -> & Hw2). simpl.
  destruct Hw1 as [(p' & [Ha Hd] & Hp')|[Hd Hp']]; rewrite Hp'.
  2: { exists w2. split; [done|]. split; [intros k Hk; by rewrite Hw2, Ho1|].
       rewrite Hd. left. unfold mount_state_of. by rewrite Hw2, Hp'. }
  rewrite HasRef_refs, Ha.
  destruct (bool_decide (refs_of (delete (GetReferenceKey t) (annots p)) = ∅)) eqn:Hb; cbn [negb].
  - destruct (exec_delete_unreferenced name p' w2) as (w3 & He & Ho2 & Hs);
      [by rewrite Hw2|by rewrite HasRef_refs, Ha, Hb|].
    exists w3. split; [done|]. split; [intros k Hk; by rewrite Ho2, Hw2, Ho1|].
    rewrite Ha, Hd in Hs.
    destruct (is_deleted p); simpl; rewrite ?Hb; (destruct Hs as [->|(A & Hs & HA)]; [by left|]);
      right; exists A; (split; [|done]); by destruct Hs as [|[? ?]]; auto.
  - exists w2. split; [done|]. split; [intros k Hk; by rewrite Hw2, Ho1|].
    rewrite (pod_state cfg pods p') by by rewrite Hw2. rewrite Hd, Ha.
    destruct (is_deleted p); simpl; [right; by eexists|by rewrite Hb].
Qed.

(** [JUmount] succeeds in every state of the pod; of a live one it takes the reference of
    [t], and without another it marks the pod for deletion, or for a delayed one. *)
Theorem JUmount_every_state volumeId t w :
  let name := GenerateNameByVolumeId cfg volumeId in
  ∃ w', exec h (JUmount cfg volumeId t) w = (Done None, w') ∧ others name w w' ∧
    unmounted t (state name w) (state name w').
Proof.
  intros name. unfold JUmount. fold name. rewrite with_pod_lock_eq.
  match goal with |- context [exec h (with_lock ?i ?t) w] =>
    destruct (exec_lock h pods i t w) as (w0 & Hw0 & Hl) end.
  setoid_rewrite exec_bind in Hl.
  destruct (exec_get h pods name (Namespace cfg) w0) as (w1 & Hg & Hw1). rewrite Hg, Hw0 in Hl.
  change (state name w) with (state_of_pod (pods w !! key name)).
  destruct (pods w !! key name) as [p|] eqn:Hp.
  - destruct (store_names _ _ _ _ Hp) as [Hns Hn]. rewrite Hns, Hn in Hl.
    destruct (exec_JUmount_pod t name p w1) as (w2 & He & Ho & Hs); [by rewrite Hw1, Hw0|].
    destruct (Hl _ _ He) as (w3 & He3 & Hw3). exists w3. split; [done|].
    unfold mount_state_of, others_kept in *. setoid_rewrite Hw3. split; [|done].
    intros k Hk. by rewrite Ho, Hw1, Hw0.
  - destruct (Hl (Done None) w1 eq_refl) as (w3 & He3 & Hw3). exists w3. split; [done|].
    split; [apply others_kept_refl; congruence|]. simpl. unfold mount_state_of.
    by rewrite Hw3, Hw1, Hw0, Hp.
Qed.
End Unmount.
