(* ===== verification/PodDriverRecover.v ===== *)
(** * Recovery of mount pods and targets, over every environment

    [podDeletedHandler] creates a deleted mount pod anew or cleans its mount point;
    [recoverTarget] repairs the mounts of one target; a whole turn of
    [doReconcile] takes mutexes one at a time and writes only to the pods of its
    namespace. *)

From S2P Require Import Prelude GoStrings GoHash GoTime Kube Effects Lib Client Store Config Util PodMount PodMountSafety PodMountWait MountInfo Kubelet PodDriver PodDriverSafety.

Section Recover.
Context `{LibLaws} (cfg : Config).

(** ** [podDeletedHandler] *)

(** The requests of [podDeletedHandler]. *)
Definition deleted_handler_ok (p : pod) (τ : trace) (ev : event) : Prop :=
  match ev with
  | @Ev X e _ =>
      match e with
      | EPodCreate ns q =>
          recreates p q τ ∧ p_spec q = p_spec p ∧ refs_of (annots p) ≠ ∅
      | EPodUpdate ns q =>
          q = without_finalizer p ∨
          ∃ po, last_get τ = Some (Ok po) ∧ p_deletionTimestamp po = None ∧
                q = set_annotations (Some (refs_of (annots p) ∪ annots po)) po
      | EPodDelete _ _ => False
      | ECleanupMountPoint path =>
          refs_of (annots p) = ∅ ∧ ∃ vol, GetMountPathOfPod p = Ok (path, vol)
      | _ => True
      end
  end.

(** Neither a pod is written nor a mount point cleaned: any trace goes on. *)
Definition is_recreation : eff_class := λ X e,
  match e with
  | EPodGet _ _ | EPodCreate _ _ | EPodUpdate _ _ | EPodDelete _ _
  | ECleanupMountPoint _ => true
  | _ => false
  end.

Lemma wp_no_recreation {A} p (t : prog A) τ :
  avoids is_recreation t → at_each (deleted_handler_ok p) τ →
  wp t (λ _ τ', at_each (deleted_handler_ok p) τ' ∧ last_get τ' = last_get τ) τ.
Proof.
  revert τ. induction t as [a|s|X e k IH]; intros τ; simpl; [done..|].
  intros [He Hk] Hτ x. eapply wp_mono; [|apply IH; [apply Hk|]].
  - intros o τ' [Hτ' ->]. split; [done|]. rewrite last_get_snoc. by destruct e.
  - apply at_each_snoc; [done|]. by destruct e.
Qed.

Lemma avoids_umount_source sourcePath : avoids is_recreation (umount_source sourcePath).
Proof. unfold umount_source, doWithinTime. avoids. Qed.

Lemma avoids_source_lost sourcePath : avoids is_recreation (source_lost sourcePath).
Proof. unfold source_lost, doWithinTime, no_output. avoids. Qed.

Lemma wp_recreate_turn p sourcePath τ :
  refs_of (annots p) ≠ ∅ → at_each (deleted_handler_ok p) τ →
  wp (recreate_turn (without_finalizer p) sourcePath (refs_of (annots p)))
     (λ _ τ', at_each (deleted_handler_ok p) τ') τ.
Proof.
  intros Hne Hτ. unfold recreate_turn, GetPod. apply wp_call. intros [po|err].
  - unfold is_deleted. destruct (p_deletionTimestamp po) eqn:Hd.
    + apply wp_call. intros []. by repeat apply at_each_snoc.
    + cbn [UpdatePod]. prog_simpl. intros r. apply at_each_snoc; [by apply at_each_snoc|].
      simpl. right. exists po. by rewrite last_get_snoc.
  - destruct (IsNotFound err) eqn:Hn; [|by apply at_each_snoc].
    apply bool_decide_eq_true in Hn as ->. set (τ1 := τ ++ _).
    assert (last_get τ1 = Some (Err ApiNotFound)) as Hl1
      by (subst τ1; by rewrite last_get_snoc).
    assert (at_each (deleted_handler_ok p) τ1) as Hτ1 by by apply at_each_snoc.
    apply wp_bind.
    eapply wp_mono; [|apply (wp_no_recreation p _ _ (avoids_source_lost _) Hτ1)].
    intros [lost|why] τ2 [Hτ2 Hl2]; [|done]. apply wp_bind.
    eapply wp_mono; [|apply (wp_no_recreation p _ _)].
    2: { destruct lost; [apply avoids_umount_source|done]. }
    2: done.
    intros [[]|why] τ3 [Hτ3 Hl3]; [|done]. cbn [CreatePod]. prog_simpl. intros r.
    apply at_each_snoc; [done|]. simpl. split_and!; [|done|done].
    apply (recreated_ok (without_finalizer p)). congruence.
Qed.

Lemma wp_podDeletedHandler p τ :
  at_each (deleted_handler_ok p) τ →
  wp (podDeletedHandler (Some p)) (λ _ τ', at_each (deleted_handler_ok p) τ') τ.
Proof.
  intros Hτ. unfold podDeletedHandler.
  destruct (negb _); [done|]. destruct (IsPodResourceError p); [done|].
  cbn [UpdatePod]. prog_simpl. intros r1. set (τ1 := τ ++ _).
  assert (at_each (deleted_handler_ok p) τ1) as Hτ1 by by apply at_each_snoc; [|left].
  clearbody τ1.
  destruct (err_of r1); [done|].
  change (GetMountPathOfPod (without_finalizer p)) with (GetMountPathOfPod p).
  destruct (GetMountPathOfPod p) as [[sourcePath vol]|err] eqn:Hm; [|done].
  change (p_annotations (without_finalizer p)) with (p_annotations p).
  destruct (p_annotations p) as [a|] eqn:Ha; [|done].
  assert (refs_of a = refs_of (annots p)) as -> by (unfold annots; by rewrite Ha).
  case_bool_decide as Hr.
  - assert (∀ τ e, deleted_handler_ok p τ (Ev (ECleanupMountPoint sourcePath) e)) as Hc
      by by intros; split; [|exists vol].
    unfold doWithinTime, no_output. prog_simpl.
    intros [|seen|]; prog_simpl; [intros e; prog_simpl..|]; by repeat apply at_each_snoc.
  - rewrite with_pod_lock_eq. apply wp_with_lock.
    eapply (wp_mono _ (λ _ τ', at_each (deleted_handler_ok p) τ')).
    { intros o τ' Hτ'. by apply at_each_snoc. }
    apply (wp_for_n (λ _ τ', at_each (deleted_handler_ok p) τ')).
    + by apply at_each_snoc.
    + intros m τ' Hτ'. eapply wp_mono; [|by apply wp_recreate_turn].
      by intros [[b|]|why] τ'' Hτ''.
    + done.
Qed.


(** ** [recoverTarget] *)

(** The layers taken off the target, and the binds made. *)
Definition unmount_of (t : string) (ev : event) : bool :=
  match ev with
  | @Ev X e _ => match e with EUnmount t' => String.eqb t' t | _ => false end
  end.

Definition mount_of (ev : event) : option (string * string) :=
  match ev with
  | @Ev X e _ => match e with EMount src t _ _ => Some (src, t) | _ => None end
  end.

Definition unmounts (t : string) (τ : trace) : nat :=
  length (filter (λ ev, unmount_of t ev = true) τ).

Definition mounts (τ : trace) : list (string * string) := omap mount_of τ.

Definition stat_of (path : string) (ev : event) : option bool :=
  match ev with
  | @Ev X e x =>
      match e in eff X return X → option bool with
      | EStat p => λ r, if String.eqb p path
                        then Some (match r with inl _ => true | inr _ => false end) else None
      | _ => λ _, None
      end x
  end.

Lemma unmounts_snoc t τ ev :
  unmounts t (τ ++ [ev]) = unmounts t τ + if unmount_of t ev then 1 else 0.
Proof.
  unfold unmounts. rewrite filter_app, length_app. f_equal.
  rewrite filter_cons, filter_nil. by destruct (unmount_of t ev).
Qed.

Lemma mounts_snoc τ ev :
  mounts (τ ++ [ev]) = mounts τ ++ match mount_of ev with Some m => [m] | None => [] end.
Proof. unfold mounts. rewrite omap_app. simpl. by destruct (mount_of ev). Qed.

(** The repair of a target: corrupted, its layers agree, its pod stays. *)
Definition repairs (ti : targetItem) (mi : mountItem) : bool :=
  match status ti with
  | targetStatusCorrupt => negb (inconsistent ti) && negb (podDeleted mi)
  | _ => false
  end.

(** The target's source is gone and so is its pod. *)
Definition releases (ti : targetItem) (mi : mountItem) : bool :=
  match status ti with
  | targetStatusNotExist => (0 <? count ti)%Z && podDeleted mi
  | _ => false
  end.

Definition source_of (sourcePath : string) (ti : targetItem) : string :=
  if String.eqb (subpath ti) "" then sourcePath else sourcePath +:+ "/" +:+ subpath ti.

Lemma wp_umountTarget t n τ :
  wp (umountTarget t n) (λ o τ', o = Done tt ∧
    unmounts t τ' = unmounts t τ + Z.to_nat n ∧ mounts τ' = mounts τ) τ.
Proof.
  unfold umountTarget. generalize (Z.to_nat n). intros k. generalize 0.
  revert τ. induction k as [|k IH]; intros τ i; simpl; [split_and!; [done|lia|done]|].
  intros e. eapply wp_mono; [|apply IH]. intros o τ' (-> & -> & ->).
  rewrite unmounts_snoc, mounts_snoc, app_nil_r. simpl. rewrite String.eqb_refl.
  split_and!; [done|lia|done].
Qed.

(** What [recoverTarget] does to the layers of its target. *)
Definition recovered (sourcePath : string) (ti : targetItem) (mi : mountItem) (τ : trace) : Prop :=
  let src := source_of sourcePath ti in
  if repairs ti mi then
    unmounts (target ti) τ = Z.to_nat (count ti - 1) ∧
    (mounts τ = [(src, target ti)] ∨
     mounts τ = [] ∧ subpath ti ≠ "" ∧ Some false ∈ (stat_of src <$> τ))
  else if releases ti mi then unmounts (target ti) τ = Z.to_nat (count ti) ∧ mounts τ = []
  else τ = [].

Lemma wp_recoverTarget sourcePath ti mi :
  wp (recoverTarget sourcePath ti mi)
     (λ o τ, o = Done tt ∧ recovered sourcePath ti mi τ) [].
Proof.
  unfold recoverTarget, recovered, repairs, releases.
  destruct (status ti); [|done|done| |done].
  - destruct (_ && _); [|done]. eapply wp_mono; [|apply wp_umountTarget].
    by intros o τ (-> & -> & ->).
  - destruct (inconsistent ti); [done|]. destruct (podDeleted mi); [done|]. cbn [negb andb].
    apply wp_bind. eapply wp_mono; [|apply wp_umountTarget].
    intros o τ (-> & Hu & Hm). change (mounts []) with (@nil (string * string)) in Hm.
    change (unmounts (target ti) []) with 0 in Hu.
    unfold volume_source_path, source_of. destruct (String.eqb_spec (subpath ti) "") as [_|Hs].
    + prog_simpl. intros e. rewrite unmounts_snoc, mounts_snoc, Hu, Hm. simpl.
      split_and!; [done|lia|by left].
    + prog_simpl. intros [fi|err]; prog_simpl.
      * intros e. rewrite !unmounts_snoc, !mounts_snoc, Hu, Hm. simpl.
        split_and!; [done|lia|by left].
      * rewrite unmounts_snoc, mounts_snoc, Hu, Hm. simpl.
        split_and!; [done|lia|right]. split_and!; [done|done|].
        rewrite fmap_app. apply elem_of_app. right. simpl. rewrite String.eqb_refl.
        set_solver.
Qed.


(** ** Mutexes of a whole turn *)

Lemma avoids_doWithinTime (bad : eff_class) t :
  bad _ ERace = false → avoids bad t → avoids bad (doWithinTime t).
Proof. intros Hr Ht. unfold doWithinTime. avoids. by split. Qed.

Lemma one_lock_checkAnnotations mit p : one_lock (checkAnnotations mit p).
Proof.
  unfold checkAnnotations. rewrite with_pod_lock_eq. apply one_lock_with.
  unfold UpdatePod, DeletePod. avoids. by apply avoids_ShouldDelay.
Qed.

Lemma lock_free_recoverTarget sourcePath ti mi : lock_free (recoverTarget sourcePath ti mi).
Proof. unfold recoverTarget, umountTarget, volume_source_path. avoids. Qed.

Lemma lock_free_check_all records ks : lock_free (check_all records ks).
Proof.
  induction ks as [|k ks IH]; [done|]. simpl. destruct (records !! k); [|done].
  unfold check. avoids.
Qed.

Lemma lock_free_resolveTarget mit t : lock_free (resolveTarget mit t).
Proof.
  unfold resolveTarget, resolveTargetItem, range_keys, check.
  avoids; apply lock_free_check_all.
Qed.

Lemma lock_free_podReadyHandler mit p : lock_free (podReadyHandler mit p).
Proof.
  unfold podReadyHandler. avoids.
  - apply avoids_doWithinTime; [done|]. unfold no_output, stat_error. avoids.
  - unfold range_keys. avoids.
  - unfold recover_annotation. avoids; [apply lock_free_resolveTarget|..];
      apply lock_free_recoverTarget.
Qed.

Lemma one_lock_podErrorHandler p : one_lock (podErrorHandler p).
Proof.
  unfold podErrorHandler. destruct p as [p|]; [|by apply one_lock_free].
  rewrite with_pod_lock_eq. apply one_lock_with.
  unfold UpdatePod, DeletePod, CreatePod, wait_deleted, GetPod. avoids.
Qed.

Lemma lock_free_recreate_turn p sourcePath refs : lock_free (recreate_turn p sourcePath refs).
Proof.
  unfold recreate_turn, GetPod, UpdatePod, CreatePod, umount_source, source_lost, no_output.
  avoids; apply avoids_doWithinTime; (done || avoids).
Qed.

Lemma one_lock_podDeletedHandler p : one_lock (podDeletedHandler p).
Proof.
  unfold podDeletedHandler. destruct p as [p|]; [|by apply one_lock_free].
  unfold UpdatePod. one_lock.
  - apply one_lock_free, avoids_doWithinTime; [done|]. unfold no_output. avoids.
  - rewrite with_pod_lock_eq. apply one_lock_with. avoids. apply lock_free_recreate_turn.
Qed.

Lemma one_lock_Run mit p : one_lock (Run mit p).
Proof.
  unfold Run, check_retry, GetPod, handle.
  one_lock; auto using one_lock_checkAnnotations, one_lock_podErrorHandler,
    one_lock_podDeletedHandler, lock_free_podReadyHandler, one_lock_free.
  all: by apply one_lock_free.
Qed.

Lemma one_lock_run_pods mit pods : one_lock (run_pods cfg mit pods).
Proof.
  revert mit. induction pods as [|p pods IH]; intros mit; simpl; [by apply one_lock_free|].
  destruct (is_mount_pod cfg p); [|apply IH]. one_lock. apply one_lock_Run.
Qed.

Lemma one_lock_doReconcile kc n mit : one_lock (doReconcile cfg kc n mit).
Proof.
  revert mit. induction n as [|n IH]; intros mit; cbn [doReconcile]; [by apply one_lock_free|].
  apply one_lock_bind; [|intros mit'; apply IH]. unfold reconcile_turn, parse.
  one_lock;
    first [apply one_lock_run_pods | by apply one_lock_free, quiet_GetNodeRunningPods
          | by apply one_lock_free].
Qed.

(** However many turns it makes, [doReconcile] never takes a mutex while it holds
    one, releases each on every way out and holds none between turns. *)
Theorem doReconcile_mutexes {W} (h : handler W) w kc n mit :
  disciplined (trace_of h (doReconcile cfg kc n mit) w).
Proof. apply one_lock_run, one_lock_doReconcile. Qed.

(** ** Writes of a whole turn *)

(** The API server answers with the pod that was asked for. *)
Definition get_faithful (ev : event) : Prop :=
  match ev with
  | @Ev X e x =>
      match e in eff X return X → Prop with
      | EPodGet ns _ => λ r, ∀ p, r = Ok p → p_namespace p = ns
      | _ => λ _, True
      end x
  end.

(** Pods are written in the namespace [ns] only. *)
Definition writes_in (ns : string) (X : Set) (e : eff X) : Prop :=
  match e with
  | EPodCreate ns' _ | EPodUpdate ns' _ | EPodDelete ns' _ | EPodPatch ns' _ _ => ns' = ns
  | _ => True
  end.

Local Abbreviation asks_in := (asks get_faithful (writes_in (Namespace cfg))).
Local Abbreviation our p := (p_namespace p = Namespace cfg).

Lemma asks_no_write {A} (t : prog A) : avoids is_pod_write t → asks_in t (λ _, True).
Proof. apply asks_avoids. by intros X e; destruct e. Qed.

Lemma asks_no_write_bind {A B} (t : prog A) (f : A → prog B) R :
  avoids is_pod_write t → (∀ a, asks_in (f a) R) → asks_in (t ≫= f) R.
Proof. intros Ht Hf. eapply asks_bind_2; [by apply asks_no_write|auto]. Qed.

Lemma asks_update {B} p (f : option error → prog B) R :
  our p → (∀ e, asks_in (f e) R) → asks_in (UpdatePod (Some p) ≫= f) R.
Proof. intros Hp Hf. cbn [UpdatePod]. split; [done|]. intros r _. apply Hf. Qed.

Lemma asks_get {B} n ns (f : res pod → prog B) R :
  (∀ p, p_namespace p = ns → asks_in (f (Ok p)) R) → (∀ e, asks_in (f (Err e)) R) →
  asks_in (GetPod n ns ≫= f) R.
Proof. intros Hp He. apply asks_call; [done|]. intros [p|e] Ha; [by apply Hp, Ha|apply He]. Qed.

Lemma asks_pod_lock {A} name (t : prog A) R : asks_in t R → asks_in (with_pod_lock name t) R.
Proof. intros Ht. rewrite with_pod_lock_eq. by apply asks_with_lock. Qed.

Lemma asks_ShouldDelay p :
  our p → asks_in (ShouldDelay p) (λ r, our r.1.1).
Proof.
  intros Hp. unfold ShouldDelay, GetTimeAfterDelay.
  destruct (annots p !! DeleteDelayTimeKey) as [d|]; [|done].
  destruct (annots p !! DeleteDelayAtKey) as [a|].
  - destruct (GetTime a); [|done]. by split.
  - destruct (ParseDuration d); [|done]. split; [done|]. intros now _. by split.
Qed.

Lemma asks_checkAnnotations mit p :
  our p → asks_in (checkAnnotations mit p) (λ r, our r.1).
Proof.
  intros Hp. unfold checkAnnotations. apply asks_pod_lock.
  apply (asks_bind_2 _ _ _ _ (λ r, our r.1)).
  { destruct (_ =? _); [done|]. by apply asks_update. }
  intros [q [err|]] Hq; [done|]. destruct (_ && _); [|done].
  eapply asks_bind_2; [by apply asks_ShouldDelay|].
  by intros [[q' [|]] [err|]] Hq'.
Qed.

Lemma asks_podErrorHandler p : our p → asks_in (podErrorHandler (Some p)) (λ _, True).
Proof.
  intros Hp. unfold podErrorHandler. apply asks_pod_lock. destruct (_ && _); [|done].
  apply asks_update; [done|]. intros [e|]; [done|]. cbn [DeletePod].
  apply asks_call; [done|]. intros [e|] _; [done|].
  apply asks_no_write_bind; [unfold wait_deleted, GetPod; avoids|].
  intros [|]; [|done]. cbn [CreatePod]. by split.
Qed.

Lemma asks_podDeletedHandler p : our p → asks_in (podDeletedHandler (Some p)) (λ _, True).
Proof.
  intros Hp. unfold podDeletedHandler. destruct (negb _); [done|].
  destruct (IsPodResourceError p); [done|].
  apply asks_update; [done|]. intros [e|]; [done|].
  destruct (GetMountPathOfPod _) as [[path vol]|]; [|done].
  destruct (p_annotations _) as [a|]; [|done]. case_bool_decide.
  - apply asks_no_write_bind; [|done]. apply avoids_doWithinTime; [done|].
    unfold no_output. avoids.
  - apply asks_pod_lock, asks_for_n; [|done]. unfold recreate_turn. apply asks_get.
    + intros po Hpo. destruct (is_deleted po); [by split|].
      apply asks_update; [|done]. by rewrite <- Hp.
    + intros e. destruct (IsNotFound e); [|done].
      apply asks_no_write_bind.
      { unfold source_lost, no_output. avoids. apply avoids_doWithinTime; [done|]. avoids. }
      intros lost. apply asks_no_write_bind.
      { destruct lost; [|done]. unfold umount_source.
        avoids; apply avoids_doWithinTime; (done || avoids). }
      intros _. cbn [CreatePod]. by split.
Qed.

Lemma asks_podReadyHandler mit p : asks_in (podReadyHandler mit p) (λ _, True).
Proof.
  apply asks_no_write. unfold podReadyHandler. avoids.
  - apply avoids_doWithinTime; [done|]. unfold no_output, stat_error. avoids.
  - unfold range_keys. avoids.
  - assert (∀ records ks, avoids is_pod_write (check_all records ks)) as Hc.
    { intros records ks. induction ks as [|k ks IH]; [done|]. simpl.
      destruct (records !! k); [|done]. unfold check. avoids. }
    unfold recover_annotation, resolveTarget, resolveTargetItem, range_keys, check,
      recoverTarget, umountTarget, volume_source_path.
    avoids; apply Hc.
Qed.

Lemma asks_handle mit st p : our p → asks_in (handle mit st (Some p)) (λ _, True).
Proof.
  intros Hp. destruct st.
  - apply asks_podReadyHandler.
  - by apply asks_podErrorHandler.
  - by apply asks_podDeletedHandler.
  - done.
Qed.

Lemma asks_Run mit p : our p → asks_in (Run mit p) (λ _, True).
Proof.
  intros Hp. unfold Run, check_retry.
  eapply (asks_bind_2 _ _ _ _ (λ r, our r.1)).
  { eapply asks_bind_2; [by apply asks_checkAnnotations|].
    intros [q [e|]] Hq; [|done]. destruct (IsConflict e); [|done].
    apply asks_get; [|done]. intros q' Hq'. apply asks_checkAnnotations. by rewrite Hq'. }
  intros [q [e|]] Hq; [done|]. simpl in Hq.
  destruct (getPodStatus (Some q)) eqn:Hst.
  1, 4: by eapply asks_bind_2; [by apply asks_handle|].
  all: apply asks_get; [|done]; intros q' Hq'.
  all: eapply asks_bind_2; [apply asks_handle; by rewrite Hq'|done].
Qed.

Lemma asks_doReconcile kc n mit :
  asks_in (doReconcile cfg kc n mit) (λ _, True).
Proof.
  revert mit. induction n as [|n IH]; intros mit; cbn [doReconcile]; [done|].
  eapply (asks_bind_2 _ _ _ _ (λ _, True)); [|intros mit' _; apply IH].
  unfold reconcile_turn. apply asks_no_write_bind; [apply quiet_GetNodeRunningPods; done|].
  intros r. apply (asks_bind_2 _ _ _ _ (λ _, True)); [|by intros mit' _; split].
  destruct r as [podList|e]; [|done]. unfold parse.
  apply asks_bind, asks_call; [done|]. intros [l|e] _; [|done]. simpl.
  destruct podList as [pods|]; [|done].
  generalize (setPodsStatus (Some pods) (MkMit l (deletedPods mit))). clear.
  induction pods as [|p pods IH]; intros mit; simpl; [done|].
  destruct (is_mount_pod cfg p) eqn:Hp; [|apply IH].
  unfold is_mount_pod in Hp. apply andb_true_iff in Hp as [Hp _].
  eapply asks_bind_2; [apply asks_Run; by apply String.eqb_eq|].
  intros [mit' e] _. apply IH.
Qed.


(** ** The kubelet's answer *)

(** The kubelet answers with a document that is null, and the mount table is read. *)
Definition null_pods (ev : event) : Prop :=
  match ev with
  | @Ev X e x =>
      match e in eff X return X → Prop with
      | EHttpGet _ _ _ => λ r, ∃ body, r = Ok body
      | EReadAll _ => λ r, ∃ text, r = Ok text ∧ UnmarshalPodList text = Ok None
      | EParseMountInfo => λ r, ∃ l, r = Ok l
      | _ => λ _, True
      end x
  end.

(** C37: when the kubelet answers with a null document, the reconciler's goroutine
    panics on the nil list, and the driver with it, whatever turns were to come. *)
Theorem doReconcile_null_pods {W} (h : handler W) w kc n mit :
  (∀ X (e : eff X) w, null_pods (Ev e (h X e w).1)) →
  ∃ why w', exec h (doReconcile cfg kc (S n) mit) w = (Panicked why, w').
Proof.
  intros Hh. cbn [doReconcile]. unfold reconcile_turn, GetNodeRunningPods.
  rewrite !exec_bind, exec_call.
  match goal with |- context [EHttpGet ?t ?d ?u] =>
    pose proof (Hh _ (EHttpGet t d u) w) as H1; destruct (h _ (EHttpGet t d u) w) as [r w1] end.
  destruct H1 as [body H1]. simpl in H1. subst r. rewrite exec_bind, exec_call.
  pose proof (Hh _ (EReadAll body) w1) as H2. destruct (h _ (EReadAll body) w1) as [r w2].
  destruct H2 as (text & H2 & Hnull). simpl in H2. subst r.
  change (exec h (mret ?x) w2) with (Done x, w2). cbv beta iota. rewrite Hnull.
  unfold parse. rewrite !exec_bind, exec_call.
  pose proof (Hh _ EParseMountInfo w2) as H3. destruct (h _ EParseMountInfo w2) as [r w3].
  destruct H3 as [l H3]. simpl in H3. subst r. eexists _, w3. done.
Qed.

End Recover.
