(* ===== verification/ProcessMount.v ===== *)
(** * pkg/juicefs/mount/process_mount.go: mounting by a process of the driver

    [ProcessMount] as an instance of the interface; when a mount counts as done, and
    which mounts an unmount takes. *)

From S2P Require Import Prelude GoStrings GoTime Kube Effects Lib Client Config Util Mount.

Section ProcessMount.
Context `{Lib}.

(** Wait until the root inode shows. *)
Definition wait_mounted (mountPath : string) : prog (option error) :=
  for_n 30
    (r ← call (EStat mountPath);
     match r with
     | inr _ => mret (Some (Some (StatusErr Internal "Stat mount path %v failed: %v")))
     | inl finfo =>
         if (fi_ino finfo =? 1)%Z then mret (Some None)
         else call (ESleep second) ;; mret None
     end)
    (mret (Some (StatusErr Internal
       "Mount %v at %v failed: mount isn't ready in 30 seconds"))).

(** Unmount what is mounted at the path already. *)
Definition unmount_stale (mountPath : string) : prog (option error) :=
  r ← call (EIsLikelyNotMountPoint mountPath);
  match r with
  | Err err => mret (Some err)
  | Ok true => mret None
  | Ok false => call (EUnmount mountPath)
  end.

Definition make_mount_dir (mountPath : string) : prog (option error) :=
  '(found, err) ← call (EPathExists mountPath);
  match err with
  | Some _ => mret (Some (StatusErr Internal "Could not check existence of dir %q: %v"))
  | None =>
      if found : bool then mret None
      else e ← call (EMkdirAll mountPath 493);                     (* 0755 *)
           mret (match e with
                 | Some _ => Some (StatusErr Internal "Could not create dir %q: %v")
                 | None => None
                 end)
  end.

Definition needs_no_check (storage : string) : bool :=
  String.eqb storage "ceph" || String.eqb storage "gs".

Definition ce_mount_args (s : JfsSetting) : list string :=
  [js_Source s; js_MountPath s] ++
  match js_Options s with [] => [] | opts => ["-o"; Join opts ","] end.

Definition process_JMount (s : JfsSetting) : prog (option error) :=
  if negb (Contains (js_Source s) "://") then
    e ← call (EMount (js_Source s) (js_MountPath s) FsType (js_Options s));
    mret (match e with
          | Some _ => Some (StatusErr Internal "Could not mount %q at %q: %v")
          | None => None
          end)
  else
    e ← make_mount_dir (js_MountPath s);
    match e with
    | Some err => mret (Some err)
    | None =>
        e ← unmount_stale (js_MountPath s);
        match e with
        | Some err => mret (Some err)
        | None =>
            environ ← call EEnviron;
            let envs := environ ++ ["JFS_FOREGROUND=1"] ++
              (if needs_no_check (js_Storage s) then ["JFS_NO_CHECK_OBJECT_STORAGE=1"] else []) in
            call (EStart CeMountPath (ce_mount_args s) envs) ;;
            wait_mounted (js_MountPath s)
        end
    end.

(** Unmount the target, and the only other reference to its device when there is
    exactly one. *)
Definition unmount_refs (target : string) (corruptedMnt : bool) : prog (option error) :=
  r ← GetMountDeviceRefs target corruptedMnt;
  match r with
  | Err _ => mret (Some (StatusErr Internal "Fail to get mount device refs: %q"))
  | Ok refs =>
      e ← call (EUnmount target);
      match e with
      | Some _ => mret (Some (StatusErr Internal "Could not unmount %q: %v"))
      | None =>
          match refs with
          | [ref] => _ ← call (EUnmount ref); mret None
          | _ => mret None
          end
      end
  end.

Definition process_JUmount (volumeId target : string) : prog (option error) :=
  '(exists_, err) ← call (EPathExists target);
  match err with
  | None =>
      if negb exists_ then mret None
      else
        r ← call (EIsNotMountPoint target);
        match r with
        | Err _ => mret (Some (StatusErr Internal "Check target path is mountpoint failed: %q"))
        | Ok true => mret None
        | Ok false => unmount_refs target false
        end
  | Some err =>
      if IsCorruptedMnt err then unmount_refs target true
      else mret (Some (StatusErr Internal "Check path %s failed: %q"))
  end.

Definition ProcessMount : MntInterface := {|
  mnt_JMount s := e ← process_JMount s; mret (e, s);
  mnt_JCreateVolume _ := Crash "implement me";
  mnt_JDeleteVolume _ := Crash "implement me";
  mnt_JUmount := process_JUmount;
  mnt_AddRefOfMount _ _ := Crash "implement me" |}.

(** ** Properties *)

Lemma lock_free_process_JMount s : lock_free (process_JMount s).
Proof. unfold process_JMount, make_mount_dir, unmount_stale, wait_mounted. avoids. Qed.

Lemma lock_free_GetMountDeviceRefs p c : lock_free (GetMountDeviceRefs p c).
Proof. unfold GetMountDeviceRefs, searchMountPoints. avoids. Qed.

Lemma lock_free_process_JUmount volumeId target : lock_free (process_JUmount volumeId target).
Proof.
  unfold process_JUmount, unmount_refs. avoids; apply lock_free_GetMountDeviceRefs.
Qed.

#[export] Instance ProcessMount_laws : MntLaws ProcessMount.
Proof.
  split; simpl; intros.
  - apply wp_bind, wp_any. by intros [e|w] τ'.
  - apply one_lock_bind; [apply one_lock_free, lock_free_process_JMount|].
    intros e. by apply one_lock_free.
  - apply one_lock_free, lock_free_process_JUmount.
  - by apply one_lock_free.
  - by apply one_lock_free.
Qed.

(** What [os.Stat] answered last. *)
Definition got_stat (ev : event) : option (string * (fileinfo + oserr)) :=
  match ev with
  | @Ev X e x =>
      match e in eff X return X → option (string * (fileinfo + oserr)) with
      | EStat p => λ r, Some (p, r)
      | _ => λ _, None
      end x
  end.

(** The trace ends with the root inode of a mount seen at the path. *)
Definition root_seen (path : string) (τ : trace) : Prop :=
  ∃ τ0 fi, τ = τ0 ++ [Ev (EStat path) (inl fi)] ∧ fi_ino fi = 1%Z.

(** The trace ends with an accepted [mount] call. *)
Definition just_mounted (src path fstype : string) (opts : list string) (τ : trace) : Prop :=
  ∃ τ0, τ = τ0 ++ [Ev (EMount src path fstype opts) None].

Lemma wp_wait_mounted path τ :
  wp (wait_mounted path) (λ o τ', match o with
    | Done None => root_seen path τ'
    | Done (Some _) => True
    | Panicked _ => False
    end) τ.
Proof.
  unfold wait_mounted. apply (wp_for_n (λ _ _, True)); [done| |done].
  intros m τ' _. apply wp_call. intros [fi|e]; [|done].
  destruct (Z.eqb_spec (fi_ino fi) 1); [|by intros []].
  simpl. by exists τ', fi.
Qed.

Lemma wp_wait_mounted_sleep path τ :
  wp (wait_mounted path) (λ _ τ', (slept τ' ≤ slept τ + Z.of_nat 30 * second)%Z) τ.
Proof.
  assert (0 ≤ second)%Z as Hs by done.
  unfold wait_mounted. apply (wp_sleep_loop 30 second); [done| |done].
  intros τ'. apply wp_call. intros [fi|e].
  - destruct (fi_ino fi =? 1)%Z.
    + cbn [wp mret prog_mret]. rewrite slept_snoc. cbn [sleep_of]. lia.
    + apply wp_call. intros []. cbn [wp mret prog_mret]. rewrite !slept_snoc. cbn [sleep_of]. lia.
  - cbn [wp mret prog_mret]. rewrite slept_snoc. cbn [sleep_of]. lia.
Qed.

Lemma wp_process_JMount s τ :
  wp (process_JMount s) (λ o τ',
    (slept τ' ≤ slept τ + 30 * second)%Z ∧
    match o with
    | Done None =>
        if Contains (js_Source s) "://" then root_seen (js_MountPath s) τ'
        else just_mounted (js_Source s) (js_MountPath s) FsType (js_Options s) τ'
    | Done (Some _) => True
    | Panicked _ => False
    end) τ.
Proof.
  assert (0 ≤ second)%Z as Hs by done.
  unfold process_JMount. destruct (Contains (js_Source s) "://"); simpl negb; cbv iota.
  2: { apply wp_call. intros [e|]; cbn [wp mret prog_mret]; rewrite slept_snoc; cbn [sleep_of];
       (split; [lia|]); [done|]. by exists τ. }
  apply wp_bind.
  eapply wp_mono with (Q := λ o τ', slept τ' = slept τ ∧ ∃ e, o = Done e).
  2: { unfold make_mount_dir. apply wp_call. intros [found [err|]]; prog_simpl.
       - rewrite slept_snoc. split; [simpl; lia|eauto].
       - destruct found; prog_simpl; [rewrite slept_snoc; split; [simpl; lia|eauto]|].
         intros [e|]; rewrite !slept_snoc; (split; [simpl; lia|eauto]). }
  intros o τ1 [H1 [[e|] ->]]; [cbn; split; [lia|done]|].
  apply wp_bind.
  eapply wp_mono with (Q := λ o τ', slept τ' = slept τ ∧ ∃ e, o = Done e).
  2: { unfold unmount_stale. apply wp_call. intros [[|]|err]; prog_simpl.
       - rewrite slept_snoc. split; [simpl; lia|eauto].
       - intros r. rewrite !slept_snoc. split; [simpl; lia|eauto].
       - rewrite slept_snoc. split; [simpl; lia|eauto]. }
  intros o τ2 [H2 [[e|] ->]]; [cbn; split; [lia|done]|].
  apply wp_call. intros environ. apply wp_call. intros [].
  set (τ3 := (τ2 ++ _) ++ _). assert (slept τ3 = slept τ) as H3.
  { subst τ3. rewrite !slept_snoc. simpl. lia. }
  eapply wp_mono; [|apply (wp_and _ _ _ _ (wp_wait_mounted (js_MountPath s) τ3)
    (wp_wait_mounted_sleep (js_MountPath s) τ3))].
  rewrite H3. intros [[e|]|w] τ4 [Hr Hs4]; (split; [lia|done]).
Qed.

(** C26: [ProcessMount.JMount] reports success only when the community edition's mount
    shows its root inode at the mount path, or the enterprise edition's mount call
    was accepted; it sleeps at most 30 seconds and never panics. *)
Theorem process_JMount_mounted {W} (h : handler W) w s :
  let τ := trace_of h (process_JMount s) w in
  (slept τ ≤ 30 * second)%Z ∧
  match result_of h (process_JMount s) w with
  | Done None =>
      if Contains (js_Source s) "://" then root_seen (js_MountPath s) τ
      else just_mounted (js_Source s) (js_MountPath s) FsType (js_Options s) τ
  | Done (Some _) => True
  | Panicked _ => False
  end.
Proof. intros τ. apply (wp_run h _ _ [] w (wp_process_JMount s [])). Qed.

(** ** Unmounting *)

Definition got_unmount (ev : event) : option (string * option error) :=
  match ev with
  | @Ev X e x =>
      match e in eff X return X → option (string * option error) with
      | EUnmount p => λ r, Some (p, r)
      | _ => λ _, None
      end x
  end.

(** The calls of [Unmount] with their answers. *)
Definition unmount_calls (τ : trace) : list (string * option error) := omap got_unmount τ.

Lemma unmount_calls_snoc τ ev :
  unmount_calls (τ ++ [ev]) = unmount_calls τ ++ option_list (got_unmount ev).
Proof. unfold unmount_calls. rewrite omap_app. simpl. by destruct (got_unmount ev). Qed.

(** The path of the target without symbolic links; of a corrupted mount, whose own
    name cannot be resolved, that of its directory. *)
Definition real_path (target path : string) (τ : trace) : Prop :=
  Ev (EEvalSymlinks target) (inl path) ∈ τ ∨
  ∃ dir, Ev (EEvalSymlinks (Dir (TrimSuffix target "/"))) (inl dir) ∈ τ ∧
    path = PathJoin [dir; Base (TrimSuffix target "/")].

(** By the kernel's table, read on the way, these are the mount points of the other
    mounts of the device shown at the target. *)
Definition other_mounts (target : string) (refs : list string) (τ : trace) : Prop :=
  ∃ path content mis m, real_path target path τ ∧
    Ev (EReadFile procMountInfoPath) (inl content) ∈ τ ∧ parseMountInfo content = Ok mis ∧
    shown_at path mis m ∧ refs = mountPoint <$> filter (also_mounts m) mis.

(** Nothing is unmounted yet. *)
Lemma wp_GetMountDeviceRefs target corrupted τ :
  unmount_calls τ = [] →
  wp (GetMountDeviceRefs target corrupted) (λ o τ', unmount_calls τ' = [] ∧ match o with
    | Done (Ok refs) => other_mounts target refs τ'
    | Done (Err _) => True
    | Panicked _ => False
    end) τ.
Proof.
  intros Hτ.
  assert (∀ path τ', unmount_calls τ' = [] → real_path target path τ' →
    wp (searchMountPoints path procMountInfoPath) (λ o τ', unmount_calls τ' = [] ∧ match o with
      | Done (Ok refs) => other_mounts target refs τ'
      | Done (Err _) => True
      | Panicked _ => False
      end) τ') as Hs.
  { intros path τ' Hn Hp. apply wp_call. intros [content|e]; prog_simpl;
      rewrite unmount_calls_snoc, Hn; (split; [done|]); [|done].
    destruct (parseMountInfo content) as [mis|] eqn:Hm; [|done]. simpl.
    destruct (search_mount_points path mis) as [refs|] eqn:Hr; [|done].
    apply search_mount_points_spec in Hr as (m & Hm' & ->).
    exists path, content, mis, m. split_and!; [|set_solver|done|done|done].
    destruct Hp as [Hp|(dir & Hp & ->)]; [left|right; exists dir]; set_solver. }
  unfold GetMountDeviceRefs. destruct corrupted; apply wp_call; intros [p|e]; prog_simpl.
  1, 3: apply Hs; [by rewrite unmount_calls_snoc, Hτ|].
  - right. exists p. set_solver.
  - left. set_solver.
  - by rewrite unmount_calls_snoc, Hτ.
  - by rewrite unmount_calls_snoc, Hτ.
Qed.

(** Why the target needs no unmounting. *)
Definition nothing_there (target : string) (τ : trace) : Prop :=
  Ev (EPathExists target) (false, None) ∈ τ ∨ Ev (EIsNotMountPoint target) (Ok true) ∈ τ.

(** What has been unmounted at the end: nothing; or the target; and then the only
    other mount of its device, if there is exactly one. *)
Definition unmounted_right (target : string) (o : outcome (option error)) (τ : trace) : Prop :=
  match unmount_calls τ with
  | [] => o = Done None → nothing_there target τ
  | [(p, Some _)] => p = target ∧ ∃ err, o = Done (Some err)
  | [(p, None)] => p = target ∧ o = Done None ∧ ∃ refs, other_mounts target refs τ ∧ length refs ≠ 1
  | [(p, None); (ref, _)] => p = target ∧ o = Done None ∧ other_mounts target [ref] τ
  | _ => False
  end.

Lemma other_mounts_snoc target refs τ ev :
  other_mounts target refs τ → other_mounts target refs (τ ++ [ev]).
Proof.
  intros (path & content & mis & m & Hp & Hc & ?). exists path, content, mis, m.
  split; [|split; [set_solver|done]].
  destruct Hp as [Hp|(dir & Hp & ->)]; [left|right; exists dir]; set_solver.
Qed.

Lemma wp_unmount_refs target corrupted τ :
  unmount_calls τ = [] →
  wp (unmount_refs target corrupted)
     (λ o τ', unmounted_right target o τ' ∧ ∃ e, o = Done e) τ.
Proof.
  intros Hτ. unfold unmount_refs, unmounted_right. apply wp_bind.
  eapply wp_mono; [|by apply wp_GetMountDeviceRefs].
  intros [[refs|e]|w] τ1 [Hn Hr]; [|prog_simpl; rewrite Hn; split; [done|by eexists]|done].
  apply wp_call. intros [e|].
  { prog_simpl. rewrite unmount_calls_snoc, Hn. simpl. eauto. }
  apply other_mounts_snoc with (ev := Ev (EUnmount target) None) in Hr.
  destruct refs as [|ref [|ref' refs]].
  2: { apply wp_call. intros r. prog_simpl. rewrite !unmount_calls_snoc, Hn. simpl.
       split; [|by eexists]. split_and!; [done..|]. by apply other_mounts_snoc. }
  all: prog_simpl; rewrite unmount_calls_snoc, Hn; simpl; split; [|by eexists];
    split_and!; [done..|]; eexists; (split; [exact Hr|done]).
Qed.

Lemma wp_process_JUmount volumeId target :
  wp (process_JUmount volumeId target)
     (λ o τ', unmounted_right target o τ' ∧ ∃ e, o = Done e) [].
Proof.
  unfold process_JUmount. apply wp_call. intros [there [err|]]; prog_simpl.
  { destruct (IsCorruptedMnt err); [by apply wp_unmount_refs|]. split; [done|by eexists]. }
  destruct there; simpl negb; cbv iota.
  - apply wp_call. intros [[|]|e].
    + split; [|by eexists]. intros _. right. set_solver.
    + by apply wp_unmount_refs.
    + split; [done|by eexists].
  - split; [|by eexists]. intros _. left. set_solver.
Qed.

(** C25: [ProcessMount.JUmount] unmounts the target, and the volume under it exactly
    when the kernel's mount table has one other mount of the target's device: a volume
    that another target still uses stays mounted, and one that nobody uses goes.
    Success means that the target was unmounted, does not exist, or is no mount point;
    nothing else is unmounted, and there is no panic. *)
Theorem process_JUmount_references {W} (h : handler W) w volumeId target :
  unmounted_right target (result_of h (process_JUmount volumeId target) w)
    (trace_of h (process_JUmount volumeId target) w) ∧
  ∃ e, result_of h (process_JUmount volumeId target) w = Done e.
Proof. apply (wp_run h _ _ [] w (wp_process_JUmount volumeId target)). Qed.

End ProcessMount.
