(* ===== verification/Juicefs.v ===== *)
(** * pkg/juicefs/juicefs.go: the provider of JuiceFS volumes

    The provider turns secrets and volume contexts into settings, formats or
    authenticates the file system, and mounts it by one of two [MntInterface]s.  The
    secrets are a Go map the caller shares: [AuthFs] renames keys in it, so the
    functions that pass it on return it.  A nil map is [None]. *)

From S2P Require Import Prelude GoStrings GoTime Kube Effects Lib Client Config Util Mount ProcessMount.

Record juicefs := MkJuicefs { podMount : MntInterface; processMount : MntInterface }.

Record jfs := MkJfs { jfs_Name : string; jfs_MountPath : string; jfs_Options : list string }.

(** ** A mounted file system *)

Definition GetBasePath (fs : jfs) : string := jfs_MountPath fs.

Definition perm_0777 : Z := 511.

(** The directory [volPath] with permissions 0777. *)
Definition make_volume_dir (volPath : string) : prog (option error) :=
  e ← call (EMkdirAll volPath perm_0777);
  match e with
  | Some _ => mret (Some (StatusErr Internal "Could not make directory for meta %q: %v"))
  | None =>
      r ← call (EStat volPath);
      match r with
      | inr _ => mret (Some (StatusErr Internal "Could not stat directory %s: %q"))
      | inl fi =>
          if (fi_perm fi =? perm_0777)%Z then mret None
          else
            e ← call (EChmod volPath perm_0777);
            mret (match e with
                  | Some _ => Some (StatusErr Internal "Could not chmod directory %s: %q")
                  | None => None
                  end)
      end
  end.

Definition CreateVol (fs : jfs) (subPath : string) : prog (res string) :=
  let volPath := PathJoin [jfs_MountPath fs; subPath] in
  '(exists_, err) ← call (EPathExists volPath);
  match err with
  | Some _ => mret (Err (StatusErr Internal "Could not check volume path %q exists: %v"))
  | None =>
      if exists_ : bool then mret (Ok volPath)
      else
        e ← make_volume_dir volPath;
        mret (match e with Some err => Err err | None => Ok volPath end)
  end.

Definition RmrDir (directory : string) (isCeMount : bool) : prog (string * option error) :=
  if isCeMount then call (EExec CeCliPath ["rmr"; directory] None)
  else call (EExec "rm" ["-rf"; directory] None).

Definition DeleteVol (fs : jfs) (volumeID : string) (secrets : option smap) :
    prog (option error) :=
  let volPath := PathJoin [jfs_MountPath fs; volumeID] in
  '(existed, err) ← call (EPathExists volPath);
  match err with
  | Some _ => mret (Some (StatusErr Internal "Could not check volume path %q exists: %v"))
  | None =>
      if existed : bool then
        let isCeMount := bool_decide (is_Some (rd secrets !! "metaurl")) in
        '(_, err) ← RmrDir volPath isCeMount;
        mret (match err with
              | Some _ => Some (StatusErr Internal "Could not delete volume path %q: %v")
              | None => None
              end)
      else mret None
  end.

(** ** Commands that format and authenticate *)

Definition flag (k v : string) : string := "--" +:+ k +:+ "=" +:+ v.
Definition shell_var (k : string) : string := "${" +:+ k +:+ "}".

(** Is the flag of the key [k] passed? *)
Definition passed (optional : list string) (m : smap) (k : string) : bool :=
  negb (existsb (String.eqb k) optional) || negb (String.eqb (get m k) "").

Definition keys_passed (optional keys : list string) (m : smap) : list string :=
  filter (λ k, passed optional m k = true) keys.

(** The old names of the keys are renamed in the secrets. *)
Definition keysCompatible : list (string * string) :=
  [("access-key", "accesskey"); ("access-key2", "accesskey2");
   ("secret-key", "secretkey"); ("secret-key2", "secretkey2")].

Definition rename_key (m : smap) (kr : string * string) : smap :=
  match m !! kr.1 with
  | Some v => delete kr.1 (<[kr.2 := v]> m)
  | None => m
  end.

Definition compatible (m : smap) : smap := fold_left rename_key keysCompatible m.

Definition auth_keys : list string := ["accesskey"; "accesskey2"; "bucket"; "bucket2"; "subdir"].
Definition auth_stripped : list string := ["token"; "secretkey"; "secretkey2"; "passphrase"].
Definition auth_optional : list string :=
  ["accesskey"; "accesskey2"; "secretkey"; "secretkey2"; "bucket"; "bucket2"; "passphrase";
   "subdir"].

(** The flags with the values, and with shell variables for the stripped keys. *)
Definition auth_args (m : smap) : list string :=
  ["auth"; get m "name"] ++
  map (λ k, flag k (get m k)) (keys_passed auth_optional auth_keys m) ++
  map (λ k, flag k (get m k)) (keys_passed auth_optional auth_stripped m).

Definition auth_cmdArgs (m : smap) : list string :=
  [CliPath; "auth"; get m "name"] ++
  map (λ k, flag k (get m k)) (keys_passed auth_optional auth_keys m) ++
  map (λ k, flag k (shell_var k)) (keys_passed auth_optional auth_stripped m).

Definition ce_keys : list string :=
  ["storage"; "bucket"; "access-key"; "block-size"; "compress"; "trash-days"; "capacity";
   "inodes"; "shards"].
Definition ce_stripped : list (string * string) := [("secret-key", "secretkey")].
Definition ce_optional : list string :=
  ["block-size"; "compress"; "trash-days"; "capacity"; "inodes"; "shards"].

Definition no_update_arg (noUpdate : bool) : list string :=
  if noUpdate then ["--no-update"] else [].

Definition format_args (m : smap) (noUpdate : bool) : list string :=
  ["format"] ++ no_update_arg noUpdate ++
  map (λ k, flag k (get m k)) (keys_passed ce_optional ce_keys m) ++
  map (λ kv, flag kv.1 (get m kv.1))
      (filter (λ kv, passed ce_optional m kv.1 = true) ce_stripped) ++
  [get m "metaurl"; get m "name"].

Definition format_cmdArgs (m : smap) (noUpdate : bool) : list string :=
  [CeCliPath; "format"] ++ no_update_arg noUpdate ++
  map (λ k, flag k (get m k)) (keys_passed ce_optional ce_keys m) ++
  map (λ kv, flag kv.1 (shell_var kv.2))
      (filter (λ kv, passed ce_optional m kv.1 = true) ce_stripped) ++
  ["${metaurl}"; get m "name"].

(** [syscall.Environ()] and the variables of the setting, in some order. *)
Definition setting_environ (s : JfsSetting) : prog (list string) :=
  environ ← call EEnviron;
  ks ← range_keys (rd (js_Envs s));
  mret (environ ++ map (λ k, k +:+ "=" +:+ get (rd (js_Envs s)) k) ks).

Section Juicefs.
Context `{Lib} `{Codec} (cfg : Config) (j : juicefs).

(** The initial configuration file of [AuthFs] with JFS_NO_UPDATE_CONFIG. *)
Definition write_init_config (m : smap) : prog (option error) :=
  if negb (FormatInPod cfg) && negb (String.eqb (get m "initconfig") "") then
    let confPath := PathJoin ["/root/.juicefs"; get m "name" +:+ ".conf"] in
    r ← call (EStat confPath);
    match r with
    | inr e =>
        if IsNotExist e then
          e ← call (EWriteFile confPath (get m "initconfig") 420);   (* 0644 *)
          mret (match e with
                | Some _ => Some (StatusErr Internal "Create config file %q failed: %v")
                | None => None
                end)
        else mret None
    | inl _ => mret None
    end
  else mret None.

(** The secrets with their keys renamed, the output or the command, the error. *)
Definition AuthFs (secrets : option smap) (s : JfsSetting) :
    prog (option smap * string * option error) :=
  match secrets with
  | None => mret (None, "", Some (StatusErr InvalidArgument "Nil secrets"))
  | Some m =>
      if String.eqb (get m "name") "" then
        mret (Some m, "", Some (StatusErr InvalidArgument "Empty name"))
      else
        let m := compatible m in
        v ← call (ELookupEnv "JFS_NO_UPDATE_CONFIG");
        let noUpdate := bool_decide (v = Some "enabled") in
        err ← (if noUpdate then
                 if String.eqb (get m "bucket") "" then
                   mret (Some (StatusErr InvalidArgument
                     "bucket argument is required when --no-update option is provided"))
                 else write_init_config m
               else mret None);
        match err with
        | Some err => mret (Some m, "", Some err)
        | None =>
            if FormatInPod cfg then
              mret (Some m, Join (auth_cmdArgs m ++ no_update_arg noUpdate) " ", None)
            else
              envs ← setting_environ s;
              '(out, err) ←
                call (EExec CliPath (auth_args m ++ no_update_arg noUpdate) (Some envs));
              mret (Some m, out, err)
        end
  end.

Definition ceFormat (secrets : option smap) (noUpdate : bool) (s : JfsSetting) :
    prog (string * option error) :=
  match secrets with
  | None => mret ("", Some (StatusErr InvalidArgument "Nil secrets"))
  | Some m =>
      if String.eqb (get m "name") "" then
        mret ("", Some (StatusErr InvalidArgument "Empty name"))
      else if String.eqb (get m "metaurl") "" then
        mret ("", Some (StatusErr InvalidArgument "Empty metaurl"))
      else if FormatInPod cfg then mret (Join (format_cmdArgs m noUpdate) " ", None)
      else
        envs ← setting_environ s;
        let envs := envs ++ (if needs_no_check (get m "storage")
                             then ["JFS_NO_CHECK_OBJECT_STORAGE=1"] else []) in
        call (EExec CeCliPath (format_args m noUpdate) (Some envs))
  end.

(** The setting with the format command, which only a pod runs. *)
Definition with_format (cmd : string) (s : JfsSetting) : JfsSetting :=
  if FormatInPod cfg then with_FormatCmd cmd s else s.

Definition set_env (k v : string) (s : JfsSetting) : prog JfsSetting :=
  match js_Envs s with
  | None => Crash "assignment to entry in nil map"
  | Some m => mret (with_Envs (Some (<[k := v]> m)) s)
  end.

(** The secrets afterwards and the setting. *)
Definition getSettings (volumeID target : string) (secrets volCtx : option smap)
    (options : list string) : prog (option smap * res JfsSetting) :=
  match ParseSetting cfg secrets volCtx (negb (ByProcess cfg)) with
  | Err err => mret (secrets, Err err)
  | Ok s =>
      let s := with_Options options (with_TargetPath target (with_VolumeId volumeID s)) in
      match rd secrets !! "metaurl" with
      | None =>
          if String.eqb (get (rd secrets) "token") "" then
            mret (secrets, Ok (with_Source (get (rd secrets) "name") s))
          else
            '(secrets, out, err) ← AuthFs secrets s;
            match err with
            | Some _ => mret (secrets, Err (StatusErr Internal "Could not auth juicefs: %v"))
            | None =>
                mret (secrets, Ok (with_Source (get (rd secrets) "name") (with_format out s)))
            end
      | Some source =>
          let m := rd secrets in
          let noUpdate := String.eqb (get m "storage") "" || String.eqb (get m "bucket") "" in
          s ← (if FormatInPod cfg && needs_no_check (get m "storage")
               then set_env "JFS_NO_CHECK_OBJECT_STORAGE" "1" s else mret s);
          '(out, err) ← ceFormat secrets noUpdate s;
          match err with
          | Some _ => mret (secrets, Err (StatusErr Internal "%v"))
          | None =>
              let source := if Contains source "://" then source else "redis://" +:+ source in
              mret (secrets, Ok (with_format out (with_Source source s)))
          end
      end
  end.

(** ** Mounting *)

Definition MountFs (s : JfsSetting) : prog (res string) :=
  let '(base, mnt) := if js_UsePod s then (PodMountBase, podMount j)
                      else (MountBase, processMount j) in
  let s := with_MountPath (PathJoin [base; js_VolumeId s]) s in
  '(err, s) ← mnt_JMount mnt s;
  mret (match err with Some err => Err err | None => Ok (js_MountPath s) end).

Definition JfsMount (volumeID target : string) (secrets volCtx : option smap)
    (options : list string) : prog (res jfs) :=
  '(secrets, r) ← getSettings volumeID target secrets volCtx options;
  match r with
  | Err err => mret (Err err)
  | Ok s =>
      r ← MountFs s;
      mret (match r with
            | Err _ => Err (StatusErr Internal "%v")
            | Ok mountPath => Ok (MkJfs (get (rd secrets) "name") mountPath options)
            end)
  end.

(** ** Creating and deleting volumes *)

(** Mount, work on the file system, unmount: the part the two share. *)
Definition with_mounted (s : JfsSetting) (secrets : option smap) (what : string)
    (work : jfs → prog (option error)) : prog (option error) :=
  '(err, s) ← mnt_JMount (processMount j) s;
  match err with
  | Some _ => mret (Some (StatusErr Internal "Could not mount juicefs: %v"))
  | None =>
      let fs := MkJfs (get (rd secrets) "name") (js_MountPath s) (js_Options s) in
      err ← work fs;
      match err with
      | Some _ => mret (Some (StatusErr Internal what))
      | None =>
          e ← call (EUnmount (GetBasePath fs));
          mret (match e with
                | Some _ => Some (StatusErr Internal "Could not unmount volume %q: %v")
                | None => None
                end)
      end
  end.

Definition JfsCreateVol (volumeID subPath : string) (secrets : option smap) :
    prog (option error) :=
  '(secrets, r) ← getSettings volumeID "" secrets None [];
  match r with
  | Err err => mret (Some err)
  | Ok s =>
      let s := with_SubPath subPath s in
      let s := with_MountPath (PathJoin [PodMountBase; js_VolumeId s]) s in
      if FormatInPod cfg then mnt_JCreateVolume (podMount j) s
      else with_mounted s secrets "Could not create volume: %q, err: %v"
             (λ fs, r ← CreateVol fs subPath; mret (err_of r))
  end.

Definition JfsDeleteVol (volumeID subPath : string) (secrets : option smap) :
    prog (option error) :=
  '(secrets, r) ← getSettings volumeID "" secrets None [];
  match r with
  | Err err => mret (Some err)
  | Ok s =>
      let s := with_SubPath subPath s in
      let s := with_MountPath (PathJoin [PodMountBase; js_VolumeId s]) s in
      if FormatInPod cfg then mnt_JDeleteVolume (podMount j) s
      else with_mounted s secrets "Could not delete volume: %q, err: %v"
             (λ fs, DeleteVol fs volumeID secrets)
  end.

(** ** Unmounting *)

Definition JfsCleanupMountPoint (mountPath : string) : prog (option error) :=
  call (ECleanupMountPoint mountPath).

(** [umount] until it fails; [None] when [fuel] turns were not enough. *)
Fixpoint umount_all (fuel : nat) (mountPath : string) : prog (option (option error)) :=
  match fuel with
  | 0 => mret None
  | S fuel' =>
      '(out, err) ← call (EExec "umount" [mountPath] None);
      match err with
      | None => umount_all fuel' mountPath
      | Some _ =>
          if Contains out "not mounted" || Contains out "mountpoint not found" ||
             Contains out "no mount point specified"
          then mret (Some None)
          else
            '(_, err) ← call (EExec "umount" ["-l"; mountPath] None);
            mret (Some err)
      end
  end.

(** [None]: the loop needs more than [fuel] turns. *)
Definition JfsUnmount (fuel : nat) (volumeId mountPath : string) :
    prog (option (option error)) :=
  if ByProcess cfg then e ← mnt_JUmount (processMount j) volumeId mountPath; mret (Some e)
  else
    r ← umount_all fuel mountPath;
    match r with
    | None => mret None
    | Some (Some err) => mret (Some (Some err))
    | Some None =>
        e ← JfsCleanupMountPoint mountPath;
        match e with
        | Some err => mret (Some (Some err))
        | None => e ← mnt_JUmount (podMount j) volumeId mountPath; mret (Some e)
        end
    end.

(** ** Upgrade *)

(** The seconds [Upgrade] gives the command, when it runs it. *)
Definition upgrade_timeout : prog (option Z) :=
  v ← call (ELookupEnv "JFS_AUTO_UPGRADE");
  if bool_decide (v = Some "enabled") then
    t ← call (ELookupEnv "JFS_AUTO_UPGRADE_TIMEOUT");
    mret (Some (default 10%Z (t ≫= Atoi)))
  else mret None.

(** The command runs until it ends or the context's deadline kills it, which is one
    more error of its; the outcome is only logged. *)
Definition Upgrade : prog unit :=
  t ← upgrade_timeout;
  match t with
  | None => mret tt
  | Some _ => _ ← call (EExec CliPath ["version"; "-u"] None); mret tt
  end.

Definition Version : prog (string * option error) := call (EExec CliPath ["version"] None).

End Juicefs.
