(* ===== verification/JuicefsProps.v ===== *)
(** * Properties of the provider

    The setting [getSettings] returns, the path [JfsMount] mounts at, the secrets
    the commands do not show, the mounts left by [JfsCreateVol], and termination of
    [JfsUnmount]. *)

From S2P Require Import Prelude GoStrings GoTime Kube Effects Lib Client Config Util Mount ProcessMount Juicefs.

(** ** Settings *)

Lemma parse_volCtx_UsePod `{Codec} ctx labels s s' labels' :
  parse_volCtx ctx labels s = Ok (s', labels') → js_UsePod s' = js_UsePod s.
Proof.
  unfold parse_volCtx. intros E.
  destruct (String.eqb (get ctx deleteDelay) ""); [|destruct (ParseDuration _)]; try done.
  all: simpl in E; destruct (decode_key ctx mountPodLabelKey); [|done]; simpl in E.
  all: destruct (String.eqb (get ctx mountPodAnnotationKey) "");
    [|destruct (decode_key ctx mountPodAnnotationKey); [|done]]; simpl in E;
    by injection E as <- <-.
Qed.

Lemma ParseSetting_UsePod `{Codec} cfg m volCtx usePod s :
  ParseSetting cfg (Some m) volCtx usePod = Ok s → js_UsePod s = usePod.
Proof.
  unfold ParseSetting. destruct (parseYamlOrJson _ _ m) as [s0|]; [|done]. simpl.
  destruct (String.eqb _ ""); [done|].
  destruct (decode_key m "configs") as [configs|]; [|done]. simpl.
  destruct (decode_key m "envs") as [envs|]; [|done]. simpl.
  destruct (if String.eqb (MountLabels cfg) "" then _ else _) as [labels|]; [|done]. simpl.
  destruct volCtx as [ctx|]; simpl.
  - destruct (parse_volCtx _ _ _) as [[s' l']|] eqn:E; [|done]. simpl.
    apply parse_volCtx_UsePod in E. simpl in E. case_bool_decide; by intros [= <-].
  - case_bool_decide; by intros [= <-].
Qed.

(** The errors of [ParseSetting] are never of the code [Internal]. *)
Definition not_internal (e : error) : Prop :=
  match e with StatusErr Internal _ => False | _ => True end.

Lemma decode_key_err `{Codec} m k e : decode_key m k = Err e → not_internal e.
Proof.
  unfold decode_key, parseYamlOrJson. intros Hd.
  destruct (String.eqb _ ""); [done|]. destruct (yaml_map _); [done|].
  destruct (json_map _); [done|]. by injection Hd as <-.
Qed.

Lemma parse_volCtx_err `{Codec} ctx labels s e :
  parse_volCtx ctx labels s = Err e → not_internal e.
Proof.
  unfold parse_volCtx. intros E.
  destruct (String.eqb (get ctx deleteDelay) ""); [|destruct (ParseDuration _)].
  3: by injection E as <-.
  all: simpl in E; destruct (decode_key ctx mountPodLabelKey) eqn:E1;
    [|injection E as <-; by apply decode_key_err in E1].
  all: simpl in E; destruct (String.eqb (get ctx mountPodAnnotationKey) ""); [done|];
    destruct (decode_key ctx mountPodAnnotationKey) eqn:E2; [done|];
    injection E as <-; by apply decode_key_err in E2.
Qed.

Lemma ParseSetting_err `{Codec} cfg secrets volCtx usePod e :
  ParseSetting cfg secrets volCtx usePod = Err e → not_internal e.
Proof.
  unfold ParseSetting, parseYamlOrJson. destruct secrets as [m|]; [|done].
  destruct (yaml_setting m); [|destruct (json_setting m); [|by intros [= <-]]]; simpl.
  all: destruct (String.eqb _ ""); [by intros [= <-]|].
  all: destruct (decode_key m "configs") as [configs|] eqn:E1; simpl;
    [|intros [= <-]; by apply decode_key_err in E1].
  all: destruct (decode_key m "envs") as [envs|] eqn:E2; simpl;
    [|intros [= <-]; by apply decode_key_err in E2].
  all: destruct (String.eqb (MountLabels cfg) ""); simpl;
    [|destruct (yaml_map _); [|destruct (json_map _); [|by intros [= <-]]]; simpl].
  all: destruct volCtx as [ctx|]; simpl; [|by case_bool_decide].
  all: destruct (parse_volCtx _ _ _) as [[s' l']|] eqn:E3; simpl; [by case_bool_decide|];
    intros [= <-]; by apply parse_volCtx_err in E3.
Qed.

(** *** Keys renamed by [AuthFs] *)

Definition renamed_keys : list string :=
  ["access-key"; "access-key2"; "secret-key"; "secret-key2";
   "accesskey"; "accesskey2"; "secretkey"; "secretkey2"].

Lemma rename_key_other m c r k : k ≠ c → k ≠ r → rename_key m (c, r) !! k = m !! k.
Proof.
  intros Hc Hr. unfold rename_key. simpl. destruct (m !! c); [|done].
  by rewrite lookup_delete_ne, lookup_insert_ne.
Qed.

Lemma compatible_other m k : k ∉ renamed_keys → compatible m !! k = m !! k.
Proof.
  intros Hk. unfold renamed_keys in Hk.
  rewrite !not_elem_of_cons in Hk.
  destruct Hk as (? & ? & ? & ? & ? & ? & ? & ? & _).
  unfold compatible, keysCompatible. simpl. by rewrite !rename_key_other.
Qed.

Lemma compatible_name m : get (compatible m) "name" = get m "name".
Proof. unfold get. rewrite compatible_other; [done|]. by apply (bool_decide_unpack _). Qed.

(** *** What [getSettings] returns *)

Section Settings.
Context `{Lib} `{Codec} (cfg : Config).

Definition could_not_create : error :=
  StatusErr Internal "Could not create volume: %q, err: %v".

Definition settings_ok (volumeID target : string) (m : smap) (options : list string)
    (s : JfsSetting) : Prop :=
  js_UsePod s = negb (ByProcess cfg) ∧ js_VolumeId s = volumeID ∧ js_TargetPath s = target ∧
  js_Options s = options ∧
  js_Source s = match m !! "metaurl" with
                | None => get m "name"
                | Some source => if Contains source "://" then source else "redis://" +:+ source
                end.

Lemma with_format_ok volumeID target m options cmd s :
  settings_ok volumeID target m options s →
  settings_ok volumeID target m options (with_format cfg cmd s).
Proof. unfold with_format. by destruct (FormatInPod cfg). Qed.

Lemma wp_AuthFs_secrets m s τ :
  wp (AuthFs cfg (Some m) s) (λ o _, match o with
     | Done (secrets, _, None) => ∃ m', secrets = Some m' ∧ get m' "name" = get m "name"
     | _ => True
     end) τ.
Proof.
  unfold AuthFs. destruct (String.eqb _ ""); [done|]. apply wp_call. intros v.
  apply wp_bind, wp_any. intros [[err|]|w] τ'; [done| |done].
  destruct (FormatInPod cfg).
  - simpl. eexists. split; [done|apply compatible_name].
  - apply wp_bind, wp_any. intros [envs|w] τ1; [|done]. apply wp_call.
    intros [out [err|]]; [done|]. simpl. eexists. split; [done|apply compatible_name].
Qed.

Lemma wp_getSettings volumeID target m volCtx options τ :
  wp (getSettings cfg volumeID target (Some m) volCtx options)
     (λ o _, match o with
      | Done (_, Ok s) => settings_ok volumeID target m options s
      | Done (_, Err e) => e ≠ could_not_create
      | Panicked _ => True
      end) τ.
Proof.
  unfold getSettings. destruct (ParseSetting _ _ _ _) as [s0|err] eqn:Hp.
  2: { intros ->. by apply ParseSetting_err in Hp. }
  apply ParseSetting_UsePod in Hp.
  set (s := with_Options _ _). change (rd (Some m)) with m.
  destruct (m !! "metaurl") as [source|] eqn:Hm.
  - assert (∀ s', js_UsePod s' = negb (ByProcess cfg) → js_VolumeId s' = volumeID →
      js_TargetPath s' = target → js_Options s' = options →
      settings_ok volumeID target m options
        (with_Source (if Contains source "://" then source else "redis://" +:+ source) s'))
      as Hs by (intros; unfold settings_ok; by rewrite Hm).
    apply wp_bind. eapply wp_mono with (Q := λ o _, match o with
      | Done s' => js_UsePod s' = negb (ByProcess cfg) ∧ js_VolumeId s' = volumeID ∧
                   js_TargetPath s' = target ∧ js_Options s' = options
      | Panicked _ => True end).
    2: { destruct (_ && _); [|done]. unfold set_env. by destruct (js_Envs s). }
    intros [s'|w] τ1 Hs'; [|done]. destruct Hs' as (H1 & H2 & H3 & H4).
    apply wp_bind, wp_any. intros [[out [err|]]|w] τ2; [done| |done].
    simpl. apply with_format_ok. auto.
  - assert (∀ v s', v = get m "name" → js_UsePod s' = negb (ByProcess cfg) →
      js_VolumeId s' = volumeID → js_TargetPath s' = target → js_Options s' = options →
      settings_ok volumeID target m options (with_Source v s')) as Hs
      by (intros; unfold settings_ok; by rewrite Hm).
    destruct (String.eqb (get m "token") ""); [simpl; auto|].
    apply wp_bind. eapply wp_mono; [|apply wp_AuthFs_secrets].
    intros [[[secrets out] [err|]]|w] τ1; [done| |done]. intros (m' & -> & Hn). simpl.
    unfold with_format. destruct (FormatInPod cfg); by apply Hs.
Qed.

(** [getSettings] leaves alone what does not depend on the source, the command of the
    format and the environment. *)
Lemma wp_getSettings_keeps {X} (f : JfsSetting → X) volumeID target secrets volCtx options τ :
  (∀ v s, f (with_Source v s) = f s) → (∀ v s, f (with_FormatCmd v s) = f s) →
  (∀ v s, f (with_Envs v s) = f s) →
  wp (getSettings cfg volumeID target secrets volCtx options)
     (λ o _, match o with
      | Done (_, Ok s) => ∃ s0, ParseSetting cfg secrets volCtx (negb (ByProcess cfg)) = Ok s0 ∧
          f s = f (with_Options options (with_TargetPath target (with_VolumeId volumeID s0)))
      | _ => True
      end) τ.
Proof.
  intros Hsrc Hfmt Henv. unfold getSettings.
  destruct (ParseSetting _ _ _ _) as [s0|err] eqn:Hp; [|done].
  set (s := with_Options _ _).
  assert (∀ cmd s', f (with_format cfg cmd s') = f s') as Hcmd.
  { intros cmd s'. unfold with_format. by destruct (FormatInPod cfg). }
  destruct (rd secrets !! "metaurl") as [source|].
  - apply wp_bind. eapply wp_mono with (Q := λ o _, match o with
      | Done s' => f s' = f s | Panicked _ => True end).
    2: { destruct (_ && _); [|done]. unfold set_env. by destruct (js_Envs s); [apply Henv|]. }
    intros [s'|why] τ1 Hs'; [|done]. apply wp_bind, wp_any. intros [[out [err|]]|why] τ2; [done| |done].
    exists s0. split; [done|]. by rewrite Hcmd, Hsrc.
  - destruct (String.eqb _ "").
    { exists s0. split; [done|]. apply Hsrc. }
    apply wp_bind, wp_any. intros [[[secrets' out] [err|]]|why] τ1; [done| |done].
    exists s0. split; [done|]. by rewrite Hsrc, Hcmd.
Qed.

Lemma avoids_getSettings (bad : eff_class) volumeID target secrets volCtx options :
  (∀ n, bad _ (ELookupEnv n) = false) → (∀ p, bad _ (EStat p) = false) →
  (∀ p d m, bad _ (EWriteFile p d m) = false) → bad _ EEnviron = false →
  (∀ l, bad _ (EOrder l) = false) → (∀ c a e, bad _ (EExec c a e) = false) →
  avoids bad (getSettings cfg volumeID target secrets volCtx options).
Proof.
  intros H1 H2 H3 H4 H5 H6.
  unfold getSettings, AuthFs, ceFormat, write_init_config, setting_environ, range_keys, set_env.
  avoids; simpl; auto.
Qed.
End Settings.

(** ** Secrets in commands *)

(** Two maps that agree but for the values of the keys [S], of which the same ones
    are present and the same ones empty. *)
Definition same_shape (S : list string) (m m' : smap) : Prop :=
  ∀ k, (k ∉ S → m !! k = m' !! k) ∧
       (k ∈ S → (is_Some (m !! k) ↔ is_Some (m' !! k)) ∧ (get m k = "" ↔ get m' k = "")).

Lemma shape_get S m m' k : same_shape S m m' → k ∉ S → get m k = get m' k.
Proof. intros Hs Hk. unfold get. by rewrite (proj1 (Hs k) Hk). Qed.

Lemma shape_empty S m m' k :
  same_shape S m m' → String.eqb (get m k) "" = String.eqb (get m' k) "".
Proof.
  intros Hs. destruct (decide (k ∈ S)) as [Hk|Hk]; [|by rewrite (shape_get S m m')].
  destruct (Hs k) as [_ Hs']. destruct (Hs' Hk) as [_ He].
  apply eq_true_iff_eq. by rewrite !String.eqb_eq.
Qed.

Lemma shape_passed S m m' o k : same_shape S m m' → passed o m k = passed o m' k.
Proof. intros Hs. unfold passed. by rewrite (shape_empty S m m'). Qed.

Lemma shape_keys_passed S m m' o ks :
  same_shape S m m' → keys_passed o ks m = keys_passed o ks m'.
Proof.
  intros Hs. unfold keys_passed. apply list_filter_iff. intros k. by rewrite (shape_passed S m m').
Qed.

Lemma shape_flags S m m' o ks :
  same_shape S m m' → Forall (λ k, k ∉ S) ks →
  map (λ k, flag k (get m k)) (keys_passed o ks m) =
  map (λ k, flag k (get m' k)) (keys_passed o ks m').
Proof.
  intros Hs Hks. rewrite (shape_keys_passed S m m') by done. unfold keys_passed.
  induction Hks as [|k ks Hk _ IH]; [done|]. rewrite filter_cons. case_decide; [|done].
  simpl. by rewrite IH, (shape_get S m m').
Qed.

Lemma rename_key_lookup m c r k :
  c ≠ r →
  rename_key m (c, r) !! k =
  if decide (k = c) then None
  else if decide (k = r) then match m !! c with Some v => Some v | None => m !! r end
  else m !! k.
Proof.
  intros Hcr. unfold rename_key. simpl. destruct (m !! c) as [v|] eqn:Hc.
  - destruct (decide (k = c)) as [->|]; [by rewrite lookup_delete_eq|].
    rewrite lookup_delete_ne by done.
    destruct (decide (k = r)) as [->|]; [by rewrite lookup_insert_eq|].
    by rewrite lookup_insert_ne.
  - repeat case_decide; by subst.
Qed.

Lemma rename_shape S m m' c r :
  c ≠ r → (c ∈ S ↔ r ∈ S) → same_shape S m m' →
  same_shape S (rename_key m (c, r)) (rename_key m' (c, r)).
Proof.
  intros Hcr HcS Hs k. unfold get. rewrite !rename_key_lookup by done.
  destruct (decide (k = c)) as [->|Hkc]; [done|].
  destruct (decide (k = r)) as [->|Hkr]; [|apply Hs].
  destruct (Hs c) as [Hc1 Hc2], (Hs r) as [Hr1 Hr2]. split.
  - intros Hr. rewrite Hc1 by tauto. by rewrite Hr1.
  - intros Hr. destruct (Hc2 (proj2 HcS Hr)) as [[H1 H2] H3]. unfold get in *.
    destruct (m !! c) as [v|] eqn:E1, (m' !! c) as [v'|] eqn:E2; simpl in *.
    + split; [by split; intros; eauto|done].
    + destruct H1 as [? [=]]. by eauto.
    + destruct H2 as [? [=]]. by eauto.
    + by apply Hr2.
Qed.

(** The keys [AuthFs] replaces by shell variables, by old and new names. *)
Definition auth_secret_keys : list string :=
  ["token"; "secretkey"; "secretkey2"; "passphrase"; "secret-key"; "secret-key2"].

Definition ce_secret_keys : list string := ["metaurl"; "secret-key"].

Lemma compatible_shape m m' :
  same_shape auth_secret_keys m m' → same_shape auth_secret_keys (compatible m) (compatible m').
Proof.
  intros Hs. unfold compatible, keysCompatible. simpl.
  repeat (apply rename_shape; [done|by split; intros Hk; apply (bool_decide_unpack _);
    revert Hk; apply (bool_decide_unpack _)|]). done.
Qed.

Ltac not_in := by apply (bool_decide_unpack _).

Lemma auth_cmdArgs_shape m m' :
  same_shape auth_secret_keys m m' → auth_cmdArgs m = auth_cmdArgs m'.
Proof.
  intros Hs. unfold auth_cmdArgs.
  rewrite (shape_get _ m m' "name" Hs), (shape_flags _ m m' _ auth_keys Hs),
    (shape_keys_passed _ m m' _ auth_stripped Hs); [done|not_in|not_in].
Qed.

Lemma format_cmdArgs_shape m m' b :
  same_shape ce_secret_keys m m' → format_cmdArgs m b = format_cmdArgs m' b.
Proof.
  intros Hs. unfold format_cmdArgs.
  rewrite (shape_get _ m m' "name" Hs), (shape_flags _ m m' _ ce_keys Hs); [|not_in|not_in].
  assert (filter (λ kv, passed ce_optional m kv.1 = true) ce_stripped =
          filter (λ kv, passed ce_optional m' kv.1 = true) ce_stripped) as ->; [|done].
  apply list_filter_iff. intros kv. by rewrite (shape_passed ce_secret_keys m m').
Qed.

Section Provider.
Context `{Lib} `{Codec} (cfg : Config).

(** C21: with [FormatInPod], the command [AuthFs] builds for the mount pod does not
    depend on the values of the token, the secret keys and the passphrase: secrets
    that agree otherwise give the same command, error and requests. *)
Theorem auth_command_hides {W} (h : handler W) w m m' s s' :
  FormatInPod cfg = true → same_shape auth_secret_keys m m' →
  ∃ sm sm' cmd e,
    result_of h (AuthFs cfg (Some m) s) w = Done (sm, cmd, e) ∧
    result_of h (AuthFs cfg (Some m') s') w = Done (sm', cmd, e) ∧
    trace_of h (AuthFs cfg (Some m) s) w = trace_of h (AuthFs cfg (Some m') s') w.
Proof.
  intros Hf Hs. unfold AuthFs, write_init_config. rewrite Hf. cbn [negb andb].
  rewrite (shape_empty _ m m' "name" Hs). pose proof (compatible_shape _ _ Hs) as Hc.
  rewrite (shape_empty _ _ _ "bucket" Hc), (auth_cmdArgs_shape _ _ Hc).
  destruct (String.eqb (get m' "name") ""); [by repeat eexists|].
  unfold result_of, trace_of. cbn -[Join auth_cmdArgs compatible].
  destruct (h _ _ w) as [v w1]. destruct (bool_decide (v = Some "enabled"));
    [destruct (String.eqb _ "")|]; by repeat eexists.
Qed.

(** With [FormatInPod], the command [ceFormat] builds for the mount pod does not
    depend on the address of the metadata engine nor on the secret key. *)
Theorem ce_command_hides {W} (h : handler W) w m m' b s s' :
  FormatInPod cfg = true → same_shape ce_secret_keys m m' →
  result_of h (ceFormat cfg (Some m) b s) w = result_of h (ceFormat cfg (Some m') b s') w ∧
  trace_of h (ceFormat cfg (Some m) b s) w = [].
Proof.
  intros Hf Hs. unfold ceFormat. rewrite Hf.
  rewrite (shape_empty _ m m' "name" Hs), (shape_empty _ m m' "metaurl" Hs),
    (format_cmdArgs_shape _ _ b Hs).
  destruct (String.eqb _ ""); [done|]. by destruct (String.eqb _ "").
Qed.

(** ** Mount paths *)

Section Mounters.
Context (j : juicefs) `{MntLaws (podMount j)} `{MntLaws (processMount j)}.

Lemma wp_JfsMount volumeID target m volCtx options τ :
  wp (JfsMount cfg j volumeID target (Some m) volCtx options) (λ o _, match o with
    | Done (Ok fs) =>
        jfs_MountPath fs =
          PathJoin [if ByProcess cfg then MountBase else PodMountBase; volumeID] ∧
        jfs_Options fs = options
    | _ => True
    end) τ.
Proof.
  unfold JfsMount. apply wp_bind. eapply wp_mono; [|apply wp_getSettings].
  intros [[secrets [s|err]]|w] τ1; [|done|done]. intros (Hu & Hv & _). unfold MountFs.
  rewrite Hu. apply wp_bind.
  destruct (ByProcess cfg); cbn [negb]; apply wp_bind;
    (eapply wp_mono; [|apply JMount_setting]);
    intros [[[e|] s']|w] τ2; try done; intros (Hm & _);
    cbn [wp mret prog_mret]; rewrite Hm; by rewrite <- Hv.
Qed.

(** A file system mounted for a volume is at the path of the volume's name under
    the base of the mounter in use, with the options given. *)
Theorem JfsMount_path {W} (h : handler W) w volumeID target m volCtx options fs :
  result_of h (JfsMount cfg j volumeID target (Some m) volCtx options) w = Done (Ok fs) →
  jfs_MountPath fs = PathJoin [if ByProcess cfg then MountBase else PodMountBase; volumeID] ∧
  jfs_Options fs = options.
Proof.
  intros Hr.
  pose proof (wp_run h _ _ [] w (wp_JfsMount volumeID target m volCtx options [])) as Hq.
  by rewrite Hr in Hq.
Qed.

End Mounters.

(** ** Termination of [JfsUnmount] *)

Lemma umount_all_terminates {W} (h : handler W) (layers : W → nat) path n w :
  (∀ w out w', h _ (EExec "umount" [path] None) w = ((out, None), w') → layers w' < layers w) →
  layers w < n → ∃ r w', exec h (umount_all n path) w = (Done (Some r), w').
Proof.
  intros Hl. revert w. induction n as [|n IH]; intros w Hn; [lia|].
  cbn [umount_all]. rewrite exec_bind, exec_call.
  destruct (h _ _ w) as [[out [err|]] w1] eqn:E; simpl.
  - destruct (_ || _); [rewrite exec_ret; eauto|]. rewrite exec_vis.
    destruct (h _ _ w1) as [[out' err'] w2]. simpl. rewrite exec_ret. eauto.
  - apply IH. apply Hl in E. lia.
Qed.

(** C33: [JfsUnmount] ends: if every successful [umount] of the path takes one of
    finitely many layers off it, as many turns of its loop as there are layers,
    and one more, are enough. *)
Theorem JfsUnmount_terminates {W} (h : handler W) (layers : W → nat) j volumeId path fuel w :
  (∀ w out w', h _ (EExec "umount" [path] None) w = ((out, None), w') → layers w' < layers w) →
  layers w < fuel →
  result_of h (JfsUnmount cfg j fuel volumeId path) w ≠ Done None.
Proof.
  intros Hl Hn. change (result_of h ?t w) with (exec h t w).1.
  unfold JfsUnmount. destruct (ByProcess cfg).
  - rewrite exec_bind. by destruct (exec h _ w) as [[e|s] w1].
  - rewrite exec_bind. destruct (umount_all_terminates h layers path fuel w Hl Hn) as (r & w1 & ->).
    destruct r as [err|]; [done|]. unfold JfsCleanupMountPoint. rewrite exec_bind.
    destruct (exec h (call _) w1) as [[[err|]|s] w2]; [done| |done].
    rewrite exec_bind. by destruct (exec h _ w2) as [[e|s] w3].
Qed.

(** ** Mounts left by [JfsCreateVol] *)

Definition volume_path (volumeID : string) : string := PathJoin [PodMountBase; volumeID].

Lemma mountless_CreateVol fs subPath : avoids is_mounting (CreateVol fs subPath).
Proof. unfold CreateVol, make_volume_dir. avoids. Qed.

(** [with_mounted] by one [mount] call. *)
Lemma wp_with_mounted j s secrets what work τ :
  processMount j = ProcessMount → Contains (js_Source s) "://" = false →
  (∀ fs, avoids is_mounting (work fs)) →
  what ≠ "Could not unmount volume %q: %v" → what ≠ "Could not mount juicefs: %v" →
  wp (with_mounted j s secrets what work) (λ o τ',
    let n := (mount_balance (js_MountPath s) τ' - mount_balance (js_MountPath s) τ)%Z in
    match o with
    | Done None => n = 0%Z
    | Done (Some e) => e = StatusErr Internal what → n = 1%Z
    | Panicked _ => True
    end) τ.
Proof.
  intros Hj Hs Hw Hn1 Hn2. unfold with_mounted. rewrite Hj. simpl mnt_JMount.
  unfold process_JMount. rewrite Hs. simpl negb. cbv iota.
  apply wp_bind, wp_bind, wp_call. intros r. cbn [wp mret prog_mret].
  destruct r as [e|]; cbn [wp mret prog_mret]; [intros E; by injection E|].
  set (τ1 := τ ++ _).
  assert (mount_balance (js_MountPath s) τ1 = mount_balance (js_MountPath s) τ + 1)%Z as H1.
  { subst τ1. rewrite mount_balance_snoc. simpl. by rewrite String.eqb_refl. }
  apply wp_bind. eapply wp_mono; [|by apply (wp_mountless (js_MountPath s))].
  intros [[e|]|w] τ2 H2; cbn [wp mret prog_mret]; [intros _; lia| |done].
  apply wp_call. intros [e|]; cbn [wp mret prog_mret]; rewrite mount_balance_snoc.
  - intros E. by injection E.
  - simpl. rewrite String.eqb_refl. simpl. lia.
Qed.

Lemma wp_JfsCreateVol_result j volumeID subPath m :
  processMount j = ProcessMount → FormatInPod cfg = false → m !! "metaurl" = None →
  Contains (get m "name") "://" = false →
  wp (JfsCreateVol cfg j volumeID subPath (Some m)) (λ o τ,
    match o with
    | Done None => mount_balance (volume_path volumeID) τ = 0%Z
    | Done (Some e) => e = could_not_create → mount_balance (volume_path volumeID) τ = 1%Z
    | Panicked _ => True
    end) [].
Proof.
  intros Hj Hf Hm Hn. unfold JfsCreateVol. rewrite Hf. apply wp_bind.
  assert (avoids is_mounting (getSettings cfg volumeID "" (Some m) None [])) as Ha
    by by apply avoids_getSettings.
  eapply wp_mono; [|apply (wp_and _ _ _ _ (wp_getSettings cfg volumeID "" m None [] [])
                                   (wp_mountless (volume_path volumeID) _ [] Ha))].
  intros [[secrets [s|err]]|w'] τ [Hs Hb]; [| |done].
  - destruct Hs as (_ & Hv & _ & _ & Hsrc). rewrite Hm in Hsrc.
    eapply wp_mono; [|apply wp_with_mounted].
    + simpl. rewrite Hv. fold (volume_path volumeID). rewrite Hb.
      change (mount_balance (volume_path volumeID) []) with 0%Z.
      intros [[e|]|w2] τ2 H2; [|lia|done]. intros E. specialize (H2 E). lia.
    + done.
    + simpl. by rewrite Hsrc.
    + intros fs. pose proof (mountless_CreateVol fs subPath). avoids.
    + done.
    + done.
  - simpl. by intros ->.
Qed.

(** When the volume's directory cannot be created in an enterprise file system,
    [JfsCreateVol] returns with the file system still mounted in the controller;
    when it succeeds, the mount is balanced by an unmount. *)
Theorem JfsCreateVol_mounts {W} (h : handler W) j volumeID subPath m w :
  processMount j = ProcessMount → FormatInPod cfg = false → m !! "metaurl" = None →
  Contains (get m "name") "://" = false →
  let n := mount_balance (volume_path volumeID)
             (trace_of h (JfsCreateVol cfg j volumeID subPath (Some m)) w) in
  match result_of h (JfsCreateVol cfg j volumeID subPath (Some m)) w with
  | Done None => n = 0%Z
  | Done (Some e) => e = could_not_create → n = 1%Z
  | Panicked _ => True
  end.
Proof.
  intros Hj Hf Hm Hn n.
  apply (wp_run h _ _ [] w (wp_JfsCreateVol_result j volumeID subPath m Hj Hf Hm Hn)).
Qed.
End Provider.
