(* ===== verification/Driver.v ===== *)
(** * pkg/driver: the CSI services

    The controller service keeps the map [vols] of the volumes it was asked to
    create and their sizes; the node service publishes a volume by mounting it and
    binding a directory of it at the target.  A gRPC response is [Ok], a status
    [Err]; a nil map is [None]. *)

From S2P Require Import Prelude GoStrings GoTime Kube Effects Lib Client Config Util Mount ProcessMount Juicefs.

(** ** Capabilities *)

Inductive access_mode :=
  | UNKNOWN
  | SINGLE_NODE_WRITER
  | SINGLE_NODE_READER_ONLY
  | MULTI_NODE_READER_ONLY
  | MULTI_NODE_SINGLE_WRITER
  | MULTI_NODE_MULTI_WRITER.

#[export] Instance access_mode_eq_dec : EqDecision access_mode.
Proof. solve_decision. Defined.

(** The access mode ([UNKNOWN] when absent) and the flags of a mount volume. *)
Record VolumeCapability := MkCapability {
  vc_mode : access_mode;
  vc_mount : option (list string) }.

Definition volumeCaps : list access_mode :=
  [SINGLE_NODE_WRITER; MULTI_NODE_MULTI_WRITER; MULTI_NODE_READER_ONLY].

Definition hasSupport (cap : VolumeCapability) : bool :=
  existsb (λ c, bool_decide (c = vc_mode cap)) volumeCaps.

(** The loop of [isValidVolumeCapabilities], with its flag. *)
Definition isValidVolumeCapabilities (volCaps : list VolumeCapability) : bool :=
  fold_left (λ foundAll c, if negb (hasSupport c) then false else foundAll) volCaps true.

(** ** Requests and responses *)

Record CreateVolumeRequest := MkCreateReq {
  cr_Name : string;
  cr_RequiredBytes : Z;
  cr_VolumeCapabilities : option (list VolumeCapability);
  cr_Parameters : option smap;
  cr_Secrets : option smap }.

Record Volume := MkVolume {
  vol_VolumeId : string;
  vol_CapacityBytes : Z;
  vol_VolumeContext : smap }.

Record NodePublishVolumeRequest := MkPublishReq {
  np_VolumeId : string;
  np_TargetPath : string;
  np_VolumeCapability : option VolumeCapability;
  np_Readonly : bool;
  np_VolumeContext : option smap;
  np_Secrets : option smap }.

Abbreviation vols := (gmap string Z).

Section Driver.
Context `{Lib} `{Codec} (cfg : Config) (j : juicefs).

(** ** The controller service *)

Definition CreateVolume (req : CreateVolumeRequest) (d : vols) : prog (vols * res Volume) :=
  if String.eqb (cr_Name req) "" then
    mret (d, Err (StatusErr InvalidArgument "Volume Name cannot be empty"))
  else match cr_VolumeCapabilities req with
  | None => mret (d, Err (StatusErr InvalidArgument "Volume Capabilities cannot be empty"))
  | Some _ =>
      let volumeId := cr_Name req in
      let subPath := cr_Name req in
      let requiredCap := cr_RequiredBytes req in
      let smaller := match d !! cr_Name req with
                     | Some capa => (capa <? requiredCap)%Z
                     | None => false
                     end in
      if smaller then mret (d, Err (StatusErr AlreadyExists "Volume: %q, capacity bytes: %d"))
      else
        let d := <[cr_Name req := requiredCap]> d in
        err ← JfsCreateVol cfg j volumeId subPath (cr_Secrets req);
        match err with
        | Some _ => mret (d, Err (StatusErr Internal "Could not createVol in juicefs: %v"))
        | None =>
            let volCtx := <["subPath" := subPath]> (rd (cr_Parameters req)) in
            mret (d, Ok (MkVolume volumeId requiredCap volCtx))
        end
  end.

Definition DeleteVolume (volumeID : string) (secrets : option smap) (d : vols) :
    prog (vols * res unit) :=
  if String.eqb volumeID "" then
    mret (d, Err (StatusErr InvalidArgument "Volume ID not provided"))
  else
    err ← JfsDeleteVol cfg j volumeID volumeID secrets;
    match err with
    | Some _ => mret (d, Err (StatusErr Internal "Could not delVol in juicefs: %v"))
    | None => mret (delete volumeID d, Ok tt)
    end.

(** The confirmed capabilities, if any. *)
Definition ValidateVolumeCapabilities (volumeID : string) (volCaps : list VolumeCapability)
    (d : vols) : res (option (list VolumeCapability)) :=
  if String.eqb volumeID "" then Err (StatusErr InvalidArgument "Volume ID not provided")
  else match volCaps with
  | [] => Err (StatusErr InvalidArgument "Volume capabilities not provided")
  | _ =>
      match d !! volumeID with
      | None => Err (StatusErr NotFound "Could not get volume by ID %q")
      | Some _ => Ok (if isValidVolumeCapabilities volCaps then Some volCaps else None)
      end
  end.

(** ** The node service *)

(** The options of the request as the keys of a map: the mount flags, and ["ro"]. *)
Definition publish_options (req : NodePublishVolumeRequest) (volCap : VolumeCapability) : smap :=
  let options : smap :=
    if np_Readonly req || bool_decide (vc_mode volCap = MULTI_NODE_READER_ONLY)
    then {["ro" := ""]} else ∅ in
  match vc_mount volCap with
  | Some flags => fold_left (λ m f, <[f := ""]> m) flags options
  | None => options
  end.

Definition option_text (options : smap) (k : string) : string :=
  let v := get options k in if String.eqb v "" then k else k +:+ "=" +:+ v.

(** The options passed to [JfsMount], those of the volume context first. *)
Definition mount_options (req : NodePublishVolumeRequest) (volCap : VolumeCapability) :
    prog (list string) :=
  let options := publish_options req volCap in
  let mountOptions := match rd (np_VolumeContext req) !! "mountOptions" with
                      | Some opts => Split opts ","
                      | None => []
                      end in
  ks ← range_keys options;
  mret (mountOptions ++ map (option_text options) ks).

(** Bind the volume at the target; the target is removed when that fails. *)
Definition bind_target (bindSource target : string) : prog (res unit) :=
  e ← call (EMount bindSource target "none" ["bind"]);
  match e with
  | Some _ => _ ← call (ERemove target);
              mret (Err (StatusErr Internal "Could not bind %q at %q: %v"))
  | None => mret (Ok tt)
  end.

Definition NodePublishVolume (req : NodePublishVolumeRequest) : prog (res unit) :=
  let volumeID := np_VolumeId req in
  let target := np_TargetPath req in
  if String.eqb target "" then
    mret (Err (StatusErr InvalidArgument "Target path not provided"))
  else match np_VolumeCapability req with
  | None => mret (Err (StatusErr InvalidArgument "Volume capability not provided"))
  | Some volCap =>
      if negb (isValidVolumeCapabilities [volCap]) then
        mret (Err (StatusErr InvalidArgument "Volume capability not supported"))
      else
        e ← call (EMkdirAll target 493);                           (* 0755 *)
        match e with
        | Some _ => mret (Err (StatusErr Internal "Could not create dir %q: %v"))
        | None =>
            mountOptions ← mount_options req volCap;
            r ← JfsMount cfg j volumeID target (np_Secrets req) (np_VolumeContext req) mountOptions;
            match r with
            | Err _ => mret (Err (StatusErr Internal "Could not mount juicefs: %v"))
            | Ok fs =>
                r ← CreateVol fs (get (rd (np_VolumeContext req)) "subPath");
                match r with
                | Err _ => mret (Err (StatusErr Internal "Could not create volume: %s, %v"))
                | Ok bindSource => bind_target bindSource target
                end
            end
        end
  end.

(** [None]: [JfsUnmount] needs more than [fuel] turns. *)
Definition NodeUnpublishVolume (fuel : nat) (volumeId target : string) :
    prog (option (res unit)) :=
  if String.eqb target "" then
    mret (Some (Err (StatusErr InvalidArgument "Target path not provided")))
  else
    r ← JfsUnmount cfg j fuel volumeId target;
    mret (match r with
          | None => None
          | Some (Some _) => Some (Err (StatusErr Internal "Could not lazy unmount %q: %v"))
          | Some None => Some (Ok tt)
          end).

End Driver.
