(* ===== verification/Server.v ===== *)
(** * pkg/driver: the services of the driver and its gRPC server

    Construction of the provider, the controller and the node service; the gRPC
    server with its interceptor, and the services registered with it; the answers that
    are constant, and the requests the driver does not serve.  A server of the gRPC
    library is a handle. *)

From S2P Require Import Prelude GoStrings GoTime Kube Effects Config Lib Client Endpoint Util Mount PodMount PodMountWait MountInfo Kubelet PodDriver ProcessMount Juicefs Driver.

(** ** Version *)

(** The variables the linker sets, and what the Go runtime says of itself. *)
Class Build := {
  driverVersion : string;
  gitCommit : string;
  buildDate : string;
  runtime_Version : string;
  runtime_Compiler : string;
  runtime_GOOS : string;
  runtime_GOARCH : string }.

Record VersionInfo := MkVersionInfo {
  DriverVersion : string;
  GitCommit : string;
  BuildDate : string;
  GoVersion : string;
  Compiler : string;
  Platform : string }.

Definition GetVersion `{Build} : VersionInfo :=
  MkVersionInfo driverVersion gitCommit buildDate runtime_Version runtime_Compiler
    (runtime_GOOS +:+ "/" +:+ runtime_GOARCH).

(** A character in a JSON string (those above ASCII stand for themselves). *)
Definition hex_digit (n : nat) : ascii :=
  Ascii.ascii_of_nat (if n <? 10 then 48 + n else 87 + n).

Definition quote : ascii := Ascii.ascii_of_nat 34.

Definition json_char (a : ascii) : string :=
  let n := Ascii.nat_of_ascii a in
  if n =? 34 then String "\" (String quote "")
  else if n =? 92 then "\\"
  else if n =? 10 then "\n"
  else if n =? 13 then "\r"
  else if n =? 9 then "\t"
  else if (n <? 32) || (n =? 38) || (n =? 60) || (n =? 62) then
    "\u00" +:+ String (hex_digit (n / 16)) (String (hex_digit (n mod 16)) "")
  else String a "".

Definition json_string (s : string) : string :=
  String quote (foldr (λ a r, json_char a +:+ r) "" (chars s)) +:+ String quote "".

Definition newline : string := String (Ascii.ascii_of_nat 10) "".

(** [json.MarshalIndent] of a struct of strings, indented by two blanks. *)
Definition json_struct (fields : list (string * string)) : string :=
  "{" +:+ newline +:+
  Join (map (λ kv, "  " +:+ json_string kv.1 +:+ ": " +:+ json_string kv.2) fields)
       ("," +:+ newline) +:+ newline +:+ "}".

Definition GetVersionJSON `{Build} : res string :=
  let info := GetVersion in
  Ok (json_struct [("driverVersion", DriverVersion info); ("gitCommit", GitCommit info);
                   ("buildDate", BuildDate info); ("goVersion", GoVersion info);
                   ("compiler", Compiler info); ("platform", Platform info)]).

(** ** Identity service *)

Definition DriverName : string := "csi.juicefs.com".

(** The name and the vendor's version. *)
Definition GetPluginInfo `{Build} : res (string * string) := Ok (DriverName, driverVersion).

Inductive plugin_capability := CONTROLLER_SERVICE | VOLUME_ACCESSIBILITY_CONSTRAINTS.

Definition GetPluginCapabilities : res (list plugin_capability) := Ok [CONTROLLER_SERVICE].

Definition Probe : res unit := Ok tt.

(** ** Requests that are not served, and constant answers *)

Definition unimplemented : res unit := Err (StatusErr Unimplemented "").

Inductive controller_capability := CREATE_DELETE_VOLUME.

Definition controllerCaps : list controller_capability := [CREATE_DELETE_VOLUME].

Definition ControllerGetCapabilities : res (list controller_capability) :=
  Ok (fold_left (λ caps cap, caps ++ [cap]) controllerCaps []).

Definition GetCapacity : res unit := unimplemented.
Definition ListVolumes : res unit := unimplemented.
Definition CreateSnapshot : res unit := unimplemented.
Definition DeleteSnapshot : res unit := unimplemented.
Definition ListSnapshots : res unit := unimplemented.
Definition ControllerExpandVolume : res unit := unimplemented.
Definition ControllerPublishVolume : res unit := unimplemented.
Definition ControllerUnpublishVolume : res unit := unimplemented.

Inductive node_capability := STAGE_UNSTAGE_VOLUME | GET_VOLUME_STATS | EXPAND_VOLUME.

Definition nodeCaps : list node_capability := [].

Definition NodeGetCapabilities : res (list node_capability) :=
  Ok (fold_left (λ caps cap, caps ++ [cap]) nodeCaps []).

Definition NodeStageVolume : res unit := unimplemented.
Definition NodeUnstageVolume : res unit := unimplemented.
Definition NodeExpandVolume : res unit := unimplemented.

Definition NodeGetVolumeStats : res unit :=
  Err (StatusErr Unimplemented "NodeGetVolumeStats is not implemented yet").

(** ** Construction *)

Record controllerService := MkControllerService {
  cs_juicefs : juicefs;
  cs_vols : vols }.

Record nodeService := MkNodeService {
  ns_juicefs : juicefs;
  ns_nodeID : string;
  ns_k8sClient : option Z }.

(** [d_srv] is nil until [Run] has made the server. *)
Record Driver := MkDriver {
  d_controllerService : controllerService;
  d_nodeService : nodeService;
  d_srv : option Z;
  d_endpoint : string }.

Definition with_srv (srv : Z) (d : Driver) : Driver :=
  MkDriver (d_controllerService d) (d_nodeService d) (Some srv) (d_endpoint d).

Definition NodeGetInfo (d : nodeService) : res string := Ok (ns_nodeID d).

Section Server.
Context `{Lib} (cfg : Config).

(** The mounter of mount pods is nil when the driver mounts in its own process. *)
Definition NewJfsProvider : prog (res juicefs) :=
  if ByProcess cfg then mret (Ok (MkJuicefs nil_mount ProcessMount))
  else
    r ← NewClient;
    mret (match r with
          | Err err => Err err
          | Ok _ => Ok (MkJuicefs (PodMount cfg) ProcessMount)
          end).

(** The provider, once its command answers with its version. *)
Definition checked_provider : prog juicefs :=
  r ← NewJfsProvider;
  match r with
  | Err _ => Crash "NewJfsProvider"
  | Ok jfs =>
      '(_, err) ← Version;
      match err with
      | Some _ => Crash "Version"
      | None => mret jfs
      end
  end.

Definition newControllerService : prog controllerService :=
  jfs ← checked_provider; mret (MkControllerService jfs ∅).

Definition newNodeService (nodeID : string) : prog (res nodeService) :=
  jfsProvider ← checked_provider;
  if ByProcess cfg then mret (Ok (MkNodeService jfsProvider nodeID None))
  else
    r ← NewClient;
    mret (match r with
          | Err err => Err err
          | Ok k8sClient => Ok (MkNodeService jfsProvider nodeID (Some k8sClient))
          end).

Definition NewDriver (endpoint nodeID : string) : prog (res Driver) :=
  cs ← newControllerService;
  r ← newNodeService nodeID;
  mret (match r with
        | Err err => Err err
        | Ok ns => Ok (MkDriver cs ns None endpoint)
        end).

(** The interceptor of every request: it logs errors. *)
Definition logErr {Req Resp} (handler : Req → prog (res Resp)) (req : Req) : prog (res Resp) :=
  r ← handler req; mret r.

(** [Run] of the driver: the server's end, or the error before it. *)
Definition Serve (d : Driver) : prog (Driver * option error) :=
  r ← ParseEndpoint (d_endpoint d);
  match r with
  | Err err => mret (d, Some err)
  | Ok (scheme, addr) =>
      r ← call (EListen scheme addr);
      match r with
      | Err err => mret (d, Some err)
      | Ok listener =>
          srv ← call EGrpcServer;
          let d := with_srv srv d in
          call (EGrpcRegister srv IdentityServer) ;;
          call (EGrpcRegister srv ControllerServer) ;;
          call (EGrpcRegister srv NodeServer) ;;
          err ← call (EServe srv listener);
          mret (d, err)
      end
  end.

Definition Stop (d : Driver) : prog unit :=
  match d_srv d with
  | None => Crash "nil pointer dereference"
  | Some srv => call (EGrpcStop srv)
  end.

(** ** [StartReconciler] *)

(** The goroutine it starts, given as its first [n] turns for every [n]. *)
Definition StartReconciler : prog (res (nat → prog mountInfoTable)) :=
  match Atoi (KubeletPort cfg) with
  | None => mret (Err (Errorf "strconv.Atoi: parsing %q: %v"))
  | Some port =>
      r ← newKubeletClient (HostIp cfg) port;
      match r with
      | Err err => mret (Err err)
      | Ok kc =>
          r ← NewClient;
          mret (match r with
                | Err err => Err err
                | Ok _ => Ok (λ n, doReconcile cfg kc n newMountInfoTable)
                end)
      end
  end.
End Server.
