(* ===== verification/Main.v ===== *)
(** * cmd/main.go: flags, environment and start of the driver

    [init] sets the package variables of pkg/config from the flags and, unless the
    driver runs juicefs in its own process, from the environment and the driver's own
    pod; [main] starts the reconciler and the server.  The parsed flags are an
    argument.  [os.Exit] and [klog.Fatalln], which exits with status 255, end a
    program with [Exit]. *)

From S2P Require Import Prelude GoStrings GoTime Kube Effects Config Lib Client Endpoint Util Mount PodMount PodMountWait MountInfo Kubelet PodDriver ProcessMount Juicefs Driver Server.

Record Flags := MkFlags {
  f_endpoint : string;
  f_version : bool;
  f_nodeID : string;
  f_enableManager : bool;
  f_reconcilerInterval : Z;
  f_formatInPod : bool;
  f_process : bool }.

Definition default_flags : Flags := MkFlags "unix://tmp/csi.sock" false "" false 5 false false.

Definition empty_pod : pod :=
  Pod (ObjMeta "" "" "" "" ∅ None [] None [])
      (PodSpec [] [] [] "" "" "" "" (PodEnv false false false "" "" "" "" "" "")) empty_status.

(** The initial values of the package variables. *)
Definition initial_config : Config :=
  MkConfig false false false "" "" "" "" "" "" "" empty_pod
    "/var/lib/juicefs/volume" "/var/lib/juicefs/config" "system-node-critical" 5.

(** The end of the process, or the value to go on with. *)
Inductive exiting (A : Type) := Exit (status : Z) | Going (a : A).
Arguments Exit {A} status.
Arguments Going {A} a.

Definition fatal : Z := 255.

Section Main.
Context `{Lib} `{Build}.

(** ** [init] *)

(** The variables set from the environment. *)
Definition env_config (enableManager formatInPod : bool) (interval : Z) : prog Config :=
  nodeName ← Getenv "NODE_NAME";
  namespace ← Getenv "JUICEFS_MOUNT_NAMESPACE";
  podName ← Getenv "POD_NAME";
  mountPointPath ← Getenv "JUICEFS_MOUNT_PATH";
  jfsConfigPath ← Getenv "JUICEFS_CONFIG_PATH";
  mountLabels ← Getenv "JUICEFS_MOUNT_LABELS";
  hostIp ← Getenv "HOST_IP";
  kubeletPort ← Getenv "KUBELET_PORT";
  jfsMountPriorityName ← Getenv "JUICEFS_MOUNT_PRIORITY_NAME";
  mret (MkConfig false enableManager formatInPod nodeName namespace podName "" mountLabels
          hostIp kubeletPort empty_pod mountPointPath jfsConfigPath
          (if negb (String.eqb jfsMountPriorityName "") then jfsMountPriorityName
           else JFSMountPriorityName initial_config)
          interval).

(** [config.CSIPod] and [config.MountImage]. *)
Definition with_own_pod (p : pod) (image : string) (cfg : Config) : Config :=
  MkConfig (ByProcess cfg) (EnableManager cfg) (FormatInPod cfg) (NodeName cfg) (Namespace cfg)
    (PodName cfg) image (MountLabels cfg) (HostIp cfg) (KubeletPort cfg) p (MountPointPath cfg)
    (JFSConfigPath cfg) (JFSMountPriorityName cfg) (ReconcilerInterval cfg).

Definition is_plugin (c : container) : bool := String.eqb (c_name c) "juicefs-plugin".

(** The image and the resources of mount pods are those of the driver's container. *)
Definition own_pod (cfg : Config) : prog (exiting Config) :=
  r ← NewClient;
  match r with
  | Err _ => mret (Exit 0)
  | Ok _ =>
      r ← GetPod (PodName cfg) (Namespace cfg);
      match r with
      | Err _ => mret (Exit 0)
      | Ok p =>
          match find is_plugin (ps_containers (p_spec p)) with
          | None => mret (Exit 0)
          | Some c =>
              call (EResourcesSet (c_resources c)) ;;
              mret (Going (with_own_pod p (c_image c) cfg))
          end
      end
  end.

Definition init (f : Flags) : prog (exiting Config) :=
  if f_process f then
    mret (Going (MkConfig true false false "" "" "" "" "" "" "" empty_pod
                   (MountPointPath initial_config) (JFSConfigPath initial_config)
                   (JFSMountPriorityName initial_config) (ReconcilerInterval initial_config)))
  else
    let interval := f_reconcilerInterval f in
    cfg ← env_config (f_enableManager f) (f_formatInPod f)
            (if (interval <? 5)%Z then 5%Z else interval);
    if String.eqb (PodName cfg) "" || String.eqb (Namespace cfg) "" then mret (Exit fatal)
    else own_pod cfg.

(** ** [main] *)

(** What runs when the driver is up: the reconciler's goroutine, if any, and the
    server. *)
Record running := MkRunning {
  r_reconciler : option (nat → prog mountInfoTable);
  r_driver : Driver }.

Definition start_driver (cfg : Config) (f : Flags) : prog (exiting running) :=
  if f_version f then
    match GetVersionJSON with
    | Err _ => mret (Exit fatal)
    | Ok info => call (EPrint (info +:+ newline)) ;; mret (Exit 0)
    end
  else if String.eqb (f_nodeID f) "" then mret (Exit fatal)
  else
    r ← (if EnableManager cfg && negb (String.eqb (KubeletPort cfg) "") &&
            negb (String.eqb (HostIp cfg) "")
         then r ← StartReconciler cfg;
              mret (match r with Err _ => Exit 1 | Ok g => Going (Some g) end)
         else mret (Going None));
    match r with
    | Exit status => mret (Exit status)
    | Going g =>
        r ← NewDriver cfg (f_endpoint f) (f_nodeID f);
        mret (match r with
              | Err _ => Exit fatal
              | Ok drv => Going (MkRunning g drv)
              end)
    end.

(** The status of the process. *)
Definition main (f : Flags) : prog Z :=
  r ← init f;
  match r with
  | Exit status => mret status
  | Going cfg =>
      r ← start_driver cfg f;
      match r with
      | Exit status => mret status
      | Going run =>
          '(_, err) ← Serve (r_driver run);
          mret (match err with Some _ => fatal | None => 0%Z end)
      end
  end.
End Main.
