(* ===== verification/MainProps.v ===== *)
(** * Properties of the start of the driver

    The configuration [init] leaves is well-formed; where its values come from; the
    exit status of the failures on the way; what is registered before the server serves. *)

From S2P Require Import Prelude GoStrings GoTime Kube Effects Config Lib Client Store Endpoint Util Mount PodMount PodMountWait MountInfo Kubelet PodDriver ProcessMount Juicefs Driver Server Main.

Section Main.
Context `{Lib} `{Build}.

(** ** The configuration *)

(** The mode and the settings that go with it. *)
Definition wf_config (f : Flags) (cfg : Config) : Prop :=
  JFSMountPriorityName cfg ≠ "" ∧ (5 ≤ ReconcilerInterval cfg)%Z ∧
  if f_process f then
    ByProcess cfg = true ∧ EnableManager cfg = false ∧ FormatInPod cfg = false
  else
    ByProcess cfg = false ∧ EnableManager cfg = f_enableManager f ∧
    FormatInPod cfg = f_formatInPod f ∧ PodName cfg ≠ "" ∧ Namespace cfg ≠ "" ∧
    ReconcilerInterval cfg = Z.max 5 (f_reconcilerInterval f) ∧
    ∃ c, c ∈ ps_containers (p_spec (CSIPod cfg)) ∧ c_name c = "juicefs-plugin" ∧
         MountImage cfg = c_image c.

(** Before the driver's own pod is read. *)
Definition wf_env (f : Flags) (cfg : Config) : Prop :=
  JFSMountPriorityName cfg ≠ "" ∧ ByProcess cfg = false ∧
  EnableManager cfg = f_enableManager f ∧ FormatInPod cfg = f_formatInPod f ∧
  ReconcilerInterval cfg = Z.max 5 (f_reconcilerInterval f).

Lemma wp_env_config f τ :
  wp (env_config (f_enableManager f) (f_formatInPod f)
        (if (f_reconcilerInterval f <? 5)%Z then 5%Z else f_reconcilerInterval f))
     (λ o _, ∃ cfg, o = Done cfg ∧ wf_env f cfg) τ.
Proof.
  unfold env_config, Getenv. prog_simpl. intros. eexists. split; [done|]. unfold wf_env. simpl.
  split_and!; [|done..|].
  - destruct (String.eqb_spec (default "" x7) ""); done.
  - destruct (Z.ltb_spec (f_reconcilerInterval f) 5); lia.
Qed.

Lemma find_plugin l c : find is_plugin l = Some c → c ∈ l ∧ c_name c = "juicefs-plugin".
Proof.
  intros [Hin Hc]%find_some. split; [by apply list_elem_of_In|by apply String.eqb_eq].
Qed.

Lemma wp_own_pod cfg (Q : outcome (exiting Config) → trace → Prop) τ :
  (∀ p c τ', c ∈ ps_containers (p_spec p) → c_name c = "juicefs-plugin" →
     Q (Done (Going (with_own_pod p (c_image c) cfg))) τ') →
  (∀ τ', Q (Done (Exit 0)) τ') →
  wp (own_pod cfg) Q τ.
Proof.
  intros Hgo Hexit. unfold own_pod. apply wp_bind.
  eapply (wp_mono _ (λ o _, ∃ r, o = Done r)).
  - intros o τ' [[c|e] ->]; [|apply Hexit].
    apply wp_call. intros [p|err]; [|apply Hexit].
    destruct (find _ _) as [c'|] eqn:Hf; [|apply Hexit]. apply find_plugin in Hf as [??].
    apply wp_call. intros []. by apply Hgo.
  - unfold NewClient. apply wp_call. intros [[config|]|e]; [|by eexists..].
    intros r. by eexists.
Qed.

(** C24: whatever the flags, the environment and the API server: [init] leaves a
    well-formed configuration or ends the process, with status 0 or 255.  In process,
    there is no manager and no mount pod; otherwise the driver's pod and namespace
    are known, the reconciler waits at least five seconds, and mount pods run the
    image of the container juicefs-plugin of the driver's own pod. *)
Theorem init_well_formed {W} (h : handler W) w f :
  match result_of h (init f) w with
  | Done (Going cfg) => wf_config f cfg
  | Done (Exit status) => status = 0%Z ∨ status = fatal
  | Panicked _ => False
  end.
Proof.
  apply (wp_adequate h _ (λ o _, match o with
    | Done (Going cfg) => wf_config f cfg
    | Done (Exit status) => status = 0%Z ∨ status = fatal
    | Panicked _ => False
    end)).
  unfold init. destruct (f_process f) eqn:Hp; cbv zeta.
  { simpl. unfold wf_config. by rewrite Hp. }
  apply wp_bind. eapply wp_mono; [|apply wp_env_config].
  intros o τ' (cfg & -> & Hpri & Hby & Hen & Hfm & Hi).
  destruct (_ || _) eqn:E; [by right|].
  apply orb_false_iff in E as [E1%String.eqb_neq E2%String.eqb_neq].
  apply wp_own_pod; [|by left]. intros p c τ2 Hc Hn. unfold wf_config. rewrite Hp. simpl.
  split; [done|]. split; [lia|]. split_and!; try done. eauto.
Qed.

(** ** Where the values come from *)

(** The environment variables of the process. *)
Definition env_answers {W} (h : handler W) (e : string → option string) : Prop :=
  ∀ name, env_is h name (e name).

Lemma exec_env_config {W} (h : handler W) e en fm i w :
  env_answers h e →
  let v name := default "" (e name) in
  ∃ w', exec h (env_config en fm i) w =
    (Done (MkConfig false en fm (v "NODE_NAME") (v "JUICEFS_MOUNT_NAMESPACE") (v "POD_NAME") ""
             (v "JUICEFS_MOUNT_LABELS") (v "HOST_IP") (v "KUBELET_PORT") empty_pod
             (v "JUICEFS_MOUNT_PATH") (v "JUICEFS_CONFIG_PATH")
             (if negb (String.eqb (v "JUICEFS_MOUNT_PRIORITY_NAME") "")
              then v "JUICEFS_MOUNT_PRIORITY_NAME" else "system-node-critical") i), w').
Proof.
  intros He v. unfold env_config.
  repeat (rewrite exec_bind;
    match goal with |- context [exec h (Getenv ?n) ?w] =>
      destruct (exec_getenv h n _ w (He n)) as (? & ->) end).
  by eexists.
Qed.

(** The driver's own pod only sets the pod and the image. *)
Lemma own_pod_config {W} (h : handler W) cfg cfg' w w' :
  exec h (own_pod cfg) w = (Done (Going cfg'), w') → ∃ p image, cfg' = with_own_pod p image cfg.
Proof.
  intros Hr.
  assert (wp (own_pod cfg) (λ o _, match o with
    | Done (Going c) => ∃ p image, c = with_own_pod p image cfg | _ => True end) []) as Hq.
  { apply wp_own_pod; [|done]. intros p c _ _ _. by exists p, (c_image c). }
  apply (wp_adequate h _ _ w) in Hq. unfold exec in Hr. injection Hr as Hr _. by rewrite Hr in Hq.
Qed.

(** With mount pods, the paths of volumes and configurations are what the
    environment says: when a variable is not set the path is empty, and the value
    the variable of pkg/config was declared with is lost. *)
Theorem init_paths {W} (h : handler W) e f cfg w w' :
  env_answers h e → f_process f = false →
  exec h (init f) w = (Done (Going cfg), w') →
  MountPointPath cfg = default "" (e "JUICEFS_MOUNT_PATH") ∧
  JFSConfigPath cfg = default "" (e "JUICEFS_CONFIG_PATH") ∧
  NodeName cfg = default "" (e "NODE_NAME") ∧
  PodName cfg = default "" (e "POD_NAME") ∧
  Namespace cfg = default "" (e "JUICEFS_MOUNT_NAMESPACE").
Proof.
  intros He Hp. unfold init. rewrite Hp. cbv zeta. rewrite exec_bind.
  match goal with |- context [exec h (env_config ?a ?b ?i) w] =>
    destruct (exec_env_config h e a b i w He) as (w1 & ->) end.
  destruct (_ || _); [done|]. intros Hr. apply own_pod_config in Hr as (p & image & ->). done.
Qed.

(** ** Exit status *)

(** Without a pod's name or namespace. *)
Lemma exec_init_fatal {W} (h : handler W) e f w :
  env_answers h e → f_process f = false →
  default "" (e "POD_NAME") = "" ∨ default "" (e "JUICEFS_MOUNT_NAMESPACE") = "" →
  ∃ w', exec h (init f) w = (Done (Exit fatal), w').
Proof.
  intros He Hp Hn. unfold init. rewrite Hp. cbv zeta. rewrite exec_bind.
  match goal with |- context [exec h (env_config ?a ?b ?i) w] =>
    destruct (exec_env_config h e a b i w He) as (w1 & ->) end.
  exists w1. simpl PodName. simpl Namespace. destruct Hn as [-> | ->]; [done|].
  by rewrite orb_true_r.
Qed.

(** Outside a pod of the cluster the driver does not print its version: [init] comes
    first, and it ends the process with status 255 before [main] looks at the flag. *)
Theorem version_needs_pod {W} (h : handler W) e f w :
  env_answers h e → f_process f = false → f_version f = true → e "POD_NAME" = None →
  ∃ w', exec h (main f) w = (Done fatal, w').
Proof.
  intros He Hp _ Hn. destruct (exec_init_fatal h e f w He Hp) as (w1 & Hi); [left; by rewrite Hn|].
  exists w1. unfold main. by rewrite exec_bind, Hi.
Qed.

(** The driver's own pod cannot be read: no client, no pod, or no container of that
    name in it. *)
Definition own_pod_lost (ev : event) : Prop :=
  match ev with
  | @Ev X e x =>
      match e in eff X return X → Prop with
      | EPodGet _ _ => λ r, match r with
          | Ok p => find is_plugin (ps_containers (p_spec p)) = None
          | Err _ => True
          end
      | _ => λ _, True
      end x
  end.

Lemma wp_own_pod_lost cfg τ :
  wp (own_pod cfg) (λ o τ', Forall own_pod_lost τ' → o = Done (Exit 0)) τ.
Proof.
  unfold own_pod. apply wp_bind. eapply (wp_mono _ (λ o _, ∃ r, o = Done r)).
  - intros o τ' [[c|e] ->]; [|done]. apply wp_call. intros [p|err]; [|done].
    destruct (find _ _) as [c'|] eqn:Hf; [|done].
    eapply wp_mono; [|apply (wp_refuted own_pod_lost _ (λ o _, o = Done (Exit 0)))]; [done|].
    apply not_Forall_snoc. simpl. congruence.
  - unfold NewClient. apply wp_call. intros [[config|]|e]; [|by eexists..]. intros r. by eexists.
Qed.

(** C39: when the driver cannot learn of its own pod (the API server does not answer,
    the pod is not there or has no container juicefs-plugin) the process ends with
    status 0, as if all had gone well. *)
Theorem main_exits_zero {W} (h : handler W) e f w :
  env_answers h e → f_process f = false →
  default "" (e "POD_NAME") ≠ "" → default "" (e "JUICEFS_MOUNT_NAMESPACE") ≠ "" →
  (∀ X (e : eff X) w, own_pod_lost (Ev e (h X e w).1)) →
  ∃ w', exec h (main f) w = (Done 0%Z, w').
Proof.
  intros He Hp Hpod Hns Hlost. unfold main, init. rewrite Hp. cbv zeta. rewrite !exec_bind.
  match goal with |- context [exec h (env_config ?a ?b ?i) w] =>
    destruct (exec_env_config h e a b i w He) as (w1 & ->) end.
  simpl PodName. simpl Namespace.
  rewrite (proj2 (String.eqb_neq _ _) Hpod), (proj2 (String.eqb_neq _ _) Hns). cbn [orb].
  match goal with |- context [exec h (own_pod ?c) w1] =>
    pose proof (wp_adequate h _ _ w1 (wp_own_pod_lost c [])) as Hq; specialize (Hq ltac:(by apply trace_answers)) end.
  unfold exec at 1. rewrite Hq. by eexists.
Qed.

(** ** The server *)

(** A server on the listener of the endpoint, with the three services. *)
Definition served (d : Driver) (o : outcome (Driver * option error)) (τ : trace) : Prop :=
  ∃ τ0 scheme addr listener srv err,
    endpoint_ok (d_endpoint d) (Done (Ok (scheme, addr))) τ0 ∧
    τ = τ0 ++ [Ev (EListen scheme addr) (Ok listener); Ev EGrpcServer srv;
               Ev (EGrpcRegister srv IdentityServer) tt;
               Ev (EGrpcRegister srv ControllerServer) tt;
               Ev (EGrpcRegister srv NodeServer) tt;
               Ev (EServe srv listener) err] ∧
    o = Done (with_srv srv d, err).

(** No server: there is no address, or it cannot be listened on. *)
Definition not_served (d : Driver) (o : outcome (Driver * option error)) (τ : trace) : Prop :=
  (∃ err, o = Done (d, Some err)) ∧
  ((∃ e, endpoint_ok (d_endpoint d) (Done (Err e)) τ) ∨
   ∃ τ0 scheme addr e, endpoint_ok (d_endpoint d) (Done (Ok (scheme, addr))) τ0 ∧
     τ = τ0 ++ [Ev (EListen scheme addr) (Err e)]).

Lemma wp_Serve d : wp (Serve d) (λ o τ, served d o τ ∨ not_served d o τ) [].
Proof.
  unfold Serve. apply wp_bind.
  eapply wp_mono; [|apply wp_ParseEndpoint].
  intros [[[scheme addr]|e]|why] τ0 Hep; [| |done].
  2: { right. split; [by eexists|]. left. by eexists. }
  apply wp_call. intros [listener|e].
  2: { right. split; [by eexists|]. right. by eexists _, _, _, _. }
  apply wp_call. intros srv. do 3 (apply wp_call; intros []). apply wp_call. intros err.
  left. exists τ0, scheme, addr, listener, srv, err. split; [done|].
  split; [by rewrite <-!(assoc_L (++))|done].
Qed.

End Main.
