(* ===== verification/DriverProps.v ===== *)
(** * Properties of the CSI services

    Publishing binds the volume last and only once everything else succeeded; the
    controller's map of volumes; mutexes of every CSI operation. *)

From S2P Require Import Prelude GoStrings GoTime Kube Effects Lib Client Config Util Mount ProcessMount Juicefs JuicefsProps Driver.

(** ** Capabilities *)

Lemma hasSupport_spec cap : hasSupport cap = true ↔ vc_mode cap ∈ volumeCaps.
Proof.
  unfold hasSupport. rewrite existsb_exists. setoid_rewrite bool_decide_eq_true.
  setoid_rewrite <- list_elem_of_In. naive_solver.
Qed.

Lemma valid_fold l b :
  fold_left (λ foundAll c, if negb (hasSupport c) then false else foundAll) l b =
  b && forallb hasSupport l.
Proof.
  revert b. induction l as [|c l IH]; intros b; simpl; [by rewrite andb_true_r|].
  rewrite IH. destruct (hasSupport c); simpl; [done|by rewrite andb_false_r].
Qed.

(** [isValidVolumeCapabilities] accepts exactly the lists of capabilities whose
    access modes are all supported. *)
Lemma isValidVolumeCapabilities_spec l :
  isValidVolumeCapabilities l = true ↔ Forall (λ c, vc_mode c ∈ volumeCaps) l.
Proof.
  unfold isValidVolumeCapabilities. rewrite valid_fold. simpl.
  rewrite forallb_forall, Forall_forall. setoid_rewrite <- list_elem_of_In.
  by setoid_rewrite hasSupport_spec.
Qed.

Section Driver.
Context `{Lib} `{Codec} (cfg : Config) (j : juicefs).

(** ** [NodePublishVolume] *)

(** The trace ends with the accepted bind of [src] at the target. *)
Definition bound (src target : string) (τ : trace) : Prop :=
  ∃ τ0, τ = τ0 ++ [Ev (EMount src target "none" ["bind"]) None].

(** The trace ends with the refused bind and the removal of the target. *)
Definition bind_undone (target : string) (τ : trace) : Prop :=
  ∃ τ0 src err r, τ = τ0 ++ [Ev (EMount src target "none" ["bind"]) (Some err);
                              Ev (ERemove target) r].

(** A directory is made at the path of the volume, or is there. *)
Lemma wp_CreateVol_path fs subPath τ :
  wp (CreateVol fs subPath) (λ o _, match o with
    | Done (Ok p) => p = PathJoin [jfs_MountPath fs; subPath]
    | Done (Err _) => True
    | Panicked _ => False
    end) τ.
Proof.
  unfold CreateVol. apply wp_call. intros [e [err|]]; [done|]. destruct e; [done|].
  unfold make_volume_dir. apply wp_bind, wp_call. intros [err|]; [done|].
  apply wp_call. intros [fi|err]; [|done]. destruct (_ =? _)%Z; [done|].
  apply wp_call. by intros [err|].
Qed.

Definition publish_outcome (req : NodePublishVolumeRequest) (m : smap)
    (o : outcome (res unit)) (τ : trace) : Prop :=
  match o with
  | Done (Ok tt) =>
      (∃ cap, np_VolumeCapability req = Some cap ∧ vc_mode cap ∈ volumeCaps) ∧
      bound (PathJoin [PathJoin [if ByProcess cfg then MountBase else PodMountBase;
                                 np_VolumeId req];
                       get (rd (np_VolumeContext req)) "subPath"]) (np_TargetPath req) τ
  | Done (Err (StatusErr InvalidArgument _)) => τ = []
  | Done (Err (StatusErr Internal fmt)) =>
      fmt = "Could not bind %q at %q: %v" → bind_undone (np_TargetPath req) τ
  | Done (Err _) => False
  | Panicked _ => True
  end.

Lemma wp_NodePublishVolume `{MntLaws (podMount j)} `{MntLaws (processMount j)} req m :
  np_Secrets req = Some m →
  wp (NodePublishVolume cfg j req) (publish_outcome req m) [].
Proof.
  intros Hm. unfold NodePublishVolume. destruct (String.eqb _ ""); [done|].
  destruct (np_VolumeCapability req) as [cap|] eqn:Hcap; [|done].
  unfold isValidVolumeCapabilities. rewrite valid_fold. simpl forallb. cbn [andb].
  rewrite andb_true_r. destruct (hasSupport cap) eqn:Hs; [|done]. cbn [negb].
  apply hasSupport_spec in Hs.
  apply wp_call. intros [e|]; [done|].
  apply wp_bind, wp_any. intros [opts|w] τ1; [|done].
  rewrite Hm. apply wp_bind. eapply wp_mono; [|apply wp_JfsMount]; [|done..].
  intros [[fs|err]|w] τ2; [|done|done]. intros (Hp & _).
  apply wp_bind. eapply wp_mono; [|apply wp_CreateVol_path].
  intros [[src|err]|w] τ3; [|done|done]. intros ->. rewrite Hp.
  unfold bind_target. apply wp_call. intros [err|].
  - apply wp_call. intros r _. exists τ3, (PathJoin [PathJoin [if ByProcess cfg then MountBase else PodMountBase;
                                 np_VolumeId req];
                       get (rd (np_VolumeContext req)) "subPath"]), err, r.
    by rewrite <- app_assoc.
  - simpl. split; [by exists cap|]. by exists τ3.
Qed.

(** C15: [NodePublishVolume] answers success only for a supported capability and with
    the bind of the volume's directory at the target as its last, accepted request;
    an invalid request has no effect; when the bind is refused the target is
    removed. *)
Theorem NodePublishVolume_outcome {W} (h : handler W) w
    `{MntLaws (podMount j)} `{MntLaws (processMount j)} req m :
  np_Secrets req = Some m →
  publish_outcome req m (result_of h (NodePublishVolume cfg j req) w)
                        (trace_of h (NodePublishVolume cfg j req) w).
Proof. intros Hm. apply (wp_run h _ _ [] w (wp_NodePublishVolume req m Hm)). Qed.

(** ** The controller's map of volumes *)

(** What [CreateVolume] does to the map, and answers, by the result of
    [JfsCreateVol]. *)
Definition created (req : CreateVolumeRequest) (d : vols) (r : option error) :
    vols * res Volume :=
  (<[cr_Name req := cr_RequiredBytes req]> d,
   match r with
   | Some _ => Err (StatusErr Internal "Could not createVol in juicefs: %v")
   | None => Ok (MkVolume (cr_Name req) (cr_RequiredBytes req)
                   (<["subPath" := cr_Name req]> (rd (cr_Parameters req))))
   end).

(** Is the request refused before any effect? *)
Definition create_refusal (req : CreateVolumeRequest) (d : vols) : option error :=
  if String.eqb (cr_Name req) "" then
    Some (StatusErr InvalidArgument "Volume Name cannot be empty")
  else match cr_VolumeCapabilities req with
  | None => Some (StatusErr InvalidArgument "Volume Capabilities cannot be empty")
  | Some _ =>
      match d !! cr_Name req with
      | Some capa =>
          if (capa <? cr_RequiredBytes req)%Z
          then Some (StatusErr AlreadyExists "Volume: %q, capacity bytes: %d") else None
      | None => None
      end
  end.


(** After a creation that failed, the controller claims to know the volume: its
    capabilities validate although nothing was created, where before they were
    refused as of an unknown volume. *)
Theorem CreateVolume_failed_validates {W} (h : handler W) req d w w' err c caps :
  cr_Name req ≠ "" → cr_VolumeCapabilities req = Some (c :: caps) →
  isValidVolumeCapabilities (c :: caps) = true → d !! cr_Name req = None →
  exec h (JfsCreateVol cfg j (cr_Name req) (cr_Name req) (cr_Secrets req)) w =
    (Done (Some err), w') →
  ∃ d' e e', exec h (CreateVolume cfg j req d) w = (Done (d', Err e), w') ∧
    ValidateVolumeCapabilities (cr_Name req) (c :: caps) d = Err e' ∧
    ValidateVolumeCapabilities (cr_Name req) (c :: caps) d' = Ok (Some (c :: caps)).
Proof.
  intros Hn Hc Hv Hd He. apply String.eqb_neq in Hn.
  unfold CreateVolume, ValidateVolumeCapabilities. rewrite Hn, Hc, Hd, exec_bind, He.
  do 3 eexists. split; [done|]. split; [done|]. by rewrite lookup_insert_eq, Hv.
Qed.

(** [DeleteVolume] forgets the volume only when the file system deleted it. *)
Lemma DeleteVolume_spec {W} (h : handler W) id secrets d w :
  id ≠ "" →
  exec h (DeleteVolume cfg j id secrets d) w =
  match exec h (JfsDeleteVol cfg j id id secrets) w with
  | (Done None, w') => (Done (delete id d, Ok tt), w')
  | (Done (Some _), w') =>
      (Done (d, Err (StatusErr Internal "Could not delVol in juicefs: %v")), w')
  | (Panicked why, w') => (Panicked why, w')
  end.
Proof.
  intros Hid. unfold DeleteVolume. rewrite (proj2 (String.eqb_neq id "") Hid), exec_bind.
  by destruct (exec h _ w) as [[[err|]|why] w'].
Qed.

(** ** Mutexes of the CSI operations *)

Lemma lock_free_getSettings volumeID target secrets volCtx options :
  lock_free (getSettings cfg volumeID target secrets volCtx options).
Proof. by apply avoids_getSettings. Qed.

Lemma lock_free_CreateVol fs subPath : lock_free (CreateVol fs subPath).
Proof. unfold CreateVol, make_volume_dir. avoids. Qed.

Lemma lock_free_DeleteVol fs id secrets : lock_free (DeleteVol fs id secrets).
Proof. unfold DeleteVol, RmrDir. avoids. Qed.

Hint Resolve lock_free_getSettings lock_free_CreateVol lock_free_DeleteVol : jfs.

Section Laws.
Context `{MntLaws (podMount j)} `{MntLaws (processMount j)}.

Lemma one_lock_with_mounted s secrets what work :
  (∀ fs, lock_free (work fs)) → one_lock (with_mounted j s secrets what work).
Proof.
  intros Hw. unfold with_mounted. one_lock; apply JMount_one_lock.
Qed.

Lemma one_lock_umount_all n path : lock_free (umount_all n path).
Proof. induction n as [|n IH]; [done|]. cbn [umount_all]. avoids. Qed.

Lemma one_lock_JfsMount id target secrets volCtx options :
  one_lock (JfsMount cfg j id target secrets volCtx options).
Proof.
  unfold JfsMount, MountFs. apply one_lock_bind; [auto with jfs|].
  intros [secrets' [s|e]]; [|by apply one_lock_free].
  apply one_lock_bind; [|intros; by apply one_lock_free].
  destruct (js_UsePod s); (apply one_lock_bind; [apply JMount_one_lock|]);
    intros [e s']; by apply one_lock_free.
Qed.

(** Every CSI operation takes mutexes one at a time and releases them all, whichever
    mounters are used, as long as these do. *)
Lemma one_lock_CreateVolume req d : one_lock (CreateVolume cfg j req d).
Proof.
  unfold CreateVolume, JfsCreateVol. one_lock; try apply JCreateVolume_one_lock.
  apply one_lock_with_mounted. intros fs. pose proof (lock_free_CreateVol fs (cr_Name req)).
  avoids.
Qed.

Lemma one_lock_DeleteVolume id secrets d : one_lock (DeleteVolume cfg j id secrets d).
Proof.
  unfold DeleteVolume, JfsDeleteVol. one_lock; try apply JDeleteVolume_one_lock.
  apply one_lock_with_mounted. intros fs. apply lock_free_DeleteVol.
Qed.

Lemma one_lock_NodePublishVolume req : one_lock (NodePublishVolume cfg j req).
Proof.
  unfold NodePublishVolume, mount_options, range_keys, bind_target.
  one_lock; try apply one_lock_JfsMount; apply one_lock_free; avoids.
Qed.

Lemma one_lock_NodeUnpublishVolume fuel id target :
  one_lock (NodeUnpublishVolume cfg j fuel id target).
Proof.
  unfold NodeUnpublishVolume, JfsUnmount, JfsCleanupMountPoint.
  one_lock; try apply JUmount_one_lock; apply one_lock_free, one_lock_umount_all.
Qed.

(** The same of their runs. *)
Theorem csi_operations_mutexes {W} (h : handler W) w req preq d id secrets fuel target :
  disciplined (trace_of h (CreateVolume cfg j req d) w) ∧
  disciplined (trace_of h (DeleteVolume cfg j id secrets d) w) ∧
  disciplined (trace_of h (NodePublishVolume cfg j preq) w) ∧
  disciplined (trace_of h (NodeUnpublishVolume cfg j fuel id target) w).
Proof.
  split_and!; apply one_lock_run;
    [apply one_lock_CreateVolume|apply one_lock_DeleteVolume|apply one_lock_NodePublishVolume
    |apply one_lock_NodeUnpublishVolume].
Qed.
End Laws.
End Driver.
