(* ===== verification/Races.v ===== *)
(** * The driver's goroutines and the mount pods they share

    Publishing and unpublishing volumes, and the reconciler, read and write the same
    mount pods; the mutex of the pod's name ([GetPodLock]) is what keeps them apart.
    Here they run in a pool, over any API server that answers a read with what it
    stores, and next to others that leave the annotations of pods alone.  A thread
    that holds the mutex of a pod knows its annotations from its last read; hence
    [JUmount] deletes only a pod that has no reference at that moment. *)

From stdpp Require Import relations.
From S2P Require Import Prelude GoStrings GoHash GoTime Kube Effects Threads Config Lib Client Store Util Builder Mount PodMount PodMountSafety PodMountWait MountInfo Kubelet PodDriver ProcessMount Juicefs JuicefsProps Driver DriverProps.

(** ** Who may write a pod *)

Definition lock_of (podName : string) : Z := (fnv32a podName mod 1024)%Z.

(** The pod a request writes (the API server refuses an object of another namespace
    than the one it is sent to). *)
Definition written {X : Set} (e : eff X) : option (string * string) :=
  match e with
  | EPodCreate _ p | EPodUpdate _ p => Some (p_namespace p, p_name p)
  | EPodDelete ns n | EPodPatch ns n _ => Some (ns, n)
  | _ => None
  end.

Definition locked_write (τ : trace) (X : Set) (e : eff X) : Prop :=
  ∀ key, written e = Some key → lock_of key.2 ∈ held τ.

(** What the thread has read last of the pod [key], since it took the pod's mutex
    and wrote it last. *)
Definition known_step (key : string * string) (o : option pod) (ev : event) : option pod :=
  match ev with
  | @Ev X e x =>
      if decide (written e = Some key) then None
      else match e in eff X return X → option pod with
           | EPodGet ns n => λ r,
               if decide ((ns, n) = key) then match r with Ok p => Some p | Err _ => None end
               else o
           | ELock i | EUnlock i => λ _, if decide (i = lock_of key.2) then None else o
           | _ => λ _, o
           end x
  end.

Definition known (key : string * string) (τ : trace) : option pod :=
  fold_left (known_step key) τ None.

Lemma known_snoc key τ ev : known key (τ ++ [ev]) = known_step key (known key τ) ev.
Proof. unfold known. by rewrite fold_left_app. Qed.

(** ** The API server, and the others *)

Class PodServer {W} (h : handler W) (pods : W → podmap) : Prop := {
  server_get ns n w p w' : h _ (EPodGet ns n) w = (Ok p, w') →
    pods w !! (ns, n) = Some p ∧ p_namespace p = ns ∧ p_name p = n;
  server_keeps (X : Set) (e : eff X) w key :
    written e ≠ Some key → pods (h X e w).2 !! key = pods w !! key }.

(** An API server that may fail, but does to a pod what was asked for or nothing; a
    request may take effect although its answer is lost. *)
Class PodWriter {W} (h : handler W) (pods : W → podmap) : Prop := {
  writer_server :: PodServer h pods;
  writer_missing ns n w e w' : h _ (EPodGet ns n) w = (Err e, w') → IsNotFound e = true →
    pods w !! (ns, n) = None;
  writer_create p w r w' : h _ (EPodCreate (p_namespace p) p) w = (r, w') →
    let key := (p_namespace p, p_name p) in
    pods w' !! key = pods w !! key ∧ (∀ q, r ≠ Ok q) ∨
    pods w !! key = None ∧
      ∃ q, pods w' !! key = Some q ∧ stored p q ∧ p_deletionTimestamp q = None;
  writer_update p w r w' : h _ (EPodUpdate (p_namespace p) p) w = (r, w') →
    let key := (p_namespace p, p_name p) in
    pods w' !! key = pods w !! key ∧ (∀ q, r ≠ Ok q) ∨
    ∃ old, pods w !! key = Some old ∧
      ((∃ q, pods w' !! key = Some q ∧ stored p q ∧ is_deleted q = is_deleted old) ∨
       finalized old p ∧ pods w' !! key = None);
  writer_delete ns n w r w' : h _ (EPodDelete ns n) w = (r, w') →
    pods w' !! (ns, n) = pods w !! (ns, n) ∨ pods w' !! (ns, n) = None ∨
    ∃ old q, pods w !! (ns, n) = Some old ∧ pods w' !! (ns, n) = Some q ∧
      stored old q ∧ is_deleted q = true }.

(** Only the driver creates mount pods and writes their annotations. *)
Definition leaves_annotations {W} (pods : W → podmap) (env : W → W → Prop) : Prop :=
  ∀ w w' key q', env w w' → pods w' !! key = Some q' →
    ∃ q, pods w !! key = Some q ∧ annots q' = annots q.

(** A read answers with the pod of that name. *)
Definition named (ev : event) : Prop :=
  match ev with
  | @Ev X e x =>
      match e in eff X return X → Prop with
      | EPodGet ns n => λ r, ∀ p, r = Ok p → p_namespace p = ns ∧ p_name p = n
      | _ => λ _, True
      end x
  end.

#[export] Instance memory_server : PodServer memory (λ w, filed (w_pods w)).
Proof.
  split.
  - intros ns n w p w' [= Hp _]. destruct (filed (w_pods w) !! (ns, n)) eqn:E; [|done].
    injection Hp as ->. split; [done|]. by eapply (store_names (h := memory)).
  - intros X e w key Hk. destruct e; simpl in *; try done;
      (destruct (filed (w_pods w) !! _) as [old|] eqn:Hold;
       [|done || by rewrite filed_write, lookup_insert_ne by congruence]).
    + done.
    + destruct (_ && _); [done|]. destruct (p_deletionTimestamp old), (p_finalizers p);
        first [by rewrite filed_write, lookup_insert_ne by congruence
              |simpl; by rewrite filed_delete, lookup_delete_ne by congruence].
    + destruct (store_names (h := memory) (pods := λ w, filed (w_pods w)) _ _ _ _ Hold) as [<- <-]. destruct (p_finalizers old); simpl.
      * by rewrite filed_delete, lookup_delete_ne by congruence.
      * by rewrite (filed_insert (admitted _ _ _ old)), lookup_insert_ne by (intros <-; by destruct Hk).
Qed.

#[export] Instance memory_writer : PodWriter memory (λ w, filed (w_pods w)).
Proof.
  split; [apply _|..].
  - intros ns n w e w' [= Hp _] _. by destruct (filed (w_pods w) !! (ns, n)).
  - intros p w r w' He key. simpl in He. unfold key.
    destruct (filed (w_pods w) !! (p_namespace p, p_name p)) as [old|] eqn:Hp;
      injection He as <- <-; [left; by rewrite Hp|right].
    split; [done|]. eexists. split; [apply filed_written|by split].
  - intros p w r w' He key. simpl in He. unfold key.
    destruct (filed (w_pods w) !! (p_namespace p, p_name p)) as [old|] eqn:Hp;
      [|injection He as <- <-; left; by rewrite Hp].
    destruct (negb _ && negb _); [injection He as <- <-; left; by rewrite Hp|].
    right. exists old. split; [done|]. unfold is_deleted.
    destruct (p_deletionTimestamp old) as [d|] eqn:Hd, (p_finalizers p) eqn:Hf;
      injection He as <- <-;
      [right; split; [by split; [rewrite Hd|]|simpl; by rewrite filed_delete, lookup_delete_eq]|left..];
      (eexists; split; [apply filed_written|]; split; [done|]; by rewrite ?Hd).
  - intros ns n w r w' He. simpl in He.
    destruct (filed (w_pods w) !! (ns, n)) as [old|] eqn:Hp; [|injection He as <- <-; left; by rewrite Hp].
    destruct (store_names (h := memory) (pods := λ w, filed (w_pods w)) _ _ _ _ Hp) as [Hns Hn].
    right. destruct (p_finalizers old); injection He as <- <-.
    + left. simpl. by rewrite filed_delete, lookup_delete_eq.
    + right. do 2 eexists. split; [done|]. rewrite <- Hns, <- Hn. split; [apply filed_written|by split].
Qed.

(** ** What a thread knows under the mutex is what is stored *)

Section Races.
Context {W : Type} (h : handler W) (pods : W → podmap) `{!PodServer h pods}
  (env : W → W → Prop) (Henv : leaves_annotations pods env).

Definition knows (s : system W) : Prop :=
  ∀ n t key p q, sys_threads s !! n = Some t → lock_of key.2 ∈ held (t_trace t) →
    known key (t_trace t) = Some p → pods (sys_world s) !! key = Some q → annots q = annots p.

(** Every thread writes a pod only under its mutex. *)
Definition lawful (t : thread) : Prop :=
  safe named locked_write (t_prog t) (λ _ _, True) (t_trace t).

Lemma named_answer (X : Set) (e : eff X) w : named (Ev e (h X e w).1).
Proof.
  destruct e; simpl; try exact I. intros p Hp.
  destruct (h _ (EPodGet ns name) w) as [r w'] eqn:E. simpl in Hp. subst r.
  by destruct (server_get _ _ _ _ _ E) as [_ ?].
Qed.

Lemma lawful_step τ (X : Set) (e : eff X) (k : X → prog unit) w :
  lawful (Thread τ (Vis e k)) → lawful (Thread (τ ++ [Ev e (h X e w).1]) (k (h X e w).1)).
Proof. intros [_ Ht]. apply Ht, named_answer. Qed.

(** A step of the thread itself: what it knows comes from the store as it is, or was
    known before. *)
Lemma known_own τ (X : Set) (e : eff X) w w' x key p :
  h X e w = (x, w') → lock_of key.2 ∈ held (τ ++ [Ev e x]) →
  known key (τ ++ [Ev e x]) = Some p →
  pods w' !! key = pods w !! key ∧
  (pods w !! key = Some p ∨ lock_of key.2 ∈ held τ ∧ known key τ = Some p).
Proof.
  intros Hh Hheld Hk. rewrite known_snoc in Hk. rewrite held_snoc in Hheld. simpl in Hk.
  destruct (decide (written e = Some key)) as [|Hw]; [done|]. split.
  { pose proof (server_keeps X e w key Hw) as Hkeep. by rewrite Hh in Hkeep. }
  destruct e; simpl in *; try (right; by split).
  - case_decide; [|right; by split]. subst key. destruct x as [q|]; [|done].
    injection Hk as ->. left. by destruct (server_get _ _ _ _ _ Hh) as [? _].
  - case_decide; [done|]. right. split; [|done].
    apply elem_of_cons in Hheld as [E|?]; [by destruct H|done].
  - case_decide; [done|]. right. split; [|done].
    by apply list_elem_of_filter in Hheld as [_ ?].
Qed.

Lemma knows_step s s' :
  step h env s s' → Forall lawful (sys_threads s) → exclusive (sys_threads s) →
  knows s → knows s'.
Proof.
  intros [s1 s2 [w ts n τ X e k x w' Hn He Hh]|w w' ts Hw] Hl Hex Hkn m t key p q Hm Hheld Hk Hq;
    simpl in *.
  - destruct (decide (n = m)) as [<-|Hnm].
    + rewrite list_lookup_insert_eq in Hm by by eapply lookup_lt_Some. injection Hm as <-.
      simpl in *. destruct (known_own τ X e w w' x key p Hh Hheld Hk) as [Hkeep Hor].
      rewrite Hkeep in Hq. destruct Hor as [Hp|[Hh' Hk']]; [congruence|].
      by eapply (Hkn n (Thread τ (Vis e k))).
    + rewrite list_lookup_insert_ne in Hm by done.
      destruct (decide (written e = Some key)) as [Hwr|Hwr].
      * destruct (Forall_lookup_1 _ _ _ _ Hl Hn) as [Hlock _]. simpl in Hlock.
        destruct Hnm. by eapply (Hex n m (Thread τ (Vis e k)) t); [..|apply (Hlock key Hwr)|].
      * pose proof (server_keeps X e w key Hwr) as Hkeep. rewrite Hh in Hkeep. simpl in Hkeep.
        rewrite Hkeep in Hq. by eapply Hkn.
  - destruct (Henv w w' key q Hw Hq) as (q0 & Hq0 & ->). by eapply Hkn.
Qed.

Lemma start_knows w ps : knows (start w ps).
Proof.
  intros n t key p q Hn Hheld _ _. simpl in Hn. apply list_lookup_fmap_Some in Hn as (? & -> & _).
  by apply elem_of_nil in Hheld.
Qed.

Lemma reachable_knows w ps s :
  Forall (λ p, lawful (Thread [] p)) ps → reachable h env w ps s → knows s.
Proof.
  intros Hps Hs.
  enough (Forall lawful (sys_threads s) ∧ exclusive (sys_threads s) ∧ knows s) by tauto.
  revert s Hs. apply rtc_ind_r.
  - split_and!; [by apply Forall_fmap|apply start_exclusive|apply start_knows].
  - intros s1 s2 Hr Hs (Hl & Hex & Hkn). split_and!.
    + by eapply (step_threads h env lawful); [apply lawful_step| |].
    + eapply (reachable_exclusive h env w ps s2). by eapply rtc_r.
    + by eapply knows_step.
Qed.
End Races.
