(* ===== verification/RaceProps.v ===== *)
(** * Publishing, unpublishing and the reconciler side by side

    The CSI operations and the reconciler's work on a pod, as threads of a pool:
    every one writes the pods of one name only, under that name's mutex ([tidy]);
    and an unmount deletes only a pod it knows to have no reference ([cautious]).
    By the invariant [knows] of [Races] the pod has none in the API server either. *)

From stdpp Require Import relations.
From S2P Require Import Prelude GoStrings GoHash GoTime Kube Effects Threads Config Lib Client Store Util Builder Mount PodMount PodMountSafety PodMountWait MountInfo Kubelet PodDriver PodDriverRecover Refs ProcessMount Juicefs JuicefsProps Driver Server DriverProps Races.

(** ** One pod under its mutex *)

(** No mutex, and pods of the name [n] only. *)
Definition touches (n : string) (X : Set) (e : eff X) : Prop :=
  is_lock X e = false ∧ ∀ key, written e = Some key → key.2 = n.

Abbreviation only n := (asks named (touches n)).

Definition tidy {A} (t : prog A) : Prop :=
  ∀ τ, held τ = [] → safe named locked_write t (λ _ τ', held τ' = []) τ.

(** A deletion is of a pod the thread knows to have no reference. *)
Definition deletes_unreferenced (τ : trace) (X : Set) (e : eff X) : Prop :=
  match e with
  | EPodDelete ns n => ∃ p, known (ns, n) τ = Some p ∧ HasRef p = false
  | _ => True
  end.

Definition cautious {A} (t : prog A) : Prop :=
  ∀ τ, safe named deletes_unreferenced t (λ _ _, True) τ.

Definition is_delete : eff_class := λ X e,
  match e with EPodDelete _ _ => true | _ => false end.

Definition is_loud : eff_class := λ X e, is_lock X e || is_pod_write X e.

Abbreviation quiet := (avoids is_loud).

Lemma held_quiet τ (X : Set) (e : eff X) x :
  is_lock X e = false → held (τ ++ [Ev e x]) = held τ.
Proof. rewrite held_snoc. by destruct e. Qed.

Lemma safe_only {A} n (t : prog A) R τ :
  only n t R → held τ = [lock_of n] →
  safe named locked_write t (λ a τ', R a ∧ held τ' = [lock_of n]) τ.
Proof.
  revert τ. induction t as [a|s|X e k IH]; intros τ; simpl; [done..|].
  intros [[He Hn] Hk] Hh. split.
  - intros key Hw. rewrite (Hn key Hw), Hh. by apply list_elem_of_singleton.
  - intros x Hx. apply IH; [by apply Hk|]. by rewrite held_quiet.
Qed.

Lemma tidy_with_pod_lock {A} n (t : prog A) R : only n t R → tidy (with_pod_lock n t).
Proof.
  intros Ht τ Hh. rewrite with_pod_lock_eq. apply safe_with_lock; [done..|].
  eapply safe_mono; [|apply (safe_only n t R); [done|]].
  - intros a τ' [_ Hh']. rewrite held_snoc, Hh'. simpl. rewrite filter_cons_False by auto. done.
  - rewrite held_snoc, Hh. done.
Qed.

Lemma tidy_bind {A B} (t : prog A) (f : A → prog B) :
  tidy t → (∀ a, tidy (f a)) → tidy (t ≫= f).
Proof. intros Ht Hf τ Hτ. eapply safe_bind_2; [by apply Ht|]. intros a τ'. apply Hf. Qed.

Lemma tidy_quiet {A} (t : prog A) : quiet t → tidy t.
Proof.
  intros Ht τ. revert τ. induction t as [a|s|X e k IH]; intros τ Hh; simpl; [done..|].
  destruct Ht as [[Hl Hw]%orb_false_iff Hk]. split.
  - intros key Hkey. by destruct e.
  - intros x _. apply IH; [apply Hk|]. by rewrite held_quiet.
Qed.

Lemma cautious_bind {A B} (t : prog A) (f : A → prog B) :
  cautious t → (∀ a, cautious (f a)) → cautious (t ≫= f).
Proof. intros Ht Hf τ. eapply safe_bind_2; [by apply Ht|]. intros a τ' _. apply Hf. Qed.

Lemma cautious_no_delete {A} (t : prog A) : avoids is_delete t → cautious t.
Proof.
  intros Ht τ. revert τ. induction t as [a|s|X e k IH]; intros τ; simpl; [done..|].
  destruct Ht as [He Hk]. split; [by destruct e|]. intros x _. apply IH, Hk.
Qed.

Lemma quiet_no_write {A} (t : prog A) : quiet t → avoids is_pod_write t.
Proof. apply avoids_mono. intros X e He. unfold is_loud. by rewrite He, orb_true_r. Qed.

Lemma quiet_no_delete {A} (t : prog A) : quiet t → avoids is_delete t.
Proof. apply avoids_mono. intros X e He. unfold is_loud. by destruct e. Qed.

Lemma safe_and {A} ans (P P' : request_spec) (t : prog A) (R R' : A → trace → Prop) τ :
  safe ans P t R τ → safe ans P' t R' τ →
  safe ans (λ τ X e, P τ X e ∧ P' τ X e) t (λ a τ', R a τ' ∧ R' a τ') τ.
Proof. revert τ. induction t as [a|s|X e k IH]; intros τ; simpl; naive_solver. Qed.

(** ** What [JMount] and [JUmount] write *)

Section Mounts.
Context `{LibLaws} (cfg : Config).

Lemma only_mono {A} n (t : prog A) (R R' : A → Prop) :
  (∀ a, R a → R' a) → only n t R → only n t R'.
Proof. apply asks_mono. Qed.

Lemma only_quiet {A} n (t : prog A) : quiet t → only n t (λ _, True).
Proof.
  apply asks_avoids. intros X e [Hl Hw]%orb_false_iff. split; [done|]. intros key. by destruct e.
Qed.

Lemma only_get {A} n m ns (f : res pod → prog A) R :
  (∀ p, p_name p = m → p_namespace p = ns → only n (f (Ok p)) R) →
  (∀ e, only n (f (Err e)) R) → only n (GetPod m ns ≫= f) R.
Proof.
  intros Hok Herr. apply asks_call; [by split|]. intros [p|e] Hn; [|done].
  destruct (Hn p eq_refl). by apply Hok.
Qed.

Lemma only_bind {A B} n (t : prog A) (f : A → prog B) R :
  only n t (λ _, True) → (∀ a, only n (f a) R) → only n (t ≫= f) R.
Proof. intros Ht Hf. by eapply asks_bind_2; [apply Ht|]. Qed.

Lemma only_update n p : p_name p = n → only n (UpdatePod (Some p)) (λ _, True).
Proof. intros Hp. split; [split; [done|]; by intros key [= <-]|done]. Qed.

Lemma only_delete n p : p_name p = n → only n (DeletePod (Some p)) (λ _, True).
Proof. intros Hp. split; [split; [done|]; by intros key [= <-]|done]. Qed.

Lemma only_create n p : p_name p = n → only n (CreatePod (Some p)) (λ _, True).
Proof. intros Hp. split; [split; [done|]; by intros key [= <-]|done]. Qed.

Lemma only_attempts n k (fn : prog (option error)) :
  only n fn (λ _, True) → only n (attempts k fn) (λ _, True).
Proof.
  intros Hfn. induction k as [|k IH]; simpl; [done|]. apply asks_bind.
  eapply only_mono; [|done]. intros [e|] _; simpl; [|done]. by destruct (IsConflict e).
Qed.

Lemma only_retry n (fn : prog (option error)) :
  only n fn (λ _, True) → only n (RetryOnConflict fn) (λ _, True).
Proof. rewrite retry_attempts. apply only_attempts. Qed.

Lemma quiet_secret sec : quiet (createOrUpdateSecret cfg sec).
Proof. by apply avoids_secret. Qed.

(** [ShouldDelay] returns the pod, marked or not. *)
Lemma only_ShouldDelay p : only (p_name p) (ShouldDelay p) (λ r, p_name r.1.1 = p_name p).
Proof.
  unfold ShouldDelay. destruct (annots p !! DeleteDelayTimeKey) as [d|]; [|done].
  destruct (annots p !! DeleteDelayAtKey) as [at_|].
  - destruct (GetTime at_); [|done]. apply asks_call; [by split|done].
  - unfold GetTimeAfterDelay. destruct (ParseDuration d); [|done].
    split; [by split|]. intros now _.
    split; [split; [done|]; by intros key [= <-]|]. by intros [r|e].
Qed.

Lemma only_JUmount_body name ns key :
  only name (RetryOnConflict (remove_ref_attempt key name ns)) (λ _, True) ∧
  only name (RetryOnConflict (delete_attempt name ns)) (λ _, True).
Proof.
  split; apply only_retry.
  - apply only_get; [|done]. intros p Hn _. destruct (annots p !! key); [|done].
    by apply only_update.
  - apply only_get; [|intros e; by destruct (IsNotFound e)]. intros p Hn _.
    destruct (HasRef p); [done|]. eapply asks_bind_2; [rewrite <- Hn; apply only_ShouldDelay|].
    intros [[q sd] [err|]] Hq; [done|]. destruct sd; [done|].
    apply only_delete. simpl in Hq. congruence.
Qed.
Lemma tidy_JUmount volumeId target : tidy (JUmount cfg volumeId target).
Proof.
  apply (tidy_with_pod_lock _ _ (λ _, True)). apply only_get; [|intros e; by destruct (IsNotFound e)].
  intros p Hn _. rewrite Hn.
  destruct (only_JUmount_body (GenerateNameByVolumeId cfg volumeId) (p_namespace p)
              (GetReferenceKey target)) as [Hr Hd].
  apply only_bind; [exact Hr|]. intros [e|]; [done|].
  apply only_get; [|intros e; by destruct (IsNotFound e)].
  intros q _ _. by destruct (HasRef q).
Qed.

Lemma quiet_new_mount_pod s name : quiet (new_mount_pod cfg s name).
Proof. unfold new_mount_pod, range_keys. avoids. Qed.

(** The pod of [new_mount_pod] has the name it was asked for. *)
Lemma only_new_mount_pod s name : only name (new_mount_pod cfg s name) (λ p, p_name p = name).
Proof.
  unfold new_mount_pod, range_keys. apply asks_call; [by split|]. intros g _.
  apply asks_bind, asks_bind, asks_call; [by split|]. intros l _. simpl.
  destruct (NewMountPod _ _ _ _ _) as [[p g']|] eqn:E; [|done].
  apply asks_call; [by split|]. intros _ _. by eapply NewMountPod_fields in E as [? _].
Qed.

Lemma only_create_with_ref s sec name : only name (create_with_ref cfg s sec name) (λ _, True).
Proof.
  eapply asks_bind_2; [apply only_new_mount_pod|]. intros p Hp.
  apply only_bind; [by apply only_create|]. intros [[po|]|e]; [|done..].
  apply only_bind; [apply only_quiet, quiet_secret|]. by intros [e|].
Qed.

Lemma only_AddRefOfMount target name : only name (AddRefOfMount cfg target name) (λ _, True).
Proof.
  apply only_retry, only_get; [|done]. intros p Hp _.
  destruct (p_deletionTimestamp p); [done|]. destruct (annots p !! _); [done|].
  by apply only_update.
Qed.

Lemma tidy_createOrAddRef s : tidy (createOrAddRef cfg s).
Proof.
  unfold createOrAddRef. apply (tidy_with_pod_lock _ _ (λ _, True)), asks_for_n; [|done].
  apply only_get.
  - intros p _ _. destruct (p_deletionTimestamp p); [by split|].
    apply only_bind; [apply only_quiet, quiet_secret|]. intros [e|]; [done|].
    by apply only_bind; [apply only_AddRefOfMount|].
  - intros e. destruct (IsNotFound e); [|done].
    by apply only_bind; [apply only_create_with_ref|].
Qed.

Lemma tidy_JMount s : tidy (JMount cfg s).
Proof.
  apply tidy_bind; [apply tidy_createOrAddRef|]. intros [[e|] s']; [by apply tidy_quiet|].
  apply tidy_bind; [|intros; by apply tidy_quiet]. apply tidy_quiet.
  unfold waitUtilPodReady, getErrContainerLog, container_log, GetPod, GetPodLog. avoids.
Qed.

Lemma no_delete_JMount s : avoids is_delete (JMount cfg s).
Proof.
  unfold JMount, createOrAddRef, create_with_ref. rewrite with_pod_lock_eq.
  apply avoids_bind.
  - apply avoids_with_lock; [done..|]. unfold new_mount_pod, range_keys, GetPod, CreatePod. avoids;
      first [by apply avoids_secret|by apply avoids_add_ref].
  - unfold waitUtilPodReady, getErrContainerLog, container_log, GetPod, GetPodLog. avoids.
Qed.

(** ** The work of the reconciler on a pod *)

Lemma tidy_checkAnnotations mit p : tidy (checkAnnotations mit p).
Proof.
  apply (tidy_with_pod_lock _ _ (λ _, True)).
  cbv zeta. generalize (if existTargets mit (annots p) =? 0 then kept_annotations mit (annots p)
    else delete DeleteDelayAtKey (kept_annotations mit (annots p))). intros kept.
  apply (asks_bind_2 _ _ _ _ (λ r, p_name r.1 = p_name p)).
  { destruct (size _ =? size _); [done|]. by apply only_bind; [apply only_update|]. }
  intros [q [err|]] Hq; [done|]. simpl in Hq.
  destruct (_ && _); [|done]. rewrite <- Hq.
  eapply asks_bind_2; [apply only_ShouldDelay|]. intros [[q' sd] [err|]] Hq'; [done|].
  destruct sd; [done|]. by apply only_bind; [apply only_delete|].
Qed.

Lemma tidy_podErrorHandler po : tidy (podErrorHandler po).
Proof.
  destruct po as [p|]; [|by apply tidy_quiet]. apply (tidy_with_pod_lock _ _ (λ _, True)).
  destruct (_ && _); [|done].
  apply only_bind; [by apply only_update|]. intros [e|]; [done|].
  apply only_bind; [by apply only_delete|]. intros [e|]; [done|].
  apply only_bind.
  { apply only_quiet. unfold wait_deleted, GetPod. avoids. }
  intros [|]; [|done]. by apply only_bind; [apply only_create|].
Qed.

(** ** An unmount deletes only what it knows to be unreferenced *)

Lemma safe_GetPod ns n A (f : res pod → prog A) τ :
  (∀ p τ', p_name p = n → p_namespace p = ns → known (ns, n) τ' = Some p →
     safe named deletes_unreferenced (f (Ok p)) (λ _ _, True) τ') →
  (∀ e, cautious (f (Err e))) →
  safe named deletes_unreferenced (GetPod n ns ≫= f) (λ _ _, True) τ.
Proof.
  intros Hok Herr. apply safe_call; [done|]. intros [p|e] Hn; [|apply Herr].
  destruct (Hn p eq_refl). apply Hok; [done..|]. rewrite known_snoc. simpl.
  by rewrite decide_True.
Qed.

Lemma cautious_delete_attempt name ns : cautious (delete_attempt name ns).
Proof.
  intros τ. apply safe_GetPod; [|intros e; apply cautious_no_delete; by destruct (IsNotFound e)].
  intros p τ' Hn Hns Hk. destruct (HasRef p) eqn:Hr; [done|].
  apply safe_bind_2 with (R0 := λ r τ2, r.1.2 = true ∨ r.2 ≠ None ∨
    r.1.1 = p ∧ known (ns, name) τ2 = Some p).
  - unfold ShouldDelay. destruct (annots p !! DeleteDelayTimeKey) as [d|]; [|simpl; eauto].
    destruct (annots p !! DeleteDelayAtKey) as [at_|].
    + destruct (GetTime at_); [|simpl; eauto]. apply safe_call; [done|]. intros now _. simpl.
      right. right. split; [done|]. by rewrite known_snoc.
    + unfold GetTimeAfterDelay. destruct (ParseDuration d); [|simpl; eauto].
      simpl. split; [done|]. intros now _. split; [done|]. intros [r|e] _; simpl; eauto.
  - intros [[q sd] [err|]] τ2 Hq; [done|]. destruct sd; [done|].
    destruct Hq as [|[|[Hq Hk2]]]; [done..|]. simpl in Hq. subst q.
    split; [|done]. simpl. rewrite Hn, Hns. eauto.
Qed.

Lemma cautious_retry fn : cautious fn → cautious (RetryOnConflict fn).
Proof.
  intros Hfn. rewrite retry_attempts. induction retry_steps as [|k IH]; [done|].
  apply cautious_bind; [done|]. intros [e|]; [|done]. by destruct (IsConflict e).
Qed.

Lemma cautious_with_pod_lock {A} name (t : prog A) : cautious t → cautious (with_pod_lock name t).
Proof. intros Ht τ. rewrite with_pod_lock_eq. by apply safe_with_lock. Qed.

Lemma cautious_JUmount volumeId target : cautious (JUmount cfg volumeId target).
Proof.
  apply cautious_with_pod_lock, cautious_bind; [by apply cautious_no_delete|].
  intros [p|e]; [|by destruct (IsNotFound e)].
  apply cautious_bind.
  { apply cautious_retry, cautious_no_delete. unfold remove_ref_attempt, GetPod, UpdatePod. avoids. }
  intros [e|]; [done|]. apply cautious_bind; [by apply cautious_no_delete|].
  intros [q|e]; [|by destruct (IsNotFound e)].
  destruct (HasRef q); [done|]. apply cautious_retry, cautious_delete_attempt.
Qed.
End Mounts.

(** ** The CSI operations *)

Section Operations.
Context `{LibLaws} `{Codec} (cfg : Config).

(** The provider of [NewJfsProvider], with an API client. *)
Definition provider : juicefs := MkJuicefs (PodMount cfg) ProcessMount.

Lemma provider_made {W} (h : handler W) j w w' :
  ByProcess cfg = false → exec h (NewJfsProvider cfg) w = (Done (Ok j), w') → j = provider.
Proof.
  intros Hb. unfold NewJfsProvider. rewrite Hb, exec_bind.
  destruct (exec h NewClient w) as [[[c|e]|why] w1]; [|done..]. by intros [= <- _].
Qed.

Lemma quiet_settings id target secrets volCtx options :
  quiet (getSettings cfg id target secrets volCtx options).
Proof. by apply avoids_getSettings. Qed.

Lemma quiet_umount_all n path : quiet (umount_all n path).
Proof. induction n as [|n IH]; [done|]. cbn [umount_all]. avoids. Qed.

Lemma quiet_process_JMount s : quiet (process_JMount s).
Proof. unfold process_JMount, wait_mounted, unmount_stale, make_mount_dir. avoids. Qed.

Lemma quiet_process_JUmount id target : quiet (process_JUmount id target).
Proof. unfold process_JUmount, unmount_refs, GetMountDeviceRefs, searchMountPoints. avoids. Qed.

Lemma quiet_run_job jb s : quiet (run_job cfg jb s).
Proof.
  unfold run_job, CreateJob, GetJob, DeleteJob. avoids; try by apply quiet_secret.
  all: unfold waitUtilJobCompleted, GetJob, ListPod, getNotCompleteCnLog, container_log,
    GetPod, GetPodLog; avoids.
Qed.

(** What every CSI operation is. *)
Definition fair {A} (t : prog A) : Prop := tidy t ∧ cautious t.

Lemma fair_bind {A B} (t : prog A) (f : A → prog B) : fair t → (∀ a, fair (f a)) → fair (t ≫= f).
Proof.
  intros [Ht Hc] Hf. split; [apply tidy_bind; [done|]|apply cautious_bind; [done|]];
    intros a; apply Hf.
Qed.

Lemma fair_quiet {A} (t : prog A) : quiet t → fair t.
Proof. intros Ht. split; [by apply tidy_quiet|by apply cautious_no_delete, quiet_no_delete]. Qed.

Lemma fair_JMount s : fair (JMount cfg s).
Proof. split; [apply tidy_JMount|apply cautious_no_delete, no_delete_JMount]. Qed.

Lemma fair_JUmount volumeId target : fair (JUmount cfg volumeId target).
Proof. split; [apply tidy_JUmount|apply cautious_JUmount]. Qed.

Hint Resolve fair_quiet fair_JMount fair_JUmount quiet_settings quiet_umount_all
  quiet_process_JMount quiet_process_JUmount quiet_run_job : jfs.

Local Ltac fair := repeat first
  [ progress intros
  | match goal with
    | |- fair (mbind _ _) => apply fair_bind
    | |- fair (match ?x with _ => _ end) => destruct x
    | |- fair (call _) => apply fair_quiet; solve [avoids]
    | |- fair (mret _) => apply fair_quiet; exact I
    end
  | solve [eauto with jfs] ].

Lemma fair_MountFs s : fair (MountFs provider s).
Proof.
  unfold MountFs. destruct (js_UsePod s); simpl; fair.
Qed.

Hint Resolve fair_MountFs : jfs.

Lemma fair_JfsMount id target secrets volCtx options :
  fair (JfsMount cfg provider id target secrets volCtx options).
Proof. unfold JfsMount. fair. Qed.

Lemma fair_with_mounted s secrets what work :
  (∀ fs, fair (work fs)) → fair (with_mounted provider s secrets what work).
Proof.
  intros Hw. unfold with_mounted. cbn [provider processMount mnt_JMount ProcessMount]. fair.
Qed.

Hint Resolve fair_JfsMount : jfs.

(** The work of a goroutine of the driver: requests one after the other. *)
Inductive csi_op :=
  | OpCreate (req : CreateVolumeRequest) (d : vols)
  | OpDelete (id : string) (secrets : option smap) (d : vols)
  | OpPublish (req : NodePublishVolumeRequest)
  | OpUnpublish (fuel : nat) (id target : string).

Definition csi_prog (o : csi_op) : prog unit :=
  match o with
  | OpCreate req d => _ ← CreateVolume cfg provider req d; mret tt
  | OpDelete id secrets d => _ ← DeleteVolume cfg provider id secrets d; mret tt
  | OpPublish req => _ ← NodePublishVolume cfg provider req; mret tt
  | OpUnpublish fuel id target => _ ← NodeUnpublishVolume cfg provider fuel id target; mret tt
  end.

Lemma fair_csi o : fair (csi_prog o).
Proof.
  destruct o; simpl; (apply fair_bind; [|intros; by apply fair_quiet]).
  - unfold CreateVolume, JfsCreateVol. cbn [provider podMount mnt_JCreateVolume PodMount].
    unfold JCreateVolume, range_keys. fair. apply fair_with_mounted. intros fs.
    unfold CreateVol, make_volume_dir. fair.
  - unfold DeleteVolume, JfsDeleteVol. cbn [provider podMount mnt_JDeleteVolume PodMount].
    unfold JDeleteVolume, range_keys. fair. apply fair_with_mounted. intros fs.
    unfold DeleteVol, RmrDir. fair.
  - unfold NodePublishVolume, mount_options, range_keys, bind_target, CreateVol, make_volume_dir.
    fair.
  - unfold NodeUnpublishVolume, JfsUnmount, JfsCleanupMountPoint.
    cbn [provider podMount processMount mnt_JUmount PodMount ProcessMount]. fair.
Qed.

(** A goroutine that serves CSI requests one after the other, and one that does the
    reconciler's work on pods. *)
Definition csi_goroutine (os : list csi_op) : prog unit := for_each os csi_prog.

Inductive pod_op := OpCheck (mit : mountInfoTable) (p : pod) | OpRepair (po : option pod).

Definition pod_prog (o : pod_op) : prog unit :=
  match o with
  | OpCheck mit p => _ ← checkAnnotations mit p; mret tt
  | OpRepair po => _ ← podErrorHandler po; mret tt
  end.

Definition pod_goroutine (os : list pod_op) : prog unit := for_each os pod_prog.

Definition goroutines (gs : list (list csi_op)) (rs : list (list pod_op)) : list (prog unit) :=
  (csi_goroutine <$> gs) ++ (pod_goroutine <$> rs).

Lemma fair_csi_goroutine os : fair (csi_goroutine os).
Proof.
  induction os as [|o os IH]; [by apply fair_quiet|].
  apply fair_bind; [apply fair_csi|]. intros []. exact IH.
Qed.

Lemma tidy_pod_goroutine os : tidy (pod_goroutine os).
Proof.
  induction os as [|o os IH]; [by apply tidy_quiet|].
  apply tidy_bind; [|by intros []].
  destruct o; (apply tidy_bind; [|intros; by apply tidy_quiet]);
    [apply tidy_checkAnnotations|apply tidy_podErrorHandler].
Qed.

Lemma lawful_tidy p : tidy p → lawful (Thread [] p).
Proof. intros Hp. eapply safe_mono; [|by apply Hp]. done. Qed.

Lemma goroutines_lawful gs rs : Forall (λ p, lawful (Thread [] p)) (goroutines gs rs).
Proof.
  apply Forall_app. split; apply Forall_fmap, Forall_true; intros os; apply lawful_tidy.
  - apply fair_csi_goroutine.
  - apply tidy_pod_goroutine.
Qed.

(** ** Deletion and references *)

Definition about_to_delete (ns name : string) (t : thread) : Prop :=
  match t_prog t with
  | @Vis _ X e _ => match e with EPodDelete ns' name' => ns' = ns ∧ name' = name | _ => False end
  | _ => False
  end.

Lemma HasRef_annots p q : annots p = annots q → HasRef p = HasRef q.
Proof. unfold HasRef. by intros ->. Qed.


(** ** Every schedule ends *)

Lemma one_lock_csi o : one_lock (csi_prog o).
Proof.
  destruct o; simpl; (apply one_lock_bind; [|intros; by apply one_lock_free]).
  - by apply one_lock_CreateVolume; apply _.
  - by apply one_lock_DeleteVolume; apply _.
  - by apply one_lock_NodePublishVolume; apply _.
  - by apply one_lock_NodeUnpublishVolume; apply _.
Qed.

Lemma one_lock_csi_goroutine os : one_lock (csi_goroutine os).
Proof.
  induction os as [|o os IH]; [by apply one_lock_free|].
  apply one_lock_bind; [apply one_lock_csi|]. intros []. exact IH.
Qed.

(** The driver of a node: CSI requests in any number of goroutines, and [n] turns of the
    reconciler. *)
Definition driver_threads (gs : list (list csi_op)) (kc : kubeletClient) (n : nat)
    (mit : mountInfoTable) : list (prog unit) :=
  (_ ← doReconcile cfg kc n mit; mret tt) :: (csi_goroutine <$> gs).

End Operations.
