(* ===== verification/Published.v ===== *)
(** * The targets of a node and the references that keep their mount pods

    Publishing binds the volume at the target after it has recorded the target's
    reference on the mount pod; unpublishing takes every mount off the target before
    it removes the reference.  The requests run side by side, each in a goroutine, over
    an API server that may fail ([PodWriter]) and a node whose mount points change only
    as the kernel says ([MountHost]).  In the logic of [Interference] a goroutine
    relies on the others for the mount pods whose mutex it holds and for the targets it
    serves; so in every schedule a mounted target is a reference of a live mount pod. *)

From stdpp Require Import relations.
From S2P Require Import Prelude GoStrings GoHash GoTime Kube Effects Threads Interference Config Lib Client Store Util Builder Mount PodMount PodMountSafety PodMountWait MountInfo Kubelet PodDriver Refs PodDriverSafety ProcessMount Juicefs JuicefsProps Driver DriverProps Races RaceProps.

(** ** The mount points of the node *)

Definition may_mount : eff_class := λ X e,
  match e with EMount _ _ _ _ | EStart _ _ _ => true | _ => false end.

(** Only mounting makes a mount point; what CleanupMountPoint has cleaned up is none. *)
Class MountHost {W} (h : handler W) (mounted : W → gset string) : Prop := {
  host_other (X : Set) (e : eff X) w : may_mount X e = false → mounted (h X e w).2 ⊆ mounted w;
  host_mount s t fs o w r w' : h _ (EMount s t fs o) w = (r, w') →
    mounted w' ⊆ {[t]} ∪ mounted w ∧ (r = None → t ∈ mounted w');
  host_cleanup p w w' : h _ (ECleanupMountPoint p) w = (None, w') → p ∉ mounted w' }.

(** ** The settings of a published volume *)

Section Settings.
Context `{Lib} `{Codec} (cfg : Config).

(** What the reference and the mount pod of a published target depend on. *)
Definition published_settings (volumeID target : string) (s0 s : JfsSetting) : Prop :=
  js_UsePod s = js_UsePod s0 ∧ js_VolumeId s = volumeID ∧ js_TargetPath s = target ∧
  base_annots s = base_annots s0.

Lemma wp_getSettings_published volumeID target secrets volCtx options τ :
  wp (getSettings cfg volumeID target secrets volCtx options)
     (λ o _, match o with
      | Done (_, Ok s) => ∃ s0, ParseSetting cfg secrets volCtx (negb (ByProcess cfg)) = Ok s0 ∧
          published_settings volumeID target s0 s
      | _ => True
      end) τ.
Proof.
  eapply wp_mono; [|apply (wp_getSettings_keeps cfg
    (λ s, (js_UsePod s, js_VolumeId s, js_TargetPath s, base_annots s))); done].
  intros [[secrets' [s|err]]|why] τ'; [|done..]. intros (s0 & Hp & [= H1 H2 H3 H4]).
  exists s0. by split.
Qed.
End Settings.

(** ** Targets and references *)

Section Published.
Context `{LibLaws} `{Codec} (cfg : Config) (Hby : ByProcess cfg = false).
Context {W : Type} (h : handler W) (pods : W → podmap) `{!PodWriter h pods}
  (mounted : W → gset string) `{!MountHost h mounted}.

(** The targets of the node; the volume each is for (a target path holds the pod's uid
    and the volume's name); the goroutine that serves it (the kubelet has one request
    at a time for a target).  The references of the targets are distinct. *)
Context (T : gset string) (volume_of : string → string) (owner : string → nat)
  (Hkeys : ∀ t t', t ∈ T → t' ∈ T → GetReferenceKey t = GetReferenceKey t' → t = t').

Local Abbreviation state := (mount_state_of cfg pods).
Local Abbreviation key name := ((Namespace cfg, name) : string * string).

Definition pod_of (t : string) : string := GenerateNameByVolumeId cfg (volume_of t).

(** The mount pod of the target is live and has its reference. *)
Definition referenced (t : string) (w : W) : Prop :=
  ∃ A, state (pod_of t) w = Live A ∧ A !! GetReferenceKey t = Some t.

(** No live mount pod has the reference of the target. *)
Definition released (t : string) (w : W) : Prop :=
  ∀ A, state (pod_of t) w = Live A → A !! GetReferenceKey t = None.

(** A target that is a mount point is referenced; and what a live mount pod has under
    the key of a target is that target. *)
Definition target_sound (t : string) (w : W) : Prop :=
  (t ∈ mounted w → referenced t w) ∧
  ∀ A v, state (pod_of t) w = Live A → A !! GetReferenceKey t = Some v → v = t.

Definition sound (w : W) : Prop := ∀ t, t ∈ T → target_sound t w.

Lemma key_ne t t' : t ∈ T → t' ∈ T → t' ≠ t → GetReferenceKey t' ≠ GetReferenceKey t.
Proof. intros Ht Ht' Hne E. by apply Hne, Hkeys. Qed.

Lemma target_live t A w :
  state (pod_of t) w = Live A → (t ∈ mounted w → A !! GetReferenceKey t = Some t) →
  (∀ v, A !! GetReferenceKey t = Some v → v = t) → target_sound t w.
Proof.
  intros HA H1 H2. split; [intros Hin; exists A; auto|].
  intros A' v HA'. rewrite HA in HA'. injection HA' as <-. apply H2.
Qed.

(** What is known of a target of a live mount pod. *)
Lemma target_of_live t A w :
  target_sound t w → state (pod_of t) w = Live A →
  (t ∈ mounted w → A !! GetReferenceKey t = Some t) ∧
  ∀ v, A !! GetReferenceKey t = Some v → v = t.
Proof.
  intros [H1 H2] HA. split; [|intros v; by apply H2].
  intros Hin. destruct (H1 Hin) as (A' & HA' & ?). rewrite HA in HA'. by injection HA' as <-.
Qed.

(** *** What the goroutines do to each other *)

(** Others leave this of a target as it is. *)
Record kept (t : string) (w w' : W) : Prop := {
  kept_mounted : t ∈ mounted w' → t ∈ mounted w;
  kept_referenced : referenced t w → referenced t w';
  kept_released : released t w → released t w' }.

(** Only a pod on its way out changes by itself. *)
Definition settled (st st' : mount_state) : Prop :=
  st' = st ∨ (∃ A, st = Deleting A) ∧ st' = Gone.

(** What the goroutine [i] relies on while it holds the mutexes [ls]. *)
Definition rely (i : nat) (ls : list Z) (w w' : W) : Prop :=
  (∀ name, lock_of name ∈ ls → settled (state name w) (state name w')) ∧
  ∀ t, t ∈ T → owner t = i → kept t w w'.

Definition guar (i : nat) (ls : list Z) (w w' : W) : Prop :=
  (∀ name, lock_of name ∉ ls → state name w' = state name w) ∧
  ∀ t, t ∈ T → owner t ≠ i → kept t w w'.

(** Users, kubelets and controllers: pods that are being deleted go, mounts may go,
    and all but the references and deletions of pods may change. *)
Definition others_calm (w w' : W) : Prop :=
  (∀ name, settled (state name w) (state name w')) ∧ mounted w' ⊆ mounted w.

(** A request that writes no pod and mounts nothing. *)
Definition still (w w' : W) : Prop :=
  (∀ name, state name w' = state name w) ∧ mounted w' ⊆ mounted w.

Lemma settled_refl st : settled st st.
Proof. by left. Qed.

Lemma settled_trans st1 st2 st3 : settled st1 st2 → settled st2 st3 → settled st1 st3.
Proof. intros [->|[[A ->] ->]] [->|[[A' E] ->]]; [by left| |by right; eauto|done]. right. eauto. Qed.

Lemma settled_live A st : settled (Live A) st → st = Live A.
Proof. by intros [|[[? ?] _]]. Qed.

Lemma settled_to_live st A : settled st (Live A) → st = Live A.
Proof. by intros [->|[_ ?]]. Qed.

Lemma kept_refl t w : kept t w w.
Proof. by split. Qed.

Lemma kept_trans t w1 w2 w3 : kept t w1 w2 → kept t w2 w3 → kept t w1 w3.
Proof. intros [A1 B1 C1] [A2 B2 C2]. split; auto. Qed.

Lemma kept_settled t w w' :
  settled (state (pod_of t) w) (state (pod_of t) w') → mounted w' ⊆ mounted w → kept t w w'.
Proof.
  intros Hs Hm. split; [by apply Hm| |].
  - intros (A & HA & Hk). exists A. rewrite HA in Hs. by apply settled_live in Hs.
  - intros Hr A HA. apply Hr. rewrite HA in Hs. by apply settled_to_live in Hs.
Qed.

Lemma sound_settled t w w' :
  settled (state (pod_of t) w) (state (pod_of t) w') → mounted w' ⊆ mounted w →
  target_sound t w → target_sound t w'.
Proof.
  intros Hs Hm [H1 H2]. split.
  - intros Hin. by apply (kept_referenced t w w'); [apply kept_settled|apply H1, Hm].
  - intros A v HA. apply H2. rewrite HA in Hs. by apply settled_to_live in Hs.
Qed.

Lemma rely_refl i ls w : rely i ls w w.
Proof. split; [intros; apply settled_refl|intros; apply kept_refl]. Qed.

Lemma calm_rely i ls w w' : others_calm w w' → rely i ls w w'.
Proof. intros [Hs Hm]. split; [auto|]. intros t _ _. by apply kept_settled. Qed.

Lemma calm_sound w w' : others_calm w w' → sound w → sound w'.
Proof. intros [Hs Hm] Hw t Ht. eapply sound_settled; [apply Hs|done|by apply Hw]. Qed.

Lemma still_calm w w' : still w w' → others_calm w w'.
Proof. intros [Hs Hm]. split; [|done]. intros name. rewrite Hs. apply settled_refl. Qed.

Lemma still_guar i ls w w' : still w w' → guar i ls w w'.
Proof.
  intros Hst. pose proof (still_calm _ _ Hst) as [Hs Hm]. split; [intros; apply Hst|].
  intros t _ _. by apply kept_settled.
Qed.

Lemma pool_peaceful : peaceful others_calm rely guar sound.
Proof.
  split.
  - intros n ls w1 w2 w3 [A1 B1] [A2 B2]. split.
    + intros name Hn. eapply settled_trans; auto.
    + intros t Ht Ho. eapply kept_trans; auto.
  - intros n m ls ls' w w' Hnm Hd [A1 B1]. split.
    + intros name Hn. rewrite A1; [apply settled_refl|]. intros Hn'. by apply (Hd _ Hn).
    + intros t Ht Ho. apply B1; [done|]. by rewrite Ho.
  - intros n ls w w' _. apply calm_rely.
  - intros w w' Hw Hc. by eapply calm_sound.
Qed.

(** *** Rules *)

Local Abbreviation ensures i ls t Q w :=
  (Interference.ensures h (rely i) (guar i) sound ls t Q w).

(** A fact that neither the others nor a still request of the goroutine can spoil. *)
Definition steady (i : nat) (ls : list Z) (P : W → Prop) : Prop :=
  ∀ w w', P w → rely i ls w w' ∨ still w w' → P w'.

Definition mine (i : nat) (t : string) : Prop := t ∈ T ∧ owner t = i.

Lemma still_rely i ls w w' : still w w' → rely i ls w w'.
Proof. intros. by apply calm_rely, still_calm. Qed.

Lemma steady_by i ls P : (∀ w w', P w → rely i ls w w' → P w') → steady i ls P.
Proof. intros HP w w' Hw [Hr|Hs]; [eauto|]. eapply HP; [done|by apply still_rely]. Qed.

Lemma steady_true i ls : steady i ls (λ _, True).
Proof. done. Qed.

Lemma steady_and i ls P Q : steady i ls P → steady i ls Q → steady i ls (λ w, P w ∧ Q w).
Proof. intros HP HQ w w' [Hw Hw'] Hs. split; eauto. Qed.

Lemma steady_imp i ls (A : Prop) P : steady i ls P → steady i ls (λ w, A → P w).
Proof. intros HP w w' Hw Hs HA. eauto. Qed.

Lemma steady_referenced i ls t : mine i t → steady i ls (referenced t).
Proof. intros [Ht Ho]. apply steady_by. intros w w' Hw [_ Hk]. by apply (kept_referenced t w w'); auto. Qed.

Lemma steady_released i ls t : mine i t → steady i ls (released t).
Proof. intros [Ht Ho]. apply steady_by. intros w w' Hw [_ Hk]. by apply (kept_released t w w'); auto. Qed.

Lemma steady_unmounted i ls t : mine i t → steady i ls (λ w, t ∉ mounted w).
Proof.
  intros [Ht Ho]. apply steady_by. intros w w' Hw [_ Hk] Hin. apply Hw. by apply (kept_mounted t w w'); auto.
Qed.

(** Under the mutex of the name: the pod that was read, or none when it was on its way
    out. *)
Definition known (name : string) (p : pod) (w : W) : Prop :=
  settled (state_of_pod (Some p)) (state name w).

Lemma steady_known i ls name p : lock_of name ∈ ls → steady i ls (known name p).
Proof. intros Hl. apply steady_by. intros w w' Hw [Hr _]. eapply settled_trans; eauto. Qed.

Lemma known_live name p w : known name p w → is_deleted p = false → state name w = Live (annots p).
Proof. unfold known. simpl. intros Hk Hd. rewrite Hd in Hk. by apply settled_live. Qed.

Lemma known_dead name p w A : known name p w → is_deleted p = true → state name w ≠ Live A.
Proof. unfold known. simpl. intros Hk Hd E. rewrite Hd, E in Hk. by apply settled_to_live in Hk. Qed.

(** Requests that are no pod write and mount nothing are still. *)
Lemma step_still {X : Set} (e : eff X) w :
  may_mount X e = false → is_pod_write X e = false → still w (h X e w).2.
Proof.
  intros Hm Hp. split; [|by apply host_other]. intros name. unfold mount_state_of.
  rewrite (server_keeps (h := h) X e w); [done|]. by destruct e.
Qed.

Definition aside {A} (p : prog A) : Prop := avoids may_mount p ∧ quiet p.

Lemma ensures_aside i ls {A} (p : prog A) P w :
  aside p → steady i ls P → P w → ensures i ls p (λ _, P) w.
Proof.
  intros [Hm Hq] HP. revert w. induction p as [a|s|X e k IH]; intros w Hw Hi.
  - by split.
  - done.
  - destruct Hm as [Hm Hmk], Hq as [Hq Hqk]. unfold is_loud in Hq. apply orb_false_iff in Hq as [Hl Hp].
    intros w1 Hr Hi1. cbv zeta. assert (still w1 (h X e w1).2) as Hs by by apply step_still.
    split; [by apply still_guar|]. assert (sound (h X e w1).2) as Hi2
      by (eapply calm_sound; [by apply still_calm|done]). split; [done|].
    assert (held_step ls (Ev e (h X e w1).1) = ls) as -> by by destruct e.
    apply IH; [done..| |done]. eapply HP; [|by right]. by eapply HP; [|by left].
Qed.

Lemma ensures_step i ls {X : Set} (e : eff X) P w :
  may_mount X e = false → is_loud X e = false → steady i ls P → P w →
  ensures i ls (call e) (λ _, P) w.
Proof. intros Hm Hl. apply ensures_aside. by split; split. Qed.

(** A mutex around a program. *)
Lemma ensures_lock i l {A} (t : prog A) P (Q : A → W → Prop) w :
  steady i [] P → (∀ a, steady i [] (Q a)) → P w →
  (∀ w1, P w1 → ensures i [l] t Q w1) → ensures i [] (with_lock l t) Q w.
Proof.
  intros HP HQ Hw Ht _ w1 Hr Hi. simpl.
  assert (∀ j w, still w (h _ (ELock j) w).2) as Hlock by (intros; by apply step_still).
  assert (∀ j w, still w (h _ (EUnlock j) w).2) as Hunlock by (intros; by apply step_still).
  assert (sound (h _ (ELock l) w1).2) as Hi1
    by (eapply calm_sound; [by apply still_calm, Hlock|done]).
  split; [by apply still_guar|]. split; [done|].
  assert (P (h _ (ELock l) w1).2) as HP1 by (eapply HP; [by eapply HP; [|by left]|by right]).
  apply secure_finally.
  - eapply secure_mono; [|by apply (Ht _ HP1)]. intros a ls' w2 (-> & Hi2 & HQ2) w3 Hr3 Hi3. simpl.
    split; [by apply still_guar|].
    assert (sound (h _ (EUnlock l) w3).2) as Hi4 by (eapply calm_sound; [by apply still_calm, Hunlock|done]).
    split; [done|]. split; [apply (filter_cons_False (λ j, j ≠ l)); naive_solver|]. split; [done|].
    eapply HQ; [|by right]. eapply HQ; [done|]. left. destruct Hr3 as [_ Hk]. split; [|done].
    intros name Hn. by apply elem_of_nil in Hn.
  - intros s ls w2 w3 _ Hi3. simpl. split; [by apply still_guar|]. split; [|done].
    eapply calm_sound; [by apply still_calm, Hunlock|done].
Qed.

Lemma ensures_retry i ls fn P (Q : W → Prop) w :
  P w → (∀ w', P w' → ensures i ls fn (λ r w'', P w'' ∧ (r = None → Q w'')) w') →
  ensures i ls (RetryOnConflict fn) (λ r w', P w' ∧ (r = None → Q w')) w.
Proof.
  intros HP Hfn. rewrite retry_attempts. revert w HP. induction retry_steps as [|n IH]; intros w HP;
    simpl; [by apply Hfn|]. eapply ensures_bind; [by apply Hfn|].
  intros [e|] w1 [HP1 HQ1]; [|by apply ensures_ret]. destruct (IsConflict e); [by apply IH|].
  by apply ensures_ret.
Qed.

(** A read. *)
Lemma ensures_get i ls n ns P w :
  steady i ls P → P w →
  ensures i ls (GetPod n ns) (λ r w', P w' ∧
    match r with
    | Ok p => p_name p = n ∧ p_namespace p = ns ∧ (ns = Namespace cfg → known n p w')
    | Err e => IsNotFound e = true → ns = Namespace cfg → state n w' = Gone
    end) w.
Proof.
  intros HP Hw. apply ensures_call; [done|]. intros w1 Hr Hi. cbv zeta.
  assert (still w1 (h _ (EPodGet ns n) w1).2) as Hs by by apply step_still.
  split; [by apply still_guar|]. split; [by eapply calm_sound; [apply still_calm|]|].
  split; [eapply HP; [by eapply HP; [|by left]|by right]|].
  destruct (h _ (EPodGet ns n) w1) as [[p|e] w2] eqn:He; simpl in *.
  - destruct (server_get _ _ _ _ _ He) as (Hp & Hns & Hn). split; [done|]. split; [done|].
    intros ->. unfold known. rewrite (proj1 Hs). left. unfold mount_state_of. by rewrite Hp.
  - intros Hnf ->. rewrite (proj1 Hs). unfold mount_state_of. by rewrite (writer_missing _ _ _ _ _ He Hnf).
Qed.

(** *** Writing the mount pod whose mutex is held *)

Lemma pod_step i ls name w w' :
  lock_of name ∈ ls → (∀ n, n ≠ name → state n w' = state n w) → mounted w' ⊆ mounted w →
  sound w →
  (∀ t, t ∈ T → pod_of t = name → target_sound t w' ∧ (owner t ≠ i → kept t w w')) →
  guar i ls w w' ∧ sound w'.
Proof.
  intros Hl Ho Hm Hw Ht.
  assert (∀ t, pod_of t ≠ name → settled (state (pod_of t) w) (state (pod_of t) w')) as Hne.
  { intros t Hn. rewrite (Ho _ Hn). apply settled_refl. }
  split; [split|].
  - intros n Hn. apply Ho. intros ->. done.
  - intros t Hin Hown. destruct (decide (pod_of t = name)) as [Hp|Hp]; [by apply Ht|].
    apply kept_settled; auto.
  - intros t Hin. destruct (decide (pod_of t = name)) as [Hp|Hp]; [by apply Ht|].
    eapply sound_settled; auto.
Qed.

Lemma state_other {X : Set} (e : eff X) w name n :
  written e = Some (key name) → n ≠ name → state n (h X e w).2 = state n w.
Proof.
  intros He Hn. unfold mount_state_of. rewrite (server_keeps (h := h) X e w); [done|]. congruence.
Qed.

(** A target whose reference is as before. *)
Lemma kept_live t A A' w w' :
  state (pod_of t) w = Live A → state (pod_of t) w' = Live A' →
  A' !! GetReferenceKey t = A !! GetReferenceKey t → mounted w' ⊆ mounted w → kept t w w'.
Proof.
  intros HA HA' Hk Hm. split; [by apply Hm| |].
  - intros (A1 & HA1 & Hr). exists A'. split; [done|]. rewrite HA in HA1. injection HA1 as <-. by rewrite Hk.
  - intros Hr A1 HA1. rewrite HA' in HA1. injection HA1 as <-. rewrite Hk. by apply Hr.
Qed.

Lemma sound_live t A A' w w' :
  state (pod_of t) w = Live A → state (pod_of t) w' = Live A' →
  A' !! GetReferenceKey t = A !! GetReferenceKey t → mounted w' ⊆ mounted w →
  target_sound t w → target_sound t w'.
Proof.
  intros HA HA' Hk Hm Ht. destruct (target_of_live t A w Ht HA) as [H1 H2].
  apply (target_live t A' w' HA'); rewrite Hk; auto.
Qed.

(** A target of a pod that is not live, before and after. *)
Lemma target_dead t w w' :
  mounted w' ⊆ mounted w → target_sound t w →
  (∀ A, state (pod_of t) w ≠ Live A) → (∀ A, state (pod_of t) w' ≠ Live A) →
  target_sound t w' ∧ kept t w w'.
Proof.
  intros Hm [H1 _] Hd Hd'. split; [split|split].
  - intros Hin%Hm. destruct (H1 Hin) as (A & HA & _). by apply Hd in HA.
  - intros A v HA. by apply Hd' in HA.
  - by intros Hin%Hm.
  - intros (A & HA & _). by apply Hd in HA.
  - intros _ A HA. by apply Hd' in HA.
Qed.

(** Of the references on the pod the goroutine writes only those of its own targets,
    and takes one away only from a target that is not mounted. *)
Definition rewrites (i : nat) (name : string) (A A' : smap) (w : W) : Prop :=
  ∀ t, t ∈ T → pod_of t = name →
    A' !! GetReferenceKey t = A !! GetReferenceKey t ∨
    owner t = i ∧ (A' !! GetReferenceKey t = Some t ∨
                   A' !! GetReferenceKey t = None ∧ t ∉ mounted w).

Lemma live_step i ls name A A' w w' :
  lock_of name ∈ ls → (∀ n, n ≠ name → state n w' = state n w) → mounted w' ⊆ mounted w →
  sound w → state name w = Live A → state name w' = Live A' → rewrites i name A A' w →
  guar i ls w w' ∧ sound w'.
Proof.
  intros Hl Ho Hm Hw HA HA' Hr. apply (pod_step i ls name); [done..|].
  intros t Ht Hp. rewrite <- Hp in HA, HA'. destruct (Hr t Ht Hp) as [Hk|[Hown Hk]].
  - split; [apply (sound_live t A A' w w'); [done..|by apply Hw]|]. intros _. by eapply kept_live.
  - split; [|done]. apply (target_live t A' w' HA').
    + intros Hin%Hm. by destruct Hk as [Hk|[_ Hk]].
    + intros v Hv. destruct Hk as [Hk|[Hk _]]; congruence.
Qed.

Lemma dead_step i ls name w w' :
  lock_of name ∈ ls → (∀ n, n ≠ name → state n w' = state n w) → mounted w' ⊆ mounted w →
  sound w → (∀ A, state name w ≠ Live A) → (∀ A, state name w' ≠ Live A) →
  guar i ls w w' ∧ sound w'.
Proof.
  intros Hl Ho Hm Hw Hd Hd'. apply (pod_step i ls name); [done..|]. intros t Ht Hp.
  destruct (target_dead t w w') as [? ?]; [done|by apply Hw|by rewrite Hp..|]. by split.
Qed.

Lemma same_step i ls name w w' :
  (∀ n, n ≠ name → state n w' = state n w) → mounted w' ⊆ mounted w → sound w →
  state name w' = state name w → still w w' ∧ guar i ls w w' ∧ sound w'.
Proof.
  intros Ho Hm Hw Hs. assert (still w w') as Hst.
  { split; [|done]. intros n. destruct (decide (n = name)) as [->|]; auto. }
  split; [done|]. split; [by apply still_guar|]. eapply calm_sound; [by apply still_calm|done].
Qed.

(** What an update leads to, from the state that was read. *)
Lemma update_step i ls name p q w r w' :
  lock_of name ∈ ls → h _ (EPodUpdate (Namespace cfg) q) w = (r, w') →
  p_name q = name → p_namespace q = Namespace cfg → known name p w → sound w →
  rewrites i name (annots p) (annots q) w →
  (guar i ls w w' ∧ sound w') ∧ mounted w' ⊆ mounted w ∧
  (still w w' ∧ (∀ x, r ≠ Ok x) ∨
   if is_deleted p then ∀ A, state name w' ≠ Live A
   else state name w = Live (annots p) ∧ state name w' = Live (annots q)).
Proof.
  intros Hl He Hn Hns Hp Hw Hrw.
  pose proof (host_other _ (EPodUpdate (Namespace cfg) q) w eq_refl) as Hm.
  assert (∀ n, n ≠ name → state n w' = state n w) as Ho.
  { intros n Hne. replace w' with (h _ (EPodUpdate (Namespace cfg) q) w).2 by by rewrite He.
    apply (state_other _ _ name); [|done]. simpl. by rewrite Hns, Hn. }
  rewrite He in Hm. simpl in Hm. pose proof He as Hupd. rewrite <- Hns in Hupd.
  apply writer_update in Hupd. rewrite Hns, Hn in Hupd.
  destruct Hupd as [[Hsame Hr]|(old & Hold & Hnew)].
  { destruct (same_step i ls name w w') as (Hst & Hg & Hs); [done..| |].
    { unfold mount_state_of. by rewrite Hsame. }
    split; [done|]. split; [done|]. by left. }
  assert (state name w = state_of_pod (Some old)) as Hst by (unfold mount_state_of; by rewrite Hold).
  destruct (is_deleted p) eqn:Hd.
  - assert (∀ A, state name w ≠ Live A) as Hdead by (intros A; by apply (known_dead name p)).
    assert (is_deleted old = true) as Hdo.
    { destruct (is_deleted old) eqn:E; [done|]. simpl in Hst. rewrite E in Hst. by apply Hdead in Hst. }
    assert (∀ A, state name w' ≠ Live A) as Hdead'.
    { intros A. unfold mount_state_of. destruct Hnew as [(q' & -> & _ & Hq)|[_ ->]]; [|done].
      simpl. by rewrite Hq, Hdo. }
    split; [by apply (dead_step i ls name)|]. split; [done|]. by right.
  - pose proof (known_live _ _ _ Hp Hd) as HA. rewrite HA in Hst. simpl in Hst.
    destruct (is_deleted old) eqn:Hdo; [done|].
    assert (state name w' = Live (annots q)) as HA'.
    { destruct Hnew as [(q' & Hq' & Hstored & Hdq)|[[Hf _] _]].
      - rewrite (stored_state cfg pods q q') by done. by rewrite Hdq.
      - by rewrite (is_deleted_some _ Hf) in Hdo. }
    split; [by apply (live_step i ls name (annots p) (annots q))|]. split; [done|]. by right.
Qed.

(** An update of the pod that was read: the facts [P] before it, and what it did. *)
Lemma ensures_update i ls name p q P w :
  lock_of name ∈ ls → steady i ls P → P w → known name p w →
  p_name q = name → p_namespace q = Namespace cfg →
  (∀ w1, P w1 → rewrites i name (annots p) (annots q) w1) →
  ensures i ls (UpdatePod (Some q)) (λ e w',
    ∃ w1, P w1 ∧ mounted w' ⊆ mounted w1 ∧ (still w1 w' ∧ e ≠ None ∨
      if is_deleted p then ∀ A, state name w' ≠ Live A
      else state name w1 = Live (annots p) ∧ state name w' = Live (annots q))) w.
Proof.
  intros Hl HP Hw Hk Hn Hns Hrw. cbn [UpdatePod]. rewrite Hns.
  eapply ensures_bind with (Q := λ r w', ∃ w1, P w1 ∧ mounted w' ⊆ mounted w1 ∧
    (still w1 w' ∧ (∀ x, r ≠ Ok x) ∨
      if is_deleted p then ∀ A, state name w' ≠ Live A
      else state name w1 = Live (annots p) ∧ state name w' = Live (annots q))).
  - apply ensures_call; [done|]. intros w1 Hr Hi. cbv zeta.
    assert (P w1) as Hw1 by by eapply HP; [|by left].
    assert (known name p w1) as Hk1 by (eapply (steady_known i ls); [done..|by left]).
    destruct (h _ (EPodUpdate (Namespace cfg) q) w1) as [r w2] eqn:He.
    destruct (update_step i ls name p q w1 r w2) as ([Hg Hs] & Hm & Hres); [by auto..|].
    split; [done|]. split; [done|]. by exists w1.
  - intros r w' (w1 & Hw1 & Hm & Hres). apply ensures_ret. exists w1. split; [done|]. split; [done|].
    destruct Hres as [[Hst Hr]|Hres]; [left|by right]. split; [done|]. destruct r as [x|e]; [|done].
    by destruct (Hr x).
Qed.

(** *** Adding a reference *)

Lemma mine_ne i t t' : owner t = i → owner t' ≠ i → t ≠ t'.
Proof. by intros <- Hne ->. Qed.

Lemma is_deleted_eq p : is_deleted p = match p_deletionTimestamp p with Some _ => true | None => false end.
Proof. done. Qed.

Lemma ensures_add_ref_attempt i t w :
  mine i t →
  ensures i [lock_of (pod_of t)] (add_ref_attempt cfg t (pod_of t))
    (λ e w', True ∧ (e = None → referenced t w')) w.
Proof.
  intros [Ht Ho]. set (name := pod_of t). set (ls := [lock_of name]).
  assert (lock_of name ∈ ls) as Hl by by apply list_elem_of_singleton.
  eapply ensures_bind; [by apply (ensures_get i ls name (Namespace cfg) (λ _, True))|].
  intros [p|e] w1 [_ Hp]; [|apply ensures_ret; split; [done|]; done].
  destruct Hp as (Hn & Hns & Hk). specialize (Hk eq_refl).
  destruct (p_deletionTimestamp p) as [d|] eqn:Hd; [apply ensures_ret; split; [done|]; done|].
  assert (is_deleted p = false) as Hdel by by rewrite is_deleted_eq, Hd.
  destruct (annots p !! GetReferenceKey t) as [v|] eqn:Hv.
  - intros Hi. apply ensures_ret; [|done]. split; [done|]. intros _.
    pose proof (known_live _ _ _ Hk Hdel) as HA. exists (annots p). split; [exact HA|].
    rewrite Hv. f_equal. by apply (proj2 (Hi t Ht) (annots p)).
  - set (q := set_annotations _ p).
    eapply ensures_mono; [apply (ensures_update i ls name p q (known name p))|].
    + done.
    + by apply steady_known.
    + done.
    + done.
    + exact Hn.
    + exact Hns.
    + intros w2 _ t' Ht' Hp'. subst q. rewrite annots_set. simpl rd.
      destruct (GetReferenceKey_not_delay t') as [_ Hdelay]. rewrite lookup_delete_ne by congruence.
      destruct (decide (t' = t)) as [->|Hne]; [right; split; [done|left; apply lookup_insert_eq]|left].
      apply lookup_insert_ne. by apply not_eq_sym, key_ne.
    + intros e w2 _ (w3 & _ & _ & Hres). split; [done|]. intros ->.
      destruct Hres as [[_ []]|Hres]; [done|]. rewrite Hdel in Hres. destruct Hres as [_ HA].
      exists (annots q). split; [exact HA|]. subst q. rewrite annots_set. simpl rd.
      destruct (GetReferenceKey_not_delay t) as [_ Hdelay]. rewrite lookup_delete_ne by congruence.
      apply lookup_insert_eq.
Qed.

Lemma ensures_AddRefOfMount i t w :
  mine i t →
  ensures i [lock_of (pod_of t)] (AddRefOfMount cfg t (pod_of t))
    (λ e w', e = None → referenced t w') w.
Proof.
  intros Ht. unfold AddRefOfMount. eapply ensures_mono; [apply (ensures_retry i _ _ (λ _, True)); [done|]|].
  - intros w1 _. by apply ensures_add_ref_attempt.
  - by intros e w1 _ [_ He].
Qed.

(** *** Creating the mount pod *)

Lemma create_step i ls t q w r w' :
  lock_of (pod_of t) ∈ ls → mine i t → h _ (EPodCreate (Namespace cfg) q) w = (r, w') →
  p_name q = pod_of t → p_namespace q = Namespace cfg → sound w →
  annots q !! GetReferenceKey t = Some t →
  (∀ t', t' ∈ T → t' ≠ t → annots q !! GetReferenceKey t' = None) →
  (guar i ls w w' ∧ sound w') ∧ ((∀ x, r ≠ Ok x) ∨ referenced t w').
Proof.
  intros Hl [Ht Hown] He Hn Hns Hw Hself Hoth.
  pose proof (host_other _ (EPodCreate (Namespace cfg) q) w eq_refl) as Hm.
  assert (∀ n, n ≠ pod_of t → state n w' = state n w) as Ho.
  { intros n Hne. replace w' with (h _ (EPodCreate (Namespace cfg) q) w).2 by by rewrite He.
    apply (state_other _ _ (pod_of t)); [|done]. simpl. by rewrite Hns, Hn. }
  rewrite He in Hm. simpl in Hm. pose proof He as Hc. rewrite <- Hns in Hc.
  apply writer_create in Hc. rewrite Hns, Hn in Hc.
  destruct Hc as [[Hsame Hr]|(Hnone & q' & Hq' & Hst & Hd)].
  { destruct (same_step i ls (pod_of t) w w') as (_ & Hg & Hs); [done..| |].
    { unfold mount_state_of. by rewrite Hsame. }
    split; [done|]. by left. }
  assert (state (pod_of t) w = Gone) as HG by (unfold mount_state_of; by rewrite Hnone).
  assert (state (pod_of t) w' = Live (annots q)) as HA.
  { rewrite (stored_state cfg pods q q') by done. by rewrite is_deleted_eq, Hd. }
  split; [|right; by exists (annots q)].
  apply (pod_step i ls (pod_of t)); [done..|]. intros t' Ht' Hp. rewrite <- Hp in HA, HG.
  assert (t' ∉ mounted w') as Hno.
  { intros Hin%Hm. destruct (Hw t' Ht') as [H1 _]. destruct (H1 Hin) as (A & HA' & _). congruence. }
  destruct (decide (t' = t)) as [->|Hne].
  - split; [|done]. apply (target_live t _ w' HA); [done|]. intros v. congruence.
  - split; [apply (target_live t' _ w' HA); [done|]; intros v; by rewrite Hoth|].
    intros _. split; [done|by intros (A & HA' & _); congruence|].
    intros _ A HA'. rewrite HA in HA'. injection HA' as <-. by apply Hoth.
Qed.

(** The pod that is built has the annotations of the setting. *)
Lemma wp_new_mount_pod s name τ :
  wp (new_mount_pod cfg s name) (λ o _, match o with
    | Done p => p_name p = name ∧ p_namespace p = Namespace cfg ∧ annots p = base_annots s
    | Panicked _ => True end) τ.
Proof.
  unfold new_mount_pod, range_keys. apply wp_call. intros g. apply wp_bind, wp_bind, wp_call.
  intros l. simpl. destruct (NewMountPod _ _ _ _ _) as [[p g']|] eqn:E; [|done].
  apply wp_call. intros []. simpl. apply NewMountPod_fields in E. tauto.
Qed.

Lemma aside_new_mount_pod s name : aside (new_mount_pod cfg s name).
Proof. split; [|apply quiet_new_mount_pod]. unfold new_mount_pod, range_keys. avoids. Qed.

Lemma aside_secret sec : aside (createOrUpdateSecret cfg sec).
Proof. split; by apply avoids_secret. Qed.

Lemma ensures_create_with_ref i s sec w :
  let t := js_TargetPath s in
  mine i t → (∀ t', t' ∈ T → base_annots s !! GetReferenceKey t' = None) →
  ensures i [lock_of (pod_of t)] (create_with_ref cfg s sec (pod_of t))
    (λ e w', e = None → referenced t w') w.
Proof.
  intros t Ht Hbase. set (ls := [lock_of (pod_of t)]).
  assert (lock_of (pod_of t) ∈ ls) as Hl by by apply list_elem_of_singleton.
  eapply ensures_bind; [apply ensures_wp; [apply wp_new_mount_pod|]|].
  { by apply (ensures_aside i ls _ (λ _, True)); [apply aside_new_mount_pod|..]. }
  intros p w1 ((Hn & Hns & Ha) & _). cbv zeta. set (q := set_annotations _ p).
  cbn [CreatePod]. eapply ensures_bind.
  - eapply ensures_bind with (Q := λ r w', ∀ x, r = Ok x → referenced t w').
    + change (p_namespace q) with (p_namespace p). rewrite Hns.
      apply ensures_call; [done|]. intros w2 Hr Hi. cbv zeta.
      destruct (h _ (EPodCreate (Namespace cfg) q) w2) as [r w3] eqn:He.
      destruct (create_step i ls t q w2 r w3) as [[Hg Hs] Href];
        [done|done|done|exact Hn|exact Hns|done| | |].
      { subst q. rewrite annots_set. apply lookup_insert_eq. }
      { intros t' Ht' Hne. subst q. rewrite annots_set. simpl rd.
        rewrite lookup_insert_ne by (apply not_eq_sym, key_ne; [apply Ht|done..]).
        rewrite Ha. by apply Hbase. }
      split; [done|]. split; [done|]. simpl. intros x ->. by destruct Href as [Hno|]; [destruct (Hno x)|].
    + intros r w2 Hr. apply (ensures_ret _ _ _ _ _ _ (λ r w', (∃ x, r = Ok x) → referenced t w')).
      destruct r as [x|e]; [|by intros [? [=]]]. intros _. by apply (Hr x).
  - intros [[po|]|e] w2 Href; [|apply ensures_crash..].
    eapply ensures_bind; [apply (ensures_aside i ls _ (referenced t))|].
    + apply aside_secret.
    + by apply steady_referenced.
    + apply Href. by eexists.
    + intros [e|] w3 Hw3; by apply ensures_ret.
Qed.

Lemma ensures_createOrAddRef i s w :
  let t := js_TargetPath s in
  mine i t → js_VolumeId s = volume_of t →
  (∀ t', t' ∈ T → base_annots s !! GetReferenceKey t' = None) →
  ensures i [] (createOrAddRef cfg s) (λ r w', r.1 = None → referenced t w') w.
Proof.
  intros t Ht Hvol Hbase. unfold createOrAddRef. rewrite Hvol. fold (pod_of t).
  rewrite with_pod_lock_eq. change (fnv32a (pod_of t) mod 1024)%Z with (lock_of (pod_of t)).
  set (s' := with_SecretName _ s). set (ls := [lock_of (pod_of t)]).
  apply (ensures_lock i (lock_of (pod_of t)) _ (λ _, True)); [done| |done|].
  { intros a. by apply (steady_imp i [] (a.1 = None)), steady_referenced. }
  intros w1 _. cbv zeta. generalize 120. intros n.
  apply (ensures_for_n _ _ _ _ _ (λ _, True)); [done| |by intros w2 _; apply ensures_ret].
  intros w2 _. eapply ensures_bind; [by apply (ensures_get i ls (pod_of t) (Namespace cfg) (λ _, True))|].
  intros [p|e] w3 [_ Hp].
  - destruct (p_deletionTimestamp p).
    + eapply ensures_bind; [by apply (ensures_step i ls (ESleep (ms 500)) (λ _, True))|].
      intros _ w4 _. by apply ensures_ret.
    + eapply ensures_bind; [apply (ensures_aside i ls _ (λ _, True)); [apply aside_secret|done..]|].
      intros [e|] w4 _; [by apply ensures_ret|].
      eapply ensures_bind; [by apply (ensures_AddRefOfMount i t)|].
      intros e w5 He. apply ensures_ret. exact He.
  - destruct (IsNotFound e); [|by apply ensures_ret].
    eapply ensures_bind; [by apply (ensures_create_with_ref i s')|].
    intros e' w4 He. apply ensures_ret. exact He.
Qed.

Lemma aside_wait podName : aside (waitUtilPodReady cfg podName).
Proof. split; unfold waitUtilPodReady, getErrContainerLog, container_log, GetPod, GetPodLog; avoids. Qed.

Lemma ensures_JMount i s w :
  let t := js_TargetPath s in
  mine i t → js_VolumeId s = volume_of t →
  (∀ t', t' ∈ T → base_annots s !! GetReferenceKey t' = None) →
  ensures i [] (JMount cfg s) (λ r w', r.1 = None → referenced t w') w.
Proof.
  intros t Ht Hvol Hbase. eapply ensures_bind; [by apply ensures_createOrAddRef|].
  intros [[e|] s1] w1 Href; [by apply ensures_ret|]. simpl in Href.
  eapply ensures_bind; [apply (ensures_aside i [] _ (referenced t)); [apply aside_wait| |by apply Href]|].
  - by apply steady_referenced.
  - intros e w2 Hw2. by apply ensures_ret.
Qed.

(** *** Removing a reference *)

(** Of a target that is served by the goroutine and no mount point any more. *)
Definition idle (t : string) (w : W) : Prop := (t ∉ mounted w) ∧ released t w.

Lemma steady_idle i ls t : mine i t → steady i ls (idle t).
Proof. intros Ht. by apply steady_and; [apply steady_unmounted|apply steady_released]. Qed.

Lemma known_released t p w :
  known (pod_of t) p w → annots p !! GetReferenceKey t = None → released t w.
Proof.
  intros Hk Hn A HA. destruct (is_deleted p) eqn:Hd; [by apply (known_dead _ _ _ A Hk) in Hd|].
  rewrite (known_live _ _ _ Hk Hd) in HA. by injection HA as <-.
Qed.

Lemma ensures_remove_ref_attempt i t w :
  mine i t → t ∉ mounted w →
  ensures i [lock_of (pod_of t)]
    (remove_ref_attempt (GetReferenceKey t) (pod_of t) (Namespace cfg))
    (λ e w', (t ∉ mounted w') ∧ (e = None → released t w')) w.
Proof.
  intros Ht Hw. set (name := pod_of t). set (ls := [lock_of name]).
  assert (lock_of name ∈ ls) as Hl by by apply list_elem_of_singleton.
  eapply ensures_bind; [apply (ensures_get i ls name (Namespace cfg) (λ w, t ∉ mounted w));
    [by apply steady_unmounted|done]|].
  intros [p|e] w1 [Hw1 Hp]; [|by apply ensures_ret].
  destruct Hp as (Hn & Hns & Hk). specialize (Hk eq_refl).
  destruct (annots p !! GetReferenceKey t) as [v|] eqn:Hv.
  2: { apply ensures_ret. split; [done|]. intros _. by apply (known_released t p). }
  set (q := set_annotations _ p).
  eapply ensures_mono; [apply (ensures_update i ls name p q (λ w, t ∉ mounted w))|].
  - done.
  - by apply steady_unmounted.
  - done.
  - done.
  - exact Hn.
  - exact Hns.
  - intros w2 Hw2 t' Ht' Hp'. subst q. rewrite annots_set. simpl rd.
    destruct (decide (t' = t)) as [->|Hne].
    + right. split; [by destruct Ht|]. right. split; [apply lookup_delete_eq|done].
    + left. apply lookup_delete_ne. by apply not_eq_sym, key_ne; [apply Ht|..].
  - intros e w2 _ (w3 & Hw3 & Hm & Hres). split; [by intros Hin%Hm|]. intros ->.
    destruct Hres as [[_ []]|Hres]; [done|]. intros A HA. destruct (is_deleted p).
    + by apply Hres in HA.
    + destruct Hres as [_ HA']. fold name in HA. rewrite HA' in HA. injection HA as <-.
      subst q. rewrite annots_set. apply lookup_delete_eq.
Qed.

(** [ShouldDelay] may write the time of the deletion; it asks to wait then. *)
Lemma ensures_ShouldDelay i t p w :
  let ls := [lock_of (pod_of t)] in
  mine i t → idle t w → known (pod_of t) p w →
  p_name p = pod_of t → p_namespace p = Namespace cfg →
  ensures i ls (ShouldDelay p)
    (λ r w', idle t w' ∧ (r.1.2 = false → r.1.1 = p ∧ known (pod_of t) p w')) w.
Proof.
  intros ls Ht Hw Hk Hn Hns. set (name := pod_of t) in *.
  assert (lock_of name ∈ ls) as Hl by by apply list_elem_of_singleton.
  set (P := λ w, idle t w ∧ known name p w). assert (steady i ls P) as HP
    by by apply steady_and; [apply steady_idle|apply steady_known].
  unfold ShouldDelay. destruct (annots p !! DeleteDelayTimeKey) as [d|]; [|by apply ensures_ret].
  destruct (annots p !! DeleteDelayAtKey) as [d'|].
  - destruct (GetTime d') as [at_|]; [|by apply ensures_ret].
    eapply ensures_bind; [by apply (ensures_step i ls ENow P w eq_refl eq_refl HP)|].
    intros now w1 [Hw1 Hk1]. by apply ensures_ret.
  - eapply ensures_bind; [apply (ensures_aside i ls _ P w); [|exact HP|done]|].
    { split; unfold GetTimeAfterDelay; avoids. }
    intros [s|e] w1 [Hw1 Hk1]; [|by apply ensures_ret].
    cbv zeta. set (q := set_annotations _ p).
    eapply ensures_bind; [apply (ensures_update i ls name p q P);
      [done|exact HP|done|done|exact Hn|exact Hns|]|].
    + intros w2 _ t' Ht' Hp'. left. subst q. rewrite annots_mark. apply lookup_insert_ne.
      apply not_eq_sym, GetReferenceKey_not_delay.
    + intros e w2 (w3 & [[Hw3 Hr3] _] & Hm & Hres). apply ensures_ret. split; [|done].
      split; [by intros Hin%Hm|]. destruct Hres as [[Hst _]|Hres].
      { by apply (steady_released i ls t Ht w3); [|right]. }
      intros A HA. destruct (is_deleted p); [by apply Hres in HA|]. destruct Hres as [HA0 HA'].
      fold name in HA. rewrite HA' in HA. injection HA as <-. subst q. rewrite annots_mark.
      rewrite lookup_insert_ne by (apply not_eq_sym, GetReferenceKey_not_delay). by apply Hr3.
Qed.

(** A pod without references goes: no target is mounted from it. *)
Lemma ensures_delete i t p w :
  let ls := [lock_of (pod_of t)] in
  mine i t → idle t w → known (pod_of t) p w → HasRef p = false →
  p_name p = pod_of t → p_namespace p = Namespace cfg →
  ensures i ls (DeletePod (Some p)) (λ _, idle t) w.
Proof.
  intros ls Ht Hw Hk Hr Hn Hns. set (name := pod_of t) in *.
  assert (lock_of name ∈ ls) as Hl by by apply list_elem_of_singleton.
  cbn [DeletePod]. rewrite Hns, Hn. apply ensures_call; [done|]. intros w1 Hrl Hi. cbv zeta.
  assert (idle t w1) as Hw1 by (eapply (steady_idle i ls); [done..|by left]).
  assert (known name p w1) as Hk1 by (eapply (steady_known i ls); [done..|by left]).
  pose proof (host_other _ (EPodDelete (Namespace cfg) name) w1 eq_refl) as Hm.
  assert (∀ n, n ≠ name → state n (h _ (EPodDelete (Namespace cfg) name) w1).2 = state n w1) as Ho
    by (intros n Hne; by apply (state_other _ _ name)).
  destruct (h _ (EPodDelete (Namespace cfg) name) w1) as [r w2] eqn:He. simpl in *.
  pose proof (writer_delete _ _ _ _ _ He) as Hd.
  assert (state name w2 = state name w1 ∨ ∀ A, state name w2 ≠ Live A) as Hst.
  { unfold mount_state_of. destruct Hd as [->|[->|(old & q & _ & -> & _ & Hq)]]; [by left|by right|].
    right. intros A. simpl. by rewrite Hq. }
  destruct Hst as [Hst|Hdead'].
  { destruct (same_step i ls name w1 w2) as (Hstill & Hg & Hs); [done..|].
    split; [done|]. split; [done|]. by apply (steady_idle i ls t Ht w1); [|right]. }
  assert (∀ t', t' ∈ T → pod_of t' = name → (t' ∉ mounted w1) ∧ ¬ referenced t' w1) as Hnone.
  { intros t' Ht' Hp. assert (¬ referenced t' w1) as Hnr.
    { intros (A & HA & Href). rewrite Hp in HA. destruct (is_deleted p) eqn:Hdel.
      - by apply (known_dead name p w1 A).
      - rewrite (known_live name p w1 Hk1 Hdel) in HA. injection HA as <-.
        rewrite HasRef_refs, negb_false_iff, bool_decide_eq_true in Hr.
        assert (refs_of (annots p) !! GetReferenceKey t' = Some t') as E
          by (apply map_lookup_filter_Some; split; [done|apply String.eqb_refl]).
        by rewrite Hr in E. }
    split; [|done]. intros Hin. by apply Hnr, (Hi t' Ht'). }
  destruct (pod_step i ls name w1 w2) as [Hg Hs]; [done..| |].
  { intros t' Ht' Hp. destruct (Hnone t' Ht' Hp) as [Hno Hnr].
    split; [split; [by intros Hin%Hm|by intros A v HA; rewrite Hp in HA; apply Hdead' in HA]|].
    intros _. split; [by intros Hin%Hm|done|]. intros _ A HA. rewrite Hp in HA. by apply Hdead' in HA. }
  split; [done|]. split; [done|]. split; [by intros Hin%Hm; apply Hw1|].
  intros A HA. by apply Hdead' in HA.
Qed.

Lemma ensures_delete_attempt i t w :
  mine i t → idle t w →
  ensures i [lock_of (pod_of t)] (delete_attempt (pod_of t) (Namespace cfg)) (λ _, idle t) w.
Proof.
  intros Ht Hw. set (name := pod_of t). set (ls := [lock_of name]).
  eapply ensures_bind; [apply (ensures_get i ls name (Namespace cfg) (idle t));
    [by apply steady_idle|done]|].
  intros [p|e] w1 [Hw1 Hp]; [|destruct (IsNotFound e); by apply ensures_ret].
  destruct Hp as (Hn & Hns & Hk). specialize (Hk eq_refl).
  destruct (HasRef p) eqn:Hr; [by apply ensures_ret|].
  eapply ensures_bind; [by apply (ensures_ShouldDelay i t)|].
  intros [[p' b] [e|]] w2 [Hw2 Hb]; [by apply ensures_ret|]. simpl in Hb.
  destruct b; [by apply ensures_ret|]. destruct (Hb eq_refl) as [-> Hk2].
  by apply (ensures_delete i t).
Qed.

Lemma ensures_JUmount i t w :
  mine i t → t ∉ mounted w →
  ensures i [] (JUmount cfg (volume_of t) t)
    (λ e w', (t ∉ mounted w') ∧ (e = None → released t w')) w.
Proof.
  intros Ht Hw. unfold JUmount. fold (pod_of t). rewrite with_pod_lock_eq.
  change (fnv32a (pod_of t) mod 1024)%Z with (lock_of (pod_of t)).
  set (name := pod_of t). set (ls := [lock_of name]).
  apply (ensures_lock i _ _ (λ w, t ∉ mounted w)); [by apply steady_unmounted| |done|].
  { intros e. apply steady_and; [by apply steady_unmounted|].
    by apply (steady_imp i [] (e = None)), steady_released. }
  intros w1 Hw1. eapply ensures_bind; [apply (ensures_get i ls name (Namespace cfg) (λ w, t ∉ mounted w));
    [by apply steady_unmounted|done]|].
  intros [p|e] w2 [Hw2 Hp].
  2: { destruct (IsNotFound e) eqn:Hnf; apply ensures_ret; (split; [done|]); [|done].
       intros _ A HA. fold name in HA. by rewrite (Hp eq_refl eq_refl) in HA. }
  destruct Hp as (Hn & Hns & _). cbv zeta. rewrite Hn, Hns.
  eapply ensures_bind; [apply (ensures_retry i ls _ (λ w, t ∉ mounted w) (released t)); [done|]|].
  { intros w3 Hw3. by apply ensures_remove_ref_attempt. }
  intros [e|] w3 [Hw3 Hrel]; [by apply ensures_ret|]. specialize (Hrel eq_refl).
  eapply ensures_bind; [apply (ensures_get i ls name (Namespace cfg) (idle t));
    [by apply steady_idle|by split]|].
  intros [q|e] w4 [[Hw4 Hr4] _]; [|destruct (IsNotFound e); by apply ensures_ret].
  destruct (HasRef q); [by apply ensures_ret|].
  eapply ensures_mono; [apply (ensures_retry i ls _ (idle t) (λ _, True)); [by split|]|].
  - intros w5 Hw5. eapply ensures_mono; [by apply ensures_delete_attempt|]. by intros e w6 _ Hw6.
  - intros e w5 _ [[Hw5 Hr5] _]. by split.
Qed.

(** *** The two requests of the node service *)

(** A target is bound only when it is referenced. *)
Lemma ensures_mount i src t w :
  mine i t → referenced t w →
  ensures i [] (call (EMount src t "none" ["bind"]))
    (λ r w', (r = None → t ∈ mounted w') ∧ referenced t w') w.
Proof.
  intros Ht Hw. apply ensures_call; [done|]. intros w1 Hr Hi. cbv zeta.
  assert (referenced t w1) as Hw1 by (eapply (steady_referenced i []); [done..|by left]).
  assert (∀ n, state n (h _ (EMount src t "none" ["bind"]) w1).2 = state n w1) as Hst.
  { intros n. unfold mount_state_of. by rewrite (server_keeps (h := h) _ (EMount src t "none" ["bind"])). }
  destruct (h _ (EMount src t "none" ["bind"]) w1) as [r w2] eqn:He. simpl in *.
  destruct (host_mount _ _ _ _ _ _ _ He) as [Hsub Hin].
  assert (∀ t', t' ≠ t → (t' ∈ mounted w2 → t' ∈ mounted w1)) as Hne by set_solver.
  assert (∀ t', referenced t' w1 → referenced t' w2) as Href
    by (intros t' (A & HA); exists A; by rewrite Hst).
  split; [|split; [|by auto]].
  - split; [intros; apply Hst|]. intros t' Ht' Hown. assert (t' ≠ t) as Hnt
      by (intros ->; by apply Hown, Ht).
    split; [auto|auto|]. intros Hrel A HA. rewrite Hst in HA. by apply Hrel.
  - intros t' Ht'. destruct (Hi t' Ht') as [H1 H2]. split; [|intros A v HA; rewrite Hst in HA; by apply H2].
    intros Hin'. destruct (decide (t' = t)) as [->|Hnt]; auto.
Qed.

(** What a request of the kubelet to this node is.  The annotations a user gives to the
    mount pods are not keys of references. *)
Definition node_request (i : nat) (o : csi_op) : Prop :=
  match o with
  | OpPublish req =>
      mine i (np_TargetPath req) ∧ np_VolumeId req = volume_of (np_TargetPath req) ∧
      ∃ m, np_Secrets req = Some m ∧
        ∀ s t, ParseSetting cfg (Some m) (np_VolumeContext req) true = Ok s → t ∈ T →
          base_annots s !! GetReferenceKey t = None
  | OpUnpublish _ volumeId target => mine i target ∧ volumeId = volume_of target
  | _ => False
  end.

Lemma aside_settings id target secrets volCtx options :
  aside (getSettings cfg id target secrets volCtx options).
Proof. split; [by apply avoids_getSettings|apply quiet_settings]. Qed.

Lemma ensures_JfsMount i volumeId target m volCtx options w :
  mine i target → volumeId = volume_of target →
  (∀ s t, ParseSetting cfg (Some m) volCtx true = Ok s → t ∈ T →
     base_annots s !! GetReferenceKey t = None) →
  ensures i [] (JfsMount cfg (provider cfg) volumeId target (Some m) volCtx options)
    (λ r w', (∃ fs, r = Ok fs) → referenced target w') w.
Proof.
  intros Ht Hvol Hbase. unfold JfsMount.
  eapply ensures_bind; [apply ensures_wp; [apply wp_getSettings_published|]|].
  { by apply (ensures_aside i [] _ (λ _, True)); [apply aside_settings|..]. }
  intros [secrets [s|err]] w1 [Hs _]; [|apply ensures_ret; by intros [? [=]]].
  destruct Hs as (s0 & Hp & Hpod & Hv & Htg & Ha). rewrite Hby in Hp. pose proof Hp as Hp0.
  apply ParseSetting_UsePod in Hp. rewrite Hp in Hpod. unfold MountFs. rewrite Hpod.
  set (s' := with_MountPath (PathJoin [PodMountBase; js_VolumeId s]) s). assert (js_TargetPath s' = target) as Htg' by done.
  eapply ensures_bind; [eapply ensures_bind; [apply (ensures_JMount i s')|]|].
  - by rewrite Htg'.
  - rewrite Htg', <- Hvol. exact Hv.
  - intros t' Ht'. change (base_annots s !! GetReferenceKey t' = None). rewrite Ha. by apply (Hbase s0).
  - intros [e s1] w2 Href. rewrite Htg' in Href.
    apply (ensures_ret _ _ _ _ _ _ (λ r w', (∃ p, r = Ok p) → referenced target w')).
    destruct e; [by intros [? [=]]|]. intros _. by apply Href.
  - intros [path|err] w2 Href; apply ensures_ret; [|by intros [? [=]]].
    intros _. apply Href. by eexists.
Qed.

Definition published (target : string) (w : W) : Prop :=
  target ∈ mounted w ∧ referenced target w.

Lemma ensures_NodePublishVolume i req w :
  node_request i (OpPublish req) →
  ensures i [] (NodePublishVolume cfg (provider cfg) req)
    (λ r w', r = Ok tt → published (np_TargetPath req) w') w.
Proof.
  intros (Ht & Hvol & m & Hm & Hbase). unfold NodePublishVolume. cbv zeta.
  destruct (String.eqb _ ""); [by apply ensures_ret|].
  destruct (np_VolumeCapability req) as [cap|]; [|by apply ensures_ret].
  destruct (negb _); [by apply ensures_ret|].
  eapply ensures_bind; [by apply (ensures_step i [] _ (λ _, True))|].
  intros [e|] w1 _; [by apply ensures_ret|].
  eapply ensures_bind; [apply (ensures_aside i [] _ (λ _, True)); [|done..]|].
  { unfold mount_options, range_keys. split; avoids. }
  intros opts w2 _. rewrite Hm.
  eapply ensures_bind; [by apply (ensures_JfsMount i)|].
  intros [fs|err] w3 Href; [|by apply ensures_ret].
  eapply ensures_bind; [apply (ensures_aside i [] _ (referenced (np_TargetPath req)))|].
  { split; unfold CreateVol, make_volume_dir; avoids. }
  { by apply steady_referenced. }
  { apply Href. by eexists. }
  intros [src|err] w4 Hr; [|by apply ensures_ret].
  unfold bind_target. eapply ensures_bind; [by apply (ensures_mount i)|].
  intros [err|] w5 [Hin Hr5]; [|apply ensures_ret; intros _; split; auto].
  eapply ensures_bind; [by apply (ensures_step i [] _ (λ _, True))|].
  intros r w6 _. by apply ensures_ret.
Qed.

(** Cleaning up leaves no mount on the target. *)
Lemma ensures_cleanup i t w :
  mine i t →
  ensures i [] (JfsCleanupMountPoint t) (λ e w', e = None → t ∉ mounted w') w.
Proof.
  intros Ht. apply ensures_call; [done|]. intros w1 Hr Hi. cbv zeta.
  assert (still w1 (h _ (ECleanupMountPoint t) w1).2) as Hs by by apply step_still.
  split; [by apply still_guar|]. split; [by eapply calm_sound; [apply still_calm|]|].
  destruct (h _ (ECleanupMountPoint t) w1) as [r w2] eqn:He. simpl. intros ->. by eapply host_cleanup.
Qed.

Lemma mountless_umount_all n path : avoids may_mount (umount_all n path).
Proof. induction n as [|n IH]; [done|]. cbn [umount_all]. avoids. Qed.

Lemma ensures_NodeUnpublishVolume i fuel volumeId target w :
  node_request i (OpUnpublish fuel volumeId target) →
  ensures i [] (NodeUnpublishVolume cfg (provider cfg) fuel volumeId target)
    (λ r w', r = Some (Ok tt) → idle target w') w.
Proof.
  intros [Ht ->]. unfold NodeUnpublishVolume. destruct (String.eqb _ ""); [by apply ensures_ret|].
  eapply ensures_bind with (Q := λ r w', r = Some None → idle target w').
  2: { intros [[err|]|] w1 Hu; apply ensures_ret; auto; by intros [=]. }
  unfold JfsUnmount. rewrite Hby.
  eapply ensures_bind; [apply (ensures_aside i [] _ (λ _, True)); [|done..]|].
  { split; [apply mountless_umount_all|apply quiet_umount_all]. }
  intros [[err|]|] w1 _; [by apply ensures_ret| |by apply ensures_ret].
  eapply ensures_bind; [by apply (ensures_cleanup i)|].
  intros [err|] w2 Hno; [by apply ensures_ret|].
  eapply ensures_bind; [by apply (ensures_JUmount i); auto|].
  intros e w3 [Hw3 Hr]. apply ensures_ret. intros [= ->]. split; auto.
Qed.

Lemma ensures_csi_goroutine i os w :
  Forall (node_request i) os → ensures i [] (csi_goroutine cfg os) (λ _ _, True) w.
Proof.
  intros Hos. revert w. induction Hos as [|o os Ho _ IH]; intros w; [by apply ensures_ret|].
  eapply ensures_bind with (Q := λ _ _, True); [|intros [] w1 _; apply IH].
  destruct o as [req d|id secrets d|req|fuel id target]; [done..| |]; simpl.
  - eapply ensures_bind; [by apply (ensures_NodePublishVolume i)|]. intros r w1 _. by apply ensures_ret.
  - eapply ensures_bind; [by apply (ensures_NodeUnpublishVolume i fuel)|]. intros r w1 _. by apply ensures_ret.
Qed.


(** The same of one goroutine that nothing disturbs, on every way out. *)
Theorem served_targets_referenced os w o w' i :
  Forall (node_request i) os → sound w →
  exec h (csi_goroutine cfg os) w = (o, w') → sound w'.
Proof.
  intros Hos Hw He.
  by destruct (ensures_exec h (rely i) (guar i) sound [] _ _ w o w' (rely_refl i) Hw
                 (ensures_csi_goroutine i os w Hos) He).
Qed.

End Published.
