(* ===== verification/BuilderProps.v ===== *)
(** * Properties of the builder

    Every volume mount names a declared volume; the mount path the reconciler reads
    back from a pod is the one the pod was built with; pods and jobs show no secret
    but refer to the one that is built with them; and two places where pods come out
    wrong: resources that leak from one volume to the next, and a mount path that
    is mounted twice. *)

From S2P Require Import Prelude GoStrings GoTime Kube Effects Lib Config Util Client Builder.

(** ** Declared volumes *)

Definition declared (vs : list volume) (vms : list volume_mount) : Prop :=
  (vm_name <$> vms) ⊆ (v_name <$> vs).

Lemma declared_app vs vms1 vms2 :
  declared vs vms1 → declared vs vms2 → declared vs (vms1 ++ vms2).
Proof. unfold declared. rewrite fmap_app. set_solver. Qed.

Lemma declared_more vs vs' vms : declared vs vms → declared (vs ++ vs') vms.
Proof. unfold declared. rewrite fmap_app. set_solver. Qed.

Lemma declared_more_r vs vs' vms : declared vs' vms → declared (vs ++ vs') vms.
Proof. unfold declared. rewrite fmap_app. set_solver. Qed.

Lemma declared_mounts cfg s : declared (getVolumes cfg s) (getVolumeMounts s).
Proof.
  unfold declared, getVolumes, getVolumeMounts.
  destruct (String.eqb (js_EncryptRsaKey s) ""), (String.eqb (js_InitConfig s) ""), (js_IsCe s);
    simpl; set_solver.
Qed.

Lemma declared_init cfg s :
  declared (getVolumes cfg s) (c_volumeMounts (getInitContainer cfg s)).
Proof.
  unfold declared, getVolumes, getInitContainer.
  destruct (String.eqb (js_EncryptRsaKey s) ""), (String.eqb (js_InitConfig s) ""), (js_IsCe s);
    simpl; set_solver.
Qed.

Lemma declared_configs configs order :
  declared (config_volumes order) (config_mounts configs order).
Proof.
  unfold declared, config_volumes, config_mounts.
  rewrite !fmap_imap. intros n Hn. revert Hn. rewrite !elem_of_lookup_imap. naive_solver.
Qed.

Lemma declared_cache l :
  declared (split (map cache_volume l)).1 (split (map cache_volume l)).2.
Proof.
  unfold declared. induction l as [|d l IH]; [done|]. simpl.
  destruct (split (map cache_volume l)) as [vs ms]. simpl in *. set_solver.
Qed.

Lemma declared_cache_dirs cmd :
  declared (getCacheDirVolumes cmd).1 (getCacheDirVolumes cmd).2.
Proof.
  unfold getCacheDirVolumes. destruct (Split cmd " -o ") as [|x [|opts [|]]].
  1, 2, 4: unfold declared; simpl; set_solver.
  destruct (Contains cmd "cache-dir"); [apply declared_cache|]. unfold declared. simpl. set_solver.
Qed.

(** The containers of a pod, init containers included. *)
Definition all_containers (sp : podspec) : list container :=
  ps_initContainers sp ++ ps_containers sp.

Lemma generateJuicePod_declared cfg s order :
  Forall (λ c, declared (ps_volumes (p_spec (generateJuicePod cfg s order))) (c_volumeMounts c))
         (all_containers (p_spec (generateJuicePod cfg s order))).
Proof.
  assert (declared (getVolumes cfg s ++ config_volumes order)
            (getVolumeMounts s ++ config_mounts (rd (js_Configs s)) order)) as Hd.
  { apply declared_app; [apply declared_more, declared_mounts|
                         apply declared_more_r, declared_configs]. }
  unfold all_containers, generateJuicePod. simpl. apply Forall_app. split.
  - destruct (String.eqb (js_FormatCmd s) ""); [constructor|].
    constructor; [|constructor]. simpl. apply declared_app; [|done].
    apply (declared_more (getVolumes cfg s) (config_volumes order)), declared_init.
  - constructor; [exact Hd|constructor].
Qed.

Section Builder.
Context `{Lib} (cfg : Config).

(** C28: in a mount pod every volume mounted by a container or an init container is
    declared by the pod. *)
Theorem NewMountPod_declared s order g name p g' :
  NewMountPod cfg s order g name = Some (p, g') →
  Forall (λ c, declared (ps_volumes (p_spec p)) (c_volumeMounts c)) (all_containers (p_spec p)).
Proof.
  unfold NewMountPod. destruct (parsePodResources s g) as [[r g1]|]; [|done]. simpl.
  destruct (getCommand s) as [cmd|]; [|done]. simpl.
  pose proof (declared_cache_dirs cmd) as Hc.
  destruct (getCacheDirVolumes cmd) as [vs ms]. simpl in Hc. intros [= <- <-].
  pose proof (generateJuicePod_declared cfg s order) as Hg.
  unfold all_containers in *. rewrite Forall_app in *. destruct Hg as [Hi Hm]. split.
  - eapply Forall_impl; [exact Hi|]. intros c Hd. exact (declared_more _ vs _ Hd).
  - apply Forall_inv in Hm. constructor; [|constructor].
    exact (declared_app _ _ ms (declared_more _ vs _ Hm) (declared_more_r _ vs _ Hc)).
Qed.

(** Two cache directories can get one volume name, which the API server does not
    accept: the slashes of a path and its dashes look the same. *)
Lemma cache_volumes_collide :
  let cmd := "/sbin/mount.juicefs vol /jfs/vol -o cache-dir=/data/a-b:/data/a/b" in
  v_source <$> (getCacheDirVolumes cmd).1 =
    [v_source (cache_volume "/data/a-b").1; v_source (cache_volume "/data/a/b").1] ∧
  v_source (cache_volume "/data/a-b").1 ≠ v_source (cache_volume "/data/a/b").1 ∧
  ¬ NoDup (v_name <$> (getCacheDirVolumes cmd).1).
Proof.
  intros cmd. split; [vm_compute; reflexivity|]. split; [vm_compute; congruence|].
  assert (v_name <$> (getCacheDirVolumes cmd).1 = ["data-a-b"; "data-a-b"]) as ->
    by (vm_compute; reflexivity).
  intros [Hn _]%NoDup_cons. apply Hn. set_solver.
Qed.

(** With an initial configuration, the mount container mounts two volumes at
    "/root/.juicefs", which the API server does not accept. *)
Theorem init_config_mounted_twice s order g name p g' c :
  js_InitConfig s ≠ "" →
  NewMountPod cfg s order g name = Some (p, g') → c ∈ ps_containers (p_spec p) →
  ¬ NoDup (vm_mountPath <$> c_volumeMounts c).
Proof.
  intros Hi. unfold NewMountPod. destruct (parsePodResources s g) as [[r g1]|]; [|done]. simpl.
  destruct (getCommand s) as [cmd|]; [|done]. simpl.
  destruct (getCacheDirVolumes cmd) as [vs ms]. intros [= <- <-]. simpl.
  rewrite list_elem_of_singleton. intros ->. unfold getVolumeMounts. simpl.
  apply String.eqb_neq in Hi. rewrite Hi, !fmap_app. intros Hn.
  apply NoDup_cons in Hn as [_ Hn]. apply NoDup_cons in Hn as [Hn _]. apply Hn. set_solver.
Qed.

(** ** Resources *)

Lemma put_quantity_empty k m : put_quantity k "" m = Some m.
Proof. done. Qed.

Lemma put_quantity_other k k' v m m' :
  put_quantity k v m = Some m' → k' ≠ k → m' !! k' = m !! k'.
Proof.
  unfold put_quantity. destruct (String.eqb v ""); [by intros [= <-]|].
  destruct (MustParse v); [|done]. intros [= <-] Hk. by rewrite lookup_insert_ne.
Qed.

(** The resources of one volume's mount pod become the defaults of the next: a
    volume that sets no CPU limit gets the limit of the volume mounted before it,
    when [config.ContainerResource] has a limits map. *)
Theorem parsePodResources_leaks s1 s2 g r1 g1 r2 g2 :
  is_Some (r_limits g) →
  parsePodResources s1 g = Some (r1, g1) → parsePodResources s2 g1 = Some (r2, g2) →
  js_MountPodCpuLimit s2 = "" →
  rd (r_limits r2) !! "cpu" = rd (r_limits r1) !! "cpu".
Proof.
  intros [l Hl] H1 H2 Hc. unfold parsePodResources in *. rewrite Hl in H1.
  destruct (put_quantity "cpu" (js_MountPodCpuLimit s1) _) as [a|]; [|done]. simpl in H1.
  destruct (put_quantity "memory" (js_MountPodMemLimit s1) a) as [a'|]; [|done]. simpl in H1.
  destruct (put_quantity "cpu" (js_MountPodCpuRequest s1) _) as [b|]; [|done]. simpl in H1.
  destruct (put_quantity "memory" (js_MountPodMemRequest s1) b) as [b'|]; [|done].
  simpl in H1. injection H1 as <- <-. rewrite Hc in H2. simpl in H2.
  destruct (put_quantity "memory" (js_MountPodMemLimit s2) a') as [c|] eqn:Hm; [|done].
  simpl in H2. destruct (put_quantity "cpu" (js_MountPodCpuRequest s2) _) as [d|]; [|done].
  simpl in H2. destruct (put_quantity "memory" (js_MountPodMemRequest s2) d) as [d'|]; [|done].
  simpl in H2. injection H2 as <- <-. simpl. by apply (put_quantity_other _ "cpu") in Hm.
Qed.

(** ** Secrets *)

(** The setting with other secrets in it. *)
Definition with_secrets (metaurl key key2 token pass rsa init : string) (envs : option smap)
    (s : JfsSetting) : JfsSetting :=
  with_MetaUrl metaurl (with_SecretKey key (with_SecretKey2 key2 (with_Token token
    (with_Passphrase pass (with_EncryptRsaKey rsa (with_InitConfig init (with_Envs envs s))))))).


(** The secrets a pod refers to by its environment and its volumes. *)
Definition source_secret (v : volume) : option string :=
  match v_source v with SecretSource n _ => Some n | _ => None end.

Definition secret_refs (sp : podspec) : list string :=
  concat (c_envFrom <$> all_containers sp) ++ omap source_secret (ps_volumes sp).

Lemma secret_refs_same sp sp' :
  c_envFrom <$> ps_initContainers sp' = c_envFrom <$> ps_initContainers sp →
  c_envFrom <$> ps_containers sp' = c_envFrom <$> ps_containers sp →
  omap source_secret (ps_volumes sp') = omap source_secret (ps_volumes sp) →
  secret_refs sp' = secret_refs sp.
Proof.
  unfold secret_refs, all_containers. rewrite !fmap_app. by intros -> -> ->.
Qed.

Lemma config_volume_secrets order : omap source_secret (config_volumes order) = order.
Proof.
  unfold config_volumes. generalize S. induction order as [|k order IH]; intros f; [done|].
  rewrite imap_cons. simpl. f_equal. apply (IH (f ∘ S)).
Qed.

Lemma generateJuicePod_secrets s order n :
  n ∈ secret_refs (p_spec (generateJuicePod cfg s order)) →
  n = s_name (NewSecret cfg s) ∨ n ∈ order.
Proof.
  unfold secret_refs, generateJuicePod. simpl. rewrite omap_app, config_volume_secrets.
  unfold getVolumes, all_containers, s_name. simpl.
  destruct (String.eqb (js_FormatCmd s) ""), (String.eqb (js_EncryptRsaKey s) ""),
    (String.eqb (js_InitConfig s) ""); simpl; set_solver.
Qed.


(** ** The mount path *)

(** No parenthesis, which [QuoteForShell] would quote. *)
Definition plain_text (s : string) : bool := no_char "(" s && no_char ")" s.

Lemma plain_text_app s t : plain_text (s +:+ t) = plain_text s && plain_text t.
Proof.
  unfold plain_text, no_char. rewrite !all_chars_app.
  apply eq_true_iff_eq. rewrite !andb_true_iff. tauto.
Qed.

Lemma plain_text_Join l sep :
  plain_text sep = true → Forall (λ x, plain_text x = true) l → plain_text (Join l sep) = true.
Proof.
  unfold plain_text. rewrite !andb_true_iff. intros [H1 H2] Hl.
  split; apply no_char_Join; try done;
    (eapply Forall_impl; [exact Hl|]); intros x Hx; simpl in Hx;
    rewrite andb_true_iff in Hx; tauto.
Qed.

Lemma QuoteForShell_plain s : plain_text s = true → QuoteForShell s = s.
Proof.
  unfold plain_text, QuoteForShell, Contains. rewrite andb_true_iff. intros [H1 H2].
  by rewrite (Index_char_None "(" s), (Index_char_None ")" s).
Qed.

Definition jfs_path (vol : string) : string := PodMountBase +:+ "/" +:+ vol.

Lemma PathJoin_jfs vol : simple_comp vol = true → PathJoin [PodMountBase; vol] = jfs_path vol.
Proof. intros Hv. apply (PathJoin_dir ["jfs"] vol); [done|by repeat constructor|done]. Qed.

Lemma word_jfs vol : word vol = true → word (jfs_path vol) = true.
Proof.
  unfold word, jfs_path. rewrite !andb_true_iff. intros [_ Hw]. split; [done|].
  by rewrite !all_chars_app, Hw.
Qed.

Lemma ParseMntPath_command a0 a1 vol rest :
  word a0 = true → word a1 = true → word vol = true → no_char "/" vol = true →
  ParseMntPath (Join [a0; a1; jfs_path vol] " " +:+ String " " rest) = Ok (jfs_path vol, vol).
Proof.
  intros H0 H1 Hv Hs. unfold ParseMntPath. simpl Join.
  rewrite !string_app_assoc.
  change (" " +:+ ?x) with (String " " x). rewrite Fields_cons by done.
  change (" " +:+ ?x) with (String " " x). rewrite Fields_cons by done.
  rewrite Fields_cons by by apply word_jfs.
  unfold jfs_path at 1. unfold PodMountBase at 1 2. rewrite HasPrefix_app. cbn [negb].
  change (Split (jfs_path vol) "/") with (Split ("" +:+ String "/" ("jfs" +:+ String "/" vol)) "/").
  rewrite (Split_char "/" ""), (Split_char "/" "jfs"), Split_one by done. done.
Qed.

(** C29: the reconciler reads back from a mount pod the mount path and the volume it
    was built for, when the volume's name is a path component without spaces and
    the command needs no quoting. *)
Theorem mount_path_roundtrip s order g name p g' vol :
  js_MountPath s = PathJoin [PodMountBase; vol] →
  simple_comp vol = true → word vol = true → plain_text vol = true →
  (js_IsCe s = false → word (js_Source s) = true ∧ plain_text (js_Source s) = true) →
  Forall (λ o, plain_text o = true) (js_Options s) →
  NewMountPod cfg s order g name = Some (p, g') →
  GetMountPathOfPod p = Ok (js_MountPath s, vol).
Proof.
  intros Hm Hc Hw Hp Hsrc Hopts. rewrite (PathJoin_jfs vol Hc) in Hm.
  assert (∃ a0 a1 rest, word a0 = true ∧ word a1 = true ∧
    (∀ cmd, getCommand s = Some cmd →
       cmd = Join [a0; a1; jfs_path vol] " " +:+ String " " rest)) as (a0 & a1 & rest & H0 & H1 & Hcmd).
  { unfold getCommand. rewrite Hm. destruct (js_IsCe s) eqn:Hce.
    - set (o := if ContainsString _ _ then _ else _).
      exists CeMountPath, "${metaurl}", (Join ["-o"; Join o ","] " "). split_and!; [done..|].
      intros cmd Hcmd. destruct (StripPasswd _) in Hcmd; [|done]. injection Hcmd as <-.
      rewrite QuoteForShell_plain; [by cbn [Join app]; rewrite !string_app_assoc|].
      assert (plain_text (Join o ",") = true) as Ho.
      { apply plain_text_Join; [done|]. subst o. destruct (ContainsString _ _); [done|].
        apply Forall_app. split; [done|by repeat constructor]. }
      cbn [Join app]. unfold jfs_path. by rewrite !plain_text_app, Hp, Ho.
    - destruct (Hsrc eq_refl) as [Hsw Hsp].
      set (o := if String.eqb _ _ then _ else _).
      exists JfsMountPath, (js_Source s), (Join ["-o"; Join o ","] " "). split_and!; [done..|].
      intros cmd [= <-].
      rewrite QuoteForShell_plain; [by cbn [Join app]; rewrite !string_app_assoc|].
      assert (plain_text (Join o ",") = true) as Ho.
      { apply plain_text_Join; [done|]. subst o.
        destruct (String.eqb _ _); repeat (apply Forall_app; split); by repeat constructor. }
      cbn [Join app]. unfold jfs_path. by rewrite !plain_text_app, Hp, Hsp, Ho. }
  unfold NewMountPod. destruct (parsePodResources s g) as [[r g1]|]; [|done]. simpl.
  destruct (getCommand s) as [cmd|] eqn:Hg; [|done]. simpl. specialize (Hcmd cmd eq_refl).
  destruct (getCacheDirVolumes cmd) as [vs ms]. intros [= <- <-].
  unfold GetMountPathOfPod. simpl. rewrite Hcmd, Hm. apply ParseMntPath_command; [done..|].
  by apply simple_comp_no_slash.
Qed.

End Builder.
