(* ===== verification/ConfigProps.v ===== *)
(** * Properties of the configuration

    The mutex of a pod's name on 64-bit and 32-bit platforms, and the fields
    [ParseSetting] takes from the secrets and from the volume context. *)

From S2P Require Import Prelude GoStrings GoHash GoTime Kube Effects Config.

(** On a 64-bit platform every pod name has a mutex, one of the 1024; where [int]
    has 32 bits some names make the index negative, and [GetPodLock] panics. *)
Theorem GetPodLock_platforms :
  (∀ name, ∃ i, GetPodLock 64 name = Some i ∧ (0 ≤ i < 1024)%Z) ∧
  ∃ name, GetPodLock 32 name = None.
Proof.
  split.
  - intros name. rewrite GetPodLock_64. eexists. split; [done|].
    apply Z.mod_pos_bound. lia.
  - exists "juicefs-node-pvc". vm_compute. done.
Qed.

(** ** [ParseSetting] *)

(** What the secrets [m] set. *)
Definition from_secrets (m : smap) (s : JfsSetting) : Prop :=
  js_Name s = get m "name" ∧ js_Name s ≠ "" ∧
  js_MetaUrl s = get m "metaurl" ∧ js_Storage s = get m "storage" ∧
  js_IsCe s = bool_decide (is_Some (m !! "metaurl")) ∧
  (get m "secretkey" ≠ "" → js_SecretKey s = get m "secretkey") ∧
  (get m "secretkey2" ≠ "" → js_SecretKey2 s = get m "secretkey2").

(** What the volume context [ctx] sets. *)
Definition from_context `{Codec} (ctx : smap) (s : JfsSetting) : Prop :=
  js_MountPodCpuLimit s = get ctx mountPodCpuLimitKey ∧
  js_MountPodMemLimit s = get ctx mountPodMemLimitKey ∧
  js_MountPodCpuRequest s = get ctx mountPodCpuRequestKey ∧
  js_MountPodMemRequest s = get ctx mountPodMemRequestKey ∧
  js_MountPodServiceAccount s = get ctx mountPodServiceAccount ∧
  (get ctx deleteDelay ≠ "" →
     js_DeletedDelay s = get ctx deleteDelay ∧ is_Some (ParseDuration (js_DeletedDelay s))) ∧
  (get ctx mountPodAnnotationKey ≠ "" →
     ∃ a, decode_key ctx mountPodAnnotationKey = Ok a ∧ js_MountPodAnnotations s = Some a).

Lemma from_secrets_labels m s l : from_secrets m s → from_secrets m (with_MountPodLabels l s).
Proof. done. Qed.

Lemma from_context_labels `{Codec} ctx s l :
  from_context ctx s → from_context ctx (with_MountPodLabels l s).
Proof. done. Qed.

Lemma parse_volCtx_spec `{Codec} m ctx labels s s' labels' :
  parse_volCtx ctx labels s = Ok (s', labels') → from_secrets m s →
  from_secrets m s' ∧ from_context ctx s' ∧ js_UsePod s' = js_UsePod s ∧
  ∃ l, decode_key ctx mountPodLabelKey = Ok l ∧ labels' = l ∪ labels.
Proof.
  unfold parse_volCtx. intros E Hs.
  destruct (String.eqb_spec (get ctx deleteDelay) "") as [Hd|Hd];
    [|destruct (ParseDuration (get ctx deleteDelay)) eqn:Hp; [|done]].
  all: simpl in E; destruct (decode_key ctx mountPodLabelKey) as [l|] eqn:Hl; [|done]; simpl in E.
  all: destruct (String.eqb_spec (get ctx mountPodAnnotationKey) "") as [Ha|Ha];
    [|destruct (decode_key ctx mountPodAnnotationKey) as [a|] eqn:Hk; [|done]]; simpl in E;
    injection E as <- <-.
  all: (split; [done|]); (split; [|by split; [|exists l]]).
  all: unfold from_context; simpl; split_and!; try done.
  all: intros _; try (by split; [|exists z]); by exists a.
Qed.

Lemma nonempty_or_l a b : a ≠ "" → nonempty_or a b = a.
Proof. intros Ha. unfold nonempty_or. by rewrite (proj2 (String.eqb_neq a "") Ha). Qed.

(** C34: a setting that [ParseSetting] returns has the name, address, storage and keys
    of the secrets, is of the community edition exactly when the secrets have an
    address, and takes resources, service account, delay and annotations from the
    volume context; the delay can be read, and the context's labels come before
    those of the driver. *)
Theorem ParseSetting_spec `{Codec} cfg m volCtx usePod s :
  ParseSetting cfg (Some m) volCtx usePod = Ok s →
  from_secrets m s ∧ js_UsePod s = usePod ∧
  match volCtx with
  | None => True
  | Some ctx =>
      from_context ctx s ∧
      ∃ l, decode_key ctx mountPodLabelKey = Ok l ∧
        ∀ k v, l !! k = Some v → rd (js_MountPodLabels s) !! k = Some v
  end.
Proof.
  unfold ParseSetting. destruct (parseYamlOrJson _ _ m) as [s0|]; [|done]. simpl.
  destruct (String.eqb_spec (get m "name") "") as [|Hn]; [done|].
  destruct (decode_key m "configs") as [configs|]; [|done]. simpl.
  destruct (decode_key m "envs") as [envs|]; [|done]. simpl.
  destruct (if String.eqb (MountLabels cfg) "" then _ else _) as [labels|]; [|done]. simpl.
  set (s1 := with_Envs _ _).
  assert (from_secrets m s1) as H1.
  { subst s1. unfold from_secrets. simpl. split_and!; try done; apply nonempty_or_l. }
  destruct volCtx as [ctx|]; simpl.
  - destruct (parse_volCtx ctx labels s1) as [[s' l']|] eqn:E; [|done]. simpl.
    destruct (parse_volCtx_spec m ctx labels s1 s' l' E H1) as (H2 & H3 & H4 & l & Hl & ->).
    case_bool_decide as He; intros [= <-].
    + split_and!; [done|done|done|]. exists l. split; [done|]. intros k v Hk.
      assert ((l ∪ labels) !! k = Some v) as Hu by by apply lookup_union_Some_l.
      by rewrite He in Hu.
    + split_and!; [done|done|done|]. exists l. split; [done|]. intros k v Hk.
      simpl. by apply lookup_union_Some_l.
  - case_bool_decide; by intros [= <-].
Qed.

(** ** A decoder, to evaluate the model *)

(** The secrets' fields by their tags; no text decodes to a map. *)
Definition demo_codec : Codec := {|
  yaml_setting m := Some (with_Token (get m "token") (with_Passphrase (get m "passphrase")
                      (with_SecretKey (get m "secret-key") (with_SecretKey2 (get m "secret-key2")
                        empty_setting))));
  json_setting _ := None;
  yaml_map t := if String.eqb t "a: b" then Some {["a" := "b"]} else None;
  json_map _ := None |}.

Definition demo_cfg : Config :=
  MkConfig false true false "node-1" "kube-system" "juicefs-csi-node" "juicedata/mount:v1" ""
    "10.0.0.1" "10250"
    (Pod (new_meta "juicefs-csi-node" "kube-system")
       (PodSpec [] [] [] "" "juicefs-csi-node-sa" "" ""
          (PodEnv true false false "" "" "ClusterFirst" "" "" ""))
       empty_status)
    "/var/lib/juicefs/volume" "/var/lib/juicefs/config" "system-node-critical" 5.

Lemma ParseSetting_spec_witness :
  let m : smap := {["name" := "vol"; "metaurl" := "redis://h:6379/1"; "storage" := "s3"]} in
  let ctx : smap := {["juicefs/mount-cpu-limit" := "5"; "juicefs/mount-delete-delay" := "1h";
                      "juicefs/mount-labels" := "a: b"]} in
  ∃ s, @ParseSetting demo_codec demo_cfg (Some m) (Some ctx) true = Ok s ∧
    from_secrets m s ∧ js_UsePod s = true ∧
    (@from_context demo_codec ctx s ∧
     ∃ l, @decode_key demo_codec ctx mountPodLabelKey = Ok l ∧
        ∀ k v, l !! k = Some v → rd (js_MountPodLabels s) !! k = Some v).
Proof.
  intros m ctx. eexists. split; [vm_compute; reflexivity|].
  apply (@ParseSetting_spec demo_codec demo_cfg m (Some ctx) true). vm_compute. reflexivity.
Defined.
