(* ===== verification/PodCommand.v ===== *)
(** * The command of a pod and the driver's own

    With [FormatInPod] the driver does not format or authenticate a file system: the
    mount pod does, by a command that has shell variables where the driver's has
    secrets.  [ParseSetting] keeps the secrets, [NewSecret] puts them into the pod's
    environment, and the shell expands the variables.  This file shows that the pod
    then runs the command the driver would have run. *)

From S2P Require Import Prelude GoStrings GoUrl GoTime Kube Effects Config Lib Util Builder Mount Juicefs JuicefsProps ConfigProps.

(** ** Parameter expansion of a shell *)

(** Characters that a shell leaves alone. *)
Definition shell_plain (a : ascii) : bool := is_alnum a || one_of " -._/:=@,+%" a.

Definition plain_word (s : string) : bool := all_chars shell_plain s.

(** The name of a variable. *)
Definition var_name (k : string) : bool :=
  match k with
  | "" => false
  | String a k' => (is_lower a || Ascii.eqb a "_") &&
                   all_chars (λ a, is_alnum a || Ascii.eqb a "_") k'
  end.

(** [expand env s]: the line [s] after parameter expansion in the environment [env]. *)
Class Shell := {
  expand : (string → string) → string → string;
  expand_nil env : expand env "" = "";
  expand_plain env s t : plain_word s = true → expand env (s +:+ t) = s +:+ expand env t;
  expand_shell_var env k t :
    var_name k = true → expand env (shell_var k +:+ t) = env k +:+ expand env t }.

Section Expand.
Context `{Shell} (env : string → string).

(** Whatever follows. *)
Definition expands_to (s r : string) : Prop := ∀ t, expand env (s +:+ t) = r +:+ expand env t.

Lemma expands_plain s : plain_word s = true → expands_to s s.
Proof. intros Hs t. by apply expand_plain. Qed.

Lemma expands_app s s' r r' :
  expands_to s r → expands_to s' r' → expands_to (s +:+ s') (r +:+ r').
Proof. intros H1 H2 t. by rewrite !string_app_assoc, H1, H2. Qed.

Lemma expands_Join l l' :
  Forall2 expands_to l l' → expand env (Join l " ") = Join l' " ".
Proof.
  assert (∀ l l', Forall2 expands_to l l' → expands_to (Join l " ") (Join l' " ")) as Hj.
  { clear l l'. intros l l'. induction 1 as [|a b l l' Hab Hl IH]; [by intros t|].
    destruct Hl as [|a' b' l l' Ha' Hl]; [done|].
    change (Join (a :: a' :: l) " ") with (a +:+ " " +:+ Join (a' :: l) " ").
    change (Join (b :: b' :: l') " ") with (b +:+ " " +:+ Join (b' :: l') " ").
    apply expands_app; [done|]. apply expands_app; [by apply expands_plain|done]. }
  intros Hl. specialize (Hj l l' Hl ""). by rewrite expand_nil, !string_app_nil_r in Hj.
Qed.

Lemma expands_flag k v r :
  plain_word k = true → expands_to v r → expands_to (flag k v) (flag k r).
Proof.
  intros Hk Hv. unfold flag. repeat (apply expands_app; [by apply expands_plain|]). done.
Qed.

Lemma expands_same l : forallb plain_word l = true → Forall2 expands_to l l.
Proof.
  induction l as [|s l IH]; [done|]. simpl. rewrite andb_true_iff. intros [??].
  constructor; [by apply expands_plain|auto].
Qed.

Lemma expands_map {A} (f g : A → string) l :
  (∀ x, x ∈ l → expands_to (f x) (g x)) → Forall2 expands_to (map f l) (map g l).
Proof.
  intros Hfg. induction l as [|x l IH]; constructor; [apply Hfg; set_solver|].
  apply IH. intros y Hy. apply Hfg. set_solver.
Qed.
End Expand.

(** ** The secrets on their way into the environment of the pod *)

Lemma get_put_nonempty k v m k' :
  get (put_nonempty k v m) k' = if String.eqb k k' && negb (String.eqb v "") then v else get m k'.
Proof.
  unfold put_nonempty, get. destruct (String.eqb_spec v ""); [by rewrite andb_false_r|].
  destruct (String.eqb_spec k k') as [->|]; simpl; [by rewrite lookup_insert_eq|].
  by rewrite lookup_insert_ne.
Qed.

(** The keys of the pod's secret that commands refer to. *)
Definition secret_vars : list string :=
  ["metaurl"; "token"; "secretkey"; "secretkey2"; "passphrase"].

(** No variable of the volume's own is named like one of them. *)
Definition envs_apart (s : JfsSetting) : Prop :=
  ∀ k, k ∈ secret_vars → rd (js_Envs s) !! k = None.

Definition var_of (s : JfsSetting) (k : string) : string :=
  if String.eqb k "metaurl" then js_MetaUrl s
  else if String.eqb k "token" then js_Token s
  else if String.eqb k "secretkey" then js_SecretKey s
  else if String.eqb k "secretkey2" then js_SecretKey2 s
  else js_Passphrase s.

Lemma NewSecret_var cfg s k :
  envs_apart s → k ∈ secret_vars → get (s_stringData (NewSecret cfg s)) k = var_of s k.
Proof.
  intros He Hk. unfold NewSecret. simpl s_stringData. unfold get at 1.
  rewrite lookup_union, (He k Hk), (left_id_L None _).
  match goal with |- default "" (?m !! k) = _ => change (get m k = var_of s k) end.
  rewrite !get_put_nonempty. unfold get. rewrite lookup_empty.
  unfold secret_vars in Hk. rewrite !elem_of_cons, elem_of_nil in Hk.
  destruct Hk as [->|[->|[->|[->|[->|[]]]]]]; simpl;
    match goal with |- (if negb (String.eqb ?v "") then _ else _) = _ =>
      by destruct (String.eqb_spec v "") end.
Qed.

(** Fields of the setting by their JSON tags. *)
Definition decoded_keys (m : smap) (s : JfsSetting) : Prop :=
  js_Token s = get m "token" ∧ js_Passphrase s = get m "passphrase" ∧
  js_SecretKey s = get m "secret-key" ∧ js_SecretKey2 s = get m "secret-key2".

(** What the decoder makes of these secrets, if anything. *)
Definition decodes `{Codec} (m : smap) : Prop :=
  ∀ s, parseYamlOrJson yaml_setting json_setting m = Ok s → decoded_keys m s.

(** The value of a variable, from the secrets. *)
Definition stored (m : smap) (k : string) : string :=
  if String.eqb k "secretkey" then nonempty_or (get m "secretkey") (get m "secret-key")
  else if String.eqb k "secretkey2" then nonempty_or (get m "secretkey2") (get m "secret-key2")
  else get m k.

Definition stores (m : smap) (s : JfsSetting) : Prop :=
  js_MetaUrl s = get m "metaurl" ∧ js_Token s = get m "token" ∧
  js_SecretKey s = stored m "secretkey" ∧ js_SecretKey2 s = stored m "secretkey2" ∧
  js_Passphrase s = get m "passphrase".

Lemma stores_var m s k : stores m s → k ∈ secret_vars → var_of s k = stored m k.
Proof.
  intros (H1 & H2 & H3 & H4 & H5) Hk. unfold secret_vars in Hk.
  rewrite !elem_of_cons, elem_of_nil in Hk.
  by destruct Hk as [->|[->|[->|[->|[->|[]]]]]].
Qed.

Lemma parse_volCtx_stores `{Codec} m ctx labels s s' labels' :
  parse_volCtx ctx labels s = Ok (s', labels') → stores m s → stores m s'.
Proof.
  unfold parse_volCtx. intros E Hs.
  destruct (String.eqb (get ctx deleteDelay) "");
    [|destruct (ParseDuration (get ctx deleteDelay)); [|done]].
  all: simpl in E; destruct (decode_key ctx mountPodLabelKey) as [l|]; [|done]; simpl in E.
  all: destruct (String.eqb (get ctx mountPodAnnotationKey) "");
    [|destruct (decode_key ctx mountPodAnnotationKey) as [a|]; [|done]]; simpl in E.
  all: by injection E as <- <-.
Qed.

Lemma ParseSetting_stores `{Codec} cfg m volCtx usePod s :
  decodes m → ParseSetting cfg (Some m) volCtx usePod = Ok s → stores m s.
Proof.
  intros Hd. unfold ParseSetting.
  destruct (parseYamlOrJson _ _ m) as [s0|] eqn:H0; [|done]. simpl.
  destruct (Hd _ H0) as (D1 & D2 & D3 & D4).
  destruct (String.eqb (get m "name") ""); [done|].
  destruct (decode_key m "configs") as [configs|]; [|done]. simpl.
  destruct (decode_key m "envs") as [envs|]; [|done]. simpl.
  destruct (if String.eqb (MountLabels cfg) "" then _ else _) as [labels|]; [|done]. simpl.
  set (s1 := with_Envs _ _).
  assert (stores m s1) as H1.
  { subst s1. unfold stores, stored. simpl. by rewrite D1, D2, D3, D4. }
  destruct volCtx as [ctx|]; simpl.
  - destruct (parse_volCtx ctx labels s1) as [[s' l']|] eqn:E; [|done]. simpl.
    apply (parse_volCtx_stores m) in E; [|done]. case_bool_decide; by intros [= <-].
  - case_bool_decide; by intros [= <-].
Qed.

(** ** The commands *)

(** Is the option [--no-update] passed? *)
Definition no_update (m : smap) (τ : trace) (nu : bool) : Prop :=
  match m !! "metaurl" with
  | Some _ => nu = String.eqb (get m "storage") "" || String.eqb (get m "bucket") ""
  | None => ∃ v, Ev (ELookupEnv "JFS_NO_UPDATE_CONFIG") v ∈ τ ∧ nu = bool_decide (v = Some "enabled")
  end.

(** The command of the pod, and the driver's. *)
Definition pod_command (m : smap) (nu : bool) : list string :=
  match m !! "metaurl" with
  | Some _ => format_cmdArgs m nu
  | None => auth_cmdArgs (compatible m) ++ no_update_arg nu
  end.

Definition driver_command (m : smap) (nu : bool) : list string :=
  match m !! "metaurl" with
  | Some _ => CeCliPath :: format_args m nu
  | None => CliPath :: auth_args (compatible m) ++ no_update_arg nu
  end.

Definition executed (cmd : list string) (τ : trace) : Prop :=
  ∃ c args envs x, cmd = c :: args ∧ Ev (EExec c args envs) x ∈ τ.

Lemma executed_last c args envs x τ :
  executed (c :: args) (τ ++ [Ev (EExec c args envs) x]).
Proof.
  exists c, args, envs, x. split; [done|]. apply elem_of_app. right. by apply list_elem_of_singleton.
Qed.

Section Commands.
Context `{Lib} `{Codec} (cfg : Config).

Lemma wp_AuthFs_command m s τ :
  wp (AuthFs cfg (Some m) s) (λ o τ', match o with
     | Done (_, out, None) => ∃ v, Ev (ELookupEnv "JFS_NO_UPDATE_CONFIG") v ∈ τ' ∧
         let nu := bool_decide (v = Some "enabled") in
         if FormatInPod cfg then out = Join (auth_cmdArgs (compatible m) ++ no_update_arg nu) " "
         else executed (CliPath :: auth_args (compatible m) ++ no_update_arg nu) τ'
     | _ => True
     end) τ.
Proof.
  unfold AuthFs. destruct (String.eqb _ ""); [done|]. apply wp_call. intros v.
  set (ev := Ev (ELookupEnv "JFS_NO_UPDATE_CONFIG") v).
  apply wp_bind. eapply wp_mono; [|apply wp_extends].
  intros [[err|]|w] τ1 H1; [done| |done].
  assert (ev ∈ τ1) as Hev by (destruct H1 as [? ->]; set_solver).
  destruct (FormatInPod cfg); [by exists v|].
  apply wp_bind. eapply wp_mono; [|apply wp_extends].
  intros [envs|w] τ2 H2; [|done]. apply wp_call. intros [out [err|]]; [done|].
  exists v. split; [destruct H2 as [? ->]; set_solver|].
  apply executed_last.
Qed.

(** Secrets for which [getSettings] has a command. *)
Definition has_command (m : smap) : Prop := is_Some (m !! "metaurl") ∨ get m "token" ≠ "".

Lemma wp_ceFormat_command m nu s τ :
  wp (ceFormat cfg (Some m) nu s) (λ o τ', match o with
     | Done (out, None) =>
         if FormatInPod cfg then out = Join (format_cmdArgs m nu) " "
         else executed (CeCliPath :: format_args m nu) τ'
     | _ => True
     end) τ.
Proof.
  unfold ceFormat. destruct (String.eqb _ ""); [done|]. destruct (String.eqb _ ""); [done|].
  destruct (FormatInPod cfg); [done|].
  apply wp_bind, wp_any. intros [envs|w] τ1; [|done]. apply wp_call. intros [out [err|]]; [done|].
  apply executed_last.
Qed.

(** What [getSettings] leaves to the pod, or has run. *)
Definition commanded (m : smap) (s : JfsSetting) (τ : trace) : Prop :=
  ∃ nu, no_update m τ nu ∧
    if FormatInPod cfg then js_FormatCmd s = Join (pod_command m nu) " "
    else executed (driver_command m nu) τ.

Lemma wp_getSettings_command volumeID target m volCtx options τ :
  has_command m →
  wp (getSettings cfg volumeID target (Some m) volCtx options)
     (λ o τ', match o with Done (_, Ok s) => commanded m s τ' | _ => True end) τ.
Proof.
  intros Hm. unfold getSettings, commanded, no_update, pod_command, driver_command.
  destruct (ParseSetting _ _ _ _) as [s0|err]; [|done].
  set (s := with_Options _ _). change (rd (Some m)) with m.
  destruct (m !! "metaurl") as [source|] eqn:Hu.
  - apply wp_bind, wp_any. intros [s'|w] τ1; [|done].
    apply wp_bind. eapply wp_mono; [|apply wp_ceFormat_command].
    intros [[out [err|]]|w] τ2 H2; [done| |done]. simpl. eexists. split; [done|].
    unfold with_format. by destruct (FormatInPod cfg).
  - destruct Hm as [[? ?]|Ht]; [congruence|]. rewrite (proj2 (String.eqb_neq _ _) Ht).
    apply wp_bind. eapply wp_mono; [|apply wp_AuthFs_command].
    intros [[[secrets out] [err|]]|w] τ1 H1; [done| |done]. destruct H1 as (v & Hv & Ho).
    simpl. eexists. split; [by exists v|].
    unfold with_format. by destruct (FormatInPod cfg).
Qed.
End Commands.

(** ** Expansion *)

(** The keys whose values are in the text of the commands. *)
Definition text_keys : list string :=
  ["name"; "access-key"; "access-key2"] ++ auth_keys ++ ce_keys.

(** A secret key that is given by both its names has one value; the community edition
    reads the old name only. *)
Definition spelled_once (m : smap) : Prop :=
  match m !! "metaurl" with
  | Some _ => stored m "secretkey" = get m "secret-key"
  | None => ∀ c r, (c, r) ∈ [("secret-key", "secretkey"); ("secret-key2", "secretkey2")] →
      stored m r = default (get m r) (m !! c)
  end.

Lemma compatible_get m c r :
  (c, r) ∈ keysCompatible → get (compatible m) r = default (get m r) (m !! c).
Proof.
  intros Hk. unfold get, compatible. unfold keysCompatible in *.
  rewrite !elem_of_cons, elem_of_nil in Hk. cbn [fold_left].
  destruct Hk as [[= -> ->]|[[= -> ->]|[[= -> ->]|[[= -> ->]|[]]]]];
    rewrite !rename_key_lookup by done; simpl;
    match goal with |- context [m !! ?c] => by destruct (m !! c) end.
Qed.

Lemma compatible_text m k :
  k ∈ "name" :: auth_keys → (∀ k', k' ∈ text_keys → plain_word (get m k') = true) →
  plain_word (get (compatible m) k) = true.
Proof.
  intros Hk Hm.
  assert (∀ c, c ∈ text_keys → k ∈ text_keys → plain_word (default (get m k) (m !! c)) = true) as Hd.
  { intros c Hc Hk'. specialize (Hm c Hc) as H1. unfold get in H1. destruct (m !! c); simpl in *; auto. }
  unfold auth_keys in Hk. rewrite !elem_of_cons, elem_of_nil in Hk.
  destruct Hk as [->|[->|[->|[->|[->|[->|[]]]]]]].
  2: rewrite (compatible_get m "access-key") by not_in; apply Hd; not_in.
  2: rewrite (compatible_get m "access-key2") by not_in; apply Hd; not_in.
  all: unfold get at 1; rewrite compatible_other by not_in; apply Hm; not_in.
Qed.

Section Pod.
Context `{Lib} `{Codec} `{Shell} (cfg : Config).

Lemma plain_elem k l : k ∈ l → forallb plain_word l = true → plain_word k = true.
Proof. rewrite forallb_forall. intros Hk Hl. by apply Hl, list_elem_of_In. Qed.

Lemma expands_flags env m optional ks :
  forallb plain_word ks = true → (∀ k, k ∈ ks → plain_word (get m k) = true) →
  Forall2 (expands_to env) (map (λ k, flag k (get m k)) (keys_passed optional ks m))
    (map (λ k, flag k (get m k)) (keys_passed optional ks m)).
Proof.
  intros Hks Hm. apply expands_map. intros k [_ Hk]%list_elem_of_filter.
  apply expands_flag; [by eapply plain_elem|]. by apply expands_plain, Hm.
Qed.

Lemma expands_no_update env nu : Forall2 (expands_to env) (no_update_arg nu) (no_update_arg nu).
Proof. apply expands_same. by destruct nu. Qed.

(** The pod's environment. *)
Definition pod_env (s : JfsSetting) : string → string := get (s_stringData (NewSecret cfg s)).

Lemma expands_stored m s k :
  stores m s → envs_apart s → k ∈ secret_vars →
  expands_to (pod_env s) (shell_var k) (stored m k).
Proof.
  intros Hs He Hk t. unfold pod_env.
  rewrite expand_shell_var, (NewSecret_var cfg s k He Hk), (stores_var m s k Hs Hk); [done|].
  unfold secret_vars in Hk. rewrite !elem_of_cons, elem_of_nil in Hk.
  by destruct Hk as [->|[->|[->|[->|[->|[]]]]]].
Qed.

Lemma expands_format m s nu source :
  m !! "metaurl" = Some source → stores m s → envs_apart s → spelled_once m →
  (∀ k, k ∈ text_keys → plain_word (get m k) = true) →
  Forall2 (expands_to (pod_env s)) (format_cmdArgs m nu) (CeCliPath :: format_args m nu).
Proof.
  intros Hu Hs He Hsp Hm. unfold spelled_once in Hsp. rewrite Hu in Hsp.
  unfold format_cmdArgs, format_args.
  change (CeCliPath :: ["format"] ++ ?l) with ([CeCliPath; "format"] ++ l).
  repeat apply Forall2_app.
  - by apply expands_same.
  - apply expands_no_update.
  - apply expands_flags; [done|]. intros k Hk. apply Hm. set_solver.
  - apply expands_map. intros kv [_ ->%list_elem_of_singleton]%list_elem_of_filter. simpl.
    apply expands_flag; [done|]. rewrite <- Hsp. apply expands_stored; [done..|not_in].
  - constructor; [|apply expands_same; simpl; rewrite Hm by not_in; done].
    apply (expands_stored m s "metaurl"); [done..|not_in].
Qed.

Lemma expands_auth m s nu :
  m !! "metaurl" = None → stores m s → envs_apart s → spelled_once m →
  (∀ k, k ∈ text_keys → plain_word (get m k) = true) →
  Forall2 (expands_to (pod_env s)) (auth_cmdArgs (compatible m) ++ no_update_arg nu)
    (CliPath :: auth_args (compatible m) ++ no_update_arg nu).
Proof.
  intros Hu Hs He Hsp Hm. unfold spelled_once in Hsp. rewrite Hu in Hsp.
  assert (∀ k, k ∈ auth_stripped → k ∈ secret_vars ∧ stored m k = get (compatible m) k) as Hk.
  { intros k Hk. unfold auth_stripped in Hk. rewrite !elem_of_cons, elem_of_nil in Hk.
    destruct Hk as [->|[->|[->|[->|[]]]]]; (split; [not_in|]).
    2: rewrite (Hsp "secret-key") by not_in; symmetry; apply compatible_get; not_in.
    2: rewrite (Hsp "secret-key2") by not_in; symmetry; apply compatible_get; not_in.
    all: unfold get; by rewrite compatible_other by not_in. }
  change (CliPath :: ?l ++ ?l') with ((CliPath :: l) ++ l').
  apply Forall2_app; [|apply expands_no_update].
  unfold auth_cmdArgs, auth_args.
  change (CliPath :: ["auth"; ?n] ++ ?l) with ([CliPath; "auth"; n] ++ l).
  repeat apply Forall2_app.
  - apply expands_same. simpl. rewrite compatible_text by (try not_in; done). done.
  - apply expands_flags; [done|]. intros k Hin. apply compatible_text; [set_solver|done].
  - apply expands_map. intros k [_ Hin]%list_elem_of_filter. destruct (Hk k Hin) as [Hv <-].
    apply expands_flag; [|by apply expands_stored]. by eapply plain_elem.
Qed.

End Pod.

(** ** A shell, to evaluate the model *)

(** [var]: the part of a name that was read. *)
Fixpoint sh_expand (env : string → string) (var : option string) (s : string) : string :=
  match s, var with
  | "", _ => ""
  | String a s', Some v =>
      if Ascii.eqb a "}" then env v +:+ sh_expand env None s'
      else sh_expand env (Some (v +:+ String a "")) s'
  | String a s', None =>
      match s' with
      | String b s'' => if Ascii.eqb a "$" && Ascii.eqb b "{" then sh_expand env (Some "") s''
                        else String a (sh_expand env None s')
      | "" => String a ""
      end
  end.

Lemma sh_expand_cons env a s :
  Ascii.eqb a "$" = false → sh_expand env None (String a s) = String a (sh_expand env None s).
Proof. intros Ha. destruct s as [|b s]; [done|]. cbn [sh_expand]. by rewrite Ha. Qed.

Lemma sh_expand_plain env s t :
  plain_word s = true → sh_expand env None (s +:+ t) = s +:+ sh_expand env None t.
Proof.
  unfold plain_word. induction s as [|a s IH]; [done|].
  rewrite all_chars_cons, andb_true_iff. intros [Ha Hs].
  rewrite string_app_cons, sh_expand_cons, (IH Hs); [done|].
  revert Ha. clear. by destruct a as [[] [] [] [] [] [] [] []].
Qed.

Lemma sh_expand_var env v k t :
  no_char "}" k = true →
  sh_expand env (Some v) (k +:+ "}" +:+ t) = env (v +:+ k) +:+ sh_expand env None t.
Proof.
  revert v. induction k as [|a k IH]; intros v.
  - intros _. simpl. by rewrite string_app_nil_r.
  - rewrite no_char_cons. intros [Ha Hk]. rewrite string_app_cons. cbn [sh_expand].
    rewrite (proj2 (Ascii.eqb_neq _ _) Ha), (IH _ Hk). by rewrite string_app_assoc.
Qed.

Lemma var_name_closed k : var_name k = true → no_char "}" k = true.
Proof.
  destruct k as [|a k]; [done|]. cbn [var_name]. rewrite andb_true_iff, no_char_cons.
  intros [Ha Hk]. split.
  - intros ->. done.
  - unfold no_char. revert Hk. apply all_chars_mono. clear.
    by intros [[] [] [] [] [] [] [] []].
Qed.

#[export] Program Instance sh : Shell := {| expand env := sh_expand env None |}.
Next Obligation. done. Qed.
Next Obligation. intros. by apply sh_expand_plain. Qed.
Next Obligation.
  intros env k t Hk. unfold shell_var. rewrite !string_app_assoc.
  apply (sh_expand_var env "" k t), var_name_closed, Hk.
Qed.

(** The two ways differ for a secret key given under its new name only: the community
    edition's driver formats without a key, and the pod with it. *)
Lemma spelling_matters :
  let m : smap := {["name" := "vol"; "metaurl" := "redis://h:6379/1"; "secretkey" := "SK"]} in
  ∃ s, @ParseSetting demo_codec demo_cfg (Some m) None true = Ok s ∧
    expand (get (s_stringData (NewSecret demo_cfg s))) (Join (pod_command m true) " ") =
      "/usr/local/bin/juicefs format --no-update --storage= --bucket= --access-key= --secret-key=SK redis://h:6379/1 vol" ∧
    Join (driver_command m true) " " =
      "/usr/local/bin/juicefs format --no-update --storage= --bucket= --access-key= --secret-key= redis://h:6379/1 vol".
Proof. intros m. eexists. split; [vm_compute; reflexivity|]. split; vm_compute; reflexivity. Qed.
