(* ===== verification/Witnesses.v ===== *)
(** * The hypotheses of the theorems can hold

    Each property with hypotheses is applied at a concrete input: a demonstration
    configuration, one volume, and handlers that answer plainly ([plain]) but for
    the requests at hand, or keep pods in memory ([memory]). *)

From S2P Require Import Prelude GoStrings GoHash GoTime Kube Effects Config Lib Client Store Util Builder Mount PodMount PodMountSafety PodMountWait MountInfo Kubelet PodDriver Refs PodDriverSafety PodDriverRecover ProcessMount Juicefs JuicefsProps Driver DriverProps BuilderProps ConfigProps PodCommand.

#[local] Existing Instances demo_lib demo_laws demo_codec.

(** ** Demonstration data *)

Definition stateless (f : ∀ X : Set, eff X → X) : handler unit := λ X e w, (f X e, w).

Definition demo_target : string :=
  "/var/lib/kubelet/pods/uid-1/volumes/kubernetes.io~csi/pvc-1/mount".

Definition demo_s : JfsSetting :=
  with_IsCe true (with_UsePod true (with_Name "vol" (with_MetaUrl "redis://h:6379/1"
    (with_Source "redis://h:6379/1" (with_VolumeId "pvc-1" (with_MountPath "/jfs/pvc-1"
      (with_TargetPath demo_target empty_setting))))))).

Definition demo_name : string := GenerateNameByVolumeId demo_cfg "pvc-1".

Definition ready_status : podstatus :=
  PodStatus "Running" "" "" [Condition "Ready" "True" "" ""; Condition "ContainersReady" "True" "" ""]
            [] [].

(** A mount pod with the annotations [m]. *)
Definition demo_pod (m : smap) : pod :=
  Pod (ObjMeta demo_name "kube-system" "u1" "7" ∅ (Some m) [Finalizer] None [])
      (PodSpec [] [] [] "" "" "" "" (PodEnv false false false "" "" "" "" "" "")) ready_status.

Definition demo_ref : smap := {[GetReferenceKey demo_target := demo_target]}.

Definition demo_world : world :=
  World {[("kube-system", demo_name) := demo_pod demo_ref]} ∅ 0 8.

(** ** Delays, references and waiting *)

Lemma ShouldDelay_deadline_witness :
  let p := demo_pod {[DeleteDelayTimeKey := "1h"]} in
  ∃ p', exec (stateless plain) (ShouldDelay p) tt = (Done (p', true, None), tt) ∧
    ∀ v, exec (stateless plain) (ShouldDelay p') v = (Done (p', true, None), v).
Proof.
  intros p.
  assert (annots p !! DeleteDelayTimeKey = Some "1h") as H1 by (vm_compute; reflexivity).
  assert (annots p !! DeleteDelayAtKey = None) as H2 by (vm_compute; reflexivity).
  assert (ParseDuration "1h" = Some 3600000000000%Z) as H3 by (vm_compute; reflexivity).
  assert (-719528 ≤ ((0 + 3600000000000) / second + local_offset) / 86400 ≤ 2932896)%Z as H4
    by (vm_compute; split; discriminate).
  destruct (ShouldDelay_deadline (stateless plain) p "1h" 3600000000000 tt 0 tt H1 H2 H3 eq_refl H4)
    as (p' & _ & H5 & H6).
  exists p'. split; [exact H5|]. intros []. rewrite (H6 tt). vm_compute. reflexivity.
Defined.

(** The API server knows [p] under every name. *)
Definition one_pod (p : pod) (X : Set) (e : eff X) : X :=
  match e in eff X return X with EPodGet _ _ => Ok p | e' => plain _ e' end.


(** No pod, and creations are refused. *)
Definition refuse (X : Set) (e : eff X) : X :=
  match e in eff X return X with
  | EPodCreate _ _ => Err (ApiOther "exceeded quota")
  | e' => plain _ e'
  end.

Lemma createOrAddRef_create_fails_witness :
  panics (result_of (stateless refuse) (createOrAddRef demo_cfg demo_s) tt).
Proof.
  apply (createOrAddRef_create_fails demo_cfg (stateless refuse)).
  intros X e w. destruct e; simpl; eauto.
Defined.

(** A job that does not complete, without pods. *)
Definition stuck_job : job :=
  Job (new_meta "j" "kube-system") (new_meta "j" "kube-system")
      (PodSpec [] [] [] "" "" "" "" (PodEnv false false false "" "" "" "" "" "")) None [].

Definition no_pods (X : Set) (e : eff X) : X :=
  match e in eff X return X with EJobGet _ _ => Ok stuck_job | e' => plain _ e' end.

Lemma waitUtilJobCompleted_no_pods_witness :
  panics (result_of (stateless no_pods) (waitUtilJobCompleted demo_cfg "j") tt).
Proof.
  apply (waitUtilJobCompleted_no_pods demo_cfg (stateless no_pods)).
  intros X e w. destruct e; simpl; eauto.
Defined.

(** ** The reconciler *)

Definition demo_mit : mountInfoTable :=
  MkMit [MkMountInfo demo_target "/pvc-1"; MkMountInfo demo_target "/pvc-1"] {["uid-1" := false]}.

Lemma resolveTarget_base_witness :
  ∃ mi, result_of (stateless plain) (resolveTarget demo_mit demo_target) tt = Done (Some mi) ∧
    base_ok demo_mit demo_target mi.
Proof.
  eexists. split; [vm_compute; reflexivity|].
  apply (resolveTarget_base (stateless plain) tt). vm_compute. reflexivity.
Defined.

Definition demo_kubelet : kubeletClient := MkKubelet "10.0.0.1" 10250 1 10.

Definition no_pod (X : Set) (e : eff X) : X := plain X e.


(** ** The provider *)

Definition in_pod_cfg : Config :=
  MkConfig (ByProcess demo_cfg) true true (NodeName demo_cfg) (Namespace demo_cfg)
    (PodName demo_cfg) (MountImage demo_cfg) (MountLabels demo_cfg) (HostIp demo_cfg)
    (KubeletPort demo_cfg) (CSIPod demo_cfg) (MountPointPath demo_cfg)
    (JFSConfigPath demo_cfg) (JFSMountPriorityName demo_cfg) (ReconcilerInterval demo_cfg).

(** Two maps given by lists that have the same shape. *)
Lemma same_shape_insert S k v v' m m' :
  (v = "" ↔ v' = "") → (k ∈ S ∨ v = v') → same_shape S m m' →
  same_shape S (<[k := v]> m) (<[k := v']> m').
Proof.
  intros Hv Hk Hs k'. unfold get. destruct (decide (k' = k)) as [->|Hn].
  - rewrite !lookup_insert_eq. split; [|by intros _; simpl; split; [split; eauto|]].
    destruct Hk as [Hk| ->]; [|done]. by intros [].
  - rewrite !lookup_insert_ne by done. apply Hs.
Qed.

Lemma same_shape_empty S : same_shape S ∅ ∅.
Proof. done. Qed.

Definition ee_secrets (token : string) : smap :=
  <["name" := "vol"]> (<["token" := token]> ∅).

Lemma auth_command_hides_witness :
  ∃ sm sm' cmd e,
    result_of (stateless plain) (AuthFs in_pod_cfg (Some (ee_secrets "t0ken")) demo_s) tt
      = Done (sm, cmd, e) ∧
    result_of (stateless plain) (AuthFs in_pod_cfg (Some (ee_secrets "other")) demo_s) tt
      = Done (sm', cmd, e).
Proof.
  destruct (auth_command_hides in_pod_cfg (stateless plain) tt (ee_secrets "t0ken")
              (ee_secrets "other") demo_s demo_s) as (sm & sm' & cmd & e & H1 & H2 & _).
  - reflexivity.
  - unfold ee_secrets. apply same_shape_insert; [done|by right|].
    apply same_shape_insert; [by split|left; set_solver|apply same_shape_empty].
  - exists sm, sm', cmd, e. split; [exact H1|exact H2].
Defined.

Definition ce_secrets (url key : string) : smap :=
  <["name" := "vol"]> (<["metaurl" := url]> (<["secret-key" := key]> ∅)).

Lemma ce_command_hides_witness :
  result_of (stateless plain) (ceFormat in_pod_cfg (Some (ce_secrets "redis://:pw@h/1" "k1")) true demo_s) tt
  = result_of (stateless plain) (ceFormat in_pod_cfg (Some (ce_secrets "redis://:xy@h/1" "k2")) true demo_s) tt.
Proof.
  apply (ce_command_hides in_pod_cfg (stateless plain) tt).
  - reflexivity.
  - unfold ce_secrets. apply same_shape_insert; [done|by right|].
    apply same_shape_insert; [by split|left; set_solver|].
    apply same_shape_insert; [by split|left; set_solver|apply same_shape_empty].
Defined.

Definition bucket_secrets : smap :=
  {["name" := "vol"; "metaurl" := "redis://:pw@h:6379/1"; "storage" := "s3";
    "bucket" := "https://b.s3.amazonaws.com"; "access-key" := "AK"; "secret-key" := "S$K"]}.

Definition bucket_setting : JfsSetting :=
  match result_of (stateless plain)
          (getSettings in_pod_cfg "pvc-1" "" (Some bucket_secrets) None []) tt with
  | Done (_, Ok s) => s
  | _ => empty_setting
  end.

Lemma bucket_setting_envs : js_Envs bucket_setting = Some ∅.
Proof. vm_compute. reflexivity. Qed.


Definition demo_j : juicefs := MkJuicefs (PodMount demo_cfg) ProcessMount.

#[local] Instance demo_pod_laws : MntLaws (podMount demo_j) := PodMount_laws demo_cfg.
#[local] Instance demo_process_laws : MntLaws (processMount demo_j) := ProcessMount_laws.

Lemma JfsMount_path_witness :
  let m := ce_secrets "redis://h:6379/1" "k" in
  ∃ fs, result_of (stateless (one_pod (demo_pod ∅)))
          (JfsMount demo_cfg demo_j "pvc-1" demo_target (Some m) None ["ro"]) tt = Done (Ok fs) ∧
    jfs_MountPath fs = "/jfs/pvc-1" ∧ jfs_Options fs = ["ro"].
Proof.
  intros m. exists (MkJfs "vol" "/jfs/pvc-1" ["ro"]). split; [vm_compute; reflexivity|].
  apply (JfsMount_path demo_cfg demo_j (stateless (one_pod (demo_pod ∅))) tt "pvc-1" demo_target m
           None ["ro"]). vm_compute. reflexivity.
Defined.

(** A host where [umount] takes off one of [n] layers. *)
Definition layered : handler nat := λ X e,
  match e in eff X return nat → X * nat with
  | EExec _ _ _ => λ n, match n with
                        | 0 => (("umount: not mounted", Some (Errorf "exit status 32")), 0)
                        | S n' => (("", None), n')
                        end
  | e' => λ n, (plain _ e', n)
  end.

Lemma JfsUnmount_terminates_witness :
  result_of layered (JfsUnmount demo_cfg demo_j 4 "pvc-1" demo_target) 3 ≠ Done None.
Proof.
  apply (JfsUnmount_terminates demo_cfg layered (λ n, n)); [|lia].
  intros [|n] out w'; simpl; intros [=]; subst; lia.
Defined.

(** The volume's directory cannot be looked up. *)
Definition path_fails (X : Set) (e : eff X) : X :=
  match e in eff X return X with EPathExists _ => (false, Some (Errno 5)) | e' => plain _ e' end.

Lemma JfsCreateVol_mounts_witness :
  let t := JfsCreateVol demo_cfg demo_j "pvc-1" "pvc-1" (Some (ee_secrets "")) in
  result_of (stateless path_fails) t tt = Done (Some could_not_create) ∧
  mount_balance (volume_path "pvc-1") (trace_of (stateless path_fails) t tt) = 1%Z.
Proof.
  intros t. pose proof (JfsCreateVol_mounts demo_cfg (stateless path_fails) demo_j "pvc-1" "pvc-1"
    (ee_secrets "") tt eq_refl eq_refl eq_refl eq_refl) as Hm.
  assert (result_of (stateless path_fails) t tt = Done (Some could_not_create)) as Hr
    by (vm_compute; reflexivity).
  split; [exact Hr|]. fold t in Hm. cbv zeta in Hm. rewrite Hr in Hm. by apply Hm.
Defined.

(** ** The CSI services *)

Definition demo_publish : NodePublishVolumeRequest :=
  MkPublishReq "pvc-1" demo_target (Some (MkCapability MULTI_NODE_MULTI_WRITER None)) false None
    (Some (ee_secrets "")).

Lemma NodePublishVolume_outcome_witness :
  let h := stateless (one_pod (demo_pod ∅)) in
  result_of h (NodePublishVolume demo_cfg demo_j demo_publish) tt = Done (Ok tt) ∧
  publish_outcome demo_cfg demo_publish (ee_secrets "")
    (result_of h (NodePublishVolume demo_cfg demo_j demo_publish) tt)
    (trace_of h (NodePublishVolume demo_cfg demo_j demo_publish) tt).
Proof.
  split; [vm_compute; reflexivity|].
  apply (NodePublishVolume_outcome demo_cfg demo_j (stateless (one_pod (demo_pod ∅))) tt).
  reflexivity.
Defined.

Definition demo_create : CreateVolumeRequest :=
  MkCreateReq "pvc-1" 1024 (Some [MkCapability SINGLE_NODE_WRITER None]) None
    (Some (ee_secrets "")).

Lemma CreateVolume_failed_validates_witness :
  let caps := [MkCapability SINGLE_NODE_WRITER None] in
  ∃ d' e e', exec (stateless path_fails) (CreateVolume demo_cfg demo_j demo_create ∅) tt
               = (Done (d', Err e), tt) ∧
    ValidateVolumeCapabilities "pvc-1" caps ∅ = Err e' ∧
    ValidateVolumeCapabilities "pvc-1" caps d' = Ok (Some caps).
Proof.
  intros caps. apply (CreateVolume_failed_validates demo_cfg demo_j (stateless path_fails)
    demo_create ∅ tt tt could_not_create (MkCapability SINGLE_NODE_WRITER None) []);
    [discriminate|reflexivity..|vm_compute; reflexivity].
Defined.

Lemma csi_operations_mutexes_witness :
  disciplined (trace_of (stateless plain) (CreateVolume demo_cfg demo_j demo_create ∅) tt) ∧
  disciplined (trace_of (stateless plain) (DeleteVolume demo_cfg demo_j "pvc-1" None ∅) tt) ∧
  disciplined (trace_of (stateless plain) (NodePublishVolume demo_cfg demo_j demo_publish) tt) ∧
  disciplined (trace_of (stateless plain) (NodeUnpublishVolume demo_cfg demo_j 2 "pvc-1" demo_target) tt).
Proof. apply (csi_operations_mutexes demo_cfg demo_j). Defined.

(** ** Refinement, over the store in memory *)

Definition demo_refs (w : world) : mount_state :=
  mount_state_of demo_cfg (λ w, filed (w_pods w)) demo_name w.

Lemma demo_world_pod p :
  filed (w_pods demo_world) !! ("kube-system", demo_name) = Some p → p = demo_pod demo_ref.
Proof.
  intros [Hp _]%map_lookup_filter_Some. simpl in Hp.
  rewrite lookup_singleton_eq in Hp. by injection Hp as <-.
Qed.

Lemma demo_world_state : demo_refs demo_world = Live demo_ref.
Proof. vm_compute. reflexivity. Qed.

Lemma AddRefOfMount_refines_example :
  ∃ r w', exec memory (AddRefOfMount demo_cfg "/other/target" demo_name) demo_world = (Done r, w') ∧
    r = None ∧ demo_refs w' = Live (spec_add "/other/target" demo_ref).
Proof.
  destruct (AddRefOfMount_refines demo_cfg memory (λ w, filed (w_pods w)) "/other/target"
              demo_name demo_world) as (r & w' & He & _ & Hs).
  change (mount_state_of _ _ _ demo_world) with (demo_refs demo_world) in Hs.
  rewrite demo_world_state in Hs. exists r, w'. split; [exact He|exact Hs].
Qed.

Lemma JUmount_refines_witness :
  ∃ w', exec memory (JUmount demo_cfg "pvc-1" demo_target) demo_world = (Done None, w') ∧
    spec_unmount demo_target (Live demo_ref) (demo_refs w').
Proof.
  destruct (JUmount_refines demo_cfg memory (λ w, filed (w_pods w)) "pvc-1" demo_target demo_world)
    as (w' & He & _ & Hs).
  - change (mount_state_of _ _ _ demo_world) with (demo_refs demo_world).
    rewrite demo_world_state. vm_compute. reflexivity.
  - change (mount_state_of _ _ _ demo_world) with (demo_refs demo_world) in Hs.
    rewrite demo_world_state in Hs. exists w'. split; [exact He|exact Hs].
Defined.

Lemma demo_new_pod s order g name :
  js_MountPodCpuLimit s = "" → js_MountPodMemLimit s = "" → js_MountPodCpuRequest s = "" →
  js_MountPodMemRequest s = "" → is_Some (getCommand s) →
  is_Some (NewMountPod demo_cfg s order g name).
Proof.
  intros H1 H2 H3 H4 [cmd Hcmd]. unfold NewMountPod, parsePodResources.
  rewrite H1, H2, H3, H4, Hcmd. simpl. destruct (getCacheDirVolumes cmd). eauto.
Qed.

Lemma createOrAddRef_refines_witness :
  ∃ s' w', exec memory (createOrAddRef demo_cfg demo_s) (World ∅ ∅ 0 1) = (Done (None, s'), w') ∧
    demo_refs w' = Live (<[GetReferenceKey demo_target := demo_target]> (base_annots demo_s)).
Proof.
  destruct (createOrAddRef_refines demo_cfg memory (λ w, filed (w_pods w)) demo_s (World ∅ ∅ 0 1))
    as (r & w' & He & _ & Hs).
  - intros order g. apply demo_new_pod; (reflexivity || by eexists).
  - destruct Hs as [-> Hs]. eexists. exists w'. split; [exact He|exact Hs].
Defined.

(** ** The builder *)

Definition demo_resources : resources := Resources (Some ∅) (Some ∅).

Lemma NewMountPod_declared_witness :
  ∃ p g', NewMountPod demo_cfg demo_s [] demo_resources demo_name = Some (p, g') ∧
    Forall (λ c, declared (ps_volumes (p_spec p)) (c_volumeMounts c)) (all_containers (p_spec p)).
Proof.
  do 2 eexists. split; [vm_compute; reflexivity|].
  eapply (NewMountPod_declared demo_cfg demo_s [] demo_resources demo_name).
  vm_compute. reflexivity.
Defined.

Lemma init_config_mounted_twice_witness :
  let s := with_InitConfig "{}" demo_s in
  ∃ p g' c, NewMountPod demo_cfg s [] demo_resources demo_name = Some (p, g') ∧
    c ∈ ps_containers (p_spec p) ∧ ¬ NoDup (vm_mountPath <$> c_volumeMounts c).
Proof.
  intros s. do 3 eexists. split; [vm_compute; reflexivity|]. split; [left|].
  eapply (init_config_mounted_twice demo_cfg s [] demo_resources demo_name).
  - discriminate.
  - vm_compute. reflexivity.
  - left.
Defined.

Lemma parsePodResources_leaks_witness :
  let s1 := with_MountPodCpuLimit "2" demo_s in
  ∃ r1 g1 r2 g2, parsePodResources s1 demo_resources = Some (r1, g1) ∧
    parsePodResources demo_s g1 = Some (r2, g2) ∧
    rd (r_limits r1) !! "cpu" = Some "2" ∧
    rd (r_limits r2) !! "cpu" = rd (r_limits r1) !! "cpu".
Proof.
  intros s1. do 4 eexists. split; [vm_compute; reflexivity|].
  split; [vm_compute; reflexivity|]. split; [vm_compute; reflexivity|].
  eapply (parsePodResources_leaks s1 demo_s demo_resources); [by eexists| | |];
    vm_compute; reflexivity.
Defined.


Lemma mount_path_roundtrip_witness :
  ∃ p g', NewMountPod demo_cfg demo_s [] demo_resources demo_name = Some (p, g') ∧
    GetMountPathOfPod p = Ok ("/jfs/pvc-1", "pvc-1").
Proof.
  do 2 eexists. split; [vm_compute; reflexivity|].
  eapply (mount_path_roundtrip demo_cfg demo_s [] demo_resources demo_name);
    try reflexivity; try constructor; reflexivity.
Defined.
