(* ===== verification/RunWitnesses.v ===== *)
(** * The hypotheses of the theorems on whole runs can hold

    The theorems on goroutines, on the reconciler's runs and on the start of the
    driver, applied to concrete systems over the API server in memory. *)

From stdpp Require Import relations.
From S2P Require Import Prelude GoStrings GoHash GoTime Kube Effects Threads Config Lib Client Endpoint Store Util Builder Mount PodMount PodMountSafety PodMountWait MountInfo Kubelet PodDriver Refs PodDriverSafety Lifecycle History PodDriverRecover ProcessMount Juicefs JuicefsProps Driver Server Main MainProps DriverProps Races RaceProps ConfigProps Witnesses Published.

#[local] Existing Instances demo_lib demo_laws demo_codec.

(** ** Goroutines *)

(** The API server in memory, on a node where nothing is mounted. *)
Definition unmounted : handler world := λ X e,
  match e in eff X return world → X * world with
  | EExec _ _ _ => λ w, (("not mounted", Some (Errorf "exit status 32")), w)
  | e => memory _ e
  end.

#[export] Instance unmounted_server : PodServer unmounted (λ w, filed (w_pods w)).
Proof.
  split.
  - intros ns n w p w'. apply (server_get (h := memory) (pods := λ w, filed (w_pods w))).
  - intros X e w key Hk. destruct e;
      try (apply (server_keeps (h := memory) (pods := λ w, filed (w_pods w))); exact Hk). done.
Qed.

(** One request to unpublish the only target of a mount pod, next to a reconciler that
    looks at the pod. *)
Definition demo_threads : list (prog unit) :=
  goroutines demo_cfg [[OpUnpublish 2 "pvc-1" demo_target]]
    [[OpCheck demo_mit (demo_pod demo_ref)]].

Definition demo_schedule : list nat := [0; 0; 0; 1; 0; 0; 0; 1; 0; 0].

Definition demo_system : system world :=
  schedule unmounted demo_schedule (start demo_world demo_threads).


(** ** The reconciler *)

(** A table that knows the pod of the target, and one that does not. *)
Definition live_mit : mountInfoTable := MkMit [] {["uid-1" := false]}.

Definition one_pod_world (p : pod) : world := World {[(p_namespace p, p_name p) := p]} ∅ 0 8.

Lemma one_pod_world_lookup p :
  filed (w_pods (one_pod_world p)) !! (p_namespace p, p_name p) = Some p.
Proof.
  unfold filed, one_pod_world. simpl. rewrite map_filter_singleton_True by done.
  apply lookup_singleton_eq.
Qed.

Lemma demo_live :
  bool_decide (live_refs live_mit (annots (demo_pod demo_ref)) = ∅) = false.
Proof. vm_compute. reflexivity. Qed.

Lemma demo_checked : checked_annots live_mit (annots (demo_pod demo_ref)) = demo_ref.
Proof. vm_compute. reflexivity. Qed.


(** The kubelet's report: the pod before it got its reference. *)
Lemma checkAnnotations_stale_view_witness :
  ∃ w', exec memory (checkAnnotations live_mit (demo_pod ∅)) demo_world =
          (Done (demo_pod ∅, None), w') ∧ spec_deleted demo_ref (demo_refs w').
Proof.
  destruct (checkAnnotations_stale_view demo_cfg memory (λ w, filed (w_pods w)) live_mit
              (demo_pod ∅) (demo_pod demo_ref) demo_name demo_world) as (w' & He & _ & Hs).
  - reflexivity.
  - reflexivity.
  - reflexivity.
  - vm_compute. reflexivity.
  - vm_compute. reflexivity.
  - apply (one_pod_world_lookup (demo_pod demo_ref)).
  - exists w'. split; [exact He|exact Hs].
Defined.

(** The report has the reference of a pod that is gone, at an older revision. *)
Definition old_target : string :=
  "/var/lib/kubelet/pods/uid-0/volumes/kubernetes.io~csi/pvc-1/mount".

Definition old_pod : pod :=
  let p := demo_pod {[GetReferenceKey old_target := old_target]} in
  Pod (ObjMeta (p_name p) (p_namespace p) "u1" "6" ∅ (p_annotations p) [Finalizer] None [])
      (p_spec p) (p_status p).

Lemma old_checked : size (checked_annots (MkMit [] ∅) (annots old_pod)) ≠ size (annots old_pod).
Proof. apply Nat.eqb_neq. vm_compute. reflexivity. Qed.

Lemma fresh_checked : checked_annots (MkMit [] ∅) (annots (demo_pod demo_ref)) = ∅.
Proof. vm_compute. reflexivity. Qed.

Lemma check_retry_old_table_witness :
  ∃ p1 w', exec memory (check_retry (MkMit [] ∅) old_pod) demo_world = (Done (p1, None), w') ∧
    spec_deleted ∅ (demo_refs w').
Proof.
  destruct (check_retry_old_table demo_cfg memory (λ w, filed (w_pods w)) (MkMit [] ∅) old_pod
              (demo_pod demo_ref) demo_name demo_world) as (p1 & w' & He & _ & _ & Hs).
  - apply (one_pod_world_lookup (demo_pod demo_ref)).
  - reflexivity.
  - reflexivity.
  - discriminate.
  - discriminate.
  - intros E. apply old_checked. rewrite E. reflexivity.
  - reflexivity.
  - vm_compute. reflexivity.
  - intros k t _. reflexivity.
  - rewrite fresh_checked in Hs. exists p1, w'. split; [exact He|exact Hs].
Defined.

(** The mount pod of [demo_s], as the builder makes it, while it is being deleted. *)
Definition deleting_pod : pod :=
  match NewMountPod demo_cfg demo_s [] demo_resources demo_name with
  | Some (p, _) =>
      Pod (ObjMeta demo_name "kube-system" "u1" "7" ∅ (Some demo_ref) [Finalizer] (Some 5%Z) [])
          (p_spec p) (p_status p)
  | None => demo_pod ∅
  end.


(** ** Histories *)

Definition other_s : JfsSetting := with_TargetPath old_target demo_s.

Definition demo_history : list vol_op :=
  [VMount demo_s; VMount other_s; VUnmount "pvc-1" demo_target; VUnmount "pvc-1" old_target].

Lemma demo_history_ok : Forall (op_ok demo_cfg) demo_history.
Proof.
  repeat constructor; (reflexivity || (intros order g; apply demo_new_pod; (reflexivity || by eexists))).
Qed.


(** ** The kubelet *)

(** An environment without variables; the other answers are plain. *)
Definition no_env : string → option string := λ _, None.

Lemma newKubeletClient_timeout_witness :
  ∃ kc, result_of (stateless plain) (newKubeletClient "10.0.0.1" 10250) tt = Done (Ok kc) ∧
    kc_timeout kc = (10 * second)%Z.
Proof.
  eexists. split; [vm_compute; reflexivity|].
  apply (newKubeletClient_timeout (stateless plain) "10.0.0.1" 10250 None _ tt tt).
  - intros w. reflexivity.
  - vm_compute. reflexivity.
Defined.

Lemma newKubeletClient_unverified_witness :
  ∃ cert key token tls,
    TLSConfigFor (MkTransportConfig "" "" cert "" key "" true token) = Ok tls ∧
    (token = "" ∨ cert = "" ∧ key = "").
Proof.
  destruct (newKubeletClient_unverified (stateless plain) "10.0.0.1" 10250 None
              (MkKubelet "10.0.0.1" 10250 10 10000000000) tt tt)
    as (cert & key & token & tls & rt & H1 & _ & _ & H2).
  - intros w. reflexivity.
  - vm_compute. reflexivity.
  - exists cert, key, token, tls. split; [exact H1|exact H2].
Defined.

(** A kubelet that answers null. *)
Definition null_kubelet (X : Set) (e : eff X) : X :=
  match e in eff X return X with EReadAll _ => Ok "null" | e' => plain _ e' end.

Lemma doReconcile_null_pods_witness :
  ∃ why w', exec (stateless null_kubelet) (doReconcile demo_cfg demo_kubelet 3 demo_mit) tt =
              (Panicked why, w').
Proof.
  apply (doReconcile_null_pods demo_cfg (stateless null_kubelet) tt demo_kubelet 2 demo_mit).
  intros X e w. destruct e; simpl; eauto.
Defined.

(** ** The start of the driver *)

Definition demo_build : Build := {|
  driverVersion := "0.10.7"; gitCommit := "c0ffee"; buildDate := "2021-11-01";
  runtime_Version := "go1.16"; runtime_Compiler := "gc";
  runtime_GOOS := "linux"; runtime_GOARCH := "amd64" |}.

#[local] Existing Instance demo_build.

(** The driver's pod is in a namespace of the cluster. *)
Definition pod_env_vars (name : string) : option string :=
  if String.eqb name "POD_NAME" then Some "juicefs-csi-node"
  else if String.eqb name "JUICEFS_MOUNT_NAMESPACE" then Some "kube-system"
  else None.

Definition in_cluster (own : res pod) (X : Set) (e : eff X) : X :=
  match e in eff X return X with
  | ELookupEnv name => pod_env_vars name
  | EPodGet _ _ => own
  | e' => plain _ e'
  end.

(** The driver's own pod. *)
Definition own_csi_pod : pod :=
  Pod (new_meta "juicefs-csi-node" "kube-system")
      (PodSpec [Container "juicefs-plugin" "juicedata/mount:v1" true [] [] [] []
                  (Resources None None) None None] [] [] "" "" "" ""
         (PodEnv false false false "" "" "" "" "" "")) empty_status.

Lemma init_paths_example :
  ∃ cfg, result_of (stateless (in_cluster (Ok own_csi_pod))) (init default_flags) tt =
           Done (Going cfg) ∧ MountPointPath cfg = "".
Proof.
  eexists. split; [vm_compute; reflexivity|].
  apply (init_paths (stateless (in_cluster (Ok own_csi_pod))) pod_env_vars default_flags _ tt tt).
  - intros name w. reflexivity.
  - reflexivity.
  - vm_compute. reflexivity.
Qed.

Lemma version_needs_pod_witness :
  ∃ w', exec (stateless plain)
          (main (MkFlags "unix://tmp/csi.sock" true "" false 5 false false)) tt = (Done fatal, w').
Proof.
  apply (version_needs_pod (stateless plain) no_env).
  - intros name w. reflexivity.
  - reflexivity.
  - reflexivity.
  - reflexivity.
Defined.

Lemma main_exits_zero_witness :
  ∃ w', exec (stateless (in_cluster (Err ApiNotFound))) (main default_flags) tt = (Done 0%Z, w').
Proof.
  apply (main_exits_zero (stateless (in_cluster (Err ApiNotFound))) pod_env_vars).
  - intros name w. reflexivity.
  - reflexivity.
  - discriminate.
  - discriminate.
  - intros X e w. destruct e; simpl; exact I.
Defined.

(** ** A node: the API server in memory and a set of mount points *)

Definition node_host : handler (world * gset string) := λ X e,
  match e in eff X return world * gset string → X * (world * gset string) with
  | EMount _ t _ _ => λ s, (None, (s.1, {[t]} ∪ s.2))
  | EUnmount t => λ s, (None, (s.1, s.2 ∖ {[t]}))
  | ECleanupMountPoint t => λ s, (None, (s.1, s.2 ∖ {[t]}))
  | EExec cmd args _ => λ s,
      if negb (String.eqb cmd "umount") then (("", None), s)
      else if decide (hd "" args ∈ s.2) then (("", None), (s.1, s.2 ∖ {[hd "" args]}))
      else (("not mounted", Some (Errorf "exit status 32")), s)
  | e => λ s, let r := memory _ e s.1 in (r.1, (r.2, s.2))
  end.

#[export] Instance node_host_mounts : MountHost node_host snd.
Proof.
  split.
  - intros X e w He. destruct e; try discriminate He; simpl; try set_solver.
    destruct (negb _); [done|]. case_decide; set_solver.
  - intros s t fs o w r w' [= <- <-]. set_solver.
  - intros p w w' [= <-]. set_solver.
Qed.

(** On requests about pods the node is its API server. *)
Lemma node_host_pods (X : Set) (e : eff X) s :
  filed (w_pods (node_host X e s).2.1) = filed (w_pods (memory X e s.1).2).
Proof. destruct e; try done. simpl. destruct (negb _); [done|]. by case_decide. Qed.

#[export] Instance node_host_server : PodServer node_host (λ s, filed (w_pods s.1)).
Proof.
  split.
  - intros ns n s p s' [= Hp _].
    apply (server_get (h := memory) (pods := λ w, filed (w_pods w)) ns n s.1 p s.1). simpl. by rewrite Hp.
  - intros X e s key Hk. rewrite node_host_pods.
    by apply (server_keeps (h := memory) (pods := λ w, filed (w_pods w))).
Qed.

#[export] Instance node_host_writer : PodWriter node_host (λ s, filed (w_pods s.1)).
Proof.
  split; [apply _|..].
  - intros ns n s e s' [= He _] Hnf.
    apply (writer_missing (h := memory) (pods := λ w, filed (w_pods w)) ns n s.1 e s.1); [|done].
    simpl. by rewrite He.
  - intros p s r s' [= <- <-]. exact (writer_create (h := memory) (pods := λ w, filed (w_pods w)) p s.1 _ _
      (surjective_pairing (memory _ (EPodCreate (p_namespace p) p) s.1))).
  - intros p s r s' [= <- <-]. exact (writer_update (h := memory) (pods := λ w, filed (w_pods w)) p s.1 _ _
      (surjective_pairing (memory _ (EPodUpdate (p_namespace p) p) s.1))).
  - intros ns n s r s' [= <- <-]. exact (writer_delete (h := memory) (pods := λ w, filed (w_pods w)) ns n s.1 _ _
      (surjective_pairing (memory _ (EPodDelete ns n) s.1))).
Qed.

Definition demo_targets : gset string := {[demo_target; old_target]}.

Definition demo_volume (t : string) : string := "pvc-1".

Definition other_publish : NodePublishVolumeRequest :=
  MkPublishReq "pvc-1" old_target (Some (MkCapability MULTI_NODE_MULTI_WRITER None)) false None
    (Some (ee_secrets "")).

(** The second target is published while the first is unpublished. *)
Definition demo_gs : list (list csi_op) :=
  [[OpPublish other_publish]; [OpUnpublish 2 "pvc-1" demo_target]].

Definition demo_owner (t : string) : nat := if String.eqb t old_target then 0 else 1.

(** The first target is published. *)
Definition demo_node : world * gset string := (demo_world, {[demo_target]}).

Lemma demo_keys t t' :
  t ∈ demo_targets → t' ∈ demo_targets → GetReferenceKey t = GetReferenceKey t' → t = t'.
Proof.
  assert (GetReferenceKey demo_target ≠ GetReferenceKey old_target) as Hne by by vm_compute.
  unfold demo_targets. rewrite !elem_of_union, !elem_of_singleton.
  intros [-> | ->] [-> | ->] E; try reflexivity; congruence.
Qed.

Lemma demo_node_sound :
  sound demo_cfg (λ s, filed (w_pods s.1)) snd demo_targets demo_volume demo_node.
Proof.
  assert (GetReferenceKey old_target ≠ GetReferenceKey demo_target) as Hne by by vm_compute.
  assert (mount_state_of demo_cfg (λ s : world * gset string, filed (w_pods s.1))
            (pod_of demo_cfg demo_volume demo_target) demo_node = Live demo_ref) as Hst
    by (vm_compute; reflexivity).
  intros t Ht. unfold demo_targets in Ht. rewrite elem_of_union, !elem_of_singleton in Ht.
  apply (target_live demo_cfg _ snd demo_volume t demo_ref).
  - destruct Ht as [-> | ->]; exact Hst.
  - intros Hin. change (t ∈ ({[demo_target]} : gset string)) in Hin.
    apply elem_of_singleton in Hin. subst t. apply lookup_singleton_eq.
  - intros v Hv. unfold demo_ref in Hv. apply lookup_singleton_Some in Hv as [E <-]. destruct Ht as [-> | ->]; [done|congruence].
Qed.

Lemma demo_in : demo_target ∈ demo_targets ∧ old_target ∈ demo_targets.
Proof. split; [by apply elem_of_union_l, elem_of_singleton|by apply elem_of_union_r, elem_of_singleton]. Qed.

Lemma demo_gs_node i os :
  demo_gs !! i = Some os → Forall (node_request demo_cfg demo_targets demo_volume demo_owner i) os.
Proof.
  destruct demo_in as [H1 H2]. destruct i as [|[|i]]; [..|done]; intros [= <-]; apply Forall_singleton.
  - split; [by split|]. split; [reflexivity|]. exists (ee_secrets ""). split; [reflexivity|].
    intros s t Hs _. assert (base_annots s = ∅) as ->; [|done]. revert Hs. vm_compute. by intros [= <-].
  - by split.
Qed.

(** The two goroutines in turn, until both have finished. *)
Definition demo_turns : list nat := concat (repeat [0; 1] 40).

Definition demo_run : system (world * gset string) :=
  schedule node_host demo_turns (start demo_node (csi_goroutine demo_cfg <$> demo_gs)).


